(* ===== verification/_CoqProject ===== *)
-Q . S2P
Prelude.v
PyData.v
Crypto.v
Models.v
Errors.v
Sql.v
Tx.v
Queries.v
QuerySpecs.v
Json.v
Events.v
Redis.v
Cache.v
World.v
Settings.v
AuthService.v
UserService.v
GroupService.v
MessagingService.v
DbInv.v
QueryStmts.v
Handlers.v
Instances.v
Samples.v
AuthProofs.v
AuthTheorems.v
TopN.v
MessagingTheorems.v
Pagination.v
GroupTheorems.v
UserTheorems.v
Atomicity.v
System.v
Dependencies.v
Authentication.v
WebSocket.v
JsonProofs.v
Registry.v
Interleaving.v
Delivery.v
WebSocketTheorems.v
Presence.v
PresenceTheorems.v
Schemas.v
Api.v
ApiTheorems.v
Ddl.v
Conformance.v
Transactions.v
Concurrency.v
StreamListener.v
Listeners.v
PubSub.v
Lifecycle.v
RequestLog.v
Logging.v
GroupRace.v
Integrity.v
Wiring.v
Refinement.v
EndToEnd.v
