(* ===== verification/Prelude.v ===== *)
(** * Distributed messaging engine: verification library (root file)

    The program under src/src is the backend of a messenger: an HTTP and
    WebSocket API (FastAPI) served by any number of worker processes that share
    a PostgreSQL database and a Redis server. This library translates it, layer
    by layer, into definitions that compute, and proves what callers rely on.

    ** The program and its parts

    - A worker authenticates a request (api/dependencies.py): bearer token,
      worker-local cache, then the tables. It calls a service (services/), which
      opens a database session (database/connection.py), runs query functions
      (database/queries.py) that send SQL (database/sql.py) and build dataclasses
      (database/models.py), translates errors (services/errors.py), and after
      the commit publishes events: cache invalidations on a Redis stream
      (redis/stream.py), pushes on a Pub/Sub channel (redis/pubsub.py).
    - Each worker runs two listeners: the stream's feeds [TokenCache], the
      channel's feeds [WebSocketManager], which routes to its local sockets
      (services/websocket.py). Presence is a Redis hash (redis/queries.py).
    - main.py starts and stops all this, and turns exceptions into responses.

    ** Files, from the ground up

    - Values: [Prelude] (outcomes of fallible code, lists, automation), [PyData]
      (strings, UUIDs, timestamps), [Json] and [JsonProofs] (json.dumps/loads).
    - Data: [Crypto] (crypto/: SHA-256 written out, URL-safe tokens, Argon2 as a
      class), [Models] (database/models.py, enums.py), [Errors]
      (database/errors.py, services/errors.py, redis/errors.py), [Settings].
    - Database: [Sql] (the eight tables as finite maps; each statement as what it
      does to them and what it locks), [Ddl] (the schema set-up), [Conformance]
      (the DDL read as a specification of the tables), [Tx] (a session body as a
      free monad over statements), [Queries], [QuerySpecs] (what each query
      function does), [QueryStmts] and [DbInv] (which statements the services can
      send, and the integrity they preserve).
    - Redis and cache: [Events], [Redis], [Cache].
    - Services: [World] (one worker: tables, faults ahead, Redis, cache, spawned
      tasks, clock ticks; [connection], [transaction], the decorators),
      [AuthService], [UserService], [GroupService], [MessagingService],
      [WebSocket]; [Handlers] lists their operations and lifts invariants of
      statements to operations.
    - API: [Dependencies], [Schemas], [Api].
    - Processes: [Interleaving] (coroutines of a worker as a step relation),
      [Presence] (workers and the shared hash), [Transactions] (sessions of all
      workers on one server under row locks, shared and exclusive),
      [Concurrency], [GroupRace] and [Integrity] (what holds under them),
      [StreamListener], [PubSub],
      [Lifecycle] (start-up, shut-down, connection managers), [Wiring] (which
      objects a worker and its services share), [RequestLog] and [Logging] (from
      a logged record to the line on the standard output).
    - [Instances] is one concrete platform and [Samples] a small database, on
      which the witnesses evaluate.

    A handler of the code is the definition of its name: [AuthService.refresh]
    is services/auth.py, [Api.GroupRouter.add_member] is api/routers/group.py.
    The body of an [async with db.transaction()] block is the definition with
    the suffix _tx. An [await] sequence is a monadic bind; [try]/[except] is a
    case on [outcome].

    ** What is assumed, and where

    Third-party code and services are classes: [Entropy] (uuid4, clocks,
    os.urandom), [RowOrder] (the order of unordered SELECTs), [PasswordHasher]
    (argon2), [RedisServer], [TTLCache] (cachetools), collected in [Platform];
    what their documentation promises are the law classes, collected in
    [PlatformLaws], which [Instances] discharges for one platform. XREAD,
    create_pool and the Pub/Sub client are arguments of the listeners' and
    managers' definitions. [healthy w] says that no driver error strikes: the
    theorems about exact outcomes have it, the safety theorems do not.

    ** What the theorems show

    - Credentials: rotation and reuse detection ([AuthTheorems]), revocation for
      ever ([System.revoked_forever]), at most one exchange under concurrency
      ([Concurrency.exchange_once]), what authentication accepts and how long a
      cache may lag ([Authentication]), logout reaching other workers and what
      each event of the stream does to a worker's cache ([Listeners]), the gate
      before every endpoint and what responses never contain ([ApiTheorems]).
    - Tables: every reachable database is sound ([System.reachable_sound]), which
      is what the DDL declares ([Conformance.stored_rows_typed]), and insertions
      and deletions do what it says ([Conformance.rows_follow_schema]). When the
      sessions of the workers interleave statement by statement the tables stay
      sound, by the locks foreign keys take ([Integrity.interleaved_integrity]),
      and a group keeps its creator ([GroupRace.creator_stays]); an
      error response leaves no trace ([ApiTheorems.error_response_no_trace], by
      [Atomicity]), unless the server carried out a COMMIT whose acknowledgement
      was lost: such commits are outcomes of [World.commit] and steps of
      [Transactions], and the theorems that do not assume [healthy] hold in their
      presence.
    - Social rules: exact behaviour of friendships, groups, messages and
      histories on every branch ([UserTheorems], [GroupTheorems],
      [MessagingTheorems], with [TopN] for one page of a history and
      [Pagination] for all of them), and the whole of it against an abstract
      specification ([Refinement]).
    - Delivery: registries under every interleaving, exact audiences of pushes
      ([WebSocketTheorems], by [Registry] and [Delivery]), presence
      ([PresenceTheorems]), both listener loops ([StreamListener], [PubSub]), and
      a message from the HTTP request on one worker to the sockets of all
      ([EndToEnd.message_end_to_end]).
    - Wire and life cycle: JSON round trip (a lemma), schema set-up with its
      statements failing and siblings setting up at the same time, start-up,
      shut-down from every state of the two listeners, what reaches the log
      ([Logging.logging_writes]), and why a worker is modelled with one cache,
      one Redis client and one registry ([Wiring.one_of_each]).
    - Limits of the code, as lemmas that name them: [replay_race_leaves_access],
      [startup_window], [logout_unknown_access], [second_socket_leaks],
      [cleanup_race], [failed_ping_counts_as_connected], [tied_message_unread],
      [json_format_unreachable], [startup_logs_password],
      [unacknowledged_commit_is_stored], [crossed_requests_refuse_friends],
      [sibling_race_fails_start].

    ** Bounds

    [loads] has fuel 2 + 2 * length, as each nested call consumes a character or
    moves from an element to its value ([loads_dumps] shows it is enough for
    what [dumps] writes); string scanning has fuel length + 1; SHA-256 recurses
    on its blocks. [DatabaseManager.connect] has the ten attempts of the code.
    Listener loops are functions of the list of replies or events they get.

    ** What is not modelled

    FastAPI's routing and pydantic's parsing (a route is a constructor, a body
    its record), CORS, uvicorn; the messages that the services log; timing other
    than the clocks read; deadlock detection except as a statement that fails;
    strings outside Latin-1; floats in JSON, which no payload has; a socket write
    is one attempted frame. tests/ and the top-level config/ are not part of the
    model. *)

From stdpp Require Export prelude strings gmap fin_maps sorting.
From Stdlib Require Export ZArith Lia.

(** ** Outcomes of fallible code

    A Python call either returns a value or raises an exception. *)
Inductive outcome (E A : Type) : Type :=
| Ok (a : A)
| Raise (e : E).
Arguments Ok {E A} a.
Arguments Raise {E A} e.

#[export] Instance outcome_eq_dec `{EqDecision E, EqDecision A} :
  EqDecision (outcome E A).
Proof. solve_decision. Defined.

Definition o_bind {E A B} (f : A → outcome E B) (m : outcome E A) : outcome E B :=
  match m with Ok a => f a | Raise e => Raise e end.
Definition o_map {E A B} (f : A → B) (m : outcome E A) : outcome E B :=
  match m with Ok a => Ok (f a) | Raise e => Raise e end.
(** [except ... as e: raise f(e)] *)
Definition reraise {E A} (f : E → E) (m : outcome E A) : outcome E A :=
  match m with Ok a => Ok a | Raise e => Raise (f e) end.
Definition is_ok {E A} (m : outcome E A) : bool :=
  match m with Ok _ => true | Raise _ => false end.

Lemma is_ok_true {E A} (m : outcome E A) : is_ok m = true ↔ ∃ a, m = Ok a.
Proof. split; [destruct m; [eauto|done]|by intros [a ->]]. Qed.

(** ** Automation

    [inv_pair] splits equations between pairs and outcomes, the shape every
    run of a handler has; [split_match] takes one case split that the goal or
    a hypothesis is stuck on. *)
Create HintDb py discriminated.

Ltac inv_pair :=
  repeat match goal with
  | H : (_, _) = (_, _) |- _ => apply pair_eq in H; destruct H; try subst
  | H : Ok _ = Ok _ |- _ => injection H; clear H; intros; try subst
  | H : Raise _ = Raise _ |- _ => injection H; clear H; intros; try subst
  | H : Ok _ = Raise _ |- _ => discriminate H
  | H : Raise _ = Ok _ |- _ => discriminate H
  | H : inl _ = inr _ |- _ => discriminate H
  | H : inr _ = inl _ |- _ => discriminate H
  | H : inl _ = inl _ |- _ => injection H; clear H; intros; try subst
  | H : inr _ = inr _ |- _ => injection H; clear H; intros; try subst
  end.

Ltac split_match :=
  match goal with
  | H : context [match ?x with _ => _ end] |- _ => destruct x eqn:?
  | |- context [match ?x with _ => _ end] => destruct x eqn:?
  end.

(** ** Lists and options shared by the components *)

(** [first_some f l] is the first result of [f] along [l]. *)
Fixpoint first_some {A B} (f : A → option B) (l : list A) : option B :=
  match l with
  | [] => None
  | x :: l => match f x with Some y => Some y | None => first_some f l end
  end.

(** A Python dict literal, latest binding first: [{**a, **b}] is [b ++ a]. *)
Definition assoc {K A} `{EqDecision K} (k : K) (l : list (K * A)) : option A :=
  first_some (λ p, if bool_decide (p.1 = k) then Some p.2 else None) l.

Lemma assoc_app {K A} `{EqDecision K} (k : K) (l1 l2 : list (K * A)) :
  assoc k (l1 ++ l2) = match assoc k l1 with Some x => Some x | None => assoc k l2 end.
Proof.
  unfold assoc. induction l1 as [|[k' x] l1 IH]; simpl; [done|].
  by case_bool_decide.
Qed.

Lemma assoc_keys {K A} `{EqDecision K} (k : K) (l : list (K * A)) :
  is_Some (assoc k l) ↔ k ∈ l.*1.
Proof.
  unfold assoc. induction l as [|[c v] l IH]; simpl.
  - rewrite elem_of_nil. split; [by intros [? ?]|done].
  - rewrite elem_of_cons. case_bool_decide as Hc; [subst; split; eauto|].
    rewrite IH. split; [auto|]. intros [->|?]; done.
Qed.

Lemma assoc_not_key {K A} `{EqDecision K} (k : K) (l : list (K * A)) :
  k ∉ l.*1 → assoc k l = None.
Proof. rewrite <-assoc_keys. apply eq_None_not_Some. Qed.

(** Lookups in a filtered list of rows: the head of a list all of whose
    elements agree. *)
Lemma head_Permutation_singleton {A} (l : list A) (x : A) :
  l ≡ₚ [x] → head l = Some x.
Proof. intros ->%Permutation_singleton_r. done. Qed.

(** A filter that keeps everything, or nothing. *)
Lemma filter_all {A} (P : A → Prop) `{∀ x, Decision (P x)} (l : list A) :
  Forall P l → filter P l = l.
Proof. induction 1 as [|x l Hx _ IH]; [done|]. rewrite filter_cons_True by done. by rewrite IH. Qed.
Lemma filter_none {A} (P : A → Prop) `{∀ x, Decision (P x)} (l : list A) :
  Forall (λ x, ¬ P x) l → filter P l = [].
Proof. induction 1 as [|x l Hx _ IH]; [done|]. by rewrite filter_cons_False. Qed.

Lemma filter_gmap_values_spec {K V} `{Countable K} (P : V → Prop)
  `{∀ x, Decision (P x)} (m : gmap K V) (v : V) :
  v ∈ filter P (map_to_list m).*2 ↔ P v ∧ ∃ k, m !! k = Some v.
Proof.
  rewrite list_elem_of_filter, list_elem_of_fmap. split.
  - intros [HP [[k w] [-> Hkw]]]. split; [done|]. exists k.
    by apply elem_of_map_to_list in Hkw.
  - intros [HP [k Hk]]. split; [done|]. exists (k, v). split; [done|].
    by apply elem_of_map_to_list.
Qed.

(** [alter] on a present and on an absent key. *)
Lemma alter_of_Some {K A} `{Countable K} (f : A → A) (m : gmap K A) k x :
  m !! k = Some x → alter f k m = <[k := f x]> m.
Proof.
  intros Hk. apply map_eq. intros j. rewrite lookup_alter, lookup_insert.
  destruct (decide (k = j)) as [->|]; [by rewrite Hk|done].
Qed.
Lemma alter_of_None {K A} `{Countable K} (f : A → A) (m : gmap K A) k :
  m !! k = None → alter f k m = m.
Proof.
  intros Hk. apply map_eq. intros j. rewrite lookup_alter.
  destruct (decide (k = j)) as [->|]; [by rewrite Hk|done].
Qed.

(** The members of a list mapped through a partial function. *)
Lemma elem_of_mapM_Some {A B} (f : A → option B) (l : list A) (k : list B) (y : B) :
  mapM f l = Some k → y ∈ k ↔ ∃ x, x ∈ l ∧ f x = Some y.
Proof.
  intros Hk%mapM_Some. induction Hk as [|x z l k Hx _ IH].
  - split; [by intros ?%not_elem_of_nil|by intros (? & ?%not_elem_of_nil & _)].
  - rewrite elem_of_cons, IH. setoid_rewrite elem_of_cons. split.
    + intros [->|(x' & Hx' & Hf)]; eauto.
    + intros (x' & [->|Hx'] & Hf); [left; congruence|eauto].
Qed.
