(* ===== verification/PyData.v ===== *)
(** * Python values the program passes around

    Strings (one [ascii] per code point, so Latin-1 text), UUIDs with their
    canonical text form, the values of a keyword-argument dictionary, and the
    microsecond timestamps of [datetime]. *)

From S2P Require Export Prelude.
From Stdlib Require Import Ascii.
Local Open Scope N_scope.

(** ** Characters *)

Abbreviation chars := (list ascii).
Definition to_chars (s : string) : chars := String.list_ascii_of_string s.
Definition of_chars (l : chars) : string := String.string_of_list_ascii l.

Lemma of_to_chars s : of_chars (to_chars s) = s.
Proof. apply String.string_of_list_ascii_of_string. Qed.
Lemma to_of_chars l : to_chars (of_chars l) = l.
Proof. apply String.list_ascii_of_string_of_list_ascii. Qed.

(** [str.lower] on the Latin-1 range the model represents. *)
Definition lower_ascii (c : ascii) : ascii :=
  let n := N_of_ascii c in
  if ((65 <=? n) && (n <=? 90)) || ((192 <=? n) && (n <=? 222) && negb (n =? 215))
  then ascii_of_N (n + 32) else c.
Definition str_lower (s : string) : string := of_chars (map lower_ascii (to_chars s)).

(** ** Decimal

    [str(n)] of an integer, and the digits read back. *)
Definition dec_digit (n : N) : ascii := ascii_of_N (48 + n).
Definition is_digit (c : ascii) : bool := let n := N_of_ascii c in (48 <=? n) && (n <=? 57).
Fixpoint digits (fuel : nat) (n : N) : chars :=
  match fuel with
  | O => []
  | S fuel => if n <? 10 then [dec_digit n] else digits fuel (n / 10) ++ [dec_digit (n mod 10)]
  end.
Definition dec_N (n : N) : chars := digits (S (N.to_nat (N.size n))) n.
Definition dec_Z (z : Z) : chars :=
  match z with Zneg p => "-"%char :: dec_N (Npos p) | _ => dec_N (Z.to_N z) end.
Definition of_digits (l : chars) : N := fold_left (λ a c, a * 10 + (N_of_ascii c - 48)) l 0.
Fixpoint span_digits (l : chars) : chars * chars :=
  match l with
  | c :: r => if is_digit c then let '(ds, r') := span_digits r in (c :: ds, r') else ([], l)
  | [] => ([], [])
  end.

Lemma dec_digit_val d : d < 10 → is_digit (dec_digit d) = true ∧ N_of_ascii (dec_digit d) - 48 = d.
Proof.
  intros Hd. assert (N_of_ascii (dec_digit d) = 48 + d) as Hn by (apply N_ascii_embedding; lia).
  unfold is_digit. rewrite Hn. split; [|lia]. apply andb_true_intro.
  split; apply N.leb_le; lia.
Qed.
Lemma digits_all fuel n : Forall (λ c, is_digit c = true) (digits fuel n).
Proof.
  revert n. induction fuel as [|fuel IH]; intros n; cbn [digits]; [constructor|].
  destruct (N.ltb_spec n 10).
  - constructor; [by apply dec_digit_val|constructor].
  - apply Forall_app. split; [done|]. constructor; [|constructor].
    apply dec_digit_val, N.mod_lt. lia.
Qed.
Lemma of_digits_app l c : of_digits (l ++ [c]) = of_digits l * 10 + (N_of_ascii c - 48).
Proof. unfold of_digits. by rewrite fold_left_app. Qed.
(** [2 ^ fuel] bounds the number; each step divides it by ten. *)
Lemma digits_spec fuel n :
  n < 2 ^ N.of_nat fuel → fuel ≠ O →
  of_digits (digits fuel n) = n ∧
  ∃ c l, digits fuel n = c :: l ∧ (N_of_ascii c = 48 → n = 0 ∧ l = []).
Proof.
  revert n. induction fuel as [|fuel IH]; intros n Hn Hf; [done|]. cbn [digits].
  destruct (N.ltb_spec n 10) as [Hlt|Hge].
  - pose proof (dec_digit_val n Hlt) as [_ Hv]. split; [exact Hv|].
    do 2 eexists. split; [done|]. intros H0. rewrite H0 in Hv. split; [lia|done].
  - rewrite Nat2N.inj_succ, N.pow_succ_r' in Hn.
    assert (n / 10 < 2 ^ N.of_nat fuel) as Hd by (apply N.Div0.div_lt_upper_bound; lia).
    assert (fuel ≠ O) as Hf' by (intros ->; cbn in Hn; lia).
    destruct (IH _ Hd Hf') as (Hof & c & l & Hcl & Hzero). split.
    + rewrite of_digits_app, Hof, (proj2 (dec_digit_val (n mod 10) ltac:(apply N.mod_lt; lia))).
      pose proof (N.div_mod n 10 ltac:(lia)). lia.
    + rewrite Hcl. do 2 eexists. split; [done|]. intros [H0 _]%Hzero.
      pose proof (N.div_mod n 10 ltac:(lia)). pose proof (N.mod_lt n 10 ltac:(lia)). lia.
Qed.
Lemma dec_N_spec n :
  of_digits (dec_N n) = n ∧ ∃ c l, dec_N n = c :: l ∧ (N_of_ascii c = 48 → n = 0 ∧ l = []).
Proof.
  apply digits_spec; [|done]. rewrite Nat2N.inj_succ, N2Nat.id, N.pow_succ_r'.
  pose proof (N.size_gt n). lia.
Qed.
Lemma span_digits_app l r :
  Forall (λ c, is_digit c = true) l → (∀ c r', r = c :: r' → is_digit c = false) →
  span_digits (l ++ r) = (l, r).
Proof.
  intros Hl Hr. induction Hl as [|c l Hc _ IH]; cbn.
  - destruct r as [|c r]; [done|]. cbn. by rewrite (Hr c r).
  - by rewrite Hc, IH.
Qed.

(** ** Hexadecimal *)

Definition hex_digit (n : N) : ascii :=
  ascii_of_N (if n <? 10 then 48 + n else 87 + n).
Definition hex_val (c : ascii) : option N :=
  let n := N_of_ascii c in
  if (48 <=? n) && (n <=? 57) then Some (n - 48)
  else if (97 <=? n) && (n <=? 102) then Some (n - 87)
  else if (65 <=? n) && (n <=? 70) then Some (n - 55)
  else None.

(** The [k] low base-16 digits of [n], most significant first. *)
Fixpoint nibbles (k : nat) (n : N) : list N :=
  match k with
  | O => []
  | S k => nibbles k (n / 16) ++ [n mod 16]
  end.
Definition of_nibbles (l : list N) : N := fold_left (λ a d, a * 16 + d) l 0.

Lemma length_nibbles k n : length (nibbles k n) = k.
Proof. revert n. induction k as [|k IH]; intros n; simpl; [done|]. rewrite length_app, IH. simpl. lia. Qed.

Lemma nibbles_lt16 k n : Forall (λ d, d < 16) (nibbles k n).
Proof.
  revert n. induction k as [|k IH]; intros n; simpl; [constructor|].
  apply Forall_app. split; [apply IH|]. constructor; [|constructor].
  apply N.mod_lt. lia.
Qed.

Lemma of_nibbles_app l d : of_nibbles (l ++ [d]) = of_nibbles l * 16 + d.
Proof. unfold of_nibbles. by rewrite fold_left_app. Qed.

Lemma of_nibbles_nibbles k n : of_nibbles (nibbles k n) = n mod 16 ^ N.of_nat k.
Proof.
  revert n. induction k as [|k IH]; intros n.
  - simpl. by rewrite N.mod_1_r.
  - cbn [nibbles]. rewrite of_nibbles_app, IH.
    replace (16 ^ N.of_nat (S k)) with (16 * 16 ^ N.of_nat k)
      by (rewrite Nat2N.inj_succ, N.pow_succ_r'; lia).
    rewrite N.Div0.mod_mul_r. lia.
Qed.

Lemma hex_val_digit d : d < 16 → hex_val (hex_digit d) = Some d.
Proof.
  intros Hd. assert (d = 0 ∨ d = 1 ∨ d = 2 ∨ d = 3 ∨ d = 4 ∨ d = 5 ∨ d = 6 ∨ d = 7 ∨ d = 8
    ∨ d = 9 ∨ d = 10 ∨ d = 11 ∨ d = 12 ∨ d = 13 ∨ d = 14 ∨ d = 15) as H by lia.
  destruct_or! H; subst; reflexivity.
Qed.

Lemma mapM_hex_val l : Forall (λ d, d < 16) l → mapM hex_val (map hex_digit l) = Some l.
Proof.
  induction 1 as [|d l Hd _ IH]; [done|].
  simpl. rewrite (hex_val_digit _ Hd). simpl in *. by rewrite IH.
Qed.

(** ** UUIDs: 128-bit integers *)

Definition uuid_limit : N := 2 ^ 128.
Record UUID := MkUUID { uuid_int : N; uuid_ok : (uuid_int <? uuid_limit) = true }.

Definition uuid_of (n : N) : UUID :=
  let m := n mod uuid_limit in
  match (m <? uuid_limit) as b return (m <? uuid_limit) = b → UUID with
  | true => λ H, MkUUID m H
  | false => λ _, MkUUID 0 eq_refl
  end eq_refl.

Lemma uuid_eq (u v : UUID) : uuid_int u = uuid_int v → u = v.
Proof.
  destruct u as [n Hn], v as [m Hm]. simpl. intros ->. f_equal.
  apply (Eqdep_dec.UIP_dec bool_dec).
Qed.

Lemma uuid_int_of n : uuid_int (uuid_of n) = n mod uuid_limit.
Proof.
  unfold uuid_of. generalize (eq_refl (n mod uuid_limit <? uuid_limit)).
  generalize (n mod uuid_limit <? uuid_limit) at 2 3. intros [] H; [done|]. exfalso.
  apply N.ltb_ge in H. pose proof (N.mod_lt n uuid_limit). unfold uuid_limit in *. lia.
Qed.

Lemma uuid_int_lt u : uuid_int u < uuid_limit.
Proof. destruct u as [n Hn]. by apply N.ltb_lt. Qed.

Lemma uuid_of_int u : uuid_of (uuid_int u) = u.
Proof. apply uuid_eq. rewrite uuid_int_of. apply N.mod_small, uuid_int_lt. Qed.

#[export] Instance UUID_eq_dec : EqDecision UUID.
Proof.
  refine (λ u v, cast_if (decide (uuid_int u = uuid_int v))); [by apply uuid_eq|congruence].
Defined.
#[export] Instance UUID_countable : Countable UUID :=
  inj_countable' uuid_int uuid_of uuid_of_int.
#[export] Instance UUID_inhabited : Inhabited UUID := populate (uuid_of 0).

(** [str(u)]: 32 lower-case hex digits, dashed 8-4-4-4-12. *)
Definition dashed (l : chars) : chars :=
  take 8 l ++ ["-"%char] ++ take 4 (drop 8 l) ++ ["-"%char] ++ take 4 (drop 12 l) ++
  ["-"%char] ++ take 4 (drop 16 l) ++ ["-"%char] ++ drop 20 l.
Definition str_uuid (u : UUID) : string :=
  of_chars (dashed (map hex_digit (nibbles 32 (uuid_int u)))).

(** [UUID(s)]: dashes dropped, exactly 32 hex digits required, [ValueError]
    ([None]) otherwise. The [urn:uuid:] and braced spellings, which the program
    never produces, are not represented. *)
Definition parse_uuid (s : string) : option UUID :=
  let l := filter (λ c, c ≠ "-"%char) (to_chars s) in
  if bool_decide (length l = 32%nat)
  then (λ ds, uuid_of (of_nibbles ds)) <$> mapM hex_val l
  else None.

Lemma hex_digit_not_dash d : d < 16 → hex_digit d ≠ "-"%char.
Proof. intros Hd Heq. apply hex_val_digit in Hd. rewrite Heq in Hd. discriminate. Qed.

Lemma filter_no_dash (l : chars) :
  Forall (λ c, c ≠ "-"%char) l → filter (λ c, c ≠ "-"%char) l = l.
Proof.
  induction 1 as [|c l Hc Hl IH]; [done|].
  rewrite filter_cons_True by done. by rewrite IH.
Qed.

Lemma take_drop_step (l : chars) k n m :
  m = (k + n)%nat → take n (drop k l) ++ drop m l = drop k l.
Proof. intros ->. rewrite <-drop_drop. apply take_drop. Qed.

Lemma filter_dashed (l : chars) :
  Forall (λ c, c ≠ "-"%char) l → filter (λ c, c ≠ "-"%char) (dashed l) = l.
Proof.
  intros Hl. unfold dashed. rewrite !filter_app.
  assert (filter (λ c, c ≠ "-"%char) ["-"%char] = []) as -> by reflexivity.
  rewrite !filter_no_dash by auto using Forall_take, Forall_drop. simpl.
  rewrite (take_drop_step l 16 4 20), (take_drop_step l 12 4 16),
    (take_drop_step l 8 4 12) by done.
  apply take_drop.
Qed.

Lemma parse_str_uuid u : parse_uuid (str_uuid u) = Some u.
Proof.
  unfold parse_uuid, str_uuid. rewrite to_of_chars, filter_dashed.
  - rewrite length_map, length_nibbles, bool_decide_eq_true_2 by done.
    rewrite mapM_hex_val by apply nibbles_lt16. cbn [fmap option_fmap option_map]. f_equal.
    rewrite of_nibbles_nibbles, N.mod_small; [apply uuid_of_int|].
    apply uuid_int_lt.
  - apply Forall_map, (Forall_impl _ _ _ (nibbles_lt16 _ _)).
    intros d Hd. by apply hex_digit_not_dash.
Qed.

#[export] Instance str_uuid_inj : Inj (=) (=) str_uuid.
Proof. intros u v H. apply (f_equal parse_uuid) in H. rewrite !parse_str_uuid in H. congruence. Qed.

(** ** Timestamps

    A [datetime] is UTC microseconds since the epoch, the resolution both
    Python and PostgreSQL's TIMESTAMPTZ keep. *)
Abbreviation timestamp := Z.
Definition seconds (n : Z) : Z := (n * 1000000)%Z.

(** ** Keyword arguments

    The values a [**kwargs] dictionary of this program can hold. [PObj] stands
    for an exception object, of which only the identity is ever used. *)
Inductive pyval :=
| PNone
| PStr (s : string)
| PUuid (u : UUID)
| PObj.
#[export] Instance pyval_eq_dec : EqDecision pyval.
Proof. solve_decision. Defined.

Abbreviation kwargs := (list (string * pyval)).

(** [kw.get(k, default)] and truthiness, as [a or b] uses it. *)
Definition kw_get (k : string) (dflt : pyval) (kw : kwargs) : pyval :=
  default dflt (assoc k kw).
Definition truthy (v : pyval) : bool :=
  match v with PNone => false | PStr s => negb (bool_decide (s = EmptyString)) | _ => true end.
Definition py_or (a b : pyval) : pyval := if truthy a then a else b.

(** [str(v)], as an f-string renders it. *)
Definition str_pyval (v : pyval) : string :=
  match v with
  | PNone => "None"
  | PStr s => s
  | PUuid u => str_uuid u
  | PObj => "<object>"
  end.

#[global] Arguments str_uuid : simpl never.
#[global] Arguments parse_uuid : simpl never.
