(* ===== verification/Crypto.v ===== *)
(** * Tokens and passwords (crypto/tokens.py, crypto/passwords.py)

    [hash_token] is SHA-256 over the UTF-8 bytes of the token, in hex: the hash
    function of hashlib is written out on 32-bit words kept in [N].
    [generate_raw_token] is the unpadded URL-safe base64 text of random bytes.
    Argon2 is a third-party package: a class of functions, of which the three
    operations of passwords.py are clients. *)

From S2P Require Export PyData.
From Stdlib Require Import Ascii.
Local Open Scope N_scope.

(** ** SHA-256 *)

Definition w32 (x : N) : N := x mod 2 ^ 32.
Definition add32 (x y : N) : N := w32 (x + y).
Definition rotr (n x : N) : N := N.lor (N.shiftr x n) (w32 (N.shiftl x (32 - n))).
Definition ch (x y z : N) : N := N.lxor (N.land x y) (N.land (N.lxor x 4294967295) z).
Definition maj (x y z : N) : N := N.lxor (N.lxor (N.land x y) (N.land x z)) (N.land y z).
Definition bsig0 (x : N) : N := N.lxor (N.lxor (rotr 2 x) (rotr 13 x)) (rotr 22 x).
Definition bsig1 (x : N) : N := N.lxor (N.lxor (rotr 6 x) (rotr 11 x)) (rotr 25 x).
Definition ssig0 (x : N) : N := N.lxor (N.lxor (rotr 7 x) (rotr 18 x)) (N.shiftr x 3).
Definition ssig1 (x : N) : N := N.lxor (N.lxor (rotr 17 x) (rotr 19 x)) (N.shiftr x 10).

(** The constants are defined as the standard defines them: the first 32 bits of
    the fractional parts of the roots of the first primes. *)
Definition is_prime (p : N) : bool :=
  forallb (λ d, negb (p mod d =? 0)) (map N.of_nat (seq 2 (N.to_nat p - 2))).
Definition sha_primes : list N := Eval vm_compute in
  List.filter is_prime (map N.of_nat (seq 2 310)).
(** The [e]-th root of [n], rounded down, from its [k] low bits. *)
Fixpoint root_bits (k : nat) (e n acc : N) : N :=
  match k with
  | O => acc
  | S k => let acc' := acc + 2 ^ N.of_nat k in
           root_bits k e n (if acc' ^ e <=? n then acc' else acc)
  end.
Definition fraction_of_root (e p : N) : N := w32 (root_bits 37 e (p * 2 ^ (32 * e)) 0).
Definition sha_k : list N := Eval vm_compute in map (fraction_of_root 3) sha_primes.

Record digest := Digest { dg_a : N; dg_b : N; dg_c : N; dg_d : N;
                          dg_e : N; dg_f : N; dg_g : N; dg_h : N }.
Definition sha_init : digest := Eval vm_compute in
  let h i := fraction_of_root 2 (nth i sha_primes 0) in
  Digest (h 0%nat) (h 1%nat) (h 2%nat) (h 3%nat) (h 4%nat) (h 5%nat) (h 6%nat) (h 7%nat).

(** The message schedule, most recent word first. *)
Fixpoint schedule (n : nat) (ws : list N) : list N :=
  match n with
  | O => ws
  | S n =>
      let at_ i := nth i ws 0 in
      schedule n (add32 (add32 (ssig1 (at_ 1%nat)) (at_ 6%nat))
                        (add32 (ssig0 (at_ 14%nat)) (at_ 15%nat)) :: ws)
  end.

Definition sha_round (d : digest) (kw : N * N) : digest :=
  let t1 := add32 (add32 (add32 (dg_h d) (bsig1 (dg_e d)))
                         (add32 (ch (dg_e d) (dg_f d) (dg_g d)) kw.1)) kw.2 in
  let t2 := add32 (bsig0 (dg_a d)) (maj (dg_a d) (dg_b d) (dg_c d)) in
  Digest (add32 t1 t2) (dg_a d) (dg_b d) (dg_c d)
         (add32 (dg_d d) t1) (dg_e d) (dg_f d) (dg_g d).

Definition sha_block (d : digest) (block : list N) : digest :=
  let r := fold_left sha_round (combine sha_k (rev (schedule 48 (rev block)))) d in
  Digest (add32 (dg_a d) (dg_a r)) (add32 (dg_b d) (dg_b r))
         (add32 (dg_c d) (dg_c r)) (add32 (dg_d d) (dg_d r))
         (add32 (dg_e d) (dg_e r)) (add32 (dg_f d) (dg_f r))
         (add32 (dg_g d) (dg_g r)) (add32 (dg_h d) (dg_h r)).

Fixpoint words_of (l : list N) : list N :=
  match l with
  | a :: b :: c :: d :: l => ((a * 256 + b) * 256 + c) * 256 + d :: words_of l
  | _ => []
  end.

Fixpoint sha_blocks (fuel : nat) (d : digest) (ws : list N) : digest :=
  match fuel, ws with
  | S fuel, _ :: _ => sha_blocks fuel (sha_block d (take 16 ws)) (drop 16 ws)
  | _, _ => d
  end.

Fixpoint be_bytes (k : nat) (n : N) : list N :=
  match k with O => [] | S k => be_bytes k (n / 256) ++ [n mod 256] end.

Definition sha_pad (m : list N) : list N :=
  let l := length m in
  m ++ [128] ++ replicate ((119 - l mod 64) mod 64)%nat 0 ++ be_bytes 8 (8 * N.of_nat l).

Definition sha256 (m : list N) : digest :=
  let ws := words_of (sha_pad m) in sha_blocks (length ws) sha_init ws.

Definition digest_words (d : digest) : list N :=
  [dg_a d; dg_b d; dg_c d; dg_d d; dg_e d; dg_f d; dg_g d; dg_h d].
Definition hexdigest (d : digest) : string :=
  of_chars (map hex_digit (mjoin (map (nibbles 8) (digest_words d)))).

(** [str.encode("utf-8")] on Latin-1 text. *)
Definition utf8 (s : string) : list N :=
  mjoin (map (λ c, let n := N_of_ascii c in
                   if n <? 128 then [n] else [192 + n / 64; 128 + n mod 64]) (to_chars s)).

Definition hash_token (token : string) : string := hexdigest (sha256 (utf8 token)).

(** The test vector of the standard. *)
Example hash_token_abc :
  hash_token "abc" = "ba7816bf8f01cfea414140de5dae2223b00361a396177a9cb410ff61f20015ad".
Proof. vm_compute. reflexivity. Qed.

(** ** Raw tokens *)

Definition b64_digit (n : N) : ascii :=
  ascii_of_N (if n <? 26 then 65 + n else if n <? 52 then 71 + n
              else if n <? 62 then n - 4 else if n =? 62 then 45 else 95).
Definition b64_val (c : ascii) : option N :=
  let n := N_of_ascii c in
  if (65 <=? n) && (n <=? 90) then Some (n - 65)
  else if (97 <=? n) && (n <=? 122) then Some (n - 71)
  else if (48 <=? n) && (n <=? 57) then Some (n + 4)
  else if n =? 45 then Some 62 else if n =? 95 then Some 63 else None.

(** The sextets of a byte string, three bytes to four, the tail without the
    padding that [secrets.token_urlsafe] strips. *)
Fixpoint sextets (l : list N) : list N :=
  match l with
  | a :: b :: c :: l =>
      a / 4 :: (a mod 4) * 16 + b / 16 :: (b mod 16) * 4 + c / 64 :: c mod 64 :: sextets l
  | [a; b] => [a / 4; (a mod 4) * 16 + b / 16; (b mod 16) * 4]
  | [a] => [a / 4; (a mod 4) * 16]
  | [] => []
  end.
Fixpoint unsextets (l : list N) : list N :=
  match l with
  | p :: q :: r :: s :: l =>
      p * 4 + q / 16 :: (q mod 16) * 16 + r / 4 :: (r mod 4) * 64 + s :: unsextets l
  | [p; q; r] => [p * 4 + q / 16; (q mod 16) * 16 + r / 4]
  | [p; q] => [p * 4 + q / 16]
  | _ => []
  end.

Definition token_urlsafe (bytes : list N) : string := of_chars (map b64_digit (sextets bytes)).

(** [generate_raw_token(nbytes=32)]: [rand n] is what the operating system's
    generator returns for a request of [n] bytes. *)
Definition generate_raw_token (rand : nat → list N) : string := token_urlsafe (rand 32%nat).

(** ** Passwords *)

Inductive argon2_error := VerifyMismatchError | InvalidHashError | OtherVerificationError.
#[export] Instance argon2_error_eq_dec : EqDecision argon2_error.
Proof. solve_decision. Defined.

(** The [PasswordHasher] object of argon2-cffi: [hash] takes the salt it draws. *)
Class PasswordHasher := {
  argon2_hash : list N → string → string;
  argon2_verify : string → string → outcome argon2_error bool;
  argon2_check_needs_rehash : string → outcome argon2_error bool;
}.
(** What its documentation promises of fresh hashes. *)
Class PasswordHasherLaws `{PasswordHasher} : Prop := {
  argon2_verify_hash salt pw : argon2_verify (argon2_hash salt pw) pw = Ok true;
  argon2_fresh salt pw : argon2_check_needs_rehash (argon2_hash salt pw) = Ok false;
}.

Section passwords.
Context `{PasswordHasher}.

Definition hash_password (salt : list N) (password : string) : string :=
  argon2_hash salt password.

Definition verify_password (password hashed_password : string) : outcome argon2_error bool :=
  match argon2_verify hashed_password password with
  | Raise VerifyMismatchError | Raise InvalidHashError => Ok false
  | r => r
  end.

Definition needs_rehash (hashed_password : string) : outcome argon2_error bool :=
  match argon2_check_needs_rehash hashed_password with
  | Raise InvalidHashError => Ok false
  | r => r
  end.

End passwords.

(** ** Lemmas *)

Definition is_hex (c : ascii) : Prop := ∃ d, d < 16 ∧ c = hex_digit d.

Lemma length_digest_nibbles d : length (mjoin (map (nibbles 8) (digest_words d))) = 64%nat.
Proof. by destruct d. Qed.

Lemma hexdigest_spec d :
  length (to_chars (hexdigest d)) = 64%nat ∧ Forall is_hex (to_chars (hexdigest d)).
Proof.
  unfold hexdigest. rewrite to_of_chars. split.
  - by rewrite length_map, length_digest_nibbles.
  - apply Forall_map, Forall_join, Forall_map, Forall_true. intros w.
    eapply Forall_impl; [apply (nibbles_lt16 8)|]. intros x Hx. by exists x.
Qed.

Lemma b64_val_digit d : d < 64 → b64_val (b64_digit d) = Some d.
Proof.
  intros Hd.
  assert (Forall (λ d, b64_val (b64_digit d) = Some d) (N.of_nat <$> seq 0 64)) as Hall.
  { apply (bool_decide_unpack _). vm_compute. done. }
  rewrite Forall_forall in Hall. apply Hall, list_elem_of_fmap.
  exists (N.to_nat d). split; [lia|]. apply elem_of_seq. lia.
Qed.

(** [lia] with division and remainder by constants, from here on. *)
Local Ltac Zify.zify_post_hook ::= Z.to_euclidean_division_equations.

Abbreviation bytes l := (Forall (λ b : N, b < 256) l).

(** Induction three elements at a time, the recursion of [sextets]. *)
Lemma list_ind3 {A} (P : list A → Prop) :
  P [] → (∀ a, P [a]) → (∀ a b, P [a; b]) →
  (∀ a b c l, P l → P (a :: b :: c :: l)) → ∀ l, P l.
Proof.
  intros H0 H1 H2 H3. fix IH 1. intros [|a [|b [|c l]]]; [done|apply H1|apply H2|].
  apply H3, IH.
Qed.

Lemma sextets_lt l : bytes l → Forall (λ d, d < 64) (sextets l).
Proof.
  induction l as [|a|a b|a b c l IH] using list_ind3; intros Hl; simpl;
    repeat match goal with H : Forall _ (_ :: _) |- _ => apply Forall_cons in H as [? ?] end.
  - constructor.
  - rewrite !Forall_cons. repeat split; [lia|lia|constructor].
  - rewrite !Forall_cons. repeat split; [lia|lia|lia|constructor].
  - rewrite !Forall_cons. repeat split; [lia|lia|lia|lia|auto].
Qed.

Lemma unsextets_sextets l : bytes l → unsextets (sextets l) = l.
Proof.
  induction l as [|a|a b|a b c l IH] using list_ind3; intros Hl; simpl;
    repeat match goal with H : Forall _ (_ :: _) |- _ => apply Forall_cons in H as [? ?] end.
  - done.
  - f_equal. lia.
  - repeat f_equal; lia.
  - rewrite IH by done. repeat f_equal; lia.
Qed.

Lemma mapM_b64_val l : Forall (λ d, d < 64) l → mapM b64_val (map b64_digit l) = Some l.
Proof.
  induction 1 as [|d l Hd _ IH]; [done|].
  simpl. rewrite (b64_val_digit _ Hd). simpl in *. by rewrite IH.
Qed.

Lemma length_sextets32 l : length l = 32%nat → length (sextets l) = 43%nat.
Proof.
  intros Hl. do 33 (destruct l as [|? l]; [try discriminate Hl|]); [reflexivity|discriminate Hl].
Qed.

Lemma token_urlsafe_inj l1 l2 :
  bytes l1 → bytes l2 → token_urlsafe l1 = token_urlsafe l2 → l1 = l2.
Proof.
  unfold token_urlsafe. intros H1 H2 Heq.
  apply (f_equal to_chars) in Heq. rewrite !to_of_chars in Heq.
  apply (f_equal (mapM b64_val)) in Heq.
  rewrite !mapM_b64_val in Heq by auto using sextets_lt. injection Heq as Heq.
  by rewrite <-(unsextets_sextets l1), <-(unsextets_sextets l2), Heq.
Qed.

#[global] Arguments hash_token : simpl never.
#[global] Arguments generate_raw_token : simpl never.
