(* ===== verification/Models.v ===== *)
(** * Schema names and database models (database/enums.py, database/models.py)

    The StrEnums the queries and the error translation use, the dataclasses of
    the eight tables, and the [DBModel] base class: its reflective conversions
    between instances, positional SQL arguments and driver records. *)

From S2P Require Export PyData.

(** ** StrEnums *)

Inductive Entity :=
| USER | ACCESS_TOKEN | REFRESH_TOKEN | FRIENDSHIP | GROUP | MEMBERSHIP
| DIRECT_MESSAGE | GROUP_MESSAGE.
#[export] Instance Entity_eq_dec : EqDecision Entity.
Proof. solve_decision. Defined.

Definition Entity_value (e : Entity) : string :=
  match e with
  | USER => "user" | ACCESS_TOKEN => "access_token" | REFRESH_TOKEN => "refresh_token"
  | FRIENDSHIP => "friendship" | GROUP => "group" | MEMBERSHIP => "membership"
  | DIRECT_MESSAGE => "direct_message" | GROUP_MESSAGE => "group_message"
  end.

(** Command completion tags; the driver's text ["UPDATE 0"] is [TagUpdate 0]. *)
Inductive CommandTag :=
| TagSelect (n : nat) | TagInsert (n : nat) | TagUpdate (n : nat) | TagDelete (n : nat).
#[export] Instance CommandTag_eq_dec : EqDecision CommandTag.
Proof. solve_decision. Defined.
Definition UPDATE_ZERO : CommandTag := TagUpdate 0.
Definition DELETE_ZERO : CommandTag := TagDelete 0.
(** [int(status.split(" ")[1])] *)
Definition tag_count (t : CommandTag) : nat :=
  match t with TagSelect n | TagInsert n | TagUpdate n | TagDelete n => n end.

Inductive IsolationLevel := READ_COMMITTED | REPEATABLE_READ | SERIALIZABLE.

Inductive Constraint :=
| PK_USERS | UQ_USERS_USERNAME
| PK_FRIENDSHIPS | FK_FRIENDSHIPS_REQUESTER_ID | FK_FRIENDSHIPS_ADDRESSEE_ID
| PK_ACCESS_TOKENS | FK_ACCESS_TOKENS_USER_ID
| PK_REFRESH_TOKENS | FK_REFRESH_TOKENS_USER_ID
| PK_GROUPS | UQ_GROUPS_CREATED_BY_NAME | FK_GROUPS_CREATED_BY
| PK_MEMBERSHIPS | FK_MEMBERSHIPS_GROUP_ID | FK_MEMBERSHIPS_USER_ID
| PK_DIRECT_MESSAGES | FK_DM_SENDER_ID | FK_DM_RECIPIENT_ID
| PK_GROUP_MESSAGES | FK_GROUP_MESSAGES_GROUP_ID | FK_GROUP_MESSAGES_SENDER_ID.
#[export] Instance Constraint_eq_dec : EqDecision Constraint.
Proof. solve_decision. Defined.

Definition Constraint_value (c : Constraint) : string :=
  match c with
  | PK_USERS => "pk_users"
  | UQ_USERS_USERNAME => "uq_users_username"
  | PK_FRIENDSHIPS => "pk_friendships"
  | FK_FRIENDSHIPS_REQUESTER_ID => "fk_friendships_requester_id"
  | FK_FRIENDSHIPS_ADDRESSEE_ID => "fk_friendships_addressee_id"
  | PK_ACCESS_TOKENS => "pk_access_tokens"
  | FK_ACCESS_TOKENS_USER_ID => "fk_access_tokens_user_id"
  | PK_REFRESH_TOKENS => "pk_refresh_tokens"
  | FK_REFRESH_TOKENS_USER_ID => "fk_refresh_tokens_user_id"
  | PK_GROUPS => "pk_groups"
  | UQ_GROUPS_CREATED_BY_NAME => "uq_groups_created_by_name"
  | FK_GROUPS_CREATED_BY => "fk_groups_created_by"
  | PK_MEMBERSHIPS => "pk_memberships"
  | FK_MEMBERSHIPS_GROUP_ID => "fk_memberships_group_id"
  | FK_MEMBERSHIPS_USER_ID => "fk_memberships_user_id"
  | PK_DIRECT_MESSAGES => "pk_direct_messages"
  | FK_DM_SENDER_ID => "fk_dm_sender_id"
  | FK_DM_RECIPIENT_ID => "fk_dm_recipient_id"
  | PK_GROUP_MESSAGES => "pk_group_messages"
  | FK_GROUP_MESSAGES_GROUP_ID => "fk_group_messages_group_id"
  | FK_GROUP_MESSAGES_SENDER_ID => "fk_group_messages_sender_id"
  end.

#[export] Instance Constraint_value_inj : Inj (=) (=) Constraint_value.
Proof. intros [] []; simpl; intros H; (reflexivity || discriminate H). Qed.
Lemma Constraint_value_lower c : str_lower (Constraint_value c) = Constraint_value c.
Proof. by destruct c. Qed.

(** ** The dataclasses *)

Record User := MkUser { user_id : UUID; username : string; password_hash : string;
                        deactivated : bool; user_created_at : timestamp }.
Record Friendship := MkFriendship { requester_id : UUID; addressee_id : UUID;
                                    accepted : bool; fr_created_at : timestamp;
                                    fr_updated_at : timestamp }.
Record AccessToken := MkAccessToken { at_token_hash : string; at_user_id : UUID;
                                      at_is_revoked : bool; at_expires_at : timestamp }.
Record RefreshToken := MkRefreshToken { rt_token_hash : string; rt_user_id : UUID;
                                        rt_is_revoked : bool; rt_expires_at : timestamp }.
Record Group := MkGroup { group_id : UUID; group_name : string; created_by : option UUID;
                          group_created_at : timestamp }.
Record Membership := MkMembership { mb_group_id : UUID; mb_user_id : UUID;
                                    joined_at : timestamp }.
Record DirectMessage := MkDirectMessage { dm_message_id : UUID; dm_sender_id : UUID;
                                          dm_recipient_id : UUID; dm_content : string;
                                          dm_created_at : timestamp }.
Record GroupMessage := MkGroupMessage { gm_message_id : UUID; gm_group_id : UUID;
                                        gm_sender_id : UUID; gm_content : string;
                                        gm_created_at : timestamp }.

#[export] Instance User_eq_dec : EqDecision User. Proof. solve_decision. Defined.
#[export] Instance Friendship_eq_dec : EqDecision Friendship. Proof. solve_decision. Defined.
#[export] Instance AccessToken_eq_dec : EqDecision AccessToken. Proof. solve_decision. Defined.
#[export] Instance RefreshToken_eq_dec : EqDecision RefreshToken. Proof. solve_decision. Defined.
#[export] Instance Group_eq_dec : EqDecision Group. Proof. solve_decision. Defined.
#[export] Instance Membership_eq_dec : EqDecision Membership. Proof. solve_decision. Defined.
#[export] Instance DirectMessage_eq_dec : EqDecision DirectMessage. Proof. solve_decision. Defined.
#[export] Instance GroupMessage_eq_dec : EqDecision GroupMessage. Proof. solve_decision. Defined.

(** [is_expired] of both token classes: [current_ts() >= self.expires_at]. *)
Definition at_is_expired (current_ts : timestamp) (t : AccessToken) : bool :=
  (at_expires_at t <=? current_ts)%Z.
Definition rt_is_expired (current_ts : timestamp) (t : RefreshToken) : bool :=
  (rt_expires_at t <=? current_ts)%Z.
Definition mb_pk (m : Membership) : UUID * UUID := (mb_group_id m, mb_user_id m).

(** ** SQL values and driver records *)

Inductive sqlval := VUuid (u : UUID) | VText (s : string) | VBool (b : bool)
                  | VTs (t : timestamp) | VNull.
#[export] Instance sqlval_eq_dec : EqDecision sqlval.
Proof. solve_decision. Defined.

(** An [asyncpg.Record]: column names with their values, in column order. *)
Abbreviation record := (list (string * sqlval)).

Definition as_uuid (v : option sqlval) : option UUID :=
  match v with Some (VUuid u) => Some u | _ => None end.
Definition as_text (v : option sqlval) : option string :=
  match v with Some (VText s) => Some s | _ => None end.
Definition as_bool (v : option sqlval) : option bool :=
  match v with Some (VBool b) => Some b | _ => None end.
Definition as_ts (v : option sqlval) : option timestamp :=
  match v with Some (VTs t) => Some t | _ => None end.
Definition as_opt_uuid (v : option sqlval) : option (option UUID) :=
  match v with Some (VUuid u) => Some (Some u) | Some VNull => Some None | _ => None end.

(** What the default factories of a dataclass would draw: [uuid_v4()] and
    [current_ts()]. *)
Record Defaults := MkDefaults { df_uuid : UUID; df_ts : timestamp }.

(** A dataclass: the annotations of the classes of its [__mro__], the [self.x]
    accessors, and the call of the class on keyword arguments, whose missing required arguments or ill-typed
    values give [None] ([TypeError]). *)
Class DBModel (M : Type) := {
  mro_annotations : list (list string);
  model_getattr : M → string → option sqlval;
  model_setattr : string → sqlval → M → option M;
  model_init : Defaults → (string → option sqlval) → option M;
}.

Definition or_default (v : option sqlval) (d : sqlval) : option sqlval :=
  match v with Some x => Some x | None => Some d end.

Section dbmodel.
Context `{DBModel M}.

(** The keys of [inspect.signature(cls.__init__).parameters]. *)
Definition init_params : list string := "self" :: mjoin mro_annotations.

Definition from_record (d : Defaults) (r : record) : option M :=
  let filtered_data := filter (λ kv, kv.1 ∈ init_params) r in
  model_init d (λ k, assoc k filtered_data).

Definition from_records (d : Defaults) (records : list record) : option (list M) :=
  mapM (from_record d) records.

Definition update_from_record (self : M) (r : record) : option M :=
  fold_left (λ acc kv, m ← acc; if bool_decide (kv.1 ∈ init_params)
                                then model_setattr kv.1 kv.2 m else Some m) r (Some self).

(** The field names of [to_args]: class by class along the [__mro__], each name
    once, only those the instance has. *)
Definition ordered_fields (self : M) : list string :=
  fold_left (λ acc name,
    if bool_decide (name ∉ acc) && bool_decide (is_Some (model_getattr self name))
    then acc ++ [name] else acc) (mjoin mro_annotations) [].

Definition to_args (self : M) : list sqlval :=
  omap (model_getattr self) (ordered_fields self).

End dbmodel.
Arguments init_params M {_}.
Arguments from_record M {_} d r.

(** ** The eight models *)

Definition v_opt_uuid (o : option UUID) : sqlval :=
  match o with Some u => VUuid u | None => VNull end.

(** The value of field [name] after the assignment of [v] to attribute [k]. *)
Definition assigned (k : string) (v : sqlval) (name : string) (old : sqlval) : option sqlval :=
  Some (if bool_decide (k = name) then v else old).

#[export] Instance User_DBModel : DBModel User := {|
  mro_annotations := [["user_id"; "username"; "password_hash"; "deactivated"; "created_at"]; []];
  model_getattr m k := assoc k [
    ("user_id", VUuid (user_id m));
    ("username", VText (username m));
    ("password_hash", VText (password_hash m));
    ("deactivated", VBool (deactivated m));
    ("created_at", VTs (user_created_at m))];
  model_setattr k v m :=
    a ← as_uuid (assigned k v "user_id" (VUuid (user_id m)));
    b ← as_text (assigned k v "username" (VText (username m)));
    c ← as_text (assigned k v "password_hash" (VText (password_hash m)));
    d ← as_bool (assigned k v "deactivated" (VBool (deactivated m)));
    e ← as_ts (assigned k v "created_at" (VTs (user_created_at m)));
    Some (MkUser a b c d e);
  model_init df kw :=
    a ← as_uuid (or_default (kw "user_id") (VUuid (df_uuid df)));
    b ← as_text (kw "username");
    c ← as_text (kw "password_hash");
    d ← as_bool (or_default (kw "deactivated") (VBool false));
    e ← as_ts (or_default (kw "created_at") (VTs (df_ts df)));
    Some (MkUser a b c d e)
|}.
#[export] Instance Friendship_DBModel : DBModel Friendship := {|
  mro_annotations := [["requester_id"; "addressee_id"; "accepted"; "created_at"; "updated_at"]; []];
  model_getattr m k := assoc k [
    ("requester_id", VUuid (requester_id m));
    ("addressee_id", VUuid (addressee_id m));
    ("accepted", VBool (accepted m));
    ("created_at", VTs (fr_created_at m));
    ("updated_at", VTs (fr_updated_at m))];
  model_setattr k v m :=
    a ← as_uuid (assigned k v "requester_id" (VUuid (requester_id m)));
    b ← as_uuid (assigned k v "addressee_id" (VUuid (addressee_id m)));
    c ← as_bool (assigned k v "accepted" (VBool (accepted m)));
    d ← as_ts (assigned k v "created_at" (VTs (fr_created_at m)));
    e ← as_ts (assigned k v "updated_at" (VTs (fr_updated_at m)));
    Some (MkFriendship a b c d e);
  model_init df kw :=
    a ← as_uuid (kw "requester_id");
    b ← as_uuid (kw "addressee_id");
    c ← as_bool (or_default (kw "accepted") (VBool false));
    d ← as_ts (or_default (kw "created_at") (VTs (df_ts df)));
    e ← as_ts (or_default (kw "updated_at") (VTs (df_ts df)));
    Some (MkFriendship a b c d e)
|}.
#[export] Instance AccessToken_DBModel : DBModel AccessToken := {|
  mro_annotations := [["token_hash"; "user_id"; "is_revoked"; "expires_at"]; []];
  model_getattr m k := assoc k [
    ("token_hash", VText (at_token_hash m));
    ("user_id", VUuid (at_user_id m));
    ("is_revoked", VBool (at_is_revoked m));
    ("expires_at", VTs (at_expires_at m))];
  model_setattr k v m :=
    a ← as_text (assigned k v "token_hash" (VText (at_token_hash m)));
    b ← as_uuid (assigned k v "user_id" (VUuid (at_user_id m)));
    c ← as_bool (assigned k v "is_revoked" (VBool (at_is_revoked m)));
    d ← as_ts (assigned k v "expires_at" (VTs (at_expires_at m)));
    Some (MkAccessToken a b c d);
  model_init df kw :=
    a ← as_text (kw "token_hash");
    b ← as_uuid (kw "user_id");
    c ← as_bool (or_default (kw "is_revoked") (VBool false));
    d ← as_ts (kw "expires_at");
    Some (MkAccessToken a b c d)
|}.
#[export] Instance RefreshToken_DBModel : DBModel RefreshToken := {|
  mro_annotations := [["token_hash"; "user_id"; "is_revoked"; "expires_at"]; []];
  model_getattr m k := assoc k [
    ("token_hash", VText (rt_token_hash m));
    ("user_id", VUuid (rt_user_id m));
    ("is_revoked", VBool (rt_is_revoked m));
    ("expires_at", VTs (rt_expires_at m))];
  model_setattr k v m :=
    a ← as_text (assigned k v "token_hash" (VText (rt_token_hash m)));
    b ← as_uuid (assigned k v "user_id" (VUuid (rt_user_id m)));
    c ← as_bool (assigned k v "is_revoked" (VBool (rt_is_revoked m)));
    d ← as_ts (assigned k v "expires_at" (VTs (rt_expires_at m)));
    Some (MkRefreshToken a b c d);
  model_init df kw :=
    a ← as_text (kw "token_hash");
    b ← as_uuid (kw "user_id");
    c ← as_bool (or_default (kw "is_revoked") (VBool false));
    d ← as_ts (kw "expires_at");
    Some (MkRefreshToken a b c d)
|}.
#[export] Instance Group_DBModel : DBModel Group := {|
  mro_annotations := [["group_id"; "name"; "created_by"; "created_at"]; []];
  model_getattr m k := assoc k [
    ("group_id", VUuid (group_id m));
    ("name", VText (group_name m));
    ("created_by", v_opt_uuid (created_by m));
    ("created_at", VTs (group_created_at m))];
  model_setattr k v m :=
    a ← as_uuid (assigned k v "group_id" (VUuid (group_id m)));
    b ← as_text (assigned k v "name" (VText (group_name m)));
    c ← as_opt_uuid (assigned k v "created_by" (v_opt_uuid (created_by m)));
    d ← as_ts (assigned k v "created_at" (VTs (group_created_at m)));
    Some (MkGroup a b c d);
  model_init df kw :=
    a ← as_uuid (or_default (kw "group_id") (VUuid (df_uuid df)));
    b ← as_text (kw "name");
    c ← as_opt_uuid (or_default (kw "created_by") (VNull));
    d ← as_ts (or_default (kw "created_at") (VTs (df_ts df)));
    Some (MkGroup a b c d)
|}.
#[export] Instance Membership_DBModel : DBModel Membership := {|
  mro_annotations := [["group_id"; "user_id"; "joined_at"]; []];
  model_getattr m k := assoc k [
    ("group_id", VUuid (mb_group_id m));
    ("user_id", VUuid (mb_user_id m));
    ("joined_at", VTs (joined_at m))];
  model_setattr k v m :=
    a ← as_uuid (assigned k v "group_id" (VUuid (mb_group_id m)));
    b ← as_uuid (assigned k v "user_id" (VUuid (mb_user_id m)));
    c ← as_ts (assigned k v "joined_at" (VTs (joined_at m)));
    Some (MkMembership a b c);
  model_init df kw :=
    a ← as_uuid (kw "group_id");
    b ← as_uuid (kw "user_id");
    c ← as_ts (or_default (kw "joined_at") (VTs (df_ts df)));
    Some (MkMembership a b c)
|}.
#[export] Instance DirectMessage_DBModel : DBModel DirectMessage := {|
  mro_annotations := [["message_id"; "sender_id"; "recipient_id"; "content"; "created_at"]; []];
  model_getattr m k := assoc k [
    ("message_id", VUuid (dm_message_id m));
    ("sender_id", VUuid (dm_sender_id m));
    ("recipient_id", VUuid (dm_recipient_id m));
    ("content", VText (dm_content m));
    ("created_at", VTs (dm_created_at m))];
  model_setattr k v m :=
    a ← as_uuid (assigned k v "message_id" (VUuid (dm_message_id m)));
    b ← as_uuid (assigned k v "sender_id" (VUuid (dm_sender_id m)));
    c ← as_uuid (assigned k v "recipient_id" (VUuid (dm_recipient_id m)));
    d ← as_text (assigned k v "content" (VText (dm_content m)));
    e ← as_ts (assigned k v "created_at" (VTs (dm_created_at m)));
    Some (MkDirectMessage a b c d e);
  model_init df kw :=
    a ← as_uuid (or_default (kw "message_id") (VUuid (df_uuid df)));
    b ← as_uuid (kw "sender_id");
    c ← as_uuid (kw "recipient_id");
    d ← as_text (kw "content");
    e ← as_ts (or_default (kw "created_at") (VTs (df_ts df)));
    Some (MkDirectMessage a b c d e)
|}.
#[export] Instance GroupMessage_DBModel : DBModel GroupMessage := {|
  mro_annotations := [["message_id"; "group_id"; "sender_id"; "content"; "created_at"]; []];
  model_getattr m k := assoc k [
    ("message_id", VUuid (gm_message_id m));
    ("group_id", VUuid (gm_group_id m));
    ("sender_id", VUuid (gm_sender_id m));
    ("content", VText (gm_content m));
    ("created_at", VTs (gm_created_at m))];
  model_setattr k v m :=
    a ← as_uuid (assigned k v "message_id" (VUuid (gm_message_id m)));
    b ← as_uuid (assigned k v "group_id" (VUuid (gm_group_id m)));
    c ← as_uuid (assigned k v "sender_id" (VUuid (gm_sender_id m)));
    d ← as_text (assigned k v "content" (VText (gm_content m)));
    e ← as_ts (assigned k v "created_at" (VTs (gm_created_at m)));
    Some (MkGroupMessage a b c d e);
  model_init df kw :=
    a ← as_uuid (or_default (kw "message_id") (VUuid (df_uuid df)));
    b ← as_uuid (kw "group_id");
    c ← as_uuid (kw "sender_id");
    d ← as_text (kw "content");
    e ← as_ts (or_default (kw "created_at") (VTs (df_ts df)));
    Some (MkGroupMessage a b c d e)
|}.

(** ** Laws of the models

    [DBModelLaws] is what the SQL layer relies on: reading all fields of an
    instance and building from them gives the instance back, and assigning a
    field changes that field only. *)
Class DBModelLaws (M : Type) `{DBModel M} : Prop := {
  annotations_nodup : NoDup (mjoin (@mro_annotations M _));
  getattr_fields (m : M) k : is_Some (model_getattr m k) ↔ k ∈ mjoin (@mro_annotations M _);
  init_of_getattr df (m : M) kw :
    (∀ k, k ∈ mjoin (@mro_annotations M _) → kw k = model_getattr m k) →
    model_init df kw = Some m;
  setattr_getattr (m m' : M) k v : model_getattr m' k = Some v →
    ∃ m1, model_setattr k v m = Some m1 ∧ model_getattr m1 k = Some v ∧
          ∀ k', k' ≠ k → model_getattr m1 k' = model_getattr m k';
}.

(** A row as the driver returns it under the columns [cols]. *)
Definition record_of {M} `{DBModel M} (cols : list string) (m : M) : record :=
  omap (λ k, pair k <$> model_getattr m k) cols.

Lemma assoc_record_of {M} `{DBModel M} cols (m : M) k :
  assoc k (record_of cols m) = if bool_decide (k ∈ cols) then model_getattr m k else None.
Proof.
  unfold record_of, assoc. induction cols as [|c cols IH]; [done|].
  pose proof (elem_of_cons cols k c) as Hin.
  cbn [omap list_omap]. destruct (decide (c = k)) as [->|Hc].
  - rewrite (bool_decide_eq_true_2 (k ∈ k :: cols)) by (apply Hin; by left).
    destruct (model_getattr m k) as [v|] eqn:Hv; simpl.
    + by rewrite bool_decide_eq_true_2.
    + rewrite IH. by destruct (bool_decide (k ∈ cols)).
  - rewrite (bool_decide_ext (k ∈ c :: cols) (k ∈ cols)) by (rewrite Hin; split; [by intros [->|?]|by right]).
    destruct (model_getattr m c); simpl; [rewrite (bool_decide_eq_false_2 (c = k)) by done|];
    exact IH.
Qed.

Section laws.
Context `{DBModelLaws M}.
Implicit Types m : M.
Abbreviation fields := (mjoin (@mro_annotations M _)).

Lemma model_ext m1 m2 : (∀ k, model_getattr m1 k = model_getattr m2 k) → m1 = m2.
Proof.
  intros Heq. pose proof (init_of_getattr (MkDefaults inhabitant 0) m1 (model_getattr m2)) as H1.
  pose proof (init_of_getattr (MkDefaults inhabitant 0) m2 (model_getattr m2)) as H2.
  rewrite H2 in H1 by done. specialize (H1 (λ k _, eq_sym (Heq k))). congruence.
Qed.

Lemma ordered_fields_acc m (l acc : list string) :
  NoDup (acc ++ l) → (∀ k, k ∈ l → k ∈ fields) →
  fold_left (λ acc name,
    if bool_decide (name ∉ acc) && bool_decide (is_Some (model_getattr m name))
    then acc ++ [name] else acc) l acc = acc ++ l.
Proof.
  revert acc. induction l as [|k l IH]; intros acc Hnd Hl; simpl; [by rewrite app_nil_r|].
  assert (k ∉ acc) as Hk by (apply NoDup_app in Hnd as (_ & Hd & _); set_solver).
  rewrite !bool_decide_eq_true_2; [|apply getattr_fields; set_solver|done].
  simpl. rewrite IH, <-app_assoc; [done| |set_solver].
  by rewrite <-app_assoc.
Qed.

Lemma ordered_fields_spec m : ordered_fields m = fields.
Proof. apply (ordered_fields_acc m fields []); [apply annotations_nodup|done]. Qed.

Lemma from_record_of df cols m :
  (∀ k, k ∈ fields → k ∈ cols) → from_record M df (record_of cols m) = Some m.
Proof.
  intros Hcols. unfold from_record. apply init_of_getattr. intros k Hk.
  transitivity (assoc k (record_of cols m)).
  - unfold assoc. induction (record_of cols m) as [|[c v] r IH]; [done|].
    rewrite filter_cons. simpl. case_decide as Hc; simpl; [by rewrite IH|].
    rewrite bool_decide_eq_false_2; [done|]. intros ->. apply Hc. simpl.
    apply elem_of_cons. by right.
  - rewrite assoc_record_of, bool_decide_eq_true_2 by auto. done.
Qed.

Lemma from_records_of df cols (l : list M) :
  (∀ k, k ∈ fields → k ∈ cols) → from_records df (record_of cols <$> l) = Some l.
Proof.
  intros Hcols. apply mapM_Some, Forall2_fmap_l, Forall_Forall2_diag, Forall_true.
  intros m. by apply from_record_of.
Qed.

Lemma update_from_record_acc m' (cols : list string) (m : M) :
  (∀ k, k ∈ cols → k ∈ fields) →
  ∃ m1, fold_left (λ acc kv, m ← acc; if bool_decide (kv.1 ∈ init_params M)
          then model_setattr kv.1 kv.2 m else Some m) (record_of cols m') (Some m) = Some m1 ∧
    ∀ k, model_getattr m1 k = if bool_decide (k ∈ cols) then model_getattr m' k
                              else model_getattr m k.
Proof.
  revert m. induction cols as [|c cols IH]; intros m Hcols; [by exists m|].
  assert (c ∈ fields) as Hc by set_solver.
  destruct (proj2 (getattr_fields m' c) Hc) as [v Hv].
  destruct (setattr_getattr m m' c v Hv) as (m2 & Hset & Hget & Hother).
  destruct (IH m2) as (m1 & Hfold & Hm1); [set_solver|].
  exists m1. split.
  - unfold record_of. cbn [omap list_omap]. rewrite Hv. simpl.
    rewrite bool_decide_eq_true_2 by (unfold init_params; set_solver).
    by rewrite Hset.
  - intros k. rewrite Hm1. pose proof (elem_of_cons cols k c) as Hin.
    destruct (decide (k = c)) as [->|Hk].
    + rewrite (bool_decide_eq_true_2 (c ∈ c :: cols)) by (apply Hin; by left).
      rewrite Hget, Hv. by destruct (bool_decide (c ∈ cols)).
    + rewrite (bool_decide_ext (k ∈ c :: cols) (k ∈ cols)) by (rewrite Hin; split; [by intros [->|?]|by right]).
      by rewrite Hother.
Qed.

Lemma update_from_record_of cols m m' :
  (∀ k, k ∈ cols ↔ k ∈ fields) → update_from_record m (record_of cols m') = Some m'.
Proof.
  intros Hcols. destruct (update_from_record_acc m' cols m) as (m1 & Hfold & Hm1); [intros k; apply Hcols|].
  unfold update_from_record. rewrite Hfold. f_equal. apply model_ext. intros k. rewrite Hm1.
  case_bool_decide as Hk; [done|]. rewrite Hcols in Hk.
  assert (∀ m, model_getattr m k = None) as Hnone.
  { intros m2. apply eq_None_not_Some. by rewrite getattr_fields. }
  by rewrite !Hnone.
Qed.

End laws.

(** Every model obeys the laws. *)
(** Case split on a closed list of keys: each key becomes a literal. *)
Ltac split_keys H :=
  repeat (apply elem_of_cons in H as [->|H]); [..|by apply elem_of_nil in H].
Ltac split_options :=
  repeat match goal with o : option UUID |- _ => destruct o end.

Ltac prove_model_laws M :=
  constructor;
  [ apply (bool_decide_unpack _); reflexivity
  | intros m k; exact (assoc_keys k _)
  | intros df m kw Hkw; unfold model_init; simpl;
    rewrite !Hkw by (apply (bool_decide_unpack _); reflexivity);
    destruct m; split_options; reflexivity
  | intros m m' k v Hv;
    pose proof (proj1 (assoc_keys k _) (mk_is_Some _ _ Hv)) as Hk; simpl in Hk;
    destruct m, m'; split_options;
    split_keys Hk; injection Hv as <-;
    (eexists; split; [reflexivity|split; [reflexivity|]]); intros k' Hk';
    (destruct (decide (k' ∈ mjoin (@mro_annotations M _))) as [Hin|Hin];
      [split_keys Hin; solve [reflexivity|congruence]
      |unfold model_getattr; simpl; rewrite !assoc_not_key by exact Hin; reflexivity]) ].

#[export] Instance User_laws : DBModelLaws User. Proof. prove_model_laws User. Qed.
#[export] Instance Friendship_laws : DBModelLaws Friendship. Proof. prove_model_laws Friendship. Qed.
#[export] Instance AccessToken_laws : DBModelLaws AccessToken. Proof. prove_model_laws AccessToken. Qed.
#[export] Instance RefreshToken_laws : DBModelLaws RefreshToken. Proof. prove_model_laws RefreshToken. Qed.
#[export] Instance Group_laws : DBModelLaws Group. Proof. prove_model_laws Group. Qed.
#[export] Instance Membership_laws : DBModelLaws Membership. Proof. prove_model_laws Membership. Qed.
#[export] Instance DirectMessage_laws : DBModelLaws DirectMessage. Proof. prove_model_laws DirectMessage. Qed.
#[export] Instance GroupMessage_laws : DBModelLaws GroupMessage. Proof. prove_model_laws GroupMessage. Qed.
