(* ===== verification/Errors.v ===== *)
(** * Exceptions and their translation
    (database/errors.py, services/errors.py, redis/errors.py)

    The exception classes as constructors, [CONSTRAINT_MAP] and
    [ENTITY_NOT_FOUND_MAP] as the dictionaries they are, and the three
    decorators as functions on the outcome of the decorated call. *)

From S2P Require Export Models Crypto.

(** ** Driver exceptions

    asyncpg: the three integrity violations the schema can cause, the other
    server errors, and [InterfaceError], which is not a [PostgresError]. When the
    connection goes away (ConnectionDoesNotExistError) or the command timeout
    expires (the TimeoutError of asyncio) while a command is in flight, the
    server may have carried the command out all the same; [carried_out] says
    whether it did, which nothing in the program can see. *)
Inductive PgError :=
| Pg_UniqueViolation (table_name constraint_name : string)
| Pg_ForeignKeyViolation (table_name constraint_name : string)
| Pg_NotNullViolation (table_name : string)
| Pg_DataError
| Pg_SerializationError
| Pg_QueryCanceled
| Pg_InterfaceError
| Pg_ConnectionLost (carried_out : bool)
| Pg_TimeoutError (carried_out : bool)
| Pg_OtherPostgresError.
#[export] Instance PgError_eq_dec : EqDecision PgError.
Proof. solve_decision. Defined.

(** Class membership: [IntegrityConstraintViolationError], [PostgresError]. *)
Definition is_integrity (e : PgError) : bool :=
  match e with
  | Pg_UniqueViolation _ _ | Pg_ForeignKeyViolation _ _ | Pg_NotNullViolation _ => true
  | _ => false
  end.
Definition is_postgres_error (e : PgError) : bool :=
  match e with Pg_InterfaceError | Pg_TimeoutError _ => false | _ => true end.
Definition carried_out (e : PgError) : bool :=
  match e with Pg_ConnectionLost b | Pg_TimeoutError b => b | _ => false end.
Definition pg_table_name (e : PgError) : option string :=
  match e with
  | Pg_UniqueViolation t _ | Pg_ForeignKeyViolation t _ | Pg_NotNullViolation t => Some t
  | _ => None
  end.
Definition pg_constraint_name (e : PgError) : option string :=
  match e with
  | Pg_UniqueViolation _ c | Pg_ForeignKeyViolation _ c => Some c
  | _ => None
  end.

(** redis-py: [TimeoutError] and [ConnectionError] are [RedisError]s. *)
Inductive RedisExc := Rx_TimeoutError | Rx_ConnectionError | Rx_RedisError.

(** ** Exceptions of the program *)

Inductive DbError :=
| DatabaseError
| ConnectionPoolNotInitializedError
| DatabaseConnectionError
| DatabaseTimeoutError
| SerializationError
| NotFoundError (entity : option Entity) (identifier : option string)
| ConstraintViolationError (table constraint : option string).

Inductive RedisError :=
| RedisClientNotInitializedError | RedisConnectionError | RedisTimeoutError | RedisCommandError.

Inductive ServiceError :=
| UserAlreadyExistsError (username : pyval)
| InvalidCredentialsError
| InvalidTokenError
| TokenExpiredError
| TokenRevokedError
| UserNotFoundError (identifier : pyval)
| SelfFriendshipError
| FriendRequestAlreadyExistsError (addressee_id : pyval)
| FriendRequestNotFoundError (requester_id : pyval)
| GroupNotFoundError (group_id : pyval)
| GroupNameAlreadyExistsError (creator_id name : pyval)
| AlreadyGroupMemberError (user_id group_id : pyval)
| NotGroupMemberError (user_id group_id : pyval)
| InsufficientGroupPermissionError (message : string)
| DirectMessageNotAllowedError (recipient_id : pyval)
| GroupMessageNotAllowedError (group_id : pyval).

(** Any exception in flight. *)
Inductive Exn :=
| ExPg (e : PgError)
| ExDb (e : DbError)
| ExService (e : ServiceError)
| ExRedisDriver (e : RedisExc)
| ExRedis (e : RedisError)
| ExArgon2 (e : argon2_error)
| ExHTTP (status_code : Z) (detail : string)
| ExKeyError (key : string)
| ExTypeError
| ExValueError.

#[export] Instance DbError_eq_dec : EqDecision DbError. Proof. solve_decision. Defined.
#[export] Instance RedisError_eq_dec : EqDecision RedisError. Proof. solve_decision. Defined.
#[export] Instance RedisExc_eq_dec : EqDecision RedisExc. Proof. solve_decision. Defined.
#[export] Instance ServiceError_eq_dec : EqDecision ServiceError. Proof. solve_decision. Defined.
#[export] Instance Exn_eq_dec : EqDecision Exn. Proof. solve_decision. Defined.

Abbreviation outcome' := (outcome Exn).

Definition from_asyncpg (e : PgError) : DbError :=
  ConstraintViolationError (pg_table_name e) (pg_constraint_name e).

Definition status_code (e : ServiceError) : Z :=
  match e with
  | UserAlreadyExistsError _ => 409
  | InvalidCredentialsError | InvalidTokenError | TokenExpiredError | TokenRevokedError => 401
  | UserNotFoundError _ => 404
  | SelfFriendshipError => 400
  | FriendRequestAlreadyExistsError _ => 409
  | FriendRequestNotFoundError _ => 404
  | GroupNotFoundError _ => 404
  | GroupNameAlreadyExistsError _ _ => 409
  | AlreadyGroupMemberError _ _ => 409
  | NotGroupMemberError _ _ => 403
  | InsufficientGroupPermissionError _ => 403
  | DirectMessageNotAllowedError _ => 403
  | GroupMessageNotAllowedError _ => 403
  end.

(** [str(exc)]: the message each constructor passes to [super().__init__]. *)
Definition message (e : ServiceError) : string :=
  let s := str_pyval in
  match e with
  | UserAlreadyExistsError u => "Username '" +:+ s u +:+ "' is already taken."
  | InvalidCredentialsError => "Invalid username or password."
  | InvalidTokenError => "Invalid or expired token."
  | TokenExpiredError => "Token has expired."
  | TokenRevokedError =>
      "Security alert: Token reuse detected. All active sessions revoked."
  | UserNotFoundError i => "User '" +:+ s i +:+ "' was not found."
  | SelfFriendshipError => "Cannot send a friend request to yourself."
  | FriendRequestAlreadyExistsError a =>
      "A friend request or active friendship already exists with user '" +:+ s a +:+ "'."
  | FriendRequestNotFoundError r =>
      "No pending friend request found from user '" +:+ s r +:+ "'."
  | GroupNotFoundError g => "Group '" +:+ s g +:+ "' was not found."
  | GroupNameAlreadyExistsError c n =>
      "Group '" +:+ s n +:+ "' already exists for creator '" +:+ s c +:+ "'."
  | AlreadyGroupMemberError u g =>
      "User '" +:+ s u +:+ "' is already a member of group '" +:+ s g +:+ "'."
  | NotGroupMemberError u g =>
      "User '" +:+ s u +:+ "' is not an active member of group '" +:+ s g +:+ "'."
  | InsufficientGroupPermissionError m => m
  | DirectMessageNotAllowedError r =>
      "Cannot send message. You are not friends with user '" +:+ s r +:+ "'."
  | GroupMessageNotAllowedError g =>
      "Cannot send message. You are not a member of group '" +:+ s g +:+ "'."
  end.

(** ** Translation maps *)

(** A handler of the maps: an exception class called without arguments, or a
    function of the context dictionary. *)
Inductive handler :=
| HClass (e : ServiceError)
| HFun (f : kwargs → Exn).

Definition unknown : pyval := PStr "unknown".
Definition get_or_unknown (k : string) (kw : kwargs) : pyval := kw_get k unknown kw.
(** [kw[k]], which raises [KeyError] when the key is missing. *)
Definition subscript (k : string) (kw : kwargs) (f : pyval → ServiceError) : Exn :=
  match assoc k kw with Some v => ExService (f v) | None => ExKeyError k end.

Definition CONSTRAINT_MAP : list (string * handler) :=
  let on c f := (Constraint_value c, HFun (λ kw, ExService (f (λ k, get_or_unknown k kw)))) in
  [ on UQ_USERS_USERNAME (λ get, UserAlreadyExistsError (get "username"));
    on PK_FRIENDSHIPS (λ get, FriendRequestAlreadyExistsError (get "addressee_id"));
    on FK_FRIENDSHIPS_REQUESTER_ID (λ get, UserNotFoundError (get "requester_id"));
    on FK_FRIENDSHIPS_ADDRESSEE_ID (λ get, UserNotFoundError (get "addressee_id"));
    on FK_ACCESS_TOKENS_USER_ID (λ get, UserNotFoundError (get "user_id"));
    on FK_REFRESH_TOKENS_USER_ID (λ get, UserNotFoundError (get "user_id"));
    on UQ_GROUPS_CREATED_BY_NAME
       (λ get, GroupNameAlreadyExistsError (get "creator_id") (get "name"));
    on FK_GROUPS_CREATED_BY (λ get, UserNotFoundError (get "user_id"));
    on FK_MEMBERSHIPS_GROUP_ID (λ get, GroupNotFoundError (get "group_id"));
    on PK_MEMBERSHIPS (λ get, AlreadyGroupMemberError (get "user_id") (get "group"));
    on FK_MEMBERSHIPS_USER_ID (λ get, UserNotFoundError (get "user_id"));
    on FK_DM_SENDER_ID (λ get, UserNotFoundError (get "sender_id"));
    on FK_DM_RECIPIENT_ID (λ get, DirectMessageNotAllowedError (get "recipient_id"));
    on FK_GROUP_MESSAGES_GROUP_ID (λ get, GroupMessageNotAllowedError (get "group_id"));
    on FK_GROUP_MESSAGES_SENDER_ID
       (λ get, NotGroupMemberError (get "user_id") (get "group_id")) ].

Definition ENTITY_NOT_FOUND_MAP : list (Entity * handler) :=
  let on e f := (e, HFun (λ kw, ExService (f kw))) in
  [ on USER (λ kw, UserNotFoundError
      (py_or (kw_get "identifier" PNone kw) (get_or_unknown "user_id" kw)));
    on GROUP (λ kw, GroupNotFoundError
      (py_or (kw_get "identifier" PNone kw) (get_or_unknown "group_id" kw)));
    on MEMBERSHIP (λ kw, NotGroupMemberError
      (py_or (kw_get "actor_id" PNone kw) (get_or_unknown "user_id" kw))
      (get_or_unknown "group_id" kw));
    on FRIENDSHIP (λ kw, FriendRequestNotFoundError
      (py_or (kw_get "identifier" PNone kw) (get_or_unknown "requester_id" kw))) ].

(** ** The decorators, on the outcome of the decorated call *)

Definition run_handler {A} (h : handler) (ctx : kwargs) : outcome' A :=
  match h with HClass e => Raise (ExService e) | HFun f => Raise (f ctx) end.

Definition opt_str (o : option string) : pyval :=
  match o with Some s => PStr s | None => PNone end.

Definition translate_constraint_error {A} (overrides : list (string * handler))
    (caller_context kw : kwargs) (r : outcome' A) : outcome' A :=
  match r with
  | Raise (ExDb (ConstraintViolationError table (Some constraint))) =>
      let raw_constraint := str_lower constraint in
      let normalized_overrides := rev (map (λ kv, (str_lower kv.1, kv.2)) overrides) in
      if bool_decide (raw_constraint = EmptyString) then r else
      match assoc raw_constraint (normalized_overrides ++ CONSTRAINT_MAP) with
      | Some h => run_handler h
          (caller_context ++ kw ++
           [("constraint", PStr raw_constraint); ("table", opt_str table); ("db_error", PObj)])
      | None => r
      end
  | _ => r
  end.

(** An override of the not-found map: [None], which makes the wrapper return
    Python's [None] (the value [a] of the wrapped function's type), or a handler. *)
Inductive nf_override (A : Type) := NfNone (a : A) | NfHandler (h : handler).
Arguments NfNone {A} a.
Arguments NfHandler {A} h.

Definition translate_not_found_error {A} (overrides : list (Entity * nf_override A))
    (caller_context kw : kwargs) (r : outcome' A) : outcome' A :=
  match r with
  | Raise (ExDb (NotFoundError (Some entity) identifier)) =>
      let active_map :=
        rev overrides ++ map (λ eh, (eh.1, NfHandler eh.2)) ENTITY_NOT_FOUND_MAP in
      match assoc entity active_map with
      | Some (NfNone a) => Ok a
      | Some (NfHandler h) => run_handler h
          (caller_context ++ kw ++ [("identifier", opt_str identifier); ("db_error", PObj)])
      | None => r
      end
  | _ => r
  end.

Definition translate_redis_error {A} (r : outcome' A) : outcome' A :=
  match r with
  | Raise (ExRedisDriver Rx_TimeoutError) => Raise (ExRedis RedisTimeoutError)
  | Raise (ExRedisDriver Rx_ConnectionError) => Raise (ExRedis RedisConnectionError)
  | Raise (ExRedisDriver Rx_RedisError) => Raise (ExRedis RedisCommandError)
  | _ => r
  end.
