(* ===== verification/Sql.v ===== *)
(** * The SQL of the program (database/sql.py)

    The eight tables as finite maps keyed by their primary keys, with the
    constraints of the DDL, and one definition per SQL statement, in the
    classes [Fetch], [Write] and [Delete] of the source. A statement is what it
    does to the database a session sees, and the rows it write-locks.

    The order in which rows come back where no ORDER BY fixes it is the
    server's: [scan], of which only that it permutes the rows is assumed. *)

From S2P Require Export Errors.

Class RowOrder := scan : ∀ {A : Type}, list A → list A.
Class RowOrderLaws `{RowOrder} : Prop :=
  scan_perm : ∀ (A : Type) (l : list A), scan l ≡ₚ l.

(** ** Tables *)

Record Database := MkDb {
  users : gmap UUID User;
  friendships : gmap (UUID * UUID) Friendship;
  access_tokens : gmap string AccessToken;
  refresh_tokens : gmap string RefreshToken;
  groups : gmap UUID Group;
  memberships : gmap (UUID * UUID) Membership;
  direct_messages : gmap UUID DirectMessage;
  group_messages : gmap UUID GroupMessage;
}.
#[export] Instance Database_eq_dec : EqDecision Database.
Proof. solve_decision. Defined.

Definition empty_db : Database := MkDb ∅ ∅ ∅ ∅ ∅ ∅ ∅ ∅.

Definition set_users f db := MkDb (f (users db)) (friendships db) (access_tokens db)
  (refresh_tokens db) (groups db) (memberships db) (direct_messages db) (group_messages db).
Definition set_friendships f db := MkDb (users db) (f (friendships db)) (access_tokens db)
  (refresh_tokens db) (groups db) (memberships db) (direct_messages db) (group_messages db).
Definition set_access_tokens f db := MkDb (users db) (friendships db) (f (access_tokens db))
  (refresh_tokens db) (groups db) (memberships db) (direct_messages db) (group_messages db).
Definition set_refresh_tokens f db := MkDb (users db) (friendships db) (access_tokens db)
  (f (refresh_tokens db)) (groups db) (memberships db) (direct_messages db) (group_messages db).
Definition set_groups f db := MkDb (users db) (friendships db) (access_tokens db)
  (refresh_tokens db) (f (groups db)) (memberships db) (direct_messages db) (group_messages db).
Definition set_memberships f db := MkDb (users db) (friendships db) (access_tokens db)
  (refresh_tokens db) (groups db) (f (memberships db)) (direct_messages db) (group_messages db).
Definition set_direct_messages f db := MkDb (users db) (friendships db) (access_tokens db)
  (refresh_tokens db) (groups db) (memberships db) (f (direct_messages db)) (group_messages db).
Definition set_group_messages f db := MkDb (users db) (friendships db) (access_tokens db)
  (refresh_tokens db) (groups db) (memberships db) (direct_messages db) (f (group_messages db)).

(** Column order of the DDL, which [RETURNING *] and [SELECT *] follow. *)
Definition users_cols := ["user_id"; "username"; "password_hash"; "deactivated"; "created_at"].
Definition friendships_cols :=
  ["requester_id"; "addressee_id"; "accepted"; "created_at"; "updated_at"].
Definition access_tokens_cols := ["token_hash"; "user_id"; "expires_at"; "is_revoked"].
Definition refresh_tokens_cols := ["token_hash"; "user_id"; "is_revoked"; "expires_at"].
Definition groups_cols := ["group_id"; "name"; "created_by"; "created_at"].
Definition memberships_cols := ["group_id"; "user_id"; "joined_at"].
Definition direct_messages_cols :=
  ["message_id"; "sender_id"; "recipient_id"; "content"; "created_at"].
Definition group_messages_cols :=
  ["message_id"; "group_id"; "sender_id"; "content"; "created_at"].

(** The values of a table's rows. *)
Definition table_rows {K A} `{Countable K} (t : gmap K A) : list A := (map_to_list t).*2.
Definition any_row {K A} `{Countable K} (P : A → Prop) `{∀ x, Decision (P x)}
    (t : gmap K A) : bool :=
  bool_decide (Exists P (table_rows t)).

(** ** Statements *)

(** What a transaction locks until it ends: rows, by primary key, existing or
    being inserted, and entries of the unique index on usernames, where a second
    insertion of the name waits for the first. *)
Inductive RowKey :=
| RUser (u : UUID) | RFriendship (a b : UUID) | RAccessToken (h : string)
| RRefreshToken (h : string) | RGroup (g : UUID) | RMembership (g u : UUID)
| RDirectMessage (m : UUID) | RGroupMessage (m : UUID)
| RUsername (name : string).
#[export] Instance RowKey_eq_dec : EqDecision RowKey.
Proof. solve_decision. Defined.

(** The server's row-lock modes that occur here: a foreign-key check takes the
    row it refers to in the first, an UPDATE of columns outside every key takes
    the second, and INSERT, DELETE and SELECT ... FOR UPDATE take the third. *)
Inductive LockMode := KeyShare | NoKeyUpdate | ForUpdate.
#[export] Instance LockMode_eq_dec : EqDecision LockMode.
Proof. solve_decision. Defined.
Definition conflicts (m m' : LockMode) : bool :=
  match m, m' with
  | ForUpdate, _ | _, ForUpdate | NoKeyUpdate, NoKeyUpdate => true
  | _, _ => false
  end.
Definition Lock : Type := LockMode * RowKey.
Definition lock_all (m : LockMode) : list RowKey → list Lock := fmap (pair m).

Record SqlResult := MkResult { res_rows : list record; res_tag : CommandTag }.

(** [stmt_exec now db]: [now] is what [NOW()] reads, the transaction's start. *)
Record stmt := Stmt {
  stmt_locks : timestamp → Database → list Lock;
  stmt_exec : timestamp → Database → (PgError + SqlResult) * Database;
}.

(** A SELECT: its rows, and the keys of the rows it returns. *)
Record query := Query {
  q_rows : Database → list record;
  q_keys : Database → list RowKey;
}.

(** [_with_lock(query, for_update)]: FOR UPDATE write-locks the selected rows. *)
Definition with_lock (q : query) (for_update : bool) : stmt := {|
  stmt_locks _ db := if for_update then lock_all ForUpdate (q_keys q db) else [];
  stmt_exec _ db :=
    (inr (MkResult (q_rows q db) (TagSelect (length (q_rows q db)))), db)
|}.
Coercion plain_select (q : query) : stmt := with_lock q false.

(** An INSERT ... RETURNING * of the row built from the columns and arguments.
    One that goes in has checked its foreign keys, and keeps the rows referred
    to from being deleted. *)
Definition insert_locks (keys refs : list RowKey) (r : PgError + Database) : list Lock :=
  lock_all ForUpdate keys ++ match r with inr _ => lock_all KeyShare refs | inl _ => [] end.
Definition insert_stmt {M} `{DBModel M} (cols : list string) (args : list sqlval)
    (table_cols : list string) (keys refs : M → list RowKey)
    (ins : M → Database → PgError + Database) : stmt := {|
  stmt_locks now db :=
    match model_init (MkDefaults inhabitant now) (λ k, assoc k (zip cols args)) with
    | Some m => insert_locks (keys m) (refs m) (ins m db)
    | None => []
    end;
  stmt_exec now db :=
    match model_init (MkDefaults inhabitant now) (λ k, assoc k (zip cols args)) with
    | None => (inl Pg_DataError, db)
    | Some m =>
        match ins m db with
        | inl e => (inl e, db)
        | inr db' => (inr (MkResult [record_of table_cols m] (TagInsert 1)), db')
        end
    end
|}.

(** An UPDATE or DELETE: [upd now db] is the new database and the row count. *)
Definition write_stmt (locks : timestamp → Database → list Lock) (tag : nat → CommandTag)
    (upd : timestamp → Database → Database * nat) : stmt := {|
  stmt_locks := locks;
  stmt_exec now db := let '(db', n) := upd now db in (inr (MkResult [] (tag n)), db')
|}.

Definition lock_if {A} (o : option A) (k : Lock) : list Lock :=
  match o with Some _ => [k] | None => [] end.
Definition count_if {A} (o : option A) : nat := match o with Some _ => 1 | None => 0 end.

(** ** Constraints of the DDL

    Unique indexes are checked as the row goes in, in declaration order;
    foreign keys after it. *)
Definition unique (cond : bool) (table : string) (c : Constraint)
    (r : PgError + Database) : PgError + Database :=
  if cond then inl (Pg_UniqueViolation table (Constraint_value c)) else r.
Definition references {A} (o : option A) (table : string) (c : Constraint)
    (r : PgError + Database) : PgError + Database :=
  match o with
  | Some _ => r
  | None => inl (Pg_ForeignKeyViolation table (Constraint_value c))
  end.
Definition taken {A} (o : option A) : bool := match o with Some _ => true | None => false end.
Lemma taken_None {A} (o : option A) : taken o = false → o = None.
Proof. by destruct o. Qed.

Definition insert_user_row (u : User) (db : Database) : PgError + Database :=
  unique (taken (users db !! user_id u)) "users" PK_USERS
  (unique (any_row (λ v, username v = username u) (users db)) "users" UQ_USERS_USERNAME
  (inr (set_users <[user_id u := u]> db))).

Definition insert_friendship_row (f : Friendship) (db : Database) : PgError + Database :=
  unique (taken (friendships db !! (requester_id f, addressee_id f))) "friendships" PK_FRIENDSHIPS
  (references (users db !! requester_id f) "friendships" FK_FRIENDSHIPS_REQUESTER_ID
  (references (users db !! addressee_id f) "friendships" FK_FRIENDSHIPS_ADDRESSEE_ID
  (inr (set_friendships <[(requester_id f, addressee_id f) := f]> db)))).

Definition insert_access_token_row (t : AccessToken) (db : Database) : PgError + Database :=
  unique (taken (access_tokens db !! at_token_hash t)) "access_tokens" PK_ACCESS_TOKENS
  (references (users db !! at_user_id t) "access_tokens" FK_ACCESS_TOKENS_USER_ID
  (inr (set_access_tokens <[at_token_hash t := t]> db))).

Definition insert_refresh_token_row (t : RefreshToken) (db : Database) : PgError + Database :=
  unique (taken (refresh_tokens db !! rt_token_hash t)) "refresh_tokens" PK_REFRESH_TOKENS
  (references (users db !! rt_user_id t) "refresh_tokens" FK_REFRESH_TOKENS_USER_ID
  (inr (set_refresh_tokens <[rt_token_hash t := t]> db))).

(** [created_by UUID NOT NULL] *)
Definition insert_group_row (g : Group) (db : Database) : PgError + Database :=
  match created_by g with
  | None => inl (Pg_NotNullViolation "groups")
  | Some c =>
      unique (taken (groups db !! group_id g)) "groups" PK_GROUPS
      (references (users db !! c) "groups" FK_GROUPS_CREATED_BY
      (inr (set_groups <[group_id g := g]> db)))
  end.

Definition insert_membership_row (m : Membership) (db : Database) : PgError + Database :=
  unique (taken (memberships db !! mb_pk m)) "memberships" PK_MEMBERSHIPS
  (references (groups db !! mb_group_id m) "memberships" FK_MEMBERSHIPS_GROUP_ID
  (references (users db !! mb_user_id m) "memberships" FK_MEMBERSHIPS_USER_ID
  (inr (set_memberships <[mb_pk m := m]> db)))).

Definition insert_direct_message_row (m : DirectMessage) (db : Database) : PgError + Database :=
  unique (taken (direct_messages db !! dm_message_id m)) "direct_messages" PK_DIRECT_MESSAGES
  (references (users db !! dm_sender_id m) "direct_messages" FK_DM_SENDER_ID
  (references (users db !! dm_recipient_id m) "direct_messages" FK_DM_RECIPIENT_ID
  (inr (set_direct_messages <[dm_message_id m := m]> db)))).

Definition insert_group_message_row (m : GroupMessage) (db : Database) : PgError + Database :=
  unique (taken (group_messages db !! gm_message_id m)) "group_messages" PK_GROUP_MESSAGES
  (references (groups db !! gm_group_id m) "group_messages" FK_GROUP_MESSAGES_GROUP_ID
  (references (users db !! gm_sender_id m) "group_messages" FK_GROUP_MESSAGES_SENDER_ID
  (inr (set_group_messages <[gm_message_id m := m]> db)))).

(** Deleting a user row fires its foreign keys: ON DELETE CASCADE removes the
    dependent rows, and [fk_groups_created_by] is ON DELETE SET NULL on a
    NOT NULL column, which fails when the user created a group. *)
Definition delete_user_row (u : UUID) (db : Database) : PgError + Database :=
  if any_row (λ g, created_by g = Some u) (groups db)
  then inl (Pg_NotNullViolation "groups")
  else inr (MkDb
    (delete u (users db))
    (filter (λ kv, requester_id kv.2 ≠ u ∧ addressee_id kv.2 ≠ u) (friendships db))
    (filter (λ kv, at_user_id kv.2 ≠ u) (access_tokens db))
    (filter (λ kv, rt_user_id kv.2 ≠ u) (refresh_tokens db))
    (groups db)
    (filter (λ kv, mb_user_id kv.2 ≠ u) (memberships db))
    (filter (λ kv, dm_sender_id kv.2 ≠ u ∧ dm_recipient_id kv.2 ≠ u) (direct_messages db))
    (filter (λ kv, gm_sender_id kv.2 ≠ u) (group_messages db))).

Definition delete_group_row (g : UUID) (db : Database) : Database :=
  set_groups (delete g)
  (set_memberships (filter (λ kv, mb_group_id kv.2 ≠ g))
  (set_group_messages (filter (λ kv, gm_group_id kv.2 ≠ g)) db)).

(** ** ORDER BY created_at DESC, LIMIT n *)
Definition newer {A} (ts : A → timestamp) : relation A := λ x y, (ts y ≤ ts x)%Z.
#[export] Instance newer_dec {A} (ts : A → timestamp) : RelDecision (newer ts).
Proof. intros x y. unfold newer. apply _. Defined.
Definition order_desc {A} (ts : A → timestamp) (l : list A) : list A :=
  merge_sort (newer ts) l.

(** A SELECT with a LIMIT, which must not be negative. *)
Definition limited (limit : Z) (rows : nat → Database → list record) : stmt := {|
  stmt_locks _ _ := [];
  stmt_exec _ db :=
    if (limit <? 0)%Z then (inl Pg_DataError, db)
    else let l := rows (Z.to_nat limit) db in
         (inr (MkResult l (TagSelect (length l))), db)
|}.

(** ** Read queries *)
Module Fetch.
Section fetch.
Context `{RowOrder}.

(** The rows of a table that satisfy a WHERE clause, in the server's order. *)
Definition where_rows {K A} `{Countable K} (P : A → Prop) `{∀ x, Decision (P x)}
    (t : gmap K A) : list A :=
  scan (filter P (table_rows t)).

Definition select {K A} `{Countable K} `{DBModel A} (t : Database → gmap K A)
    (cols : list string) (P : A → Prop) `{∀ x, Decision (P x)} (key : A → RowKey) : query := {|
  q_rows db := record_of cols <$> where_rows P (t db);
  q_keys db := key <$> where_rows P (t db);
|}.
(** A lookup by primary key. *)
Definition by_key {K A} `{Countable K} `{DBModel A} (t : Database → gmap K A)
    (cols : list string) (k : K) (key : RowKey) : query := {|
  q_rows db := match t db !! k with Some m => [record_of cols m] | None => [] end;
  q_keys db := match t db !! k with Some _ => [key] | None => [] end;
|}.

Definition USER_BY_ID (uid : UUID) : query := by_key users users_cols uid (RUser uid).
Definition USER_BY_USERNAME (name : string) : query :=
  select users users_cols (λ u, username u = name) (λ u, RUser (user_id u)).

Definition between (a b : UUID) (f : Friendship) : Prop :=
  (requester_id f = a ∧ addressee_id f = b) ∨ (requester_id f = b ∧ addressee_id f = a).
#[export] Instance between_dec a b f : Decision (between a b f).
Proof. unfold between. apply _. Defined.

(** LIMIT 1 without ORDER BY: the first row the server finds. *)
Definition FRIENDSHIP_STATUS (a b : UUID) : query :=
  let rows db := take 1 (where_rows (between a b) (friendships db)) in {|
    q_rows db := record_of friendships_cols <$> rows db;
    q_keys db := (λ f, RFriendship (requester_id f) (addressee_id f)) <$> rows db
  |}.
(** The three queries named FOR_SHARE, which no function of the repository uses,
    read without a lock. *)
Definition USER_FOR_SHARE (uid : UUID) : query := by_key users users_cols uid (RUser uid).
Definition FRIENDSHIP_FOR_SHARE (a b : UUID) : query :=
  select friendships friendships_cols (λ f, between a b f ∧ accepted f = true)
    (λ f, RFriendship (requester_id f) (addressee_id f)).
Definition MEMBERSHIP_FOR_SHARE (g u : UUID) : query :=
  by_key memberships memberships_cols (g, u) (RMembership g u).
(** UNION ALL of the two directions. *)
Definition LIST_ACCEPTED_FRIENDS (u : UUID) : query :=
  let rows db :=
    scan (filter (λ f, requester_id f = u ∧ accepted f = true) (table_rows (friendships db)) ++
          filter (λ f, addressee_id f = u ∧ accepted f = true) (table_rows (friendships db))) in {|
    q_rows db := record_of friendships_cols <$> rows db;
    q_keys db := (λ f, RFriendship (requester_id f) (addressee_id f)) <$> rows db
  |}.
Definition LIST_PENDING_REQUESTS (u : UUID) : query :=
  select friendships friendships_cols (λ f, addressee_id f = u ∧ accepted f = false)
    (λ f, RFriendship (requester_id f) (addressee_id f)).

Definition ACCESS_TOKEN (h : string) : query :=
  by_key access_tokens access_tokens_cols h (RAccessToken h).
Definition REFRESH_TOKEN (h : string) : query :=
  by_key refresh_tokens refresh_tokens_cols h (RRefreshToken h).

Definition GROUP_BY_ID (g : UUID) : query := by_key groups groups_cols g (RGroup g).
(** JOIN of memberships with groups on group_id. *)
Definition user_groups (u : UUID) (db : Database) : list Group :=
  omap (λ m, groups db !! mb_group_id m)
       (where_rows (λ m, mb_user_id m = u) (memberships db)).
Definition LIST_USER_GROUPS (u : UUID) : query := {|
  q_rows db := record_of groups_cols <$> user_groups u db;
  q_keys db := RGroup ∘ group_id <$> user_groups u db
|}.
Definition LIST_GROUP_MEMBERSHIPS (g : UUID) : query :=
  select memberships memberships_cols (λ m, mb_group_id m = g)
    (λ m, RMembership (mb_group_id m) (mb_user_id m)).
Definition MEMBERSHIP_BY_IDS (g u : UUID) : query :=
  by_key memberships memberships_cols (g, u) (RMembership g u).

(** Two limited directions, merged, ordered and limited again. *)
Definition dm_direction (s r : UUID) (before : timestamp) (db : Database) : list DirectMessage :=
  order_desc dm_created_at
    (where_rows (λ m, dm_sender_id m = s ∧ dm_recipient_id m = r ∧ (dm_created_at m < before)%Z)
       (direct_messages db)).
Definition dm_history_rows (a b : UUID) (before : timestamp) (limit : nat) (db : Database)
    : list DirectMessage :=
  take limit (order_desc dm_created_at
    (scan (take limit (dm_direction a b before db) ++ take limit (dm_direction b a before db)))).
Definition DM_CONVERSATION_HISTORY (a b : UUID) (before : timestamp) (limit : Z) : stmt :=
  limited limit (λ n db, record_of direct_messages_cols <$> dm_history_rows a b before n db).

Definition group_timeline_rows (g : UUID) (before : timestamp) (limit : nat) (db : Database)
    : list GroupMessage :=
  take limit (order_desc gm_created_at
    (where_rows (λ m, gm_group_id m = g ∧ (gm_created_at m < before)%Z) (group_messages db))).
Definition GROUP_MESSAGES_TIMELINE (g : UUID) (before : timestamp) (limit : Z) : stmt :=
  limited limit (λ n db, record_of group_messages_cols <$> group_timeline_rows g before n db).

End fetch.
End Fetch.

(** ** Inserts and updates *)
Module Write.

Definition INSERT_USER (args : list sqlval) : stmt :=
  insert_stmt ["user_id"; "username"; "password_hash"; "deactivated"; "created_at"] args
    users_cols (λ u, [RUser (user_id u); RUsername (username u)]) (λ _, []) insert_user_row.

Definition update_user (f : User → User) (uid : UUID) (P : User → Prop)
    `{∀ u, Decision (P u)} : stmt :=
  let hit db := u ← users db !! uid; if decide (P u) then Some u else None in
  write_stmt (λ _ db, lock_if (hit db) (NoKeyUpdate, RUser uid)) TagUpdate
    (λ _ db, (match hit db with
              | Some u => set_users <[uid := f u]> db
              | None => db end, count_if (hit db))).

Definition with_deactivated (b : bool) (u : User) : User :=
  MkUser (user_id u) (username u) (password_hash u) b (user_created_at u).
Definition with_password_hash (h : string) (u : User) : User :=
  MkUser (user_id u) (username u) h (deactivated u) (user_created_at u).

Definition DEACTIVATE_USER (uid : UUID) : stmt :=
  update_user (with_deactivated true) uid (λ _, True).
Definition REACTIVATE_USER (uid : UUID) : stmt :=
  update_user (with_deactivated false) uid (λ _, True).
Definition CHANGE_PASSWORD (new_hash : string) (uid : UUID) (old_hash : string) : stmt :=
  update_user (with_password_hash new_hash) uid
    (λ u, password_hash u = old_hash ∧ deactivated u = false).

(** [accepted] is the literal FALSE; both timestamps default to NOW(). *)
Definition SEND_FRIEND_REQUEST (a b : UUID) : stmt := {|
  stmt_locks now db := insert_locks [RFriendship a b] [RUser a; RUser b]
    (insert_friendship_row (MkFriendship a b false now now) db);
  stmt_exec now db :=
    match insert_friendship_row (MkFriendship a b false now now) db with
    | inl e => (inl e, db)
    | inr db' => (inr (MkResult [] (TagInsert 1)), db')
    end
|}.
Definition with_accepted (now : timestamp) (f : Friendship) : Friendship :=
  MkFriendship (requester_id f) (addressee_id f) true (fr_created_at f) now.
Definition ACCEPT_FRIEND_REQUEST (a b : UUID) : stmt :=
  write_stmt (λ _ db, lock_if (friendships db !! (a, b)) (NoKeyUpdate, RFriendship a b)) TagUpdate
    (λ now db, (set_friendships (alter (with_accepted now) (a, b)) db,
                count_if (friendships db !! (a, b)))).

Definition INSERT_ACCESS_TOKEN (args : list sqlval) : stmt :=
  insert_stmt ["token_hash"; "user_id"; "is_revoked"; "expires_at"] args
    access_tokens_cols (λ t, [RAccessToken (at_token_hash t)]) (λ t, [RUser (at_user_id t)])
    insert_access_token_row.
Definition INSERT_REFRESH_TOKEN (args : list sqlval) : stmt :=
  insert_stmt ["token_hash"; "user_id"; "is_revoked"; "expires_at"] args
    refresh_tokens_cols (λ t, [RRefreshToken (rt_token_hash t)]) (λ t, [RUser (rt_user_id t)])
    insert_refresh_token_row.

Definition revoke_at (t : AccessToken) : AccessToken :=
  MkAccessToken (at_token_hash t) (at_user_id t) true (at_expires_at t).
Definition revoke_rt (t : RefreshToken) : RefreshToken :=
  MkRefreshToken (rt_token_hash t) (rt_user_id t) true (rt_expires_at t).
Definition revoke_at_of (u : UUID) (t : AccessToken) : AccessToken :=
  if decide (at_user_id t = u) then revoke_at t else t.
Definition revoke_rt_of (u : UUID) (t : RefreshToken) : RefreshToken :=
  if decide (rt_user_id t = u) then revoke_rt t else t.

Definition REVOKE_ACCESS_TOKEN (h : string) : stmt :=
  write_stmt (λ _ db, lock_if (access_tokens db !! h) (NoKeyUpdate, RAccessToken h)) TagUpdate
    (λ _ db, (set_access_tokens (alter revoke_at h) db, count_if (access_tokens db !! h))).
Definition REVOKE_REFRESH_TOKEN (h : string) : stmt :=
  write_stmt (λ _ db, lock_if (refresh_tokens db !! h) (NoKeyUpdate, RRefreshToken h)) TagUpdate
    (λ _ db, (set_refresh_tokens (alter revoke_rt h) db, count_if (refresh_tokens db !! h))).

Definition REVOKE_ALL_USER_ACCESS_TOKENS (u : UUID) : stmt :=
  let hits db := filter (λ t, at_user_id t = u) (table_rows (access_tokens db)) in
  write_stmt (λ _ db, (λ t, (NoKeyUpdate, RAccessToken (at_token_hash t))) <$> hits db) TagUpdate
    (λ _ db, (set_access_tokens (fmap (revoke_at_of u)) db, length (hits db))).
Definition REVOKE_ALL_USER_REFRESH_TOKENS (u : UUID) : stmt :=
  let hits db := filter (λ t, rt_user_id t = u) (table_rows (refresh_tokens db)) in
  write_stmt (λ _ db, (λ t, (NoKeyUpdate, RRefreshToken (rt_token_hash t))) <$> hits db) TagUpdate
    (λ _ db, (set_refresh_tokens (fmap (revoke_rt_of u)) db, length (hits db))).

Definition CREATE_GROUP (args : list sqlval) : stmt :=
  insert_stmt ["group_id"; "name"; "created_by"; "created_at"] args
    groups_cols (λ g, [RGroup (group_id g)])
    (λ g, match created_by g with Some c => [RUser c] | None => [] end) insert_group_row.
Definition ADD_GROUP_MEMBER (args : list sqlval) : stmt :=
  insert_stmt ["group_id"; "user_id"; "joined_at"] args
    memberships_cols (λ m, [RMembership (mb_group_id m) (mb_user_id m)])
    (λ m, [RGroup (mb_group_id m); RUser (mb_user_id m)]) insert_membership_row.
Definition SEND_DM (args : list sqlval) : stmt :=
  insert_stmt ["message_id"; "sender_id"; "recipient_id"; "content"; "created_at"] args
    direct_messages_cols (λ m, [RDirectMessage (dm_message_id m)])
    (λ m, [RUser (dm_sender_id m); RUser (dm_recipient_id m)]) insert_direct_message_row.
Definition SEND_GROUP_MESSAGE (args : list sqlval) : stmt :=
  insert_stmt ["message_id"; "group_id"; "sender_id"; "content"; "created_at"] args
    group_messages_cols (λ m, [RGroupMessage (gm_message_id m)])
    (λ m, [RGroup (gm_group_id m); RUser (gm_sender_id m)]) insert_group_message_row.

End Write.

(** ** Deletions *)
Module Delete.

(** The rows that refer to a user, which the deletion of the user takes along. *)
Definition user_dependents (u : UUID) (db : Database) : list RowKey :=
  ((λ f, RFriendship (requester_id f) (addressee_id f)) <$>
    filter (λ f, requester_id f = u ∨ addressee_id f = u) (table_rows (friendships db))) ++
  ((λ t, RAccessToken (at_token_hash t)) <$>
    filter (λ t, at_user_id t = u) (table_rows (access_tokens db))) ++
  ((λ t, RRefreshToken (rt_token_hash t)) <$>
    filter (λ t, rt_user_id t = u) (table_rows (refresh_tokens db))) ++
  ((λ m, RMembership (mb_group_id m) (mb_user_id m)) <$>
    filter (λ m, mb_user_id m = u) (table_rows (memberships db))) ++
  ((λ m, RDirectMessage (dm_message_id m)) <$>
    filter (λ m, dm_sender_id m = u ∨ dm_recipient_id m = u) (table_rows (direct_messages db))) ++
  ((λ m, RGroupMessage (gm_message_id m)) <$>
    filter (λ m, gm_sender_id m = u) (table_rows (group_messages db))).
Definition group_dependents (g : UUID) (db : Database) : list RowKey :=
  ((λ m, RMembership (mb_group_id m) (mb_user_id m)) <$>
    filter (λ m, mb_group_id m = g) (table_rows (memberships db))) ++
  ((λ m, RGroupMessage (gm_message_id m)) <$>
    filter (λ m, gm_group_id m = g) (table_rows (group_messages db))).

Definition USER_BY_ID (u : UUID) : stmt := {|
  stmt_locks _ db :=
    match users db !! u with
    | Some _ => lock_all ForUpdate (RUser u :: user_dependents u db)
    | None => []
    end;
  stmt_exec _ db :=
    match users db !! u with
    | None => (inr (MkResult [] (TagDelete 0)), db)
    | Some _ =>
        match delete_user_row u db with
        | inl e => (inl e, db)
        | inr db' => (inr (MkResult [] (TagDelete 1)), db')
        end
    end
|}.

Definition REMOVE_FRIENDSHIP (a b : UUID) : stmt :=
  let hits db := filter (Fetch.between a b) (table_rows (friendships db)) in
  write_stmt (λ _ db, (λ f, (ForUpdate, RFriendship (requester_id f) (addressee_id f))) <$> hits db)
    TagDelete
    (λ _ db, (set_friendships (filter (λ kv, ¬ Fetch.between a b kv.2)) db, length (hits db))).

Definition at_dead (now : timestamp) (t : AccessToken) : Prop :=
  (at_expires_at t < now)%Z ∨ at_is_revoked t = true.
Definition rt_dead (now : timestamp) (t : RefreshToken) : Prop :=
  (rt_expires_at t < now)%Z ∨ rt_is_revoked t = true.
#[export] Instance at_dead_dec now t : Decision (at_dead now t).
Proof. unfold at_dead. apply _. Defined.
#[export] Instance rt_dead_dec now t : Decision (rt_dead now t).
Proof. unfold rt_dead. apply _. Defined.

Definition EXPIRED_ACCESS_TOKENS : stmt :=
  write_stmt (λ now db, (λ t, (ForUpdate, RAccessToken (at_token_hash t))) <$>
                filter (at_dead now) (table_rows (access_tokens db))) TagDelete
    (λ now db, (set_access_tokens (filter (λ kv, ¬ at_dead now kv.2)) db,
                length (filter (at_dead now) (table_rows (access_tokens db))))).
Definition EXPIRED_REFRESH_TOKENS : stmt :=
  write_stmt (λ now db, (λ t, (ForUpdate, RRefreshToken (rt_token_hash t))) <$>
                filter (rt_dead now) (table_rows (refresh_tokens db))) TagDelete
    (λ now db, (set_refresh_tokens (filter (λ kv, ¬ rt_dead now kv.2)) db,
                length (filter (rt_dead now) (table_rows (refresh_tokens db))))).

Definition DELETE_GROUP (g u : UUID) : stmt :=
  let hit db := r ← groups db !! g; if decide (created_by r = Some u) then Some r else None in
  write_stmt (λ _ db, match hit db with
                      | Some _ => lock_all ForUpdate (RGroup g :: group_dependents g db)
                      | None => [] end) TagDelete
    (λ _ db, (match hit db with Some _ => delete_group_row g db | None => db end,
              count_if (hit db))).
Definition REMOVE_GROUP_MEMBER (g u : UUID) : stmt :=
  write_stmt (λ _ db, lock_if (memberships db !! (g, u)) (ForUpdate, RMembership g u)) TagDelete
    (λ _ db, (set_memberships (delete (g, u)) db, count_if (memberships db !! (g, u)))).

End Delete.

(** [CLEAR_TABLES]: TRUNCATE ... CASCADE reaches the message tables through
    their foreign keys. Its table-level lock is not a row lock. *)
Definition CLEAR_TABLES : stmt :=
  write_stmt (λ _ _, []) (λ _, TagSelect 0) (λ _ _, (empty_db, 0)).
