(* ===== verification/Tx.v ===== *)
(** * Database sessions as programs (the [conn] argument of the queries)

    The body of an [async with db.transaction() as conn] block is a program of
    SQL statements, fresh values and exceptions: a free monad, so that one text
    of a handler can be run on its own, statement by statement, or interleaved
    with other sessions. *)

From S2P Require Export Sql.

(** ** Sources of fresh values

    [uuid4()], the wall clock, the operating system's random bytes, and the
    clock of the database server; each request has its own tick. *)
Class Entropy := {
  ent_uuid : nat → UUID;
  ent_clock : nat → timestamp;
  ent_mono : nat → timestamp;
  ent_bytes : nat → nat → list N;
  ent_dbclock : nat → timestamp;
}.
Class EntropyLaws `{Entropy} : Prop := {
  ent_bytes_length k n : length (ent_bytes k n) = n;
  ent_bytes_range k n : bytes (ent_bytes k n);
}.

Inductive draw := DUuid | DNow | DMono | DBytes (n : nat).
Definition draw_type (d : draw) : Type :=
  match d with DUuid => UUID | DNow | DMono => timestamp | DBytes _ => list N end.
Definition sample `{Entropy} (d : draw) (tick : nat) : draw_type d :=
  match d with
  | DUuid => ent_uuid tick
  | DNow => ent_clock tick
  | DMono => ent_mono tick
  | DBytes n => ent_bytes tick n
  end.

(** ** Programs *)

Inductive txprog (A : Type) : Type :=
| TxRet (a : A)
| TxRaise (e : Exn)
| TxSql (s : stmt) (k : PgError + SqlResult → txprog A)
| TxDraw (d : draw) (k : draw_type d → txprog A).
Arguments TxRet {A} a.
Arguments TxRaise {A} e.
Arguments TxSql {A} s k.
Arguments TxDraw {A} d k.

#[export] Instance tx_ret : MRet txprog := @TxRet.
#[export] Instance tx_bind : MBind txprog :=
  λ A B f, fix go p := match p with
  | TxRet a => f a
  | TxRaise e => TxRaise e
  | TxSql s k => TxSql s (λ r, go (k r))
  | TxDraw d k => TxDraw d (λ x, go (k x))
  end.

(** [try: p except ...: h e] *)
Fixpoint tx_try {A} (h : Exn → txprog A) (p : txprog A) : txprog A :=
  match p with
  | TxRet a => TxRet a
  | TxRaise e => h e
  | TxSql s k => TxSql s (λ r, tx_try h (k r))
  | TxDraw d k => TxDraw d (λ x, tx_try h (k x))
  end.

Definition tx_draw (d : draw) : txprog (draw_type d) := TxDraw d TxRet.
Definition tx_raise {A} (e : Exn) : txprog A := TxRaise e.
Definition tx_lift {A} (r : outcome' A) : txprog A :=
  match r with Ok a => TxRet a | Raise e => TxRaise e end.

(** [await conn.execute(...)], [conn.fetchrow(...)], [conn.fetch(...)] *)
Definition conn_sql (s : stmt) : txprog SqlResult :=
  TxSql s (λ r, match r with inl e => TxRaise (ExPg e) | inr x => TxRet x end).
Definition execute (s : stmt) : txprog CommandTag := r ← conn_sql s; mret (res_tag r).
Definition fetchrow (s : stmt) : txprog (option record) := r ← conn_sql s; mret (head (res_rows r)).
Definition fetch (s : stmt) : txprog (list record) := r ← conn_sql s; mret (res_rows r).

(** ** Running a session alone

    [tx_faults] are the driver errors that strike coming statements, [None]
    for a statement that goes through; an empty list is a healthy server. What a
    failing statement did is of no account: a transaction is rolled back, and
    outside one the services only read. *)
Record TxState := MkTx {
  tx_db : Database; tx_tick : nat; tx_faults : list (option PgError)
}.

Section run.
Context `{Entropy}.

Definition run_stmt (now : timestamp) (s : stmt) (st : TxState)
    : (PgError + SqlResult) * TxState :=
  match tx_faults st with
  | Some e :: fs => (inl e, MkTx (tx_db st) (tx_tick st) fs)
  | fs => let '(r, db) := stmt_exec s now (tx_db st) in (r, MkTx db (tx_tick st) (tail fs))
  end.

Fixpoint run_tx {A} (now : timestamp) (p : txprog A) (st : TxState) : outcome' A * TxState :=
  match p with
  | TxRet a => (Ok a, st)
  | TxRaise e => (Raise e, st)
  | TxSql s k => let '(r, st) := run_stmt now s st in run_tx now (k r) st
  | TxDraw d k => run_tx now (k (sample d (tx_tick st)))
                    (MkTx (tx_db st) (S (tx_tick st)) (tx_faults st))
  end.

Lemma run_tx_bind {A B} now (p : txprog A) (f : A → txprog B) st :
  run_tx now (p ≫= f) st =
  match run_tx now p st with
  | (Ok a, st') => run_tx now (f a) st'
  | (Raise e, st') => (Raise e, st')
  end.
Proof.
  revert st. induction p as [a|e|s k IH|d k IH]; intros st; [done|done| |].
  - cbn. destruct (run_stmt now s st) as [r st']. apply IH.
  - cbn. apply IH.
Qed.

Lemma run_tx_try {A} now (h : Exn → txprog A) (p : txprog A) st :
  run_tx now (tx_try h p) st =
  match run_tx now p st with
  | (Ok a, st') => (Ok a, st')
  | (Raise e, st') => run_tx now (h e) st'
  end.
Proof.
  revert st. induction p as [a|e|s k IH|d k IH]; intros st; [done|done| |].
  - cbn. destruct (run_stmt now s st) as [r st']. apply IH.
  - cbn. apply IH.
Qed.

(** The faults that are left are the last ones. *)
Lemma run_tx_faults {A} now (p : txprog A) st :
  tx_faults (run_tx now p st).2 `suffix_of` tx_faults st.
Proof.
  revert st. induction p as [a|e|s k IH|d k IH]; intros st; cbn; [done|done| |].
  2: { etrans; [apply IH|]. done. }
  destruct (run_stmt now s st) as [r st'] eqn:Hs. etrans; [apply IH|].
  revert Hs. unfold run_stmt. destruct (tx_faults st) as [|[e|] fs] eqn:Hf;
    [destruct (stmt_exec _ _ _)| |destruct (stmt_exec _ _ _)]; intros [= _ <-]; cbn;
    [done|by apply suffix_cons_r..].
Qed.

Lemma run_tx_ret {A} now (a : A) st : run_tx now (mret a) st = (Ok a, st).
Proof. done. Qed.

Lemma run_conn_sql now s st :
  run_tx now (conn_sql s) st =
  match run_stmt now s st with
  | (inl e, st') => (Raise (ExPg e), st')
  | (inr x, st') => (Ok x, st')
  end.
Proof. cbn. by destruct (run_stmt now s st) as [[e|x] st']. Qed.

Lemma run_tx_faultless {A} now (body : txprog A) db t :
  tx_faults (run_tx now body (MkTx db t [])).2 = [].
Proof.
  revert db t. induction body as [a|e|s k IH|d k IH]; intros db t; cbn; [done|done| |apply IH].
  unfold run_stmt. cbn. destruct (stmt_exec s now db) as [r db']. apply IH.
Qed.

(** A property of the database that every statement of a program preserves
    holds after the program, whatever faults strike and however it ends. *)
Inductive stmts_ok {A} (P : stmt → Prop) : txprog A → Prop :=
| ok_ret a : stmts_ok P (TxRet a)
| ok_raise e : stmts_ok P (TxRaise e)
| ok_sql s k : P s → (∀ r, stmts_ok P (k r)) → stmts_ok P (TxSql s k)
| ok_draw d k : (∀ x, stmts_ok P (k x)) → stmts_ok P (TxDraw d k).

Lemma stmts_ok_weaken {A} (P Q : stmt → Prop) (p : txprog A) :
  (∀ s, P s → Q s) → stmts_ok P p → stmts_ok Q p.
Proof. intros HPQ. induction 1; constructor; auto. Qed.
Lemma stmts_ok_bind {A B} P (p : txprog A) (f : A → txprog B) :
  stmts_ok P p → (∀ a, stmts_ok P (f a)) → stmts_ok P (p ≫= f).
Proof.
  intros Hp Hf. induction Hp as [a|e|s k Hs Hk IH|d k Hk IH]; cbn; try constructor; auto.
Qed.

Lemma stmts_ok_try {A} P (h : Exn → txprog A) (p : txprog A) :
  stmts_ok P p → (∀ e, stmts_ok P (h e)) → stmts_ok P (tx_try h p).
Proof.
  intros Hp Hh. induction Hp as [a|e|s k Hs Hk IH|d k Hk IH]; cbn; try constructor; auto.
Qed.

Lemma stmts_ok_sql P s : P s → stmts_ok P (conn_sql s).
Proof. intros Hs. constructor; [done|]. intros [e|x]; constructor. Qed.

Definition preserves (I : Database → Prop) (s : stmt) : Prop :=
  ∀ now db, I db → I (stmt_exec s now db).2.

Lemma run_tx_preserves {A} (I : Database → Prop) now (p : txprog A) st :
  stmts_ok (preserves I) p → I (tx_db st) → I (tx_db (run_tx now p st).2).
Proof.
  intros Hp. revert st. induction Hp as [a|e|s k Hs Hk IH|d k Hk IH]; intros st HI; cbn;
    [done|done| |by apply IH].
  unfold run_stmt. destruct (tx_faults st) as [|[e|] fs]; [|by apply IH|];
    (specialize (Hs now (tx_db st) HI); destruct (stmt_exec s now (tx_db st)) as [r db];
     apply IH, Hs).
Qed.

(** ** Driver errors are fatal to a session

    [strict_tx p]: whatever [p] does after a driver error, it raises. Every query
    function is strict, so a session that returns ran every statement. *)
Inductive fails {A} : txprog A → Prop :=
| fails_raise e : fails (TxRaise e)
| fails_draw d k : (∀ x, fails (k x)) → fails (TxDraw d k).
Inductive strict_tx {A} : txprog A → Prop :=
| strict_ret a : strict_tx (TxRet a)
| strict_raise e : strict_tx (TxRaise e)
| strict_sql s k : (∀ e, fails (k (inl e))) → (∀ r, strict_tx (k (inr r))) → strict_tx (TxSql s k)
| strict_draw d k : (∀ x, strict_tx (k x)) → strict_tx (TxDraw d k).

Lemma fails_bind {A B} (p : txprog A) (f : A → txprog B) : fails p → fails (p ≫= f).
Proof. induction 1; cbn; constructor; auto. Qed.
Lemma fails_try {A} (h : Exn → txprog A) (p : txprog A) :
  fails p → (∀ e, fails (h e)) → fails (tx_try h p).
Proof. intros Hp Hh. induction Hp; cbn; [apply Hh|constructor; auto]. Qed.
Lemma fails_strict {A} (p : txprog A) : fails p → strict_tx p.
Proof. induction 1; constructor; auto. Qed.
Lemma strict_bind {A B} (p : txprog A) (f : A → txprog B) :
  strict_tx p → (∀ a, strict_tx (f a)) → strict_tx (p ≫= f).
Proof.
  intros Hp Hf. induction Hp; cbn; try constructor; auto. intros e. by apply fails_bind.
Qed.
Lemma strict_try {A} (h : Exn → txprog A) (p : txprog A) :
  strict_tx p → (∀ e, fails (h e)) → strict_tx (tx_try h p).
Proof.
  intros Hp Hh. induction Hp; cbn; [constructor|by apply fails_strict| |].
  - constructor; [intros e; by apply fails_try|done].
  - constructor; auto.
Qed.
Lemma strict_conn_sql s : strict_tx (conn_sql s).
Proof. constructor; constructor. Qed.

Lemma run_fails {A} now (p : txprog A) st a st' : fails p → run_tx now p st ≠ (Ok a, st').
Proof. intros Hp. revert st. induction Hp as [e|d k _ IH]; intros st; cbn; [done|apply IH]. Qed.

(** A strict session that returns did what it does on a faultless server. *)
Lemma run_strict {A} now (p : txprog A) db t fs a st :
  strict_tx p → run_tx now p (MkTx db t fs) = (Ok a, st) →
  run_tx now p (MkTx db t []) = (Ok a, MkTx (tx_db st) (tx_tick st) []).
Proof.
  intros Hp. revert db t fs. induction Hp as [a'|e|s k Hk _ IH|d k _ IH]; intros db t fs; cbn.
  - by intros [= <- <-].
  - discriminate.
  - unfold run_stmt. cbn. destruct fs as [|[e|] fs]; cbn.
    + destruct (stmt_exec s now db) as [[e|r] db']; [|apply IH].
      intros Hr. by apply run_fails in Hr.
    + intros Hr. by apply run_fails in Hr.
    + destruct (stmt_exec s now db) as [[e|r] db']; [|apply IH].
      intros Hr. by apply run_fails in Hr.
  - apply IH.
Qed.

End run.

Create HintDb tx discriminated.
#[export] Hint Resolve stmts_ok_bind stmts_ok_try stmts_ok_sql : tx.
#[export] Hint Constructors stmts_ok : tx.
