(* ===== verification/Queries.v ===== *)
(** * The query functions (database/queries.py)

    Each function of the repository as a program over a session: the statement
    it sends, the exceptions it turns an empty result, a zero command tag or an
    integrity violation into, and the model it builds from the record. *)

From S2P Require Export Tx.

(** Records of [SELECT *] and [RETURNING *] carry every column, so the default
    factories of the dataclasses are never consulted here. *)
Definition no_defaults : Defaults := MkDefaults inhabitant 0.
Definition model_from_record M `{DBModel M} (r : record) : txprog M :=
  tx_lift (match from_record M no_defaults r with Some m => Ok m | None => Raise ExTypeError end).
Definition models_from_records M `{DBModel M} (rs : list record) : txprog (list M) :=
  tx_lift (match from_records no_defaults rs with Some l => Ok l | None => Raise ExTypeError end).
Definition model_update {M} `{DBModel M} (m : M) (r : record) : txprog M :=
  tx_lift (match update_from_record m r with Some m' => Ok m' | None => Raise ExTypeError end).

Definition not_found {A} (e : Entity) (identifier : string) : txprog A :=
  tx_raise (ExDb (NotFoundError (Some e) (Some identifier))).

(** [except asyncpg.IntegrityConstraintViolationError as e: raise
    ConstraintViolationError.from_asyncpg(e) from e] *)
Definition catch_integrity {A} (p : txprog A) : txprog A :=
  tx_try (λ e, match e with
               | ExPg pe => if is_integrity pe then TxRaise (ExDb (from_asyncpg pe)) else TxRaise e
               | _ => TxRaise e
               end) p.

(** [record = await conn.fetchrow(...); if not record: raise NotFoundError] *)
Definition get_model M `{DBModel M} (s : stmt) (e : Entity) (identifier : string) : txprog M :=
  rec ← fetchrow s;
  match rec with None => not_found e identifier | Some r => model_from_record M r end.

(** [status = await conn.execute(...); if status == zero: raise NotFoundError] *)
Definition execute_or_not_found (s : stmt) (zero : CommandTag) (e : Entity) (identifier : string)
    : txprog unit :=
  status ← execute s;
  if decide (status = zero) then not_found e identifier else mret tt.

(** [record = await conn.fetchrow(insert); if not record: raise NotFoundError;
    return model.update_from_record(record)] *)
Definition insert_model {M} `{DBModel M} (s : stmt) (e : Entity) (identifier : string) (m : M)
    : txprog M :=
  rec ← catch_integrity (fetchrow s);
  match rec with None => not_found e identifier | Some r => model_update m r end.

(** ** Schema *)
Definition clear_tables : txprog unit := _ ← execute CLEAR_TABLES; mret tt.

Section queries.
Context `{RowOrder}.
Implicit Types for_update : bool.

(** ** Users *)
Definition get_user_by_id (uid : UUID) for_update : txprog User :=
  get_model User (with_lock (Fetch.USER_BY_ID uid) for_update) USER (str_uuid uid).
Definition get_user_by_username (name : string) for_update : txprog User :=
  get_model User (with_lock (Fetch.USER_BY_USERNAME name) for_update) USER name.
Definition create_user (user : User) : txprog User :=
  insert_model (Write.INSERT_USER (to_args user)) USER (str_uuid (user_id user)) user.
Definition deactivate_user (uid : UUID) : txprog unit :=
  execute_or_not_found (Write.DEACTIVATE_USER uid) UPDATE_ZERO USER (str_uuid uid).
Definition reactivate_user (uid : UUID) : txprog unit :=
  execute_or_not_found (Write.REACTIVATE_USER uid) UPDATE_ZERO USER (str_uuid uid).
Definition update_user_password (uid : UUID) (new_password_hash old_password_hash : string)
    : txprog unit :=
  execute_or_not_found (Write.CHANGE_PASSWORD new_password_hash uid old_password_hash)
    UPDATE_ZERO USER (str_uuid uid).
Definition delete_user (uid : UUID) : txprog unit :=
  execute_or_not_found (Delete.USER_BY_ID uid) DELETE_ZERO USER (str_uuid uid).

(** ** Friendships *)
Definition get_friendship_status (user_a user_b : UUID) for_update : txprog Friendship :=
  get_model Friendship (with_lock (Fetch.FRIENDSHIP_STATUS user_a user_b) for_update)
    FRIENDSHIP (str_uuid user_a +:+ " <-> " +:+ str_uuid user_b).
Definition list_accepted_friends (uid : UUID) : txprog (list Friendship) :=
  rs ← fetch (Fetch.LIST_ACCEPTED_FRIENDS uid); models_from_records Friendship rs.
Definition list_pending_requests (uid : UUID) : txprog (list Friendship) :=
  rs ← fetch (Fetch.LIST_PENDING_REQUESTS uid); models_from_records Friendship rs.
Definition send_friend_request (requester addressee : UUID) : txprog unit :=
  catch_integrity (_ ← execute (Write.SEND_FRIEND_REQUEST requester addressee); mret tt).
Definition accept_friend_request (requester addressee : UUID) : txprog unit :=
  execute_or_not_found (Write.ACCEPT_FRIEND_REQUEST requester addressee) UPDATE_ZERO
    FRIENDSHIP (str_uuid requester +:+ ", " +:+ str_uuid addressee).
Definition remove_friendship (user_a user_b : UUID) : txprog unit :=
  execute_or_not_found (Delete.REMOVE_FRIENDSHIP user_a user_b) DELETE_ZERO
    FRIENDSHIP (str_uuid user_a +:+ ", " +:+ str_uuid user_b).

(** ** Tokens *)
Definition get_access_token (token_hash : string) for_update : txprog AccessToken :=
  get_model AccessToken (with_lock (Fetch.ACCESS_TOKEN token_hash) for_update)
    ACCESS_TOKEN token_hash.
Definition get_refresh_token (token_hash : string) for_update : txprog RefreshToken :=
  get_model RefreshToken (with_lock (Fetch.REFRESH_TOKEN token_hash) for_update)
    REFRESH_TOKEN token_hash.
Definition create_access_token (token : AccessToken) : txprog unit :=
  catch_integrity (_ ← execute (Write.INSERT_ACCESS_TOKEN (to_args token)); mret tt).
Definition create_refresh_token (token : RefreshToken) : txprog unit :=
  catch_integrity (_ ← execute (Write.INSERT_REFRESH_TOKEN (to_args token)); mret tt).
Definition revoke_access_token (token_hash : string) : txprog unit :=
  execute_or_not_found (Write.REVOKE_ACCESS_TOKEN token_hash) UPDATE_ZERO ACCESS_TOKEN token_hash.
Definition revoke_refresh_token (token_hash : string) : txprog unit :=
  execute_or_not_found (Write.REVOKE_REFRESH_TOKEN token_hash) UPDATE_ZERO REFRESH_TOKEN token_hash.
Definition revoke_all_user_access_tokens (uid : UUID) : txprog unit :=
  _ ← execute (Write.REVOKE_ALL_USER_ACCESS_TOKENS uid); mret tt.
Definition revoke_all_user_refresh_tokens (uid : UUID) : txprog unit :=
  _ ← execute (Write.REVOKE_ALL_USER_REFRESH_TOKENS uid); mret tt.
Definition purge_expired_access_tokens : txprog nat :=
  status ← execute Delete.EXPIRED_ACCESS_TOKENS; mret (tag_count status).
Definition purge_expired_refresh_tokens : txprog nat :=
  status ← execute Delete.EXPIRED_REFRESH_TOKENS; mret (tag_count status).

(** ** Groups *)
Definition get_group_by_id (gid : UUID) for_update : txprog Group :=
  get_model Group (with_lock (Fetch.GROUP_BY_ID gid) for_update) GROUP (str_uuid gid).
Definition list_user_groups (uid : UUID) : txprog (list Group) :=
  rs ← fetch (Fetch.LIST_USER_GROUPS uid); models_from_records Group rs.
Definition list_group_memberships (gid : UUID) : txprog (list Membership) :=
  rs ← fetch (Fetch.LIST_GROUP_MEMBERSHIPS gid); models_from_records Membership rs.
Definition create_group (group : Group) : txprog Group :=
  insert_model (Write.CREATE_GROUP (to_args group)) GROUP (str_uuid (group_id group)) group.
Definition delete_group (gid creator : UUID) : txprog unit :=
  execute_or_not_found (Delete.DELETE_GROUP gid creator) DELETE_ZERO GROUP (str_uuid gid).
Definition get_group_memberships (gid : UUID) : txprog (list Membership) :=
  rs ← fetch (Fetch.LIST_GROUP_MEMBERSHIPS gid); models_from_records Membership rs.

(** ** Memberships *)
Definition membership_identifier (gid uid : UUID) : string :=
  "Group:" +:+ str_uuid gid +:+ " User:" +:+ str_uuid uid.
Definition get_membership (gid uid : UUID) for_update : txprog Membership :=
  get_model Membership (with_lock (Fetch.MEMBERSHIP_BY_IDS gid uid) for_update)
    MEMBERSHIP (membership_identifier gid uid).
(** A foreign-key violation, of either key, is reported as a missing user; a
    duplicate as a constraint violation. *)
Definition add_group_member (membership : Membership) : txprog Membership :=
  rec ← tx_try (λ e, match e with
    | ExPg (Pg_ForeignKeyViolation _ _) => not_found USER (str_uuid (mb_user_id membership))
    | ExPg (Pg_UniqueViolation _ _ as pe) => TxRaise (ExDb (from_asyncpg pe))
    | _ => TxRaise e
    end) (fetchrow (Write.ADD_GROUP_MEMBER (to_args membership)));
  match rec with
  | None => not_found MEMBERSHIP
      ("(UUID('" +:+ str_uuid (mb_group_id membership) +:+ "'), UUID('" +:+
       str_uuid (mb_user_id membership) +:+ "'))")
  | Some r => model_update membership r
  end.
Definition remove_group_member (gid uid : UUID) : txprog unit :=
  execute_or_not_found (Delete.REMOVE_GROUP_MEMBER gid uid) DELETE_ZERO
    MEMBERSHIP (membership_identifier gid uid).

(** ** Messages *)
Definition get_dm_conversation_history (user_a user_b : UUID) (before : timestamp) (limit : Z)
    : txprog (list DirectMessage) :=
  rs ← fetch (Fetch.DM_CONVERSATION_HISTORY user_a user_b before limit);
  models_from_records DirectMessage rs.
Definition get_group_messages_timeline (gid : UUID) (before : timestamp) (limit : Z)
    : txprog (list GroupMessage) :=
  rs ← fetch (Fetch.GROUP_MESSAGES_TIMELINE gid before limit);
  models_from_records GroupMessage rs.
Definition send_direct_message (m : DirectMessage) : txprog DirectMessage :=
  insert_model (Write.SEND_DM (to_args m)) DIRECT_MESSAGE (str_uuid (dm_message_id m)) m.
Definition send_group_message (m : GroupMessage) : txprog GroupMessage :=
  insert_model (Write.SEND_GROUP_MESSAGE (to_args m)) GROUP_MESSAGE (str_uuid (gm_message_id m)) m.

End queries.
