(* ===== verification/QuerySpecs.v ===== *)
(** * What the query functions do on a healthy connection

    For each query function, its result and its effect on the tables, as
    rewriting lemmas: the services' proofs use these and never unfold a
    statement. *)

From S2P Require Export Queries.

(** The exception an integrity violation surfaces as. *)
Definition pg_exn (e : PgError) : Exn :=
  if is_integrity e then ExDb (from_asyncpg e) else ExPg e.
Definition nf_exn (e : Entity) (i : string) : Exn := ExDb (NotFoundError (Some e) (Some i)).
Definition some_or {A} (o : option A) (e : Exn) : outcome' A :=
  match o with Some a => Ok a | None => Raise e end.

Section generic.
Context `{Entropy}.
Context `{DBModelLaws M}.
Abbreviation fields := (mjoin (@mro_annotations M _)).

Lemma omap_getattr_record (m : M) (cols : list string) :
  (∀ k, k ∈ cols → k ∈ fields) →
  zip cols (omap (model_getattr m) cols) = record_of cols m.
Proof.
  unfold record_of. induction cols as [|c cols IH]; intros Hc; [done|].
  cbn [omap list_omap]. destruct (proj2 (getattr_fields m c)) as [v Hv]; [apply Hc; by left|].
  rewrite Hv. cbn. rewrite IH; [done|]. intros k Hk. apply Hc. by right.
Qed.

(** Binding [*model.to_args()] to the columns of the INSERT, in field order,
    rebuilds the model. *)
Lemma init_to_args df (m : M) :
  model_init df (λ k, assoc k (zip fields (to_args m))) = Some m.
Proof.
  unfold to_args. rewrite ordered_fields_spec, omap_getattr_record by done.
  apply init_of_getattr. intros k Hk. by rewrite assoc_record_of, bool_decide_eq_true_2.
Qed.

Lemma exec_insert cols tcols keys refs ins now (m : M) db :
  cols = fields →
  stmt_exec (insert_stmt cols (to_args m) tcols keys refs ins) now db =
  match ins m db with
  | inl e => (inl e, db)
  | inr db' => (inr (MkResult [record_of tcols m] (TagInsert 1)), db')
  end.
Proof. intros ->. cbn -[to_args]. by rewrite init_to_args. Qed.

Lemma run_insert_model cols tcols keys refs ins now ent ident (m : M) db t :
  cols = fields →
  (∀ k, k ∈ tcols ↔ k ∈ fields) →
  run_tx now (insert_model (insert_stmt cols (to_args m) tcols keys refs ins) ent ident m)
    (MkTx db t []) =
  match ins m db with
  | inl e => (Raise (pg_exn e), MkTx db t [])
  | inr db' => (Ok m, MkTx db' t [])
  end.
Proof.
  intros Hc Hcols. unfold insert_model, catch_integrity, fetchrow.
  rewrite run_tx_bind, run_tx_try, run_tx_bind, run_conn_sql. unfold run_stmt.
  cbn [tx_faults tx_db tx_tick]. rewrite exec_insert by done.
  destruct (ins m db) as [e|db']; cbn -[update_from_record].
  - unfold pg_exn. by destruct (is_integrity e).
  - unfold model_update. by rewrite update_from_record_of.
Qed.

Lemma run_insert_unit cols tcols keys refs ins now (m : M) db t :
  cols = fields →
  run_tx now (catch_integrity
      (_ ← execute (insert_stmt cols (to_args m) tcols keys refs ins); mret tt)) (MkTx db t []) =
  match ins m db with
  | inl e => (Raise (pg_exn e), MkTx db t [])
  | inr db' => (Ok tt, MkTx db' t [])
  end.
Proof.
  intros Hc. unfold catch_integrity, execute.
  rewrite run_tx_try, !run_tx_bind, run_conn_sql. unfold run_stmt.
  cbn [tx_faults tx_db tx_tick]. rewrite exec_insert by done.
  destruct (ins m db) as [e|db']; cbn; [|done].
  unfold pg_exn. by destruct (is_integrity e).
Qed.

Lemma run_get_model (q : query) (rows : Database → list M) cols fu now ent ident db t :
  (∀ db, q_rows q db = record_of cols <$> rows db) →
  (∀ k, k ∈ fields → k ∈ cols) →
  run_tx now (get_model M (with_lock q fu) ent ident) (MkTx db t []) =
  (some_or (head (rows db)) (nf_exn ent ident), MkTx db t []).
Proof.
  intros Hq Hcols. unfold get_model, fetchrow.
  rewrite !run_tx_bind, run_conn_sql. cbn. rewrite Hq.
  destruct (rows db) as [|m l]; cbn -[from_record]; [done|].
  unfold model_from_record. by rewrite from_record_of.
Qed.

Lemma run_fetch_models (s : stmt) (rows : list M) cols tag now db t :
  stmt_exec s now db = (inr (MkResult (record_of cols <$> rows) tag), db) →
  (∀ k, k ∈ fields → k ∈ cols) →
  run_tx now (rs ← fetch s; models_from_records M rs) (MkTx db t []) = (Ok rows, MkTx db t []).
Proof.
  intros Hs Hcols. unfold fetch. rewrite !run_tx_bind, run_conn_sql. unfold run_stmt. cbn.
  rewrite Hs. cbn. unfold models_from_records. by rewrite from_records_of.
Qed.

End generic.

Lemma run_write `{Entropy} locks tag upd now zero ent ident db t :
  run_tx now (execute_or_not_found (write_stmt locks tag upd) zero ent ident) (MkTx db t []) =
  (if decide (tag (upd now db).2 = zero) then Raise (nf_exn ent ident) else Ok tt,
   MkTx (upd now db).1 t []).
Proof.
  unfold execute_or_not_found, execute. rewrite !run_tx_bind, run_conn_sql.
  cbn. destruct (upd now db) as [db' n]. cbn. by case_decide.
Qed.

Lemma run_write_unit `{Entropy} locks tag upd now db t :
  run_tx now (_ ← execute (write_stmt locks tag upd); mret tt) (MkTx db t []) =
  (Ok tt, MkTx (upd now db).1 t []).
Proof.
  unfold execute. rewrite !run_tx_bind, run_conn_sql.
  cbn. by destruct (upd now db) as [db' n].
Qed.

(** Column sets are closed lists, compared by evaluation. *)
Lemma cols_subset (l1 l2 : list string) :
  forallb (λ c, bool_decide (c ∈ l2)) l1 = true → ∀ c, c ∈ l1 → c ∈ l2.
Proof.
  intros H c Hc%list_elem_of_In. rewrite forallb_forall in H.
  exact (bool_decide_eq_true_1 _ (H _ Hc)).
Qed.
Lemma cols_equal (l1 l2 : list string) :
  forallb (λ c, bool_decide (c ∈ l2)) l1 = true →
  forallb (λ c, bool_decide (c ∈ l1)) l2 = true → ∀ c, c ∈ l1 ↔ c ∈ l2.
Proof. split; by apply cols_subset. Qed.
Ltac cols := first [apply cols_subset; reflexivity | apply cols_equal; reflexivity].

Section specs.
Context `{Entropy} `{RowOrder}.
Implicit Types (now : timestamp) (db : Database) (t : nat) (fu : bool).

Lemma run_get_by_key `{Countable K} `{DBModelLaws M} (tbl : Database → gmap K M) cols k key fu
    now ent ident db t :
  (∀ c, c ∈ mjoin (@mro_annotations M _) → c ∈ cols) →
  run_tx now (get_model M (with_lock (Fetch.by_key tbl cols k key) fu) ent ident) (MkTx db t []) =
  (some_or (tbl db !! k) (nf_exn ent ident), MkTx db t []).
Proof.
  intros Hcols. rewrite (run_get_model _ (λ db, option_list (tbl db !! k)) cols); [|intros db'|done].
  - by destruct (tbl db !! k).
  - cbn. by destruct (tbl db' !! k).
Qed.

Lemma run_get_user_by_id now uid fu db t :
  run_tx now (get_user_by_id uid fu) (MkTx db t []) =
  (some_or (users db !! uid) (nf_exn USER (str_uuid uid)), MkTx db t []).
Proof. apply run_get_by_key. cols. Qed.

Definition user_named (name : string) db : option User :=
  head (Fetch.where_rows (λ u, username u = name) (users db)).
Lemma run_get_user_by_username now name fu db t :
  run_tx now (get_user_by_username name fu) (MkTx db t []) =
  (some_or (user_named name db) (nf_exn USER name), MkTx db t []).
Proof. apply (run_get_model _ (λ db, Fetch.where_rows _ (users db)) users_cols); [done|cols]. Qed.

Lemma run_create_user now u db t :
  run_tx now (create_user u) (MkTx db t []) =
  match insert_user_row u db with
  | inl e => (Raise (pg_exn e), MkTx db t [])
  | inr db' => (Ok u, MkTx db' t [])
  end.
Proof. apply (run_insert_model _ users_cols); [done|cols]. Qed.

Lemma run_update_user f uid P `{∀ u, Decision (P u)} now i db t :
  run_tx now (execute_or_not_found (Write.update_user f uid P) UPDATE_ZERO USER i) (MkTx db t []) =
  match users db !! uid with
  | Some u => if decide (P u) then (Ok tt, MkTx (set_users <[uid := f u]> db) t [])
              else (Raise (nf_exn USER i), MkTx db t [])
  | None => (Raise (nf_exn USER i), MkTx db t [])
  end.
Proof.
  unfold Write.update_user. rewrite run_write. cbn.
  destruct (users db !! uid) as [u|]; cbn; [|done]. by destruct (decide (P u)).
Qed.

Definition user_updated (f : User → User) uid db t : outcome' unit * TxState :=
  match users db !! uid with
  | Some u => (Ok tt, MkTx (set_users <[uid := f u]> db) t [])
  | None => (Raise (nf_exn USER (str_uuid uid)), MkTx db t [])
  end.
Lemma run_deactivate_user now uid db t :
  run_tx now (deactivate_user uid) (MkTx db t []) =
  user_updated (Write.with_deactivated true) uid db t.
Proof. unfold deactivate_user, Write.DEACTIVATE_USER. rewrite run_update_user. done. Qed.
Lemma run_reactivate_user now uid db t :
  run_tx now (reactivate_user uid) (MkTx db t []) =
  user_updated (Write.with_deactivated false) uid db t.
Proof. unfold reactivate_user, Write.REACTIVATE_USER. rewrite run_update_user. done. Qed.

Lemma run_update_user_password now uid new old db t :
  run_tx now (update_user_password uid new old) (MkTx db t []) =
  match users db !! uid with
  | Some u => if decide (password_hash u = old ∧ deactivated u = false)
              then (Ok tt, MkTx (set_users <[uid := Write.with_password_hash new u]> db) t [])
              else (Raise (nf_exn USER (str_uuid uid)), MkTx db t [])
  | None => (Raise (nf_exn USER (str_uuid uid)), MkTx db t [])
  end.
Proof. apply run_update_user. Qed.

Lemma run_delete_user now uid db t :
  run_tx now (delete_user uid) (MkTx db t []) =
  match users db !! uid with
  | None => (Raise (nf_exn USER (str_uuid uid)), MkTx db t [])
  | Some _ => match delete_user_row uid db with
              | inl e => (Raise (ExPg e), MkTx db t [])
              | inr db' => (Ok tt, MkTx db' t [])
              end
  end.
Proof.
  unfold delete_user, execute_or_not_found, execute. rewrite !run_tx_bind, run_conn_sql.
  unfold run_stmt. cbn -[delete_user_row]. destruct (users db !! uid); [|done].
  by destruct (delete_user_row uid db).
Qed.

Definition friendship_between a b db : option Friendship :=
  head (Fetch.where_rows (Fetch.between a b) (friendships db)).
Lemma run_get_friendship_status now a b fu db t :
  run_tx now (get_friendship_status a b fu) (MkTx db t []) =
  (some_or (friendship_between a b db)
     (nf_exn FRIENDSHIP (str_uuid a +:+ " <-> " +:+ str_uuid b)), MkTx db t []).
Proof.
  unfold get_friendship_status. erewrite (run_get_model _ _ friendships_cols); [|done|cols].
  unfold friendship_between. by destruct (Fetch.where_rows _ _).
Qed.

Lemma run_list_accepted_friends now u db t :
  run_tx now (list_accepted_friends u) (MkTx db t []) =
  (Ok (scan (filter (λ f, requester_id f = u ∧ accepted f = true) (table_rows (friendships db)) ++
             filter (λ f, addressee_id f = u ∧ accepted f = true) (table_rows (friendships db)))),
   MkTx db t []).
Proof. eapply (run_fetch_models _ _ friendships_cols); [done|cols]. Qed.
Lemma run_list_pending_requests now u db t :
  run_tx now (list_pending_requests u) (MkTx db t []) =
  (Ok (Fetch.where_rows (λ f, addressee_id f = u ∧ accepted f = false) (friendships db)),
   MkTx db t []).
Proof. eapply (run_fetch_models _ _ friendships_cols); [done|cols]. Qed.

Lemma run_send_friend_request now a b db t :
  run_tx now (send_friend_request a b) (MkTx db t []) =
  match insert_friendship_row (MkFriendship a b false now now) db with
  | inl e => (Raise (pg_exn e), MkTx db t [])
  | inr db' => (Ok tt, MkTx db' t [])
  end.
Proof.
  unfold send_friend_request, catch_integrity, execute.
  rewrite run_tx_try, !run_tx_bind, run_conn_sql. unfold run_stmt.
  cbn -[insert_friendship_row]. destruct (insert_friendship_row _ db) as [e|db']; cbn; [|done].
  unfold pg_exn. by destruct (is_integrity e).
Qed.

Lemma run_accept_friend_request now a b db t :
  run_tx now (accept_friend_request a b) (MkTx db t []) =
  match friendships db !! (a, b) with
  | Some f => (Ok tt, MkTx (set_friendships <[(a, b) := Write.with_accepted now f]> db) t [])
  | None => (Raise (nf_exn FRIENDSHIP (str_uuid a +:+ ", " +:+ str_uuid b)), MkTx db t [])
  end.
Proof.
  unfold accept_friend_request, Write.ACCEPT_FRIEND_REQUEST. rewrite run_write. cbn.
  unfold set_friendships. destruct (friendships db !! (a, b)) as [f|] eqn:Hf; cbn.
  - by rewrite (alter_of_Some _ _ _ _ Hf).
  - by rewrite (alter_of_None _ _ _ Hf); destruct db.
Qed.

Lemma run_remove_friendship now a b db t :
  run_tx now (remove_friendship a b) (MkTx db t []) =
  ((if decide (filter (Fetch.between a b) (table_rows (friendships db)) = [])
    then Raise (nf_exn FRIENDSHIP (str_uuid a +:+ ", " +:+ str_uuid b)) else Ok tt),
   MkTx (set_friendships (filter (λ kv, ¬ Fetch.between a b kv.2)) db) t []).
Proof.
  unfold remove_friendship, Delete.REMOVE_FRIENDSHIP. rewrite run_write. cbn.
  f_equal. by destruct (filter _ (table_rows _)).
Qed.

(** *** Tokens *)
Lemma run_get_access_token now h fu db t :
  run_tx now (get_access_token h fu) (MkTx db t []) =
  (some_or (access_tokens db !! h) (nf_exn ACCESS_TOKEN h), MkTx db t []).
Proof. apply run_get_by_key. cols. Qed.
Lemma run_get_refresh_token now h fu db t :
  run_tx now (get_refresh_token h fu) (MkTx db t []) =
  (some_or (refresh_tokens db !! h) (nf_exn REFRESH_TOKEN h), MkTx db t []).
Proof. apply run_get_by_key. cols. Qed.

Lemma run_create_access_token now tok db t :
  run_tx now (create_access_token tok) (MkTx db t []) =
  match insert_access_token_row tok db with
  | inl e => (Raise (pg_exn e), MkTx db t [])
  | inr db' => (Ok tt, MkTx db' t [])
  end.
Proof. by apply run_insert_unit. Qed.
Lemma run_create_refresh_token now tok db t :
  run_tx now (create_refresh_token tok) (MkTx db t []) =
  match insert_refresh_token_row tok db with
  | inl e => (Raise (pg_exn e), MkTx db t [])
  | inr db' => (Ok tt, MkTx db' t [])
  end.
Proof. by apply run_insert_unit. Qed.

Lemma run_revoke_access_token now h db t :
  run_tx now (revoke_access_token h) (MkTx db t []) =
  match access_tokens db !! h with
  | Some tok => (Ok tt, MkTx (set_access_tokens <[h := Write.revoke_at tok]> db) t [])
  | None => (Raise (nf_exn ACCESS_TOKEN h), MkTx db t [])
  end.
Proof.
  unfold revoke_access_token, Write.REVOKE_ACCESS_TOKEN. rewrite run_write. cbn.
  unfold set_access_tokens. destruct (access_tokens db !! h) as [tok|] eqn:Hh; cbn.
  - by rewrite (alter_of_Some _ _ _ _ Hh).
  - by rewrite (alter_of_None _ _ _ Hh); destruct db.
Qed.
Lemma run_revoke_refresh_token now h db t :
  run_tx now (revoke_refresh_token h) (MkTx db t []) =
  match refresh_tokens db !! h with
  | Some tok => (Ok tt, MkTx (set_refresh_tokens <[h := Write.revoke_rt tok]> db) t [])
  | None => (Raise (nf_exn REFRESH_TOKEN h), MkTx db t [])
  end.
Proof.
  unfold revoke_refresh_token, Write.REVOKE_REFRESH_TOKEN. rewrite run_write. cbn.
  unfold set_refresh_tokens. destruct (refresh_tokens db !! h) as [tok|] eqn:Hh; cbn.
  - by rewrite (alter_of_Some _ _ _ _ Hh).
  - by rewrite (alter_of_None _ _ _ Hh); destruct db.
Qed.
Lemma run_revoke_all_user_access_tokens now u db t :
  run_tx now (revoke_all_user_access_tokens u) (MkTx db t []) =
  (Ok tt, MkTx (set_access_tokens (fmap (Write.revoke_at_of u)) db) t []).
Proof. apply run_write_unit. Qed.
Lemma run_revoke_all_user_refresh_tokens now u db t :
  run_tx now (revoke_all_user_refresh_tokens u) (MkTx db t []) =
  (Ok tt, MkTx (set_refresh_tokens (fmap (Write.revoke_rt_of u)) db) t []).
Proof. apply run_write_unit. Qed.

(** *** Groups and memberships *)
Lemma run_get_group_by_id now g fu db t :
  run_tx now (get_group_by_id g fu) (MkTx db t []) =
  (some_or (groups db !! g) (nf_exn GROUP (str_uuid g)), MkTx db t []).
Proof. apply run_get_by_key. cols. Qed.
Lemma run_list_user_groups now u db t :
  run_tx now (list_user_groups u) (MkTx db t []) = (Ok (Fetch.user_groups u db), MkTx db t []).
Proof. eapply (run_fetch_models _ _ groups_cols); [done|cols]. Qed.
Lemma run_list_group_memberships now g db t :
  run_tx now (list_group_memberships g) (MkTx db t []) =
  (Ok (Fetch.where_rows (λ m, mb_group_id m = g) (memberships db)), MkTx db t []).
Proof. eapply (run_fetch_models _ _ memberships_cols); [done|cols]. Qed.
Lemma run_create_group now g db t :
  run_tx now (create_group g) (MkTx db t []) =
  match insert_group_row g db with
  | inl e => (Raise (pg_exn e), MkTx db t [])
  | inr db' => (Ok g, MkTx db' t [])
  end.
Proof. apply (run_insert_model _ groups_cols); [done|cols]. Qed.
Lemma run_delete_group now g u db t :
  run_tx now (delete_group g u) (MkTx db t []) =
  match groups db !! g with
  | Some r => if decide (created_by r = Some u)
              then (Ok tt, MkTx (delete_group_row g db) t [])
              else (Raise (nf_exn GROUP (str_uuid g)), MkTx db t [])
  | None => (Raise (nf_exn GROUP (str_uuid g)), MkTx db t [])
  end.
Proof.
  unfold delete_group, Delete.DELETE_GROUP. rewrite run_write. cbn -[delete_group_row].
  destruct (groups db !! g) as [r|]; cbn -[delete_group_row]; [|done].
  destruct (decide (created_by r = Some u)); done.
Qed.

Lemma run_get_membership now g u fu db t :
  run_tx now (get_membership g u fu) (MkTx db t []) =
  (some_or (memberships db !! (g, u)) (nf_exn MEMBERSHIP (membership_identifier g u)),
   MkTx db t []).
Proof. apply run_get_by_key. cols. Qed.

(** [add_group_member] hides which foreign key failed. *)
Definition add_member_exn (m : Membership) (e : PgError) : Exn :=
  match e with
  | Pg_ForeignKeyViolation _ _ => nf_exn USER (str_uuid (mb_user_id m))
  | Pg_UniqueViolation _ _ => ExDb (from_asyncpg e)
  | _ => ExPg e
  end.
Lemma run_add_group_member now m db t :
  run_tx now (add_group_member m) (MkTx db t []) =
  match insert_membership_row m db with
  | inl e => (Raise (add_member_exn m e), MkTx db t [])
  | inr db' => (Ok m, MkTx db' t [])
  end.
Proof.
  unfold add_group_member, fetchrow, Write.ADD_GROUP_MEMBER.
  rewrite run_tx_bind, run_tx_try, run_tx_bind, run_conn_sql. unfold run_stmt.
  cbn [tx_faults tx_db tx_tick]. rewrite exec_insert by done.
  destruct (insert_membership_row m db) as [e|db']; cbn -[update_from_record record_of].
  - by destruct e.
  - unfold model_update. rewrite update_from_record_of; [done|cols].
Qed.
Lemma run_remove_group_member now g u db t :
  run_tx now (remove_group_member g u) (MkTx db t []) =
  match memberships db !! (g, u) with
  | Some _ => (Ok tt, MkTx (set_memberships (delete (g, u)) db) t [])
  | None => (Raise (nf_exn MEMBERSHIP (membership_identifier g u)), MkTx db t [])
  end.
Proof.
  unfold remove_group_member, Delete.REMOVE_GROUP_MEMBER. rewrite run_write. cbn.
  unfold set_memberships. destruct (memberships db !! (g, u)) as [m|] eqn:Hm; cbn; [done|].
  rewrite (delete_id _ _ Hm). by destruct db.
Qed.

(** *** Messages *)
Lemma run_get_dm_conversation_history now a b before limit db t :
  (0 ≤ limit)%Z →
  run_tx now (get_dm_conversation_history a b before limit) (MkTx db t []) =
  (Ok (Fetch.dm_history_rows a b before (Z.to_nat limit) db), MkTx db t []).
Proof.
  intros Hl. eapply (run_fetch_models _ _ direct_messages_cols); [|cols].
  cbn. destruct (Z.ltb_spec limit 0); [lia|done].
Qed.
Lemma run_get_group_messages_timeline now g before limit db t :
  (0 ≤ limit)%Z →
  run_tx now (get_group_messages_timeline g before limit) (MkTx db t []) =
  (Ok (Fetch.group_timeline_rows g before (Z.to_nat limit) db), MkTx db t []).
Proof.
  intros Hl. eapply (run_fetch_models _ _ group_messages_cols); [|cols].
  cbn. destruct (Z.ltb_spec limit 0); [lia|done].
Qed.
Lemma run_send_direct_message now m db t :
  run_tx now (send_direct_message m) (MkTx db t []) =
  match insert_direct_message_row m db with
  | inl e => (Raise (pg_exn e), MkTx db t [])
  | inr db' => (Ok m, MkTx db' t [])
  end.
Proof. apply (run_insert_model _ direct_messages_cols); [done|cols]. Qed.
Lemma run_send_group_message now m db t :
  run_tx now (send_group_message m) (MkTx db t []) =
  match insert_group_message_row m db with
  | inl e => (Raise (pg_exn e), MkTx db t [])
  | inr db' => (Ok m, MkTx db' t [])
  end.
Proof. apply (run_insert_model _ group_messages_cols); [done|cols]. Qed.

End specs.

(** [run_tx] unfolds only by these equations from here on. *)
#[global] Arguments run_tx : simpl never.

(** The query functions stay folded in sessions. *)
#[global] Arguments get_user_by_id : simpl never.
#[global] Arguments get_user_by_username : simpl never.
#[global] Arguments create_user : simpl never.
#[global] Arguments deactivate_user : simpl never.
#[global] Arguments reactivate_user : simpl never.
#[global] Arguments update_user_password : simpl never.
#[global] Arguments delete_user : simpl never.
#[global] Arguments get_friendship_status : simpl never.
#[global] Arguments list_accepted_friends : simpl never.
#[global] Arguments list_pending_requests : simpl never.
#[global] Arguments send_friend_request : simpl never.
#[global] Arguments accept_friend_request : simpl never.
#[global] Arguments remove_friendship : simpl never.
#[global] Arguments get_access_token : simpl never.
#[global] Arguments get_refresh_token : simpl never.
#[global] Arguments create_access_token : simpl never.
#[global] Arguments create_refresh_token : simpl never.
#[global] Arguments revoke_access_token : simpl never.
#[global] Arguments revoke_refresh_token : simpl never.
#[global] Arguments revoke_all_user_access_tokens : simpl never.
#[global] Arguments revoke_all_user_refresh_tokens : simpl never.
#[global] Arguments get_group_by_id : simpl never.
#[global] Arguments list_user_groups : simpl never.
#[global] Arguments list_group_memberships : simpl never.
#[global] Arguments create_group : simpl never.
#[global] Arguments delete_group : simpl never.
#[global] Arguments get_membership : simpl never.
#[global] Arguments add_group_member : simpl never.
#[global] Arguments remove_group_member : simpl never.
#[global] Arguments get_dm_conversation_history : simpl never.
#[global] Arguments get_group_messages_timeline : simpl never.
#[global] Arguments send_direct_message : simpl never.
#[global] Arguments send_group_message : simpl never.
#[global] Arguments tx_draw : simpl never.
#[global] Arguments tx_raise : simpl never.

Lemma run_tx_raise `{Entropy} {A} now e st :
  run_tx now (tx_raise (A:=A) e) st = (Raise e, st).
Proof. done. Qed.
Section draws.
Context `{Entropy}.
Lemma run_tx_TxRet {A} now (a : A) st : run_tx now (TxRet a) st = (Ok a, st).
Proof. done. Qed.
Lemma run_tx_TxRaise {A} now e st : run_tx now (TxRaise (A:=A) e) st = (Raise e, st).
Proof. done. Qed.
Lemma run_tx_now now db t fs :
  run_tx (A := timestamp) now (tx_draw DNow) (MkTx db t fs) = (Ok (ent_clock t), MkTx db (S t) fs).
Proof. done. Qed.
Lemma run_tx_uuid now db t fs :
  run_tx (A := UUID) now (tx_draw DUuid) (MkTx db t fs) = (Ok (ent_uuid t), MkTx db (S t) fs).
Proof. done. Qed.
Lemma run_tx_bytes now n db t fs :
  run_tx (A := list N) now (tx_draw (DBytes n)) (MkTx db t fs) = (Ok (ent_bytes t n), MkTx db (S t) fs).
Proof. done. Qed.
End draws.

(** Runs the next query function of a session; the goal is matched by name, so
    that no statement is ever unfolded. *)
Ltac run_query :=
  match goal with
  | |- context [run_tx _ (mbind _ _) _] => rewrite run_tx_bind
  | |- context [run_tx _ (mret _) _] => rewrite run_tx_ret
  | |- context [run_tx _ (TxRet _) _] => rewrite run_tx_TxRet
  | |- context [run_tx _ (TxRaise _) _] => rewrite run_tx_TxRaise
  | |- context [run_tx _ (tx_raise _) _] => rewrite run_tx_raise
  | |- context [@run_tx _ _ _ (tx_draw DNow) _] => first [rewrite run_tx_now | change (draw_type DNow) with timestamp; rewrite run_tx_now]
  | |- context [@run_tx _ _ _ (tx_draw DUuid) _] => rewrite run_tx_uuid
  | |- context [@run_tx _ _ _ (tx_draw (DBytes _)) _] => rewrite run_tx_bytes
  | |- context [run_tx _ (get_user_by_id _ _) _] => rewrite run_get_user_by_id
  | |- context [run_tx _ (get_user_by_username _ _) _] => rewrite run_get_user_by_username
  | |- context [run_tx _ (create_user _) _] => rewrite run_create_user
  | |- context [run_tx _ (deactivate_user _) _] => rewrite run_deactivate_user
  | |- context [run_tx _ (reactivate_user _) _] => rewrite run_reactivate_user
  | |- context [run_tx _ (update_user_password _ _ _) _] => rewrite run_update_user_password
  | |- context [run_tx _ (delete_user _) _] => rewrite run_delete_user
  | |- context [run_tx _ (get_friendship_status _ _ _) _] => rewrite run_get_friendship_status
  | |- context [run_tx _ (list_accepted_friends _) _] => rewrite run_list_accepted_friends
  | |- context [run_tx _ (list_pending_requests _) _] => rewrite run_list_pending_requests
  | |- context [run_tx _ (send_friend_request _ _) _] => rewrite run_send_friend_request
  | |- context [run_tx _ (accept_friend_request _ _) _] => rewrite run_accept_friend_request
  | |- context [run_tx _ (remove_friendship _ _) _] => rewrite run_remove_friendship
  | |- context [run_tx _ (get_access_token _ _) _] => rewrite run_get_access_token
  | |- context [run_tx _ (get_refresh_token _ _) _] => rewrite run_get_refresh_token
  | |- context [run_tx _ (create_access_token _) _] => rewrite run_create_access_token
  | |- context [run_tx _ (create_refresh_token _) _] => rewrite run_create_refresh_token
  | |- context [run_tx _ (revoke_access_token _) _] => rewrite run_revoke_access_token
  | |- context [run_tx _ (revoke_refresh_token _) _] => rewrite run_revoke_refresh_token
  | |- context [run_tx _ (revoke_all_user_access_tokens _) _] => rewrite run_revoke_all_user_access_tokens
  | |- context [run_tx _ (revoke_all_user_refresh_tokens _) _] => rewrite run_revoke_all_user_refresh_tokens
  | |- context [run_tx _ (get_group_by_id _ _) _] => rewrite run_get_group_by_id
  | |- context [run_tx _ (list_user_groups _) _] => rewrite run_list_user_groups
  | |- context [run_tx _ (list_group_memberships _) _] => rewrite run_list_group_memberships
  | |- context [run_tx _ (create_group _) _] => rewrite run_create_group
  | |- context [run_tx _ (delete_group _ _) _] => rewrite run_delete_group
  | |- context [run_tx _ (get_membership _ _ _) _] => rewrite run_get_membership
  | |- context [run_tx _ (add_group_member _) _] => rewrite run_add_group_member
  | |- context [run_tx _ (remove_group_member _ _) _] => rewrite run_remove_group_member
  | |- context [run_tx _ (send_direct_message _) _] => rewrite run_send_direct_message
  | |- context [run_tx _ (send_group_message _) _] => rewrite run_send_group_message
  end.
(** Runs a session as far as the tables it reads are known. *)
Ltac run_queries :=
  cbn [some_or fst snd tx_tick tx_db tx_faults];
  repeat (run_query; cbn [some_or fst snd tx_tick tx_db tx_faults]).
