(* ===== verification/Json.v ===== *)
(** * JSON text (the standard library's [json.dumps] and [json.loads])

    The wire format of both Redis channels. [dumps] follows the default
    encoder: [", "] and [": "] as separators, ASCII output with [\u] escapes.
    Numbers are integers.
    [loads] is a recursive-descent parser; a document it does not accept is a
    [JSONDecodeError] ([None]). *)

From S2P Require Export PyData.
From Stdlib Require Import Ascii.
Local Open Scope N_scope.

(** Objects are Python dicts: keys in insertion order. *)
Inductive json :=
| JNull
| JBool (b : bool)
| JInt (z : Z)
| JStr (s : string)
| JArr (l : list json)
| JObj (l : list (string * json)).

Fixpoint json_size (j : json) : nat :=
  match j with
  | JArr l => S (foldr (λ j n, json_size j + n)%nat 0%nat l)
  | JObj l => S (foldr (λ kj n, json_size kj.2 + n)%nat 0%nat l)
  | _ => 1
  end.

(** [d.get(k, default)] on an object. *)
Definition json_get (k : string) (dflt : json) (j : json) : json :=
  match j with JObj l => default dflt (assoc k l) | _ => dflt end.
(** [d[k]] as a string, [None] for [KeyError] or another type. *)
Definition json_str (k : string) (j : json) : option string :=
  match j with
  | JObj l => match assoc k l with Some (JStr s) => Some s | _ => None end
  | _ => None
  end.
Definition json_truthy (j : json) : bool :=
  match j with
  | JNull | JBool false | JInt 0%Z | JArr [] | JObj [] => false
  | JStr s => negb (bool_decide (s = EmptyString))
  | _ => true
  end.

(** ** Encoder *)

Definition dquote : ascii := ascii_of_N 34.
Definition backslash : ascii := ascii_of_N 92.

Definition escape_char (c : ascii) : chars :=
  let n := N_of_ascii c in
  if n =? 34 then [backslash; dquote]
  else if n =? 92 then [backslash; backslash]
  else if n =? 10 then [backslash; "n"%char]
  else if n =? 13 then [backslash; "r"%char]
  else if n =? 9 then [backslash; "t"%char]
  else if n =? 12 then [backslash; "f"%char]
  else if n =? 8 then [backslash; "b"%char]
  else if (32 <=? n) && (n <=? 126) then [c]
  else backslash :: "u"%char :: map hex_digit (nibbles 4 n).

Definition dump_str (s : string) : chars :=
  dquote :: mjoin (map escape_char (to_chars s)) ++ [dquote].

Fixpoint intersperse {A} (sep : list A) (l : list (list A)) : list A :=
  match l with
  | [] => []
  | [x] => x
  | x :: l => x ++ sep ++ intersperse sep l
  end.

Fixpoint dump (j : json) : chars :=
  match j with
  | JNull => to_chars "null"
  | JBool true => to_chars "true"
  | JBool false => to_chars "false"
  | JInt z => dec_Z z
  | JStr s => dump_str s
  | JArr l => "["%char :: intersperse (to_chars ", ") (map dump l) ++ ["]"%char]
  | JObj l => "{"%char :: intersperse (to_chars ", ")
                 (map (λ kj, dump_str kj.1 ++ to_chars ": " ++ dump kj.2) l) ++ ["}"%char]
  end.

Definition dumps (j : json) : string := of_chars (dump j).

(** ** Decoder *)

Definition is_space (c : ascii) : bool :=
  let n := N_of_ascii c in (n =? 32) || (n =? 9) || (n =? 10) || (n =? 13).
Fixpoint skip (l : chars) : chars :=
  match l with c :: l' => if is_space c then skip l' else l | [] => [] end.

(** [expect c l]: the rest of [l] after the character [c]. *)
Definition expect (c : ascii) (l : chars) : option chars :=
  match l with d :: l => if bool_decide (c = d) then Some l else None | [] => None end.
Fixpoint expect_all (w l : chars) : option chars :=
  match w with [] => Some l | c :: w => l' ← expect c l; expect_all w l' end.

(** One character of a string literal, escape or not. A [\u] escape above
    U+00FF is a character the model does not represent. *)
Definition unescape (m : N) : option ascii :=
  if (m =? 34) || (m =? 92) || (m =? 47) then Some (ascii_of_N m)
  else if m =? 110 then Some (ascii_of_N 10)
  else if m =? 114 then Some (ascii_of_N 13)
  else if m =? 116 then Some (ascii_of_N 9)
  else if m =? 102 then Some (ascii_of_N 12)
  else if m =? 98 then Some (ascii_of_N 8)
  else None.
Definition load_char (l : chars) : option (ascii * chars) :=
  match l with
  | [] => None
  | c :: l =>
      if N_of_ascii c =? 92 then
        match l with
        | [] => None
        | e :: l =>
            if N_of_ascii e =? 117 then
              ds ← mapM hex_val (take 4 l);
              if bool_decide (length ds = 4%nat) && (of_nibbles ds <? 256)
              then Some (ascii_of_N (of_nibbles ds), drop 4 l) else None
            else d ← unescape (N_of_ascii e); Some (d, l)
        end
      else if N_of_ascii c <? 32 then None
      else Some (c, l)
  end.

(** The characters of a string literal up to its closing quote. *)
Fixpoint load_chars (fuel : nat) (l : chars) : option (chars * chars) :=
  match fuel with
  | O => None
  | S fuel =>
      match expect dquote l with
      | Some r => Some ([], r)
      | None =>
          '(c, r) ← load_char l;
          '(s, r) ← load_chars fuel r;
          Some (c :: s, r)
      end
  end.

Definition load_str (l : chars) : option (string * chars) :=
  '(s, r) ← load_chars (S (length l)) l; Some (of_chars s, r).

(** A dict built pair by pair: a repeated key keeps its place and takes the
    later value. *)
Fixpoint dict_set {A} (k : string) (v : A) (l : list (string * A)) : list (string * A) :=
  match l with
  | [] => [(k, v)]
  | (k', v') :: l => if bool_decide (k' = k) then (k, v) :: l else (k', v') :: dict_set k v l
  end.
Definition dict_of {A} (l : list (string * A)) : list (string * A) :=
  fold_left (λ d kv, dict_set kv.1 kv.2 d) l [].

(** An integer: no leading zero but for zero itself. A fraction or an exponent
    after it is left unread, so that a float ends the document: the model has
    no floats. *)
Definition load_nat (l : chars) : option (N * chars) :=
  match l with
  | c :: r =>
      if N_of_ascii c =? 48 then Some (0, r)
      else if is_digit c then let '(ds, r') := span_digits l in Some (of_digits ds, r')
      else None
  | [] => None
  end.
Definition load_int (l : chars) : option (Z * chars) :=
  match expect "-"%char l with
  | Some r => '(n, r) ← load_nat r; Some (Z.opp (Z.of_N n), r)
  | None => '(n, r) ← load_nat l; Some (Z.of_N n, r)
  end.

Fixpoint load (fuel : nat) (l : chars) : option (json * chars) :=
  match fuel with
  | O => None
  | S fuel =>
      match skip l with
      | [] => None
      | c :: l =>
          let n := N_of_ascii c in
          if n =? 34 then '(s, r) ← load_str l; Some (JStr s, r)
          else if n =? 91 then
            match expect "]"%char (skip l) with
            | Some r => Some (JArr [], r)
            | None => '(js, r) ← load_elems fuel l; Some (JArr js, r)
            end
          else if n =? 123 then
            match expect "}"%char (skip l) with
            | Some r => Some (JObj [], r)
            | None => '(kjs, r) ← load_pairs fuel l; Some (JObj (dict_of kjs), r)
            end
          else if n =? 110 then r ← expect_all (to_chars "ull") l; Some (JNull, r)
          else if n =? 116 then r ← expect_all (to_chars "rue") l; Some (JBool true, r)
          else if n =? 102 then r ← expect_all (to_chars "alse") l; Some (JBool false, r)
          else '(z, r) ← load_int (c :: l); Some (JInt z, r)
      end
  end
with load_elems (fuel : nat) (l : chars) : option (list json * chars) :=
  match fuel with
  | O => None
  | S fuel =>
      '(j, r) ← load fuel l;
      match skip r with
      | c :: r =>
          if N_of_ascii c =? 44 then '(js, r) ← load_elems fuel r; Some (j :: js, r)
          else if N_of_ascii c =? 93 then Some ([j], r) else None
      | [] => None
      end
  end
with load_pairs (fuel : nat) (l : chars) : option (list (string * json) * chars) :=
  match fuel with
  | O => None
  | S fuel =>
      l ← expect dquote (skip l);
      '(k, r) ← load_str l;
      r ← expect ":"%char (skip r);
      '(j, r) ← load fuel r;
      match skip r with
      | c :: r =>
          if N_of_ascii c =? 44 then '(kjs, r) ← load_pairs fuel r; Some ((k, j) :: kjs, r)
          else if N_of_ascii c =? 125 then Some ([(k, j)], r) else None
      | [] => None
      end
  end.

(** Every nested call consumes a character or moves from an element to its
    value, so twice the length bounds the depth. *)
Definition loads (s : string) : option json :=
  let l := to_chars s in
  '(j, r) ← load (2 + 2 * length l)%nat l;
  match skip r with [] => Some j | _ => None end.
