(* ===== verification/Events.v ===== *)
(** * Event payloads (redis/events.py)

    The event dataclasses and [to_dict], their JSON-compatible form. *)

From S2P Require Export Json Models.

(** ** Text of timestamps: [datetime.isoformat()] of a UTC datetime *)

Fixpoint dec_digits (k : nat) (n : N) : chars :=
  match k with O => [] | S k => dec_digits k (n / 10) ++ [hex_digit (n mod 10)] end.

(** Year, month and day of the proleptic Gregorian calendar, from the days
    since 1970-01-01. *)
Definition civil_from_days (days : Z) : Z * Z * Z :=
  let z := (days + 719468)%Z in
  let era := (z / 146097)%Z in
  let doe := (z mod 146097)%Z in
  let yoe := ((doe - doe / 1460 + doe / 36524 - doe / 146096) / 365)%Z in
  let doy := (doe - (365 * yoe + yoe / 4 - yoe / 100))%Z in
  let mp := ((5 * doy + 2) / 153)%Z in
  let d := (doy - (153 * mp + 2) / 5 + 1)%Z in
  let m := (if (mp <? 10)%Z then mp + 3 else mp - 9)%Z in
  ((yoe + era * 400 + (if (m <=? 2)%Z then 1 else 0))%Z, m, d).

Definition isoformat (t : timestamp) : string :=
  let us := (t mod 1000000)%Z in
  let s := (t / 1000000)%Z in
  let '(y, m, d) := civil_from_days (s / 86400) in
  let sod := (s mod 86400)%Z in
  let num k z := of_chars (dec_digits k (Z.to_N z)) in
  num 4 y +:+ "-" +:+ num 2 m +:+ "-" +:+ num 2 d +:+ "T" +:+
  num 2 (sod / 3600)%Z +:+ ":" +:+ num 2 (sod mod 3600 / 60)%Z +:+ ":" +:+ num 2 (sod mod 60)%Z +:+
  (if (us =? 0)%Z then "" else "." +:+ num 6 us) +:+ "+00:00".

(** ** Events *)

Inductive EventType :=
| EV_DIRECT_MESSAGE | EV_GROUP_MESSAGE | EV_GROUP_MEMBERSHIP | EV_GROUP_DELETED
| EV_USER_INVALIDATED | EV_TOKEN_REVOKED.
#[export] Instance EventType_eq_dec : EqDecision EventType.
Proof. solve_decision. Defined.
Definition EventType_value (e : EventType) : string :=
  match e with
  | EV_DIRECT_MESSAGE => "direct_message" | EV_GROUP_MESSAGE => "group_message"
  | EV_GROUP_MEMBERSHIP => "group_membership" | EV_GROUP_DELETED => "group_deleted"
  | EV_USER_INVALIDATED => "user_invalidated" | EV_TOKEN_REVOKED => "token_revoked"
  end.

Inductive MembershipAction := JOIN | LEAVE.
#[export] Instance MembershipAction_eq_dec : EqDecision MembershipAction.
Proof. solve_decision. Defined.
Definition MembershipAction_value (a : MembershipAction) : string :=
  match a with JOIN => "JOIN" | LEAVE => "LEAVE" end.
(** [MembershipAction(s)]: [ValueError] on any other text. *)
Definition parse_action (s : string) : option MembershipAction :=
  if bool_decide (s = "JOIN") then Some JOIN
  else if bool_decide (s = "LEAVE") then Some LEAVE else None.

Inductive RedisEvent :=
| DirectMessageEvent (message_id sender_id recipient_id : UUID) (content : string)
                     (created_at : timestamp)
| GroupMessageEvent (message_id group_id sender_id : UUID) (content : string)
                    (created_at : timestamp)
| GroupMembershipEvent (action : MembershipAction) (user_id group_id : UUID)
| GroupDeletedEvent (group_id : UUID)
| UserInvalidatedEvent (user_id : UUID)
| TokenRevokedEvent (token_hash : string).

Definition event_type (e : RedisEvent) : EventType :=
  match e with
  | DirectMessageEvent _ _ _ _ _ => EV_DIRECT_MESSAGE
  | GroupMessageEvent _ _ _ _ _ => EV_GROUP_MESSAGE
  | GroupMembershipEvent _ _ _ => EV_GROUP_MEMBERSHIP
  | GroupDeletedEvent _ => EV_GROUP_DELETED
  | UserInvalidatedEvent _ => EV_USER_INVALIDATED
  | TokenRevokedEvent _ => EV_TOKEN_REVOKED
  end.

Definition dm_event (dm : DirectMessage) : RedisEvent :=
  DirectMessageEvent (dm_message_id dm) (dm_sender_id dm) (dm_recipient_id dm)
    (dm_content dm) (dm_created_at dm).
Definition gm_event (msg : GroupMessage) : RedisEvent :=
  GroupMessageEvent (gm_message_id msg) (gm_group_id msg) (gm_sender_id msg)
    (gm_content msg) (gm_created_at msg).

(** The dataclass fields with their values, [event] first, and the conversion
    of each kind of value by [to_dict]. *)
Inductive field_value :=
| FUuid (u : UUID) | FTime (t : timestamp) | FEnum (value : string) | FStr (s : string).
Definition event_fields (e : RedisEvent) : list (string * field_value) :=
  ("event", FEnum (EventType_value (event_type e))) ::
  match e with
  | DirectMessageEvent m s r c t =>
      [("message_id", FUuid m); ("sender_id", FUuid s); ("recipient_id", FUuid r);
       ("content", FStr c); ("created_at", FTime t)]
  | GroupMessageEvent m g s c t =>
      [("message_id", FUuid m); ("group_id", FUuid g); ("sender_id", FUuid s);
       ("content", FStr c); ("created_at", FTime t)]
  | GroupMembershipEvent a u g =>
      [("action", FEnum (MembershipAction_value a)); ("user_id", FUuid u); ("group_id", FUuid g)]
  | GroupDeletedEvent g => [("group_id", FUuid g)]
  | UserInvalidatedEvent u => [("user_id", FUuid u)]
  | TokenRevokedEvent h => [("token_hash", FStr h)]
  end.
Definition field_json (v : field_value) : json :=
  match v with
  | FUuid u => JStr (str_uuid u)
  | FTime t => JStr (isoformat t)
  | FEnum s | FStr s => JStr s
  end.
Definition to_dict (e : RedisEvent) : json :=
  JObj (map (λ kv, (kv.1, field_json kv.2)) (event_fields e)).

Example isoformat_example : isoformat 1709210096000001 = "2024-02-29T12:34:56.000001+00:00".
Proof. reflexivity. Qed.

Lemma to_dict_event e : json_str "event" (to_dict e) = Some (EventType_value (event_type e)).
Proof. by destruct e. Qed.
