(* ===== verification/Redis.v ===== *)
(** * Redis (redis/queries.py, redis/pubsub.py, redis/stream.py)

    The server is a service: a class of commands with their replies, and what
    the Redis documentation says of successful replies as its laws. The
    functions of the repository are clients of the class. *)

From S2P Require Export Errors Events.

(** Commands queued in a MULTI/EXEC pipeline. *)
Inductive PipeCommand := PipeDelete (keys : list string) | PipeSrem (key member : string).

Definition deleted_keys (cmds : list PipeCommand) : list string :=
  mjoin ((λ c, match c with PipeDelete keys => keys | PipeSrem _ _ => [] end) <$> cmds).

(** A stream entry: its identifier and its ["payload"] field. *)
Abbreviation stream_entry := (N * string)%type.

Class RedisServer := {
  redis_t : Type;
  hincrby : string → string → Z → redis_t → (RedisExc + Z) * redis_t;
  hdel : string → string → redis_t → (RedisExc + Z) * redis_t;
  hkeys : string → redis_t → (RedisExc + list string) * redis_t;
  publish : string → string → redis_t → (RedisExc + Z) * redis_t;
  xadd : string → string → nat → redis_t → (RedisExc + N) * redis_t;
  pipeline_execute : list PipeCommand → redis_t → (RedisExc + unit) * redis_t;
  (* What an observer of the server sees. *)
  hget : redis_t → string → string → option Z;
  stream_of : redis_t → string → list stream_entry;
  published : redis_t → string → list string;
}.

(** [same_but_hash r r']: [r'] differs from [r] in hash fields only; and so on. *)
Definition same_hashes `{RedisServer} (r r' : redis_t) : Prop :=
  ∀ k f, hget r' k f = hget r k f.
Definition same_streams `{RedisServer} (r r' : redis_t) : Prop :=
  ∀ k, stream_of r' k = stream_of r k.
Definition same_channels `{RedisServer} (r r' : redis_t) : Prop :=
  ∀ c, published r' c = published r c.

Class RedisLaws `{RedisServer} : Prop := {
  hincrby_ok k f n r v r' : hincrby k f n r = (inr v, r') →
    v = (default 0 (hget r k f) + n)%Z ∧
    (∀ k' f', hget r' k' f' =
       if bool_decide (k' = k ∧ f' = f) then Some v else hget r k' f') ∧
    same_streams r r' ∧ same_channels r r';
  hdel_ok k f r v r' : hdel k f r = (inr v, r') →
    (∀ k' f', hget r' k' f' = if bool_decide (k' = k ∧ f' = f) then None else hget r k' f') ∧
    same_streams r r' ∧ same_channels r r';
  hkeys_ok k r l r' : hkeys k r = (inr l, r') →
    (∀ f, f ∈ l ↔ is_Some (hget r k f)) ∧
    same_hashes r r' ∧ same_streams r r' ∧ same_channels r r';
  publish_ok c m r v r' : publish c m r = (inr v, r') →
    (∀ c', published r' c' = if bool_decide (c' = c) then published r c ++ [m]
                             else published r c') ∧
    same_hashes r r' ∧ same_streams r r';
  (* The new entry is last, with a larger identifier; only a prefix beyond the
     newest [maxlen] entries may have been trimmed. *)
  xadd_ok k p maxlen r i r' : xadd k p maxlen r = (inr i, r') →
    (∃ n, (n ≤ length (stream_of r k) + 1 - maxlen)%nat ∧
          stream_of r' k = drop n (stream_of r k ++ [(i, p)])) ∧
    Forall (λ e, (e.1 < i)%N) (stream_of r k) ∧
    (∀ k', k' ≠ k → stream_of r' k' = stream_of r k') ∧
    same_hashes r r' ∧ same_channels r r';
  (* DEL takes whole keys; SREM changes sets only. *)
  pipeline_ok cmds r r' : pipeline_execute cmds r = (inr tt, r') →
    (∀ k f, k ∉ deleted_keys cmds → hget r' k f = hget r k f) ∧
    (∀ k, k ∉ deleted_keys cmds → stream_of r' k = stream_of r k) ∧ same_channels r r';
}.

Definition REDIS_KEY : string := "active_user_counts".
Definition SYSTEM_STREAM_KEY : string := "system_events_stream".
Definition MAX_STREAM_LENGTH : nat := N.to_nat 10000.
Definition CHANNEL_NAME : string := "ws_pushes".

Section clients.
Context `{RedisServer}.

(** A coroutine on the Redis client. *)
Definition redis_m (A : Type) : Type := redis_t → outcome' A * redis_t.
#[export] Instance redis_ret : MRet redis_m := λ A a r, (Ok a, r).
#[export] Instance redis_bind : MBind redis_m := λ A B f m r,
  match m r with
  | (Ok a, r') => f a r'
  | (Raise e, r') => (Raise e, r')
  end.
Definition command {A} (c : redis_t → (RedisExc + A) * redis_t) : redis_m A := λ r,
  match c r with
  | (inl e, r') => (Raise (ExRedisDriver e), r')
  | (inr a, r') => (Ok a, r')
  end.
Definition handle_redis_errors {A} (m : redis_m A) : redis_m A := λ r,
  let '(o, r') := m r in (translate_redis_error o, r').

(** ** Presence counters *)
Definition add_active_user (uid : string) : redis_m unit :=
  handle_redis_errors (_ ← command (hincrby REDIS_KEY uid 1); mret tt).
Definition remove_active_user (uid : string) : redis_m unit :=
  handle_redis_errors (
    count ← command (hincrby REDIS_KEY uid (-1));
    if (count <=? 0)%Z then _ ← command (hdel REDIS_KEY uid); mret tt else mret tt).
Definition get_active_users : redis_m (gset string) :=
  handle_redis_errors (us ← command (hkeys REDIS_KEY); mret (list_to_set us)).
Definition invalidate_deleted_group_cache (gid : string) (member_ids : list string)
    : redis_m unit :=
  handle_redis_errors (command (pipeline_execute (
    PipeDelete ["group:" +:+ gid; "group:" +:+ gid +:+ ":members"] ::
    map (λ m, PipeSrem ("user:" +:+ m +:+ ":groups") gid) member_ids))).

(** ** Publishing *)
Definition publish_ws_push (channel : string) (payload : json) : redis_m unit :=
  handle_redis_errors (_ ← command (publish channel (dumps payload)); mret tt).
Definition publish_stream_event (event : RedisEvent) : redis_m unit :=
  handle_redis_errors (
    _ ← command (xadd SYSTEM_STREAM_KEY (dumps (to_dict event)) MAX_STREAM_LENGTH); mret tt).

End clients.

(** ** What a successful publication leaves *)
Section published.
Context `{RedisServer} `{!RedisLaws}.

Lemma publish_stream_event_ok ev r r' :
  publish_stream_event ev r = (Ok tt, r') →
  (∃ i, last (stream_of r' SYSTEM_STREAM_KEY) = Some (i, dumps (to_dict ev)) ∧
        Forall (λ e, (e.1 < i)%N) (stream_of r SYSTEM_STREAM_KEY)) ∧
  same_hashes r r' ∧ same_channels r r'.
Proof.
  unfold publish_stream_event, handle_redis_errors, command, mbind, redis_bind.
  destruct (xadd _ _ _ r) as [[x|i] r1] eqn:Hx; [by destruct x|]. intros [= <-].
  apply xadd_ok in Hx as ((n & Hn & Hs) & Hlt & _ & Hh & Hc). split; [|done].
  assert (1 ≤ MAX_STREAM_LENGTH)%nat by (unfold MAX_STREAM_LENGTH; lia).
  exists i. split; [|done]. rewrite Hs, drop_app_le by lia. apply last_snoc.
Qed.

End published.

#[global] Arguments publish_stream_event : simpl never.
#[global] Arguments publish_ws_push : simpl never.
#[global] Arguments add_active_user : simpl never.
#[global] Arguments remove_active_user : simpl never.
