(* ===== verification/Cache.v ===== *)
(** * The worker-local token cache (services/auth.py, class TokenCache)

    [TTLCache] is cachetools': a class of operations on a monotonic clock, with
    what its documentation promises as laws. [TokenCache] is its client. *)

From S2P Require Export Models Events.

Class TTLCache := {
  ttl_cache : Type;
  cache_new : nat → Z → ttl_cache;
  cache_get : timestamp → string → ttl_cache → option User;
  cache_set : timestamp → string → User → ttl_cache → ttl_cache;
  cache_pop : timestamp → string → ttl_cache → ttl_cache;
  cache_clear : ttl_cache → ttl_cache;
  cache_items : timestamp → ttl_cache → list (string * User);
  (* The time to live the cache was built with, in microseconds. *)
  cache_ttl : ttl_cache → Z;
}.

(** An item may disappear early (eviction at [maxsize], LRU first) but is never
    returned once its time to live has passed. *)
Class TTLCacheLaws `{TTLCache} : Prop := {
  cache_get_new n ttl t k : cache_get t k (cache_new n ttl) = None;
  cache_get_set_eq t t' k v v' c :
    cache_get t' k (cache_set t k v c) = Some v' → v' = v ∧ (t' < t + cache_ttl c)%Z;
  cache_get_set_fresh t t' k v n ttl c :
    c = cache_new n ttl → (0 < n)%nat → (t ≤ t' < t + ttl)%Z →
    cache_get t' k (cache_set t k v c) = Some v;
  cache_get_set_ne t t' k k' v v' c :
    k' ≠ k → cache_get t' k' (cache_set t k v c) = Some v' → cache_get t' k' c = Some v';
  cache_get_pop_eq t t' k c : (t ≤ t')%Z → cache_get t' k (cache_pop t k c) = None;
  cache_get_pop_ne t t' k k' c :
    (t ≤ t')%Z → k' ≠ k → cache_get t' k' (cache_pop t k c) = cache_get t' k' c;
  cache_get_pop_sub t t' k k' v c :
    cache_get t' k' (cache_pop t k c) = Some v → cache_get t' k' c = Some v;
  cache_get_clear t k c : cache_get t k (cache_clear c) = None;
  cache_get_expired t t' k v c :
    (t ≤ t')%Z → cache_get t' k c = Some v → cache_get t k c = Some v;
  cache_items_get t k v c : (k, v) ∈ cache_items t c ↔ cache_get t k c = Some v;
  cache_ttl_new n ttl : cache_ttl (cache_new n ttl) = ttl;
  cache_ttl_set t k v c : cache_ttl (cache_set t k v c) = cache_ttl c;
  cache_ttl_pop t k c : cache_ttl (cache_pop t k c) = cache_ttl c;
  cache_ttl_clear c : cache_ttl (cache_clear c) = cache_ttl c;
}.

Module TokenCache.
Section token_cache.
Context `{TTLCache}.
Implicit Types (t : timestamp) (c : ttl_cache).

Definition MAXSIZE : nat := N.to_nat 10000.
Definition TTL : Z := seconds 300.
Definition init : ttl_cache := cache_new MAXSIZE TTL.

Definition clear c : ttl_cache := cache_clear c.
Definition get t (token_hash : string) c : option User := cache_get t token_hash c.
Definition set t (token_hash : string) (user : User) c : ttl_cache :=
  cache_set t token_hash user c.
Definition evict t (token_hash : string) c : ttl_cache := cache_pop t token_hash c.

(** Collect the hashes, then pop them one by one. *)
Definition evict_user t (target_id : string) c : ttl_cache :=
  let hashes_to_remove :=
    (filter (λ kv : string * User, str_uuid (user_id kv.2) = target_id) (cache_items t c)).*1 in
  fold_left (λ c t_hash, cache_pop t t_hash c) hashes_to_remove c.

(** [event_type == EventType.X] compares the payload's text with the value. *)
Definition handle_invalidation_event t (event_dict : json) c : ttl_cache :=
  let event_type := json_str "event" event_dict in
  if bool_decide (event_type = Some (EventType_value EV_TOKEN_REVOKED)) then
    match json_str "token_hash" event_dict with
    | Some h => if bool_decide (h = EmptyString) then c else evict t h c
    | None => c
    end
  else if bool_decide (event_type = Some (EventType_value EV_USER_INVALIDATED)) then
    match json_str "user_id" event_dict with
    | Some u => if bool_decide (u = EmptyString) then c else evict_user t u c
    | None => c
    end
  else c.

Context `{!TTLCacheLaws}.

Lemma get_pop_fold t t' k hs c :
  (t ≤ t')%Z →
  cache_get t' k (fold_left (λ c h, cache_pop t h c) hs c) =
  if bool_decide (k ∈ hs) then None else cache_get t' k c.
Proof.
  intros Ht. revert c. induction hs as [|h hs IH]; intros c; [done|].
  simpl. rewrite IH. pose proof (elem_of_cons hs k h) as Hin.
  destruct (decide (k = h)) as [->|Hk].
  - rewrite (bool_decide_eq_true_2 (h ∈ h :: hs)) by (apply Hin; by left).
    rewrite cache_get_pop_eq by done. by destruct (bool_decide (h ∈ hs)).
  - rewrite (bool_decide_ext (k ∈ h :: hs) (k ∈ hs)) by (rewrite Hin; split; [by intros [?|?]|by right]).
    by rewrite cache_get_pop_ne.
Qed.

Lemma get_evict_user t t' k uid c :
  (t ≤ t')%Z →
  get t' k (evict_user t (str_uuid uid) c) =
  match get t' k c with
  | Some u => if bool_decide (user_id u = uid) then None else Some u
  | None => None
  end.
Proof.
  intros Ht. unfold get, evict_user. rewrite get_pop_fold by done.
  case_bool_decide as Hin.
  - apply list_elem_of_fmap in Hin as ([k' u] & -> & [Hu Hkv]%list_elem_of_filter).
    simpl in *. apply cache_items_get in Hkv. apply (inj str_uuid) in Hu.
    destruct (cache_get t' k' c) as [u'|] eqn:Hg; [|done].
    apply (cache_get_expired t) in Hg; [|done]. rewrite Hkv in Hg. injection Hg as <-.
    by rewrite bool_decide_eq_true_2.
  - destruct (cache_get t' k c) as [u|] eqn:Hg; [|done].
    case_bool_decide as Hu; [|done]. destruct Hin. apply list_elem_of_fmap.
    exists (k, u). split; [done|]. apply list_elem_of_filter. simpl. split; [by rewrite Hu|].
    apply cache_items_get. by apply (cache_get_expired _ t').
Qed.

Lemma handle_token_revoked t h c :
  h ≠ EmptyString → handle_invalidation_event t (to_dict (TokenRevokedEvent h)) c = evict t h c.
Proof.
  intros Hh. unfold handle_invalidation_event. rewrite to_dict_event.
  rewrite bool_decide_eq_true_2 by done.
  change (json_str "token_hash" (to_dict (TokenRevokedEvent h))) with (Some h).
  cbv iota. by rewrite bool_decide_eq_false_2.
Qed.

Lemma str_uuid_nonempty u : str_uuid u ≠ EmptyString.
Proof. intros Hu. pose proof (parse_str_uuid u) as Hp. by rewrite Hu in Hp. Qed.

Lemma handle_user_invalidated t u c :
  handle_invalidation_event t (to_dict (UserInvalidatedEvent u)) c = evict_user t (str_uuid u) c.
Proof.
  unfold handle_invalidation_event. rewrite to_dict_event.
  rewrite bool_decide_eq_false_2, bool_decide_eq_true_2 by done.
  change (json_str "user_id" (to_dict (UserInvalidatedEvent u))) with (Some (str_uuid u)).
  cbv iota. by rewrite bool_decide_eq_false_2 by apply str_uuid_nonempty.
Qed.

(** Invalidation only removes items, and keeps the time to live. *)
Lemma get_pops_sub t t' k v hs c :
  cache_get t' k (fold_left (λ c h, cache_pop t h c) hs c) = Some v → cache_get t' k c = Some v.
Proof.
  revert c. induction hs as [|h hs IH]; intros c; [done|]. simpl. intros Hg.
  by eapply cache_get_pop_sub, IH.
Qed.
Lemma ttl_pops t hs c : cache_ttl (fold_left (λ c h, cache_pop t h c) hs c) = cache_ttl c.
Proof. revert c. induction hs as [|h hs IH]; intros c; [done|]. simpl. by rewrite IH, cache_ttl_pop. Qed.

Lemma handle_event_sub t ev t' k v c :
  get t' k (handle_invalidation_event t ev c) = Some v → get t' k c = Some v.
Proof.
  unfold get, handle_invalidation_event, evict, evict_user. repeat case_match; try done.
  - apply cache_get_pop_sub.
  - apply get_pops_sub.
Qed.
Lemma handle_event_ttl t ev c : cache_ttl (handle_invalidation_event t ev c) = cache_ttl c.
Proof.
  unfold handle_invalidation_event, evict, evict_user. repeat case_match; try done.
  - apply cache_ttl_pop.
  - apply ttl_pops.
Qed.

End token_cache.
End TokenCache.
