(* ===== verification/World.v ===== *)
(** * A worker process and its shared services
    (database/connection.py, utils/tasks.py, and the decorators in use)

    [World] is what a request handler can reach: the database behind the
    worker's pool, the Redis server, the worker's token cache and its list of
    spawned background tasks. Handlers are state transformers that return an
    [outcome]; what they changed before raising stays changed, except inside a
    transaction. *)

From S2P Require Export QuerySpecs Redis Cache.

(** The third-party packages and services of the program, in one bundle. *)
Class Platform := {
  plat_entropy :: Entropy;
  plat_rows :: RowOrder;
  plat_passwords :: PasswordHasher;
  plat_redis :: RedisServer;
  plat_cache :: TTLCache;
}.
Class PlatformLaws `{Platform} : Prop := {
  plat_entropy_laws :: EntropyLaws;
  plat_rows_laws :: RowOrderLaws;
  plat_passwords_laws :: PasswordHasherLaws;
  plat_redis_laws :: RedisLaws;
  plat_cache_laws :: TTLCacheLaws;
}.

(** Background coroutines the services hand to [spawn_task]. *)
Inductive Task :=
| PushGroupMembershipChange (user_id group_id : UUID) (action : string)
| PushToUser (user_id : UUID) (event : RedisEvent)
| PushToGroup (group_id : UUID) (event : RedisEvent) (sender_id : option UUID)
| GroupDeletionSideEffects (group_id : UUID) (member_user_ids : list UUID).

Section world.
Context {P : Platform}.

Record World := MkWorld {
  w_db : Database;
  w_pool : bool;                          (* [_pool is not None] *)
  w_faults : list (option PgError);       (* driver errors ahead, see [Tx.v] *)
  w_redis : redis_t;
  w_cache : ttl_cache;
  w_tasks : list Task;                    (* spawned, not yet run, oldest first *)
  w_tick : nat;
}.

Definition set_db db w :=
  MkWorld db (w_pool w) (w_faults w) (w_redis w) (w_cache w) (w_tasks w) (w_tick w).
Definition set_redis r w :=
  MkWorld (w_db w) (w_pool w) (w_faults w) r (w_cache w) (w_tasks w) (w_tick w).
Definition set_cache c w :=
  MkWorld (w_db w) (w_pool w) (w_faults w) (w_redis w) c (w_tasks w) (w_tick w).
Definition set_tick t w :=
  MkWorld (w_db w) (w_pool w) (w_faults w) (w_redis w) (w_cache w) (w_tasks w) t.

(** ** Coroutines of a handler *)
Definition M (A : Type) : Type := World → outcome' A * World.
#[export] Instance M_ret : MRet M := λ A a w, (Ok a, w).
#[export] Instance M_bind : MBind M := λ A B f m w,
  match m w with
  | (Ok a, w') => f a w'
  | (Raise e, w') => (Raise e, w')
  end.

Definition raise {A} (e : Exn) : M A := λ w, (Raise e, w).
Definition lift_outcome {A} (r : outcome' A) : M A := λ w, (r, w).
Definition draw_m (d : draw) : M (draw_type d) := λ w,
  (Ok (sample d (w_tick w)), set_tick (S (w_tick w)) w).
Definition uuid_v4 : M UUID := draw_m DUuid.
Definition current_ts : M timestamp := draw_m DNow.
(** [expiration_ts(ttl)], [ttl] in seconds. *)
Definition expiration_ts (ttl : Z) : M timestamp :=
  now ← current_ts; mret (now + seconds ttl)%Z.

Definition spawn_task (t : Task) : M unit := λ w,
  (Ok tt, MkWorld (w_db w) (w_pool w) (w_faults w) (w_redis w) (w_cache w)
            (w_tasks w ++ [t]) (w_tick w)).
Definition with_redis {A} (m : redis_m A) : M A := λ w,
  let '(o, r) := m (w_redis w) in (o, set_redis r w).
(** An operation of the token cache, which reads the monotonic clock. *)
Definition with_cache {A} (f : timestamp → ttl_cache → A * ttl_cache) : M A := λ w,
  let '(a, c) := f (ent_mono (w_tick w)) (w_cache w) in
  (Ok a, set_cache c (set_tick (S (w_tick w)) w)).

(** ** Decorators *)
Definition handle_db_constraint_error {A} (overrides : list (string * handler)) (kw : kwargs)
    (m : M A) : M A := λ w,
  let '(r, w') := m w in (translate_constraint_error overrides [] kw r, w').
Definition handle_db_not_found_error {A} (overrides : list (Entity * nf_override A)) (kw : kwargs)
    (m : M A) : M A := λ w,
  let '(r, w') := m w in (translate_not_found_error overrides [] kw r, w').

(** ** DatabaseManager *)

(** The [except] clauses around an acquired connection, in their order. *)
Definition driver_exn (e : Exn) : Exn :=
  match e with
  | ExPg Pg_InterfaceError => ExDb DatabaseConnectionError
  | ExPg Pg_QueryCanceled => ExDb DatabaseTimeoutError
  | ExPg (Pg_TimeoutError _) => e          (* no exception of asyncpg *)
  | ExPg _ => ExDb DatabaseError
  | _ => e
  end.
(** The one around the transaction block, which is nearer the body. *)
Definition serialization_exn (e : Exn) : Exn :=
  match e with
  | ExPg Pg_SerializationError => ExDb SerializationError
  | _ => e
  end.

(** A session on a fresh pool connection outside a transaction block: every
    statement commits by itself. [NOW()] is drawn from the server's clock. *)
Definition connection {A} (body : txprog A) : M A := λ w,
  if w_pool w then
    let '(r, st) := run_tx (ent_dbclock (w_tick w)) body
                      (MkTx (w_db w) (S (w_tick w)) (w_faults w)) in
    (reraise driver_exn r,
     MkWorld (tx_db st) (w_pool w) (tx_faults st) (w_redis w) (w_cache w) (w_tasks w) (tx_tick st))
  else (Raise (ExDb ConnectionPoolNotInitializedError), w).

(** [async with transaction() as conn: body]: commit when the body returns,
    roll back when it, or the commit, raises, unless the commit was carried out
    and only its acknowledgement was lost. A serialization failure becomes
    the program's [SerializationError] before [connection] sees it. *)
Definition commit {A} (db0 : Database) (r : outcome' A * TxState) : outcome' A * TxState :=
  match r with
  | (Ok a, st) =>
      match tx_faults st with
      | Some e :: fs =>
          (Raise (ExPg e), MkTx (if carried_out e then tx_db st else db0) (tx_tick st) fs)
      | fs => (Ok a, MkTx (tx_db st) (tx_tick st) (tail fs))
      end
  | (Raise e, st) => (Raise e, MkTx db0 (tx_tick st) (tx_faults st))
  end.
Definition transaction {A} (body : txprog A) : M A := λ w,
  if w_pool w then
    let '(r, st) := commit (w_db w) (run_tx (ent_dbclock (w_tick w)) body
                      (MkTx (w_db w) (S (w_tick w)) (w_faults w))) in
    (reraise (driver_exn ∘ serialization_exn) r,
     MkWorld (tx_db st) (w_pool w) (tx_faults st) (w_redis w) (w_cache w) (w_tasks w) (tx_tick st))
  else (Raise (ExDb ConnectionPoolNotInitializedError), w).

(** ** Runs *)

Lemma M_bind_run {A B} (m : M A) (f : A → M B) w :
  (m ≫= f) w = match m w with (Ok a, w') => f a w' | (Raise e, w') => (Raise e, w') end.
Proof. done. Qed.

(** A commit that fails is rolled back, or was carried out. *)
Lemma commit_raises {A} db0 (r : outcome' A * TxState) e st :
  commit db0 r = (Raise e, st) →
  tx_db st = db0 ∨
  ∃ a st' e', r = (Ok a, st') ∧ head (tx_faults st') = Some (Some e') ∧ carried_out e' = true ∧
    tx_db st = tx_db st'.
Proof.
  unfold commit. destruct r as [[a|e'] st']; [|intros [= <- <-]; by left].
  destruct (tx_faults st') as [|[e'|] fs] eqn:Hf; [discriminate| |discriminate].
  intros [= <- <-]. cbn. destruct (carried_out e') eqn:Hc; [|by left].
  right. exists a, st', e'. by rewrite Hf.
Qed.
Lemma commit_faults {A} db0 (r : outcome' A * TxState) :
  tx_faults (commit db0 r).2 `suffix_of` tx_faults r.2.
Proof.
  unfold commit. destruct r as [[a|e] st]; cbn; [|done].
  destruct (tx_faults st) as [|[e|] fs]; cbn; [done|by apply suffix_cons_r..].
Qed.

(** A worker with an open pool and no driver errors ahead. *)
Definition healthy (w : World) : Prop := w_pool w = true ∧ w_faults w = [].

(** The worker after a session that left [st]. *)
Definition after (w : World) (db : Database) (tick : nat) : World :=
  MkWorld db true [] (w_redis w) (w_cache w) (w_tasks w) tick.

Lemma transaction_run {A} (body : txprog A) w :
  healthy w →
  transaction body w =
  match run_tx (ent_dbclock (w_tick w)) body (MkTx (w_db w) (S (w_tick w)) []) with
  | (Ok a, st) => (Ok a, after w (tx_db st) (tx_tick st))
  | (Raise e, st) => (Raise (driver_exn (serialization_exn e)), after w (w_db w) (tx_tick st))
  end.
Proof.
  intros [Hp Hf]. unfold transaction. rewrite Hp, Hf.
  pose proof (run_tx_faultless (ent_dbclock (w_tick w)) body (w_db w) (S (w_tick w))) as Hfl.
  destruct (run_tx _ _ _) as [[a|e] st]; simpl in *; rewrite Hfl; done.
Qed.

Lemma connection_run {A} (body : txprog A) w :
  healthy w →
  connection body w =
  let '(r, st) := run_tx (ent_dbclock (w_tick w)) body (MkTx (w_db w) (S (w_tick w)) []) in
  (reraise driver_exn r, after w (tx_db st) (tx_tick st)).
Proof.
  intros [Hp Hf]. unfold connection. rewrite Hp, Hf.
  pose proof (run_tx_faultless (ent_dbclock (w_tick w)) body (w_db w) (S (w_tick w))) as Hfl.
  destruct (run_tx _ _ _) as [r st]; simpl in *. by rewrite Hfl.
Qed.

(** No command in flight is carried out without its acknowledgement. *)
Definition acknowledged (w : World) : Prop :=
  ∀ e, Some e ∈ w_faults w → carried_out e = false.
Lemma acknowledged_suffix w w' :
  w_faults w' `suffix_of` w_faults w → acknowledged w → acknowledged w'.
Proof. intros [fs Hfs] Hw e He. apply Hw. rewrite Hfs. apply elem_of_app. by right. Qed.
Lemma healthy_acknowledged w : healthy w → acknowledged w.
Proof. intros [_ Hf] e. rewrite Hf. by intros ?%elem_of_nil. Qed.

Lemma transaction_faults {A} (body : txprog A) w :
  w_faults (transaction body w).2 `suffix_of` w_faults w.
Proof.
  unfold transaction. destruct (w_pool w); [|done].
  pose proof (run_tx_faults (ent_dbclock (w_tick w)) body (MkTx (w_db w) (S (w_tick w)) (w_faults w))) as H1.
  pose proof (commit_faults (w_db w) (run_tx (ent_dbclock (w_tick w)) body
    (MkTx (w_db w) (S (w_tick w)) (w_faults w)))) as H2.
  destruct (commit _ _) as [r st]. cbn in *. by etrans.
Qed.

(** Whatever the body does and whichever driver errors strike, a transaction
    block that raises leaves the database as it found it, unless its commit was
    carried out without an acknowledgement. *)
Lemma transaction_raise_db {A} (body : txprog A) w e w' :
  acknowledged w → transaction body w = (Raise e, w') → w_db w' = w_db w.
Proof.
  unfold transaction. intros Hack. destruct (w_pool w); [|by intros [= _ <-]].
  destruct (commit _ _) as [[a|e'] st] eqn:Hc; [discriminate|].
  intros [= _ <-]. simpl. apply commit_raises in Hc as [Hc|(a & st' & e1 & Hr & Hhd & Hcar & _)]; [done|].
  pose proof (run_tx_faults (ent_dbclock (w_tick w)) body (MkTx (w_db w) (S (w_tick w)) (w_faults w))) as [fs Hfs].
  rewrite Hr in Hfs. cbn in Hfs, Hhd. rewrite Hack in Hcar; [done|].
  rewrite Hfs. apply elem_of_app. right. by apply head_Some_elem_of.
Qed.
(** A strict body that is committed, whether the program learns of it or not,
    did what it does on a faultless server. *)
Lemma transaction_db {A} (body : txprog A) w :
  strict_tx body →
  w_db (transaction body w).2 = w_db w ∨
  ∃ a t', run_tx (ent_dbclock (w_tick w)) body (MkTx (w_db w) (S (w_tick w)) []) =
            (Ok a, MkTx (w_db (transaction body w).2) t' []).
Proof.
  intros Hs. unfold transaction. destruct (w_pool w); [|by left].
  destruct (run_tx _ body _) as [[b|e] st] eqn:Hr; [|by left].
  apply run_strict in Hr; [|done]. cbn.
  destruct (tx_faults st) as [|[e|] fs]; cbn; [eauto| |eauto].
  destruct (carried_out e); eauto.
Qed.

(** A strict body that returns did what it does on a faultless server. *)
Lemma transaction_commits {A} (body : txprog A) w a w' :
  strict_tx body → transaction body w = (Ok a, w') →
  ∃ t', run_tx (ent_dbclock (w_tick w)) body (MkTx (w_db w) (S (w_tick w)) []) =
          (Ok a, MkTx (w_db w') t' []).
Proof.
  intros Hs. unfold transaction. destruct (w_pool w); [|discriminate].
  destruct (run_tx _ _ _) as [[b|e] st] eqn:Hr; cbn; [|discriminate].
  apply run_strict in Hr; [|done].
  destruct (tx_faults st) as [|[e|] fs]; cbn; intros [= <- <-]; eauto.
Qed.
Lemma connection_ok {A} (body : txprog A) w a w' :
  strict_tx body → connection body w = (Ok a, w') →
  run_tx (ent_dbclock (w_tick w)) body (MkTx (w_db w) (S (w_tick w)) []) =
    (Ok a, MkTx (w_db w') (w_tick w') []) ∧ w_cache w' = w_cache w.
Proof.
  intros Hs. unfold connection. destruct (w_pool w); [|discriminate].
  destruct (run_tx _ _ _) as [[b|e] st] eqn:Hr; cbn; [|discriminate].
  apply run_strict in Hr; [|done]. by intros [= <- <-].
Qed.
Lemma connection_cache {A} (body : txprog A) w : w_cache (connection body w).2 = w_cache w.
Proof. unfold connection. destruct (w_pool w); [|done]. by destruct (run_tx _ _ _). Qed.
Lemma transaction_pool {A} (body : txprog A) w : w_pool (transaction body w).2 = w_pool w.
Proof.
  unfold transaction. destruct (w_pool w) eqn:Hp; [|done]. by destruct (commit _ _) as [r st].
Qed.

End world.
Arguments World {P}.
