(* ===== verification/Settings.v ===== *)
(** * Application settings (config/settings.py)

    The sections the services read, with their defaults, and the choice of the
    configuration file. YAML and pydantic are libraries: what they make of a
    file's text is an argument. *)

From S2P Require Export PyData.

Record LoggingConfig := MkLoggingConfig { level : string }.
Record AuthConfig := MkAuthConfig {
  access_token_ttl : Z;      (* seconds *)
  refresh_token_ttl : Z;
}.
Record DatabaseConfig := MkDatabaseConfig {
  db_host : string; db_port : Z; db_user : string; db_password : string; db_database : string;
  min_pool_size : Z; max_pool_size : Z;
  command_timeout : timestamp;
}.
Record RedisConfig := MkRedisConfig { redis_url : string; max_connections : Z }.
Record AppConfig := MkAppConfig {
  cfg_logging : LoggingConfig; cfg_database : DatabaseConfig;
  cfg_auth : AuthConfig; cfg_redis : RedisConfig;
}.

Definition default_LoggingConfig : LoggingConfig := MkLoggingConfig "DEBUG".
Definition default_AuthConfig : AuthConfig := MkAuthConfig 900 604800.
Definition default_DatabaseConfig : DatabaseConfig :=
  MkDatabaseConfig "localhost" 5432 "postgres" "" "app_db" 5 70 (seconds 60).
Definition default_RedisConfig : RedisConfig := MkRedisConfig "redis://localhost:6379/0" 100.
Definition default_AppConfig : AppConfig :=
  MkAppConfig default_LoggingConfig default_DatabaseConfig default_AuthConfig default_RedisConfig.

Section settings.
(** What [yaml.safe_load] makes of a text ([None] for an empty document, an
    exception for ill-formed YAML), and pydantic's construction of [AppConfig]
    from the dictionary's items. *)
Context {yaml_dict exn : Type} (empty_dict : yaml_dict)
  (safe_load : string → outcome exn (option yaml_dict))
  (app_config : yaml_dict → outcome exn AppConfig).

(** The file system and the environment, as functions. *)
Implicit Types (files : string → option string) (getenv : string → option string).

(** [yaml.safe_load(f) or {}]; a missing file is an empty dictionary. *)
Definition load_config_file files (config_path : string) : outcome exn yaml_dict :=
  match files config_path with
  | None => Ok empty_dict
  | Some text => o_map (default empty_dict) (safe_load text)
  end.

Definition default_path : string := "config/messenger.yaml".
(** [os.getenv("APP_CONFIG_PATH") or default_path]: an empty variable counts
    as unset. *)
Definition config_path getenv : string :=
  match getenv "APP_CONFIG_PATH" with
  | Some p => if bool_decide (p = EmptyString) then default_path else p
  | None => default_path
  end.
(** [lru_cache]: the first configuration is kept, an exception is not. *)
Definition get_settings files getenv (cached : option AppConfig)
    : outcome exn AppConfig * option AppConfig :=
  match cached with
  | Some c => (Ok c, cached)
  | None =>
      let r := o_bind app_config (load_config_file files (config_path getenv)) in
      (r, match r with Ok c => Some c | Raise _ => None end)
  end.

End settings.
