(* ===== verification/AuthService.v ===== *)
(** * AuthService (services/auth.py)

    Registration, login, refresh-token rotation with reuse detection, logout.
    The body of each [async with self._db.transaction()] block is a definition
    of its own ([*_tx]), so that it can also be run interleaved with others. *)

From S2P Require Export World Settings.

Record TokenPair := MkTokenPair {
  access_token : string;
  refresh_token : string;
  access_token_expires_at : timestamp;
  refresh_token_expires_at : timestamp;
}.

Section auth.
Context {P : Platform} (settings : AuthConfig).

(** [generate_raw_token()] on the operating system's generator. *)
Definition raw_token : M string := λ w,
  (Ok (generate_raw_token (ent_bytes (w_tick w))), set_tick (S (w_tick w)) w).

(** [TokenPair.generate] *)
Definition generate (access_ttl refresh_ttl : Z) : M TokenPair :=
  access_token ← raw_token;
  refresh_token ← raw_token;
  access_token_expires_at ← expiration_ts access_ttl;
  refresh_token_expires_at ← expiration_ts refresh_ttl;
  mret (MkTokenPair access_token refresh_token access_token_expires_at refresh_token_expires_at).
Definition generate_token_pair : M TokenPair :=
  generate (access_token_ttl settings) (refresh_token_ttl settings).

Definition issue_token_pair (user_id : UUID) (token_pair : TokenPair) : txprog unit :=
  _ ← create_access_token
    (MkAccessToken (hash_token (access_token token_pair)) user_id false
                   (access_token_expires_at token_pair));
  create_refresh_token
    (MkRefreshToken (hash_token (refresh_token token_pair)) user_id false
                    (refresh_token_expires_at token_pair)).

(** ** register *)
Definition register_tx (user_model : User) (token_pair : TokenPair) : txprog User :=
  user ← create_user user_model;
  _ ← issue_token_pair (user_id user) token_pair;
  mret user.
Definition register (username password : string) : M (User * TokenPair) :=
  handle_db_constraint_error [] [("username", PStr username); ("password", PStr password)] (
    salt ← draw_m (DBytes 16);
    let password_hash := hash_password salt password in
    user_id ← uuid_v4;
    created_at ← current_ts;
    let user_model := MkUser user_id username password_hash false created_at in
    token_pair ← generate_token_pair;
    user ← transaction (register_tx user_model token_pair);
    mret (user, token_pair)).

(** ** login *)
Definition argon2 {A} (r : outcome argon2_error A) : txprog A :=
  match r with Ok a => TxRet a | Raise e => TxRaise (ExArgon2 e) end.
Definition login_tx (username password : string) (token_pair : TokenPair) : txprog (User * bool) :=
  user ← get_user_by_username username false;
  ok ← argon2 (verify_password password (password_hash user));
  if negb ok then tx_raise (ExService InvalidCredentialsError) else
  inv1 ← (if deactivated user then _ ← reactivate_user (user_id user); mret true
          else mret false);
  old ← argon2 (needs_rehash (password_hash user));
  inv2 ← (if (old : bool) then
            salt ← tx_draw (DBytes 16);
            let new_hash := hash_password salt password in
            _ ← update_user_password (user_id user) new_hash (password_hash user);
            mret true
          else mret inv1);
  _ ← issue_token_pair (user_id user) token_pair;
  mret (user, inv2).
Definition login (username password : string) : M (User * TokenPair) :=
  let kw := [("username", PStr username); ("password", PStr password)] in
  handle_db_constraint_error
    [(Constraint_value FK_ACCESS_TOKENS_USER_ID, HClass InvalidCredentialsError);
     (Constraint_value FK_REFRESH_TOKENS_USER_ID, HClass InvalidCredentialsError)] kw (
  handle_db_not_found_error [(USER, NfHandler (HClass InvalidCredentialsError))] kw (
    token_pair ← generate_token_pair;
    r ← transaction (login_tx username password token_pair);
    let '(user, cache_needs_invalidation) := (r : User * bool) in
    _ ← (if cache_needs_invalidation
         then with_redis (publish_stream_event (UserInvalidatedEvent (user_id user)))
         else mret tt);
    mret (user, token_pair))).

(** ** refresh *)
Definition refresh_tx (refresh_hash : string) (token_pair : TokenPair) : txprog (bool * UUID) :=
  token_record ← get_refresh_token refresh_hash true;
  let user_id := rt_user_id token_record in
  if rt_is_revoked token_record then
    _ ← revoke_all_user_access_tokens user_id;
    _ ← revoke_all_user_refresh_tokens user_id;
    mret (true, user_id)
  else
    now ← tx_draw DNow;
    if rt_is_expired now token_record then tx_raise (ExService TokenExpiredError)
    else
      _ ← revoke_refresh_token refresh_hash;
      _ ← issue_token_pair user_id token_pair;
      mret (false, user_id).
Definition refresh (raw_refresh_token : string) : M TokenPair :=
  let kw := [("raw_refresh_token", PStr raw_refresh_token)] in
  handle_db_constraint_error [] kw (
  handle_db_not_found_error [(REFRESH_TOKEN, NfHandler (HClass InvalidTokenError))] kw (
    let refresh_hash := hash_token raw_refresh_token in
    token_pair ← generate_token_pair;
    r ← transaction (refresh_tx refresh_hash token_pair);
    let '(is_reused, user_id) := (r : bool * UUID) in
    _ ← (if is_reused then
           _ ← with_redis (publish_stream_event (UserInvalidatedEvent user_id));
           raise (ExService TokenRevokedError)
         else with_redis (publish_stream_event (TokenRevokedEvent refresh_hash)));
    mret token_pair)).

(** ** logout *)
Definition logout_tx (refresh_hash : string) (access_hash : option string) : txprog unit :=
  _ ← revoke_refresh_token refresh_hash;
  match access_hash with
  | Some h => revoke_access_token h
  | None => mret tt
  end.
(** [hash_token(raw) if raw else None]: an empty token counts as none. *)
Definition access_hash_of (raw_access_token : option string) : option string :=
  match raw_access_token with
  | Some raw => if bool_decide (raw = EmptyString) then None else Some (hash_token raw)
  | None => None
  end.
Definition logout (raw_refresh_token : string) (raw_access_token : option string) : M unit :=
  let kw := [("raw_refresh_token", PStr raw_refresh_token);
             ("raw_access_token", match raw_access_token with Some s => PStr s | None => PNone end)] in
  handle_db_not_found_error [(REFRESH_TOKEN, NfNone tt); (ACCESS_TOKEN, NfNone tt)] kw (
    let refresh_hash := hash_token raw_refresh_token in
    let access_hash := access_hash_of raw_access_token in
    _ ← transaction (logout_tx refresh_hash access_hash);
    _ ← (match access_hash with
         | Some h => with_cache (λ t c, (tt, TokenCache.evict t h c))
         | None => mret tt
         end);
    _ ← with_redis (publish_stream_event (TokenRevokedEvent refresh_hash));
    match access_hash with
    | Some h => with_redis (publish_stream_event (TokenRevokedEvent h))
    | None => mret tt
    end).

End auth.
