(* ===== verification/UserService.v ===== *)
(** * UserService (services/user.py)

    Profiles, account lifecycle, friendships. The router passes the identifiers
    of the account operations positionally, so their decorators see no keyword
    arguments; those of the friendship operations are keywords. *)

From S2P Require Export World.

Section user.
Context {P : Platform}.

(** ** Accounts *)
Definition get_by_username (name : string) : M User :=
  handle_db_not_found_error [] [] (connection (get_user_by_username name false)).
Definition get_by_id (uid : UUID) : M User :=
  handle_db_not_found_error [] [] (connection (get_user_by_id uid false)).
Definition deactivate_account (uid : UUID) : M unit :=
  handle_db_not_found_error [] [] (transaction (deactivate_user uid)).
Definition reactivate_account (uid : UUID) : M unit :=
  handle_db_not_found_error [] [] (transaction (reactivate_user uid)).
Definition delete_account (uid : UUID) : M unit :=
  handle_db_not_found_error [] [] (transaction (delete_user uid)).

(** ** Friendships *)
Definition user_send_friend_request (requester addressee : UUID) : M unit :=
  handle_db_constraint_error []
    [("requester_id", PUuid requester); ("addressee_id", PUuid addressee)] (
    if decide (requester = addressee) then raise (ExService SelfFriendshipError)
    else transaction (send_friend_request requester addressee)).
Definition user_accept_friend_request (addressee requester : UUID) : M unit :=
  handle_db_not_found_error []
    [("addressee_id", PUuid addressee); ("requester_id", PUuid requester)]
    (transaction (accept_friend_request requester addressee)).
Definition remove_or_decline_friendship (user_a user_b : UUID) : M unit :=
  handle_db_not_found_error [] [("user_a", PUuid user_a); ("user_b", PUuid user_b)]
    (transaction (remove_friendship user_a user_b)).
Definition user_get_friendship_status (user_a user_b : UUID) : M Friendship :=
  handle_db_not_found_error [] [("user_a", PUuid user_a); ("user_b", PUuid user_b)]
    (connection (get_friendship_status user_a user_b false)).
Definition get_friends (uid : UUID) : M (list Friendship) :=
  connection (list_accepted_friends uid).
Definition get_pending_friend_requests (uid : UUID) : M (list Friendship) :=
  connection (list_pending_requests uid).

End user.
