(* ===== verification/GroupService.v ===== *)
(** * GroupService (services/group.py)

    Groups and memberships. A committed change spawns the task that tells the
    cluster about it; the permission checks run inside the transaction. *)

From S2P Require Export World.

Section group.
Context {P : Platform}.

Definition denied {A} (message : string) : txprog A :=
  tx_raise (ExService (InsufficientGroupPermissionError message)).

(** [Group(...)] and [Membership(...)] draw their defaults in field order. *)
Definition new_group (creator : UUID) (name : string) : M Group :=
  group_id ← uuid_v4; created_at ← current_ts;
  mret (MkGroup group_id name (Some creator) created_at).
Definition new_membership (gid uid : UUID) : M Membership :=
  joined_at ← current_ts; mret (MkMembership gid uid joined_at).

Definition create_group_tx (group_entity : Group) (membership_entity : Membership) : txprog Group :=
  group ← create_group group_entity;
  _ ← add_group_member membership_entity;
  mret group.
Definition svc_create_group (creator : UUID) (name : string) : M (Group * Membership) :=
  handle_db_constraint_error [] [("creator_id", PUuid creator); ("name", PStr name)] (
    group_entity ← new_group creator name;
    membership_entity ← new_membership (group_id group_entity) creator;
    group ← transaction (create_group_tx group_entity membership_entity);
    _ ← spawn_task (PushGroupMembershipChange creator (group_id group) "JOIN");
    mret (group, membership_entity)).

Definition list_group_members (gid : UUID) : M (list Membership) :=
  connection (list_group_memberships gid).

Definition group_details_tx (actor gid : UUID) : txprog Group :=
  group ← get_group_by_id gid false;
  _ ← get_membership gid actor false;
  mret group.
Definition get_group_details (actor gid : UUID) : M Group :=
  let kw := [("actor_id", PUuid actor); ("group_id", PUuid gid)] in
  handle_db_constraint_error [] kw (handle_db_not_found_error [] kw (
    connection (group_details_tx actor gid))).

Definition svc_list_user_groups (uid : UUID) : M (list Group) :=
  connection (list_user_groups uid).

Definition target_kw (actor gid target : UUID) : kwargs :=
  [("actor_id", PUuid actor); ("group_id", PUuid gid); ("target_user_id", PUuid target)].

Definition add_member_tx (actor gid target : UUID) : txprog Membership :=
  group ← get_group_by_id gid false;
  if decide (created_by group ≠ Some actor) then
    denied "Only the group creator can add new members."
  else
    joined_at ← tx_draw DNow;
    add_group_member (MkMembership gid target joined_at).
Definition add_member (actor gid target : UUID) : M Membership :=
  let kw := target_kw actor gid target in
  handle_db_constraint_error [] kw (handle_db_not_found_error [] kw (
    membership ← transaction (add_member_tx actor gid target);
    _ ← spawn_task (PushGroupMembershipChange target gid "JOIN");
    mret membership)).

Definition remove_member_tx (actor gid target : UUID) : txprog unit :=
  group ← get_group_by_id gid false;
  if decide (Some target = created_by group) then
    denied "Group creator cannot leave the group. Delete the group instead."
  else
    let is_self_removal := bool_decide (actor = target) in
    let is_creator := bool_decide (created_by group = Some actor) in
    if negb (is_self_removal || is_creator) then
      denied "Only the group creator can remove other members."
    else remove_group_member gid target.
Definition remove_member (actor gid target : UUID) : M unit :=
  let kw := target_kw actor gid target in
  handle_db_constraint_error [] kw (handle_db_not_found_error [] kw (
    _ ← transaction (remove_member_tx actor gid target);
    spawn_task (PushGroupMembershipChange target gid "LEAVE"))).

Definition delete_group_tx (actor gid : UUID) : txprog (list Membership) :=
  group ← get_group_by_id gid false;
  if decide (created_by group ≠ Some actor) then
    denied "Only the group creator can delete this group."
  else
    memberships ← list_group_memberships gid;
    _ ← delete_group gid actor;
    mret memberships.
Definition svc_delete_group (actor gid : UUID) : M unit :=
  let kw := [("actor_id", PUuid actor); ("group_id", PUuid gid)] in
  handle_db_constraint_error [] kw (handle_db_not_found_error [] kw (
    memberships ← transaction (delete_group_tx actor gid);
    let member_user_ids := mb_user_id <$> (memberships : list Membership) in
    spawn_task (GroupDeletionSideEffects gid member_user_ids))).

Lemma new_group_run creator name w :
  new_group creator name w =
  (Ok (MkGroup (ent_uuid (w_tick w)) name (Some creator) (ent_clock (S (w_tick w)))),
   set_tick (2 + w_tick w) w).
Proof. done. Qed.
Lemma new_membership_run gid uid w :
  new_membership gid uid w =
  (Ok (MkMembership gid uid (ent_clock (w_tick w))), set_tick (S (w_tick w)) w).
Proof. done. Qed.

End group.
