(* ===== verification/MessagingService.v ===== *)
(** * MessagingService (services/messaging.py)

    Direct and group messages: permission check and insert in one transaction,
    the push to sockets spawned after the commit; and the paginated histories. *)

From S2P Require Export World.

Section messaging.
Context {P : Platform}.

(** The overrides [lambda **kw: XNotAllowedError(kw[...])]. *)
Definition dm_not_allowed : handler := HFun (λ kw, subscript "recipient_id" kw DirectMessageNotAllowedError).
Definition gm_not_allowed : handler := HFun (λ kw, subscript "group_id" kw GroupMessageNotAllowedError).

Definition limit_kw (before : option timestamp) : kwargs :=
  [("before", match before with Some _ => PObj | None => PNone end); ("limit", PObj)].

Definition send_dm_tx (sender recipient : UUID) (content : string) : txprog DirectMessage :=
  friendship ← get_friendship_status sender recipient false;
  if negb (accepted friendship) then
    tx_raise (ExService (DirectMessageNotAllowedError (PUuid recipient)))
  else
    message_id ← tx_draw DUuid;
    created_at ← tx_draw DNow;
    send_direct_message (MkDirectMessage message_id sender recipient content created_at).
Definition svc_send_direct_message (sender recipient : UUID) (content : string) : M DirectMessage :=
  let kw := [("sender_id", PUuid sender); ("recipient_id", PUuid recipient);
             ("content", PStr content)] in
  handle_db_constraint_error [] kw (
  handle_db_not_found_error [(FRIENDSHIP, NfHandler dm_not_allowed)] kw (
    dm ← transaction (send_dm_tx sender recipient content);
    _ ← spawn_task (PushToUser recipient (dm_event dm));
    mret dm)).

(** [before or datetime.now(UTC)] *)
Definition cutoff_of (before : option timestamp) : M timestamp :=
  match before with Some t => mret t | None => current_ts end.

Definition dm_history_tx (actor recipient : UUID) (cutoff : timestamp) (limit : Z)
    : txprog (list DirectMessage) :=
  friendship ← get_friendship_status actor recipient false;
  if negb (accepted friendship) then
    tx_raise (ExService (DirectMessageNotAllowedError (PUuid recipient)))
  else get_dm_conversation_history actor recipient cutoff limit.
Definition get_dm_history (actor recipient : UUID) (before : option timestamp) (limit : Z)
    : M (list DirectMessage) :=
  let kw := ("actor_id", PUuid actor) :: ("recipient_id", PUuid recipient) :: limit_kw before in
  handle_db_constraint_error [] kw (
  handle_db_not_found_error [(FRIENDSHIP, NfHandler dm_not_allowed)] kw (
    cutoff ← cutoff_of before;
    connection (dm_history_tx actor recipient cutoff limit))).

Definition send_gm_tx (sender gid : UUID) (content : string) : txprog GroupMessage :=
  _ ← get_membership gid sender false;
  message_id ← tx_draw DUuid;
  created_at ← tx_draw DNow;
  send_group_message (MkGroupMessage message_id gid sender content created_at).
Definition svc_send_group_message (sender gid : UUID) (content : string) : M GroupMessage :=
  let kw := [("sender_id", PUuid sender); ("group_id", PUuid gid); ("content", PStr content)] in
  handle_db_constraint_error [] kw (
  handle_db_not_found_error [(MEMBERSHIP, NfHandler gm_not_allowed)] kw (
    msg ← transaction (send_gm_tx sender gid content);
    _ ← spawn_task (PushToGroup gid (gm_event msg) (Some sender));
    mret msg)).

Definition group_history_tx (actor gid : UUID) (cutoff : timestamp) (limit : Z)
    : txprog (list GroupMessage) :=
  _ ← get_membership gid actor false;
  get_group_messages_timeline gid cutoff limit.
Definition get_group_history (actor gid : UUID) (before : option timestamp) (limit : Z)
    : M (list GroupMessage) :=
  let kw := ("actor_id", PUuid actor) :: ("group_id", PUuid gid) :: limit_kw before in
  handle_db_constraint_error [] kw (
  handle_db_not_found_error [(MEMBERSHIP, NfHandler gm_not_allowed)] kw (
    cutoff ← cutoff_of before;
    connection (group_history_tx actor gid cutoff limit))).

End messaging.
