(* ===== verification/DbInv.v ===== *)
(** * Integrity of the tables

    [wf_db]: rows sit under their primary keys, usernames are unique, and
    foreign keys point to existing rows. Every statement of the program
    preserves it, the multi-table deletions included. *)

From S2P Require Export QuerySpecs.

Definition has_user db (u : UUID) : Prop := is_Some (users db !! u).
Definition has_group db (g : UUID) : Prop := is_Some (groups db !! g).

Record wf_db (db : Database) : Prop := {
  wf_users : map_Forall (λ k u, user_id u = k) (users db);
  wf_usernames : ∀ k1 k2 u1 u2, users db !! k1 = Some u1 → users db !! k2 = Some u2 →
    username u1 = username u2 → k1 = k2;
  wf_friendships : map_Forall (λ k f, k = (requester_id f, addressee_id f) ∧
    has_user db (requester_id f) ∧ has_user db (addressee_id f)) (friendships db);
  wf_access_tokens :
    map_Forall (λ k t, at_token_hash t = k ∧ has_user db (at_user_id t)) (access_tokens db);
  wf_refresh_tokens :
    map_Forall (λ k t, rt_token_hash t = k ∧ has_user db (rt_user_id t)) (refresh_tokens db);
  wf_groups :
    map_Forall (λ k g, group_id g = k ∧ ∃ c, created_by g = Some c ∧ has_user db c) (groups db);
  wf_memberships :
    map_Forall (λ k m, k = mb_pk m ∧ has_group db (mb_group_id m) ∧ has_user db (mb_user_id m))
      (memberships db);
  wf_direct_messages :
    map_Forall (λ k m, dm_message_id m = k ∧ has_user db (dm_sender_id m) ∧
      has_user db (dm_recipient_id m)) (direct_messages db);
  wf_group_messages :
    map_Forall (λ k m, gm_message_id m = k ∧ has_group db (gm_group_id m) ∧
      has_user db (gm_sender_id m)) (group_messages db);
}.

Lemma wf_empty : wf_db empty_db.
Proof.
  split; cbn; try apply map_Forall_empty. intros k1 k2 u1 u2 H. by rewrite lookup_empty in H.
Qed.

(** ** Map-level steps *)
Section maps.
Context `{Countable K} {A : Type}.
Implicit Types (m : gmap K A) (Q R : K → A → Prop).

Lemma map_Forall_weaken Q R m :
  (∀ k x, Q k x → R k x) → map_Forall Q m → map_Forall R m.
Proof. intros HQR Hm k x Hk. by apply HQR, Hm. Qed.
Lemma map_Forall_alter' Q f k m :
  (∀ x, Q k x → Q k (f x)) → map_Forall Q m → map_Forall Q (alter f k m).
Proof.
  intros Hf Hm j x. rewrite lookup_alter_Some.
  intros [(<- & y & Hy & ->)|[_ Hj]]; eauto.
Qed.
Lemma map_Forall_fmap' Q (f : A → A) m :
  (∀ k x, Q k x → Q k (f x)) → map_Forall Q m → map_Forall Q (f <$> m).
Proof. intros Hf Hm k x. rewrite lookup_fmap_Some. intros (y & <- & Hy). eauto. Qed.
Lemma map_Forall_filter' Q R (F : K * A → Prop) `{∀ x, Decision (F x)} m :
  (∀ k x, m !! k = Some x → F (k, x) → Q k x → R k x) →
  map_Forall Q m → map_Forall R (filter F m).
Proof. intros HF Hm k x. rewrite map_lookup_filter_Some. intros [Hk Hx]. eauto. Qed.
End maps.

Lemma any_row_false {K A} `{Countable K} (P : A → Prop) `{∀ x, Decision (P x)} (t : gmap K A) :
  any_row P t = false ↔ ∀ k x, t !! k = Some x → ¬ P x.
Proof.
  unfold any_row, table_rows. rewrite bool_decide_eq_false, Exists_exists. split.
  - intros Hn k x Hk Hx. apply Hn. exists x. split; [|done].
    apply list_elem_of_fmap. exists (k, x). split; [done|]. by apply elem_of_map_to_list.
  - intros Hn (x & Hx & HP). apply list_elem_of_fmap in Hx as ([k y] & -> & Hk).
    apply elem_of_map_to_list in Hk. by eapply Hn.
Qed.

(** A property of the users that an update keeps. *)
Definition same_users (db db' : Database) : Prop := ∀ u, has_user db u → has_user db' u.

Ltac wf_fields Hwf := destruct Hwf as [Hu Hun Hf Hat Hrt Hg Hm Hdm Hgm]; split; cbn.
Ltac insert_row :=
  repeat match goal with
  | |- unique ?b _ _ _ = inr _ → _ => unfold unique at 1; destruct b eqn:?; [discriminate|]
  | |- references ?o _ _ _ = inr _ → _ => unfold references at 1; destruct o eqn:?; [|discriminate]
  | |- inr _ = inr _ → _ => intros [= <-]
  end.

Section inserts.
Implicit Types db : Database.

Lemma has_user_insert db k u uid :
  has_user db uid → has_user (set_users <[k := u]> db) uid.
Proof. unfold has_user. cbn. rewrite lookup_insert_is_Some'. auto. Qed.

(** Growing or rewriting the users table under its keys. *)
Lemma wf_set_user db k u :
  wf_db db → user_id u = k →
  (∀ k' u', users db !! k' = Some u' → k' ≠ k → username u' ≠ username u) →
  wf_db (set_users <[k := u]> db).
Proof.
  intros Hwf Hk Hname.
  pose proof (has_user_insert db k u) as Hi. wf_fields Hwf.
  - by apply map_Forall_insert_2.
  - intros k1 k2 u1 u2. rewrite !lookup_insert_Some.
    intros [[<- <-]|[Hk1 H1]] [[<- <-]|[Hk2 H2]] Hn; [done| | |eauto].
    + exfalso. eapply Hname; [exact H2|done|by symmetry].
    + exfalso. by eapply Hname; [exact H1|done|].
  - eapply map_Forall_weaken, Hf. naive_solver.
  - eapply map_Forall_weaken, Hat. naive_solver.
  - eapply map_Forall_weaken, Hrt. naive_solver.
  - eapply map_Forall_weaken, Hg. naive_solver.
  - eapply map_Forall_weaken, Hm. naive_solver.
  - eapply map_Forall_weaken, Hdm. naive_solver.
  - eapply map_Forall_weaken, Hgm. naive_solver.
Qed.

Lemma wf_insert_user u db db' : wf_db db → insert_user_row u db = inr db' → wf_db db'.
Proof.
  intros Hwf. unfold insert_user_row. insert_row. apply wf_set_user; [done|done|].
  intros k' u' Hk' _. rewrite any_row_false in Heqb0. by eapply Heqb0.
Qed.

Lemma wf_insert_friendship f db db' : wf_db db → insert_friendship_row f db = inr db' → wf_db db'.
Proof.
  intros Hwf. unfold insert_friendship_row. insert_row. wf_fields Hwf; try done.
  apply map_Forall_insert_2; [|done]. split; [done|]. by split; eexists.
Qed.
Lemma wf_insert_access_token t db db' :
  wf_db db → insert_access_token_row t db = inr db' → wf_db db'.
Proof.
  intros Hwf. unfold insert_access_token_row. insert_row. wf_fields Hwf; try done.
  apply map_Forall_insert_2; [|done]. by split; [|eexists].
Qed.
Lemma wf_insert_refresh_token t db db' :
  wf_db db → insert_refresh_token_row t db = inr db' → wf_db db'.
Proof.
  intros Hwf. unfold insert_refresh_token_row. insert_row. wf_fields Hwf; try done.
  apply map_Forall_insert_2; [|done]. by split; [|eexists].
Qed.
Lemma wf_insert_group g db db' : wf_db db → insert_group_row g db = inr db' → wf_db db'.
Proof.
  intros Hwf. unfold insert_group_row. destruct (created_by g) as [c|] eqn:Hc; [|discriminate].
  insert_row.
  assert (∀ g', has_group db g' → has_group (set_groups <[group_id g := g]> db) g') as Hi.
  { intros g'. unfold has_group. cbn. rewrite lookup_insert_is_Some'. auto. }
  wf_fields Hwf; try done.
  - apply map_Forall_insert_2; [|done]. split; [done|]. by eexists; split; [|eexists].
  - eapply map_Forall_weaken, Hm. naive_solver.
  - eapply map_Forall_weaken, Hgm. naive_solver.
Qed.
Lemma wf_insert_membership m db db' : wf_db db → insert_membership_row m db = inr db' → wf_db db'.
Proof.
  intros Hwf. unfold insert_membership_row. insert_row. wf_fields Hwf; try done.
  apply map_Forall_insert_2; [|done]. split; [done|]. by split; eexists.
Qed.
Lemma wf_insert_direct_message m db db' :
  wf_db db → insert_direct_message_row m db = inr db' → wf_db db'.
Proof.
  intros Hwf. unfold insert_direct_message_row. insert_row. wf_fields Hwf; try done.
  apply map_Forall_insert_2; [|done]. split; [done|]. by split; eexists.
Qed.
Lemma wf_insert_group_message m db db' :
  wf_db db → insert_group_message_row m db = inr db' → wf_db db'.
Proof.
  intros Hwf. unfold insert_group_message_row. insert_row. wf_fields Hwf; try done.
  apply map_Forall_insert_2; [|done]. split; [done|]. by split; eexists.
Qed.

(** ** Deletions *)

Lemma wf_delete_user u db db' : wf_db db → delete_user_row u db = inr db' → wf_db db'.
Proof.
  intros Hwf. unfold delete_user_row.
  destruct (any_row _ _) eqn:Hc; [discriminate|]. intros [= <-].
  assert (∀ v, has_user db v → v ≠ u → is_Some (delete u (users db) !! v)) as Hd.
  { intros v Hv Hvu. unfold has_user in Hv. by rewrite lookup_delete_ne. }
  rewrite any_row_false in Hc. wf_fields Hwf; unfold has_user, has_group; cbn.
  - by apply map_Forall_delete.
  - intros k1 k2 u1 u2 [_ H1]%lookup_delete_Some [_ H2]%lookup_delete_Some. eauto.
  - eapply map_Forall_filter', Hf. cbn. naive_solver.
  - eapply map_Forall_filter', Hat. cbn. naive_solver.
  - eapply map_Forall_filter', Hrt. cbn. naive_solver.
  - intros k g Hk. destruct (Hg k g Hk) as [Hid (c & Hcr & Hus)]. split; [done|].
    exists c. split; [done|]. apply Hd; [done|]. intros ->. by eapply Hc.
  - eapply map_Forall_filter', Hm. cbn. naive_solver.
  - eapply map_Forall_filter', Hdm. cbn. naive_solver.
  - eapply map_Forall_filter', Hgm. cbn. naive_solver.
Qed.

Lemma wf_delete_group g db : wf_db db → wf_db (delete_group_row g db).
Proof.
  intros Hwf.
  assert (∀ v, has_group db v → v ≠ g → is_Some (delete g (groups db) !! v)) as Hd.
  { intros v Hv Hvu. unfold has_group in Hv. by rewrite lookup_delete_ne. }
  wf_fields Hwf; unfold has_user, has_group; cbn; try done.
  - by apply map_Forall_delete.
  - eapply map_Forall_filter', Hm. cbn. naive_solver.
  - eapply map_Forall_filter', Hgm. cbn. naive_solver.
Qed.

(** Rewriting rows of a token table in place, and dropping rows that nothing
    references. *)
Lemma wf_map_access_tokens F db :
  (∀ m, (∀ k t, m !! k = Some t → at_token_hash t = k ∧ has_user db (at_user_id t)) →
        map_Forall (λ k t, at_token_hash t = k ∧ has_user db (at_user_id t)) (F m)) →
  wf_db db → wf_db (set_access_tokens F db).
Proof. intros HF Hwf. wf_fields Hwf; try done. by apply HF. Qed.
Lemma wf_map_refresh_tokens F db :
  (∀ m, (∀ k t, m !! k = Some t → rt_token_hash t = k ∧ has_user db (rt_user_id t)) →
        map_Forall (λ k t, rt_token_hash t = k ∧ has_user db (rt_user_id t)) (F m)) →
  wf_db db → wf_db (set_refresh_tokens F db).
Proof. intros HF Hwf. wf_fields Hwf; try done. by apply HF. Qed.
Lemma wf_map_friendships F db :
  (∀ Q m, (∀ a b f now, Q (a, b) f → Q (a, b) (Write.with_accepted now f)) →
     map_Forall Q m → map_Forall Q (F m)) →
  wf_db db → wf_db (set_friendships F db).
Proof.
  intros HF Hwf. wf_fields Hwf; try done. apply HF; [|done]. naive_solver.
Qed.

End inserts.

(** ** Statements

    Every statement of queries.py preserves the invariant, so every program
    built from them does, under any faults. *)

Lemma preserves_select I (q : query) b : preserves I (with_lock q b).
Proof. by intros now db HI. Qed.
Lemma preserves_limited I n rows : preserves I (limited n rows).
Proof. intros now db HI. cbn. by destruct (n <? 0)%Z. Qed.
Lemma preserves_insert {M} `{DBModel M} I cols args tcols keys refs (ins : M → Database → PgError + Database) :
  (∀ m db db', I db → ins m db = inr db' → I db') →
  preserves I (insert_stmt cols args tcols keys refs ins).
Proof.
  intros Hins now db HI. cbn. destruct (model_init _ _) as [m|]; [|done].
  destruct (ins m db) as [e|db'] eqn:Hm; [done|]. by eapply Hins.
Qed.
Lemma preserves_write (I : Database → Prop) locks tag upd :
  (∀ now db, I db → I (upd now db).1) → preserves I (write_stmt locks tag upd).
Proof. intros Hu now db HI. specialize (Hu now db HI). cbn. by destruct (upd now db). Qed.

Create HintDb wf discriminated.
#[export] Hint Resolve preserves_select preserves_limited preserves_insert preserves_write : wf.

Lemma wf_update_user f uid P `{∀ u, Decision (P u)} :
  (∀ u, user_id (f u) = user_id u ∧ username (f u) = username u) →
  preserves wf_db (Write.update_user f uid P).
Proof.
  intros Hf. apply preserves_write. intros now db Hwf. cbn.
  destruct (users db !! uid) as [u|] eqn:Hu; cbn; [|done].
  destruct (decide (P u)); [|done]. destruct (Hf u) as [Hid Hn].
  apply wf_set_user; [done| |].
  - rewrite Hid. by apply (wf_users _ Hwf).
  - intros k' u' Hk' Hne. rewrite Hn. intros Heq. apply Hne. by eapply (wf_usernames _ Hwf).
Qed.

Section stmts.
Context `{RowOrder}.

Ltac wf_insert L := apply preserves_insert; intros m db db'; apply L.

Lemma wf_INSERT_USER args : preserves wf_db (Write.INSERT_USER args).
Proof. wf_insert wf_insert_user. Qed.
Lemma wf_DEACTIVATE_USER u : preserves wf_db (Write.DEACTIVATE_USER u).
Proof. by apply wf_update_user. Qed.
Lemma wf_REACTIVATE_USER u : preserves wf_db (Write.REACTIVATE_USER u).
Proof. by apply wf_update_user. Qed.
Lemma wf_CHANGE_PASSWORD n u o : preserves wf_db (Write.CHANGE_PASSWORD n u o).
Proof. by apply wf_update_user. Qed.
Lemma wf_DELETE_USER u : preserves wf_db (Delete.USER_BY_ID u).
Proof.
  intros now db Hwf. cbn -[delete_user_row]. destruct (users db !! u); [|done].
  destruct (delete_user_row u db) eqn:Hd; [done|]. by eapply wf_delete_user.
Qed.
Lemma wf_SEND_FRIEND_REQUEST a b : preserves wf_db (Write.SEND_FRIEND_REQUEST a b).
Proof.
  intros now db Hwf. cbn -[insert_friendship_row].
  destruct (insert_friendship_row _ db) eqn:Hd; [done|]. by eapply wf_insert_friendship.
Qed.
Lemma wf_ACCEPT_FRIEND_REQUEST a b : preserves wf_db (Write.ACCEPT_FRIEND_REQUEST a b).
Proof.
  apply preserves_write. intros now db. apply wf_map_friendships.
  intros Q m HQ Hm. by apply map_Forall_alter'; eauto.
Qed.
Lemma wf_REMOVE_FRIENDSHIP a b : preserves wf_db (Delete.REMOVE_FRIENDSHIP a b).
Proof.
  apply preserves_write. intros now db. apply wf_map_friendships.
  intros Q m HQ Hm. eapply map_Forall_filter'; [|exact Hm]; auto.
Qed.
Lemma wf_INSERT_ACCESS_TOKEN args : preserves wf_db (Write.INSERT_ACCESS_TOKEN args).
Proof. wf_insert wf_insert_access_token. Qed.
Lemma wf_INSERT_REFRESH_TOKEN args : preserves wf_db (Write.INSERT_REFRESH_TOKEN args).
Proof. wf_insert wf_insert_refresh_token. Qed.
Lemma wf_REVOKE_ACCESS_TOKEN h : preserves wf_db (Write.REVOKE_ACCESS_TOKEN h).
Proof.
  apply preserves_write. intros now db. apply wf_map_access_tokens.
  intros m Hm. by apply map_Forall_alter'.
Qed.
Lemma wf_REVOKE_REFRESH_TOKEN h : preserves wf_db (Write.REVOKE_REFRESH_TOKEN h).
Proof.
  apply preserves_write. intros now db. apply wf_map_refresh_tokens.
  intros m Hm. by apply map_Forall_alter'.
Qed.
Lemma wf_REVOKE_ALL_USER_ACCESS_TOKENS u : preserves wf_db (Write.REVOKE_ALL_USER_ACCESS_TOKENS u).
Proof.
  apply preserves_write. intros now db. apply wf_map_access_tokens.
  intros m Hm. apply map_Forall_fmap'; [|done]. intros k x. unfold Write.revoke_at_of.
  by destruct (decide _).
Qed.
Lemma wf_REVOKE_ALL_USER_REFRESH_TOKENS u : preserves wf_db (Write.REVOKE_ALL_USER_REFRESH_TOKENS u).
Proof.
  apply preserves_write. intros now db. apply wf_map_refresh_tokens.
  intros m Hm. apply map_Forall_fmap'; [|done]. intros k x. unfold Write.revoke_rt_of.
  by destruct (decide _).
Qed.
Lemma wf_EXPIRED_ACCESS_TOKENS : preserves wf_db Delete.EXPIRED_ACCESS_TOKENS.
Proof.
  apply preserves_write. intros now db. apply wf_map_access_tokens.
  intros m Hm. eapply map_Forall_filter'; [|exact Hm]; auto.
Qed.
Lemma wf_EXPIRED_REFRESH_TOKENS : preserves wf_db Delete.EXPIRED_REFRESH_TOKENS.
Proof.
  apply preserves_write. intros now db. apply wf_map_refresh_tokens.
  intros m Hm. eapply map_Forall_filter'; [|exact Hm]; auto.
Qed.
Lemma wf_CREATE_GROUP args : preserves wf_db (Write.CREATE_GROUP args).
Proof. wf_insert wf_insert_group. Qed.
Lemma wf_DELETE_GROUP g u : preserves wf_db (Delete.DELETE_GROUP g u).
Proof.
  apply preserves_write. intros now db Hwf. cbn -[delete_group_row].
  destruct (groups db !! g) as [r|]; cbn -[delete_group_row]; [|done].
  destruct (decide _); [by apply wf_delete_group|done].
Qed.
Lemma wf_ADD_GROUP_MEMBER args : preserves wf_db (Write.ADD_GROUP_MEMBER args).
Proof. wf_insert wf_insert_membership. Qed.
Lemma wf_REMOVE_GROUP_MEMBER g u : preserves wf_db (Delete.REMOVE_GROUP_MEMBER g u).
Proof.
  apply preserves_write. intros now db Hwf. wf_fields Hwf; try done. by apply map_Forall_delete.
Qed.
Lemma wf_SEND_DM args : preserves wf_db (Write.SEND_DM args).
Proof. wf_insert wf_insert_direct_message. Qed.
Lemma wf_SEND_GROUP_MESSAGE args : preserves wf_db (Write.SEND_GROUP_MESSAGE args).
Proof. wf_insert wf_insert_group_message. Qed.
Lemma wf_CLEAR_TABLES : preserves wf_db CLEAR_TABLES.
Proof. apply preserves_write. intros now db _. apply wf_empty. Qed.

End stmts.

#[export] Hint Resolve wf_INSERT_USER wf_DEACTIVATE_USER wf_REACTIVATE_USER wf_CHANGE_PASSWORD
  wf_DELETE_USER wf_SEND_FRIEND_REQUEST wf_ACCEPT_FRIEND_REQUEST wf_REMOVE_FRIENDSHIP
  wf_INSERT_ACCESS_TOKEN wf_INSERT_REFRESH_TOKEN wf_REVOKE_ACCESS_TOKEN wf_REVOKE_REFRESH_TOKEN
  wf_REVOKE_ALL_USER_ACCESS_TOKENS wf_REVOKE_ALL_USER_REFRESH_TOKENS wf_EXPIRED_ACCESS_TOKENS
  wf_EXPIRED_REFRESH_TOKENS wf_CREATE_GROUP wf_DELETE_GROUP wf_ADD_GROUP_MEMBER
  wf_REMOVE_GROUP_MEMBER wf_SEND_DM wf_SEND_GROUP_MESSAGE wf_CLEAR_TABLES : wf.
