(* ===== verification/QueryStmts.v ===== *)
(** * The statements the services can send

    [service_stmt D] lists the statements of the query functions the services
    call within the scope [D]; purging and truncation, which no service calls,
    are not among them. What every one of these statements preserves, every
    handler of that scope preserves. *)

From S2P Require Export DbInv.

(** Which accounts a session may delete, and whether it may create groups and
    remove members, the two changes that could orphan a group. *)
Record Scope := MkScope { may_delete : UUID → Prop; may_govern : Prop }.

Section stmts.
Context `{RowOrder}.
Implicit Types D : Scope.

Inductive service_stmt D : stmt → Prop :=
| S_select q b : service_stmt D (with_lock q b)
| S_dm_history a b t n : service_stmt D (Fetch.DM_CONVERSATION_HISTORY a b t n)
| S_group_timeline g t n : service_stmt D (Fetch.GROUP_MESSAGES_TIMELINE g t n)
| S_insert_user args : service_stmt D (Write.INSERT_USER args)
| S_deactivate u : service_stmt D (Write.DEACTIVATE_USER u)
| S_reactivate u : service_stmt D (Write.REACTIVATE_USER u)
| S_password n u o : service_stmt D (Write.CHANGE_PASSWORD n u o)
| S_delete_user u : may_delete D u → service_stmt D (Delete.USER_BY_ID u)
| S_friend_request a b : a ≠ b → service_stmt D (Write.SEND_FRIEND_REQUEST a b)
| S_accept a b : service_stmt D (Write.ACCEPT_FRIEND_REQUEST a b)
| S_unfriend a b : service_stmt D (Delete.REMOVE_FRIENDSHIP a b)
| S_insert_at args : service_stmt D (Write.INSERT_ACCESS_TOKEN args)
| S_insert_rt args : service_stmt D (Write.INSERT_REFRESH_TOKEN args)
| S_revoke_at h : service_stmt D (Write.REVOKE_ACCESS_TOKEN h)
| S_revoke_rt h : service_stmt D (Write.REVOKE_REFRESH_TOKEN h)
| S_revoke_all_at u : service_stmt D (Write.REVOKE_ALL_USER_ACCESS_TOKENS u)
| S_revoke_all_rt u : service_stmt D (Write.REVOKE_ALL_USER_REFRESH_TOKENS u)
| S_create_group args : may_govern D → service_stmt D (Write.CREATE_GROUP args)
| S_delete_group g u : service_stmt D (Delete.DELETE_GROUP g u)
| S_add_member args : service_stmt D (Write.ADD_GROUP_MEMBER args)
| S_remove_member g u : may_govern D → service_stmt D (Delete.REMOVE_GROUP_MEMBER g u)
| S_send_dm args : service_stmt D (Write.SEND_DM args)
| S_send_gm args : service_stmt D (Write.SEND_GROUP_MESSAGE args).

Lemma service_stmt_wf D s : service_stmt D s → preserves wf_db s.
Proof. destruct 1; try apply preserves_limited; auto with wf. Qed.

(** ** The shapes of the query functions *)
Implicit Types P : stmt → Prop.

Lemma ok_lift {A} P (r : outcome' A) : stmts_ok P (tx_lift r).
Proof. destruct r; constructor. Qed.
Lemma ok_not_found {A} P e i : stmts_ok (A:=A) P (not_found e i).
Proof. constructor. Qed.
Lemma ok_fetchrow P s : P s → stmts_ok P (fetchrow s).
Proof. intros Hs. apply stmts_ok_bind; [by apply stmts_ok_sql|constructor]. Qed.
Lemma ok_fetch P s : P s → stmts_ok P (fetch s).
Proof. intros Hs. apply stmts_ok_bind; [by apply stmts_ok_sql|constructor]. Qed.
Lemma ok_execute P s : P s → stmts_ok P (execute s).
Proof. intros Hs. apply stmts_ok_bind; [by apply stmts_ok_sql|constructor]. Qed.
Lemma ok_catch {A} P (p : txprog A) : stmts_ok P p → stmts_ok P (catch_integrity p).
Proof.
  intros Hp. apply stmts_ok_try; [done|]. intros e. destruct e; try constructor.
  destruct (is_integrity _); constructor.
Qed.
Lemma ok_get_model {M} `{DBModel M} P s e i : P s → stmts_ok P (get_model M s e i).
Proof.
  intros Hs. apply stmts_ok_bind; [by apply ok_fetchrow|]. intros [r|]; [apply ok_lift|constructor].
Qed.
Lemma ok_fetch_models {M} `{DBModel M} P s :
  P s → stmts_ok P (rs ← fetch s; models_from_records M rs).
Proof. intros Hs. apply stmts_ok_bind; [by apply ok_fetch|]. intros rs. apply ok_lift. Qed.
Lemma ok_execute_or_not_found P s z e i : P s → stmts_ok P (execute_or_not_found s z e i).
Proof.
  intros Hs. apply stmts_ok_bind; [by apply ok_execute|]. intros t.
  destruct (decide (t = z)); constructor.
Qed.
Lemma ok_execute_unit P s : P s → stmts_ok P (_ ← execute s; mret tt).
Proof. intros Hs. apply stmts_ok_bind; [by apply ok_execute|constructor]. Qed.
Lemma ok_insert_model {M} `{DBModel M} P s e i (m : M) : P s → stmts_ok P (insert_model s e i m).
Proof.
  intros Hs. apply stmts_ok_bind; [by apply ok_catch, ok_fetchrow|].
  intros [r|]; [apply ok_lift|constructor].
Qed.
Lemma ok_add_group_member D m : stmts_ok (service_stmt D) (add_group_member m).
Proof.
  apply stmts_ok_bind.
  - apply stmts_ok_try; [apply ok_fetchrow; constructor|].
    intros e; destruct e as [pe| | | | | | | | |]; try constructor. destruct pe; constructor.
  - intros [r|]; [apply ok_lift|constructor].
Qed.

End stmts.

#[export] Hint Resolve ok_lift ok_not_found ok_get_model ok_fetch_models ok_execute_or_not_found
  ok_execute_unit ok_insert_model ok_catch ok_add_group_member : tx.
#[export] Hint Constructors service_stmt : tx.

(** Walks over a session down to its statements. *)
Ltac tx_ok :=
  repeat match goal with
  | |- stmts_ok _ (add_group_member _) => apply ok_add_group_member
  | |- stmts_ok _ (match ?x with _ => _ end) => destruct x eqn:?
  | |- stmts_ok _ (get_model _ _ _ _) => apply ok_get_model
  | |- stmts_ok _ (execute_or_not_found _ _ _ _) => apply ok_execute_or_not_found
  | |- stmts_ok _ (insert_model _ _ _ _) => apply ok_insert_model
  | |- stmts_ok _ (catch_integrity _) => apply ok_catch
  | |- stmts_ok _ (execute _) => apply ok_execute
  | |- stmts_ok _ (fetch _) => apply ok_fetch
  | |- stmts_ok _ (tx_lift _) => apply ok_lift
  | |- stmts_ok _ (tx_draw _) => constructor; intros ?
  | |- stmts_ok _ (tx_raise _) => constructor
  | |- stmts_ok _ (TxRaise _) => constructor
  | |- stmts_ok _ (TxRet _) => constructor
  | |- stmts_ok _ (mret _) => constructor
  | |- stmts_ok _ (models_from_records _ _) => apply ok_lift
  | |- stmts_ok _ (mbind _ _) => apply stmts_ok_bind; [|intros ?]
  | |- stmts_ok _ ?p => let h := get_head p in unfold h
  | |- service_stmt _ _ => constructor; try done
  end.

(** ** Strictness *)
Ltac tx_strict :=
  repeat match goal with
  | |- strict_tx (match ?x with _ => _ end) => destruct x eqn:?
  | |- fails (match ?x with _ => _ end) => destruct x eqn:?
  | |- fails (TxRaise _) => constructor
  | |- fails (not_found _ _) => constructor
  | |- fails (tx_raise _) => constructor
  | |- strict_tx (tx_try _ _) => apply strict_try; [|intros ?]
  | |- strict_tx (conn_sql _) => apply strict_conn_sql
  | |- strict_tx (tx_draw _) => constructor; intros ?
  | |- strict_tx (tx_raise _) => constructor
  | |- strict_tx (TxRaise _) => constructor
  | |- strict_tx (TxRet _) => constructor
  | |- strict_tx (mret _) => constructor
  | |- strict_tx (mbind _ _) => apply strict_bind; [|intros ?]
  | |- strict_tx ?p => let h := get_head p in unfold h
  end.
