(* ===== verification/Handlers.v ===== *)
(** * What every handler preserves

    Lifting of statement-level facts to whole handlers: an invariant of the
    tables kept by the statements a handler's sessions can send is kept by the
    handler, whatever it raises and whatever driver errors strike. *)

From S2P Require Export AuthService UserService GroupService MessagingService QueryStmts.

Section keeps.
Context {P : Platform}.
Implicit Types I : Database → Prop.

Definition keeps {A} I (m : M A) : Prop := ∀ w, I (w_db w) → I (w_db (m w).2).

Lemma keeps_ret {A} I (a : A) : keeps I (mret a).
Proof. by intros w. Qed.
Lemma keeps_raise {A} I e : keeps I (raise (A:=A) e).
Proof. by intros w. Qed.
Lemma keeps_draw I d : keeps I (draw_m d).
Proof. by intros w. Qed.
Lemma keeps_raw_token I : keeps I raw_token.
Proof. by intros w. Qed.
Lemma keeps_spawn I t : keeps I (spawn_task t).
Proof. by intros w. Qed.
Lemma keeps_redis {A} I (m : redis_m A) : keeps I (with_redis m).
Proof. intros w HI. unfold with_redis. by destruct (m (w_redis w)). Qed.
Lemma keeps_cache {A} I (f : timestamp → ttl_cache → A * ttl_cache) : keeps I (with_cache f).
Proof. intros w HI. unfold with_cache. by destruct (f _ _). Qed.
Lemma keeps_bind_at {A B} I (m : M A) (f : A → M B) w :
  I (w_db (m w).2) → (∀ a, keeps I (f a)) → I (w_db ((m ≫= f) w).2).
Proof.
  intros Hm Hf. rewrite M_bind_run. destruct (m w) as [[a|e] w']; [by apply Hf|done].
Qed.
Lemma keeps_bind {A B} I (m : M A) (f : A → M B) :
  keeps I m → (∀ a, keeps I (f a)) → keeps I (m ≫= f).
Proof. intros Hm Hf w HI. apply keeps_bind_at; auto. Qed.
Lemma keeps_constraint {A} I o k (m : M A) :
  keeps I m → keeps I (handle_db_constraint_error o k m).
Proof.
  intros Hm w HI. unfold handle_db_constraint_error. specialize (Hm w HI). by destruct (m w).
Qed.
Lemma keeps_not_found {A} I o k (m : M A) :
  keeps I m → keeps I (handle_db_not_found_error o k m).
Proof.
  intros Hm w HI. unfold handle_db_not_found_error. specialize (Hm w HI). by destruct (m w).
Qed.

Lemma keeps_transaction {A} I (S : stmt → Prop) (p : txprog A) :
  (∀ s, S s → preserves I s) → stmts_ok S p → keeps I (transaction p).
Proof.
  intros HS Hp w HI. unfold transaction. destruct (w_pool w); [|done].
  pose proof (stmts_ok_weaken _ _ p HS Hp) as Hp'.
  pose proof (run_tx_preserves I (ent_dbclock (w_tick w)) p
    (MkTx (w_db w) (Datatypes.S (w_tick w)) (w_faults w)) Hp' HI) as Hr.
  destruct (run_tx _ _ _) as [[a|e] st]; cbn in *; [|done].
  destruct (tx_faults st) as [|[e|] fs]; cbn; [done| |done]. by destruct (carried_out e).
Qed.
Lemma keeps_connection {A} I (S : stmt → Prop) (p : txprog A) :
  (∀ s, S s → preserves I s) → stmts_ok S p → keeps I (connection p).
Proof.
  intros HS Hp w HI. unfold connection. destruct (w_pool w); [|done].
  pose proof (stmts_ok_weaken _ _ p HS Hp) as Hp'.
  pose proof (run_tx_preserves I (ent_dbclock (w_tick w)) p
    (MkTx (w_db w) (Datatypes.S (w_tick w)) (w_faults w)) Hp' HI) as Hr.
  by destruct (run_tx _ _ _).
Qed.

(** A property of the committed tables only: it may fail between the statements
    of a session that returns. *)
Lemma keeps_commit {A} I (p : txprog A) :
  strict_tx p →
  (∀ now db t a db' t', I db →
     run_tx now p (MkTx db t []) = (Ok a, MkTx db' t' []) → I db') →
  keeps I (transaction p).
Proof.
  intros Hs Hp w HI. destruct (transaction_db p w Hs) as [->|(a & t' & Ht)]; [done|]. by eapply Hp.
Qed.

End keeps.

Create HintDb keeps discriminated.
#[export] Hint Resolve keeps_ret keeps_raise keeps_draw keeps_raw_token keeps_spawn keeps_redis
  keeps_cache : keeps.

(** Walks over a handler down to its sessions. *)
Ltac keeps_step :=
  match goal with
  | |- keeps _ (handle_db_constraint_error _ _ _) => apply keeps_constraint
  | |- keeps _ (handle_db_not_found_error _ _ _) => apply keeps_not_found
  | |- keeps _ (mbind _ _) => apply keeps_bind; [|intros ?]
  | |- keeps _ (match ?x with _ => _ end) => destruct x
  | |- keeps _ (transaction _) => eapply keeps_transaction; [eassumption|]
  | |- keeps _ (connection _) => eapply keeps_connection; [eassumption|]
  | |- keeps _ (draw_m _) => by intros ?
  | |- keeps _ _ => solve [auto with keeps]
  | |- keeps _ ?m => let h := get_head m in unfold h
  | |- stmts_ok _ _ => solve [tx_ok]
  end.

(** ** The operations of the services, as one type *)
Section ops.
Context {P : Platform} (settings : AuthConfig).

Inductive op :=
| ORegister (name pw : string) | OLogin (name pw : string) | ORefresh (raw : string)
| OLogout (raw : string) (acc : option string)
| OGetByUsername (name : string) | OGetById (u : UUID)
| ODeactivate (u : UUID) | OReactivate (u : UUID) | ODeleteAccount (u : UUID)
| OFriendRequest (a b : UUID) | OAccept (a r : UUID) | OUnfriend (a b : UUID)
| OFriendStatus (a b : UUID) | OFriends (u : UUID) | OPending (u : UUID)
| OCreateGroup (u : UUID) (name : string) | OListMembers (g : UUID)
| OGroupDetails (a g : UUID) | OListGroups (u : UUID)
| OAddMember (a g t : UUID) | ORemoveMember (a g t : UUID) | ODeleteGroup (a g : UUID)
| OSendDM (s r : UUID) (content : string)
| ODMHistory (a r : UUID) (before : option timestamp) (limit : Z)
| OSendGM (s g : UUID) (content : string)
| OGMHistory (a g : UUID) (before : option timestamp) (limit : Z).

Definition discard {A} (m : M A) : M unit := _ ← m; mret tt.
Definition run_op (o : op) : M unit :=
  match o with
  | ORegister n p => discard (register settings n p)
  | OLogin n p => discard (login settings n p)
  | ORefresh r => discard (refresh settings r)
  | OLogout r a => logout r a
  | OGetByUsername n => discard (get_by_username n)
  | OGetById u => discard (get_by_id u)
  | ODeactivate u => deactivate_account u
  | OReactivate u => reactivate_account u
  | ODeleteAccount u => delete_account u
  | OFriendRequest a b => user_send_friend_request a b
  | OAccept a r => user_accept_friend_request a r
  | OUnfriend a b => remove_or_decline_friendship a b
  | OFriendStatus a b => discard (user_get_friendship_status a b)
  | OFriends u => discard (get_friends u)
  | OPending u => discard (get_pending_friend_requests u)
  | OCreateGroup u n => discard (svc_create_group u n)
  | OListMembers g => discard (list_group_members g)
  | OGroupDetails a g => discard (get_group_details a g)
  | OListGroups u => discard (svc_list_user_groups u)
  | OAddMember a g t => discard (add_member a g t)
  | ORemoveMember a g t => remove_member a g t
  | ODeleteGroup a g => svc_delete_group a g
  | OSendDM s r c => discard (svc_send_direct_message s r c)
  | ODMHistory a r b l => discard (get_dm_history a r b l)
  | OSendGM s g c => discard (svc_send_group_message s g c)
  | OGMHistory a g b l => discard (get_group_history a g b l)
  end.

(** The accounts an operation deletes, and the operations that create a group
    or remove a member. *)
Definition deletes (o : op) (u : UUID) : Prop :=
  match o with ODeleteAccount v => u = v | _ => False end.
Definition governs (o : op) : Prop :=
  match o with OCreateGroup _ _ | ORemoveMember _ _ _ => True | _ => False end.
Definition scope (o : op) : Scope := MkScope (deletes o) (governs o).

Lemma run_op_keeps (I : Database → Prop) o :
  (∀ s, service_stmt (scope o) s → preserves I s) → keeps I (run_op o).
Proof.
  intros HI. destruct o; cbn [run_op] in *; repeat keeps_step.
Qed.

End ops.
