(* ===== verification/Instances.v ===== *)
(** * A concrete platform

    Small executable stand-ins for the third-party packages and services, with
    proofs that they meet the laws the theorems assume. The development's
    theorems are about any platform; this one shows that their hypotheses hold
    somewhere, and lets handlers be evaluated. *)

From S2P Require Export World.

(** ** Entropy: tick-indexed, all draws distinct for the first 65536 ticks *)
Definition ref_bytes (k n : nat) : list N :=
  take n ([N.of_nat k / 256 mod 256; N.of_nat k mod 256]%N ++ replicate n 0%N).
Definition ref_entropy : Entropy := {|
  ent_uuid k := uuid_of (1000 + N.of_nat k);
  ent_clock k := seconds (Z.of_nat k);
  ent_mono k := seconds (Z.of_nat k);
  ent_bytes := ref_bytes;
  ent_dbclock k := seconds (Z.of_nat k);
|}.
Lemma ref_entropy_laws : @EntropyLaws ref_entropy.
Proof.
  split; cbn -[N.modulo N.div]; intros k n; unfold ref_bytes.
  - rewrite length_take, length_app, length_replicate. simpl. lia.
  - apply Forall_take, Forall_app. split.
    + rewrite !Forall_cons. repeat split; try apply N.mod_lt; done.
    + by apply Forall_replicate.
Qed.

Definition ref_rows : RowOrder := λ A l, l.
Lemma ref_rows_laws : @RowOrderLaws ref_rows.
Proof. by intros A l. Qed.

(** ** Passwords: the salt is not kept; any other hash is outdated *)
Definition ref_hash (pw : string) : string := "$argon2id$" +:+ pw.
Definition ref_passwords : PasswordHasher := {|
  argon2_hash _ pw := ref_hash pw;
  argon2_verify h pw := if bool_decide (h = ref_hash pw ∨ h = "$old$" +:+ pw)
                        then Ok true else Raise VerifyMismatchError;
  argon2_check_needs_rehash h :=
    if String.prefix "$argon2id$" h then Ok false
    else if String.prefix "$old$" h then Ok true else Raise InvalidHashError;
|}.
Lemma ref_passwords_laws : @PasswordHasherLaws ref_passwords.
Proof.
  split; intros salt pw; cbn.
  - rewrite bool_decide_eq_true_2; auto.
  - by destruct pw.
Qed.

(** ** Redis: a server that answers every command, or, when down, none *)
Record ref_redis_t := MkRefRedis {
  rr_up : bool;
  rr_hash : gmap (string * string) Z;
  rr_streams : gmap string (list stream_entry);
  rr_channels : gmap string (list string);
}.
Definition ref_redis_empty : ref_redis_t := MkRefRedis true ∅ ∅ ∅.

Definition if_up {A} (r : ref_redis_t) (x : A * ref_redis_t) : (RedisExc + A) * ref_redis_t :=
  if rr_up r then (inr x.1, x.2) else (inl Rx_ConnectionError, r).
Definition ref_hkeys (k : string) (r : ref_redis_t) : list string :=
  omap (λ kv : (string * string) * Z, if decide (kv.1.1 = k) then Some kv.1.2 else None)
       (map_to_list (rr_hash r)).
Definition ref_xadd (k p : string) (maxlen : nat) (r : ref_redis_t) : N * ref_redis_t :=
  let l := default [] (rr_streams r !! k) in
  let i := (1 + foldr N.max 0 l.*1)%N in
  let l' := l ++ [(i, p)] in
  (i, MkRefRedis (rr_up r) (rr_hash r) (<[k := drop (length l' - maxlen) l']> (rr_streams r))
        (rr_channels r)).
Definition ref_redis : RedisServer := {|
  redis_t := ref_redis_t;
  hincrby k f n r := if_up r (
    let v := (default 0 (rr_hash r !! (k, f)) + n)%Z in
    (v, MkRefRedis (rr_up r) (<[(k, f) := v]> (rr_hash r)) (rr_streams r) (rr_channels r)));
  hdel k f r := if_up r (
    (1%Z, MkRefRedis (rr_up r) (delete (k, f) (rr_hash r)) (rr_streams r) (rr_channels r)));
  hkeys k r := if_up r (ref_hkeys k r, r);
  publish c m r := if_up r (
    (1%Z, MkRefRedis (rr_up r) (rr_hash r) (rr_streams r)
            (<[c := default [] (rr_channels r !! c) ++ [m]]> (rr_channels r))));
  xadd k p n r := if_up r (ref_xadd k p n r);
  pipeline_execute cmds r := if_up r
    (tt, MkRefRedis (rr_up r) (filter (λ kv, kv.1.1 ∉ deleted_keys cmds) (rr_hash r))
           (filter (λ kv, kv.1 ∉ deleted_keys cmds) (rr_streams r)) (rr_channels r));
  hget r k f := rr_hash r !! (k, f);
  stream_of r k := default [] (rr_streams r !! k);
  published r c := default [] (rr_channels r !! c);
|}.

Lemma foldr_max_bound l n : n ∈ l → (n <= foldr N.max 0 l)%N.
Proof. induction 1 as [|m l Hm IH]; simpl; lia. Qed.

Lemma ref_redis_laws : @RedisLaws ref_redis.
Proof.
  split; unfold same_hashes, same_streams, same_channels; cbn.
  - intros k f n r v r'. unfold if_up. destruct (rr_up r); [|discriminate]. cbn.
    intros [= <- <-]. repeat split; cbn. intros k' f'. case_bool_decide as Hk.
    + destruct Hk as [-> ->]. by rewrite lookup_insert_eq.
    + rewrite lookup_insert_ne; [done|]. intros [= -> ->]. by apply Hk.
  - intros k f r v r'. unfold if_up. destruct (rr_up r); [|discriminate]. cbn.
    intros [= <- <-]. repeat split; cbn. intros k' f'. case_bool_decide as Hk.
    + destruct Hk as [-> ->]. by rewrite lookup_delete_eq.
    + rewrite lookup_delete_ne; [done|]. intros [= -> ->]. by apply Hk.
  - intros k r l r'. unfold if_up. destruct (rr_up r); [|discriminate]. cbn.
    intros [= <- <-]. repeat split; try done.
    + unfold ref_hkeys. intros ([[k' f'] v] & Hkv & Hf)%list_elem_of_omap.
      simpl in Hf. case_decide; [|done]. simplify_eq/=. apply elem_of_map_to_list in Hkv. eauto.
    + intros [v Hv]. unfold ref_hkeys. apply list_elem_of_omap. exists (k, f, v).
      split; [by apply elem_of_map_to_list|]. simpl. by rewrite decide_True.
  - intros c m r v r'. unfold if_up. destruct (rr_up r); [|discriminate]. cbn.
    intros [= <- <-]. repeat split; cbn. intros c'. case_bool_decide as Hc.
    + subst. by rewrite lookup_insert_eq.
    + by rewrite lookup_insert_ne.
  - intros k p n r i r'. unfold if_up. destruct (rr_up r); [|discriminate]. cbn.
    intros [= <- <-]. repeat split; cbn.
    + eexists. rewrite lookup_insert_eq. cbn. rewrite length_app. cbn. split; [|done]. lia.
    + apply Forall_forall. intros e He.
      assert (e.1 ∈ (default [] (rr_streams r !! k)).*1) as Hin by (apply list_elem_of_fmap; eauto).
      apply foldr_max_bound in Hin. lia.
    + intros k' Hk. by rewrite lookup_insert_ne.
  - intros cmds r r'. unfold if_up. destruct (rr_up r); [|discriminate]. cbn.
    intros [= <-]. cbn. split_and!; [| |done].
    + intros k f Hk. rewrite map_lookup_filter. destruct (rr_hash r !! (k, f)); [cbn|done].
      by rewrite option_guard_True.
    + intros k Hk. rewrite map_lookup_filter. destruct (rr_streams r !! k); [cbn|done].
      by rewrite option_guard_True.
Qed.

(** ** TTL cache: when full, a new key drops the old ones *)
Record ref_cache_t := MkRefCache {
  rc_max : nat; rc_ttl : Z; rc_items : gmap string (User * timestamp);
}.
Definition ref_live (t : timestamp) (x : User * timestamp) : option User :=
  if (t <? x.2)%Z then Some x.1 else None.
Definition ref_cache : TTLCache := {|
  ttl_cache := ref_cache_t;
  cache_new n ttl := MkRefCache n ttl ∅;
  cache_get t k c := rc_items c !! k ≫= ref_live t;
  cache_set t k v c :=
    let rest := if (size (delete k (rc_items c)) <? rc_max c)%nat then rc_items c else ∅ in
    MkRefCache (rc_max c) (rc_ttl c) (<[k := (v, t + rc_ttl c)%Z]> rest);
  cache_pop t k c := MkRefCache (rc_max c) (rc_ttl c) (delete k (rc_items c));
  cache_clear c := MkRefCache (rc_max c) (rc_ttl c) ∅;
  cache_items t c :=
    omap (λ kx : string * (User * timestamp), (λ u, (kx.1, u)) <$> ref_live t kx.2)
         (map_to_list (rc_items c));
  cache_ttl := rc_ttl;
|}.

Lemma ref_live_some t x u : ref_live t x = Some u ↔ u = x.1 ∧ (t < x.2)%Z.
Proof.
  unfold ref_live. destruct (Z.ltb_spec t x.2); split; [intros [= <-]| |done|]; try done.
  - by intros [-> _].
  - intros [_ ?]. lia.
Qed.

Lemma ref_cache_laws : @TTLCacheLaws ref_cache.
Proof.
  split; cbn; try done.
  - intros t t' k v v' c. rewrite lookup_insert_eq. cbn. by rewrite ref_live_some.
  - intros t t' k v n ttl c -> Hn Ht. cbn. rewrite lookup_insert_eq. cbn.
    rewrite ref_live_some. cbn. split; [done|lia].
  - intros t t' k k' v v' c Hk. rewrite lookup_insert_ne by done.
    case_match; [done|]. by rewrite lookup_empty.
  - intros t t' k c _. by rewrite lookup_delete_eq.
  - intros t t' k k' c _ Hk. by rewrite lookup_delete_ne.
  - intros t t' k k' v c. destruct (decide (k' = k)) as [->|Hk].
    + by rewrite lookup_delete_eq.
    + by rewrite lookup_delete_ne.
  - intros t t' k v c Ht. destruct (rc_items c !! k) as [x|]; cbn; [|done].
    rewrite !ref_live_some. intros [-> ?]. split; [done|lia].
  - intros t k v c. rewrite list_elem_of_omap. split.
    + intros ([k' x] & Hx & Hl). apply elem_of_map_to_list in Hx. cbn in Hl.
      destruct (ref_live t x) as [u|] eqn:Hu; cbn in Hl; [|done]. simplify_eq/=. by rewrite Hx.
    + destruct (rc_items c !! k) as [x|] eqn:Hx; cbn; [|done]. intros Hl.
      exists (k, x). split; [by apply elem_of_map_to_list|]. cbn. by rewrite Hl.
Qed.

(** ** The bundle *)
Definition ref_platform : Platform := {|
  plat_entropy := ref_entropy; plat_rows := ref_rows; plat_passwords := ref_passwords;
  plat_redis := ref_redis; plat_cache := ref_cache;
|}.
Lemma ref_platform_laws : @PlatformLaws ref_platform.
Proof.
  split; [apply ref_entropy_laws|apply ref_rows_laws|apply ref_passwords_laws|
          apply ref_redis_laws|apply ref_cache_laws].
Qed.

(** A worker with an open pool, empty tables and a Redis server that is up. *)
Definition ref_world_with (db : Database) : @World ref_platform :=
  MkWorld (P := ref_platform) db true [] (ref_redis_empty : @redis_t (@plat_redis ref_platform))
    (TokenCache.init (H := ref_cache)) [] 0.
Definition ref_world : @World ref_platform := ref_world_with empty_db.
Lemma ref_world_db db : w_db (ref_world_with db) = db.
Proof. done. Qed.
Lemma ref_world_healthy db : healthy (ref_world_with db).
Proof. done. Qed.
