(* ===== verification/Samples.v ===== *)
(** * Sample tables

    A small database the witnesses evaluate handlers on: three users, of whom
    two are friends, one group, two sessions and a message of each kind. *)

From S2P Require Export DbInv Instances.

Definition alice_id : UUID := uuid_of 1.
Definition bob_id : UUID := uuid_of 2.
Definition carol_id : UUID := uuid_of 3.
Definition team_id : UUID := uuid_of 10.

Definition alice : User := MkUser alice_id "alice" (ref_hash "pw-alice") false 0.
Definition bob : User := MkUser bob_id "bob" (ref_hash "pw-bob") false 0.
(** Deactivated, under an outdated hash. *)
Definition carol : User := MkUser carol_id "carol" "$old$pw-carol" true 0.

Definition sample_rows : list (Database → PgError + Database) := [
  insert_user_row alice; insert_user_row bob; insert_user_row carol;
  insert_friendship_row (MkFriendship alice_id bob_id true 0 0);
  insert_friendship_row (MkFriendship carol_id alice_id false 0 0);
  insert_access_token_row (MkAccessToken (hash_token "at-alice") alice_id false (seconds 900));
  insert_refresh_token_row (MkRefreshToken (hash_token "rt-alice") alice_id false (seconds 9000));
  insert_refresh_token_row (MkRefreshToken (hash_token "rt-used") alice_id true (seconds 9000));
  insert_group_row (MkGroup team_id "team" (Some alice_id) 0);
  insert_membership_row (MkMembership team_id alice_id 0);
  insert_membership_row (MkMembership team_id bob_id 0);
  insert_direct_message_row (MkDirectMessage (uuid_of 20) alice_id bob_id "hello" 5);
  insert_direct_message_row (MkDirectMessage (uuid_of 21) bob_id alice_id "hi" 7);
  insert_group_message_row (MkGroupMessage (uuid_of 30) team_id bob_id "all" 6)
].

Definition then_insert (acc : PgError + Database) (f : Database → PgError + Database)
    : PgError + Database :=
  match acc with inl e => inl e | inr db => f db end.
Definition sample_db : Database :=
  match fold_left then_insert sample_rows (inr empty_db) with inr db => db | inl _ => empty_db end.

(** Every row goes in. *)
Example sample_rows_ok : is_Some (users sample_db !! alice_id) ∧
  size (users sample_db) = 3 ∧ size (group_messages sample_db) = 1.
Proof. vm_compute. by split; [eexists|]. Qed.

Lemma wf_then_insert rows acc :
  Forall (λ f : Database → PgError + Database,
    ∀ db db', wf_db db → f db = inr db' → wf_db db') rows →
  (∀ db, acc = inr db → wf_db db) →
  ∀ db, fold_left then_insert rows acc = inr db → wf_db db.
Proof.
  intros Hr. revert acc. induction Hr as [|f rows Hf _ IH]; intros acc Hacc db; [apply Hacc|].
  apply IH. intros db'. destruct acc as [e|db0]; cbn; [done|]. eauto.
Qed.
Lemma wf_sample : wf_db sample_db.
Proof.
  unfold sample_db. destruct (fold_left _ _ _) as [e|db] eqn:Hr; [apply wf_empty|].
  eapply wf_then_insert, Hr; [|by intros ? [= <-]; apply wf_empty].
  unfold sample_rows. repeat (apply Forall_cons_2; [intros db1 db2|]); [..|apply Forall_nil_2].
  all: first [apply wf_insert_user|apply wf_insert_friendship|apply wf_insert_access_token
             |apply wf_insert_refresh_token|apply wf_insert_group|apply wf_insert_membership
             |apply wf_insert_direct_message|apply wf_insert_group_message].
Qed.

Definition sample_world : @World ref_platform := ref_world_with sample_db.
Lemma sample_healthy : healthy sample_world.
Proof. done. Qed.

(** Discharges a hypothesis at a concrete input by evaluation. *)
Ltac eval_hyp :=
  lazymatch goal with
  | |- wf_db _ => exact wf_sample
  | |- healthy _ => split; vm_compute; reflexivity
  | |- is_Some _ => eexists; vm_compute; reflexivity
  | |- _ ∧ _ => split; eval_hyp
  | |- _ = _ => vm_compute; reflexivity
  | |- _ ≠ _ => vm_compute; discriminate
  | |- (_ ≤ _)%Z => vm_compute; discriminate
  | |- _ => split; vm_compute; reflexivity
  end.

