(* ===== verification/AuthProofs.v ===== *)
(** * Correctness of AuthService

    Each handler against its decision table: what it returns or raises, what it
    leaves in the tables, and what it publishes. *)

From S2P Require Export AuthService QueryStmts Samples.

Section auth_proofs.
Context {P : Platform} (settings : AuthConfig).
Implicit Types (w : World) (db : Database) (t : nat).

(** ** Fresh tokens *)

(** The pair [generate_token_pair] draws at tick [t]; it uses four ticks. *)
Definition pair_at t : TokenPair := {|
  access_token := generate_raw_token (ent_bytes t);
  refresh_token := generate_raw_token (ent_bytes (S t));
  access_token_expires_at := ent_clock (S (S t)) + seconds (access_token_ttl settings);
  refresh_token_expires_at := ent_clock (S (S (S t))) + seconds (refresh_token_ttl settings)
|}%Z.
Lemma generate_token_pair_run w :
  generate_token_pair settings w =
  (Ok (pair_at (w_tick w)), set_tick (4 + w_tick w) w).
Proof. done. Qed.

Definition access_row (u : UUID) (tp : TokenPair) : AccessToken :=
  MkAccessToken (hash_token (access_token tp)) u false (access_token_expires_at tp).
Definition refresh_row (u : UUID) (tp : TokenPair) : RefreshToken :=
  MkRefreshToken (hash_token (refresh_token tp)) u false (refresh_token_expires_at tp).
(** Both rows of a pair in their tables. *)
Definition issued (u : UUID) (tp : TokenPair) db : Database :=
  set_refresh_tokens <[hash_token (refresh_token tp) := refresh_row u tp]>
  (set_access_tokens <[hash_token (access_token tp) := access_row u tp]> db).
(** Neither token of the pair is known. *)
Definition fresh_pair (tp : TokenPair) db : Prop :=
  access_tokens db !! hash_token (access_token tp) = None ∧
  refresh_tokens db !! hash_token (refresh_token tp) = None.

Lemma run_issue_token_pair now u tp db t :
  has_user db u → fresh_pair tp db →
  run_tx now (issue_token_pair u tp) (MkTx db t []) = (Ok tt, MkTx (issued u tp db) t []).
Proof.
  intros [r Hu] [Ha Hr]. unfold issue_token_pair. run_queries.
  unfold insert_access_token_row. cbn. rewrite Ha, Hu. cbn.
  run_queries. unfold insert_refresh_token_row. cbn. by rewrite Hr, Hu.
Qed.

(** ** Publishing after the transaction *)

(** The outcome [r] once [ev] is on the stream; a Redis failure replaces it. *)
Definition announce {A} (ev : RedisEvent) (r : outcome' A) w : outcome' A * World :=
  match publish_stream_event ev (w_redis w) with
  | (Ok _, rd) => (r, set_redis rd w)
  | (Raise e, rd) => (Raise e, set_redis rd w)
  end.
Definition announce_opt {A} (ev : option RedisEvent) (r : outcome' A) w : outcome' A * World :=
  match ev with Some ev => announce ev r w | None => (r, w) end.

Lemma publish_raises ev (rd rd' : redis_t) e :
  publish_stream_event ev rd = (Raise e, rd') → ∃ re, e = ExRedis re.
Proof.
  unfold publish_stream_event, handle_redis_errors, command, mbind, redis_bind.
  match goal with |- context [xadd ?k ?p ?n rd] => destruct (xadd k p n rd) as [[x|i] r'] end;
    [|discriminate].
  destruct x; intros [= <- <-]; by eexists.
Qed.

(** Ends the proof of a handler after its last publication. *)
Ltac finish_publish :=
  unfold mbind, M_bind, announce_opt, announce, with_redis; cbn;
  match goal with |- context [publish_stream_event ?ev ?rd] =>
    let H := fresh in
    destruct (publish_stream_event ev rd) as [[[]|?] ?] eqn:H;
    [|apply publish_raises in H as (? & ->)]
  end; done.

(** ** refresh *)

(** The rows after reuse was detected for the tokens of [u]. *)
Definition all_revoked (u : UUID) db : Database :=
  set_refresh_tokens (fmap (Write.revoke_rt_of u))
  (set_access_tokens (fmap (Write.revoke_at_of u)) db).
(** The rows after the token [tok] was exchanged for the pair [tp]. *)
Definition rotated (h : string) (tok : RefreshToken) (tp : TokenPair) db : Database :=
  issued (rt_user_id tok) tp (set_refresh_tokens <[h := Write.revoke_rt tok]> db).

(** The decision table of [refresh]: the outcome, the new tables, and the event
    to publish, from the tables and the clock. *)
Definition refresh_table (h : string) (now : timestamp) (tp : TokenPair) db
    : outcome' TokenPair * Database * option RedisEvent :=
  match refresh_tokens db !! h with
  | None => (Raise (ExService InvalidTokenError), db, None)
  | Some tok =>
      if rt_is_revoked tok then
        (Raise (ExService TokenRevokedError), all_revoked (rt_user_id tok) db,
         Some (UserInvalidatedEvent (rt_user_id tok)))
      else if rt_is_expired now tok then (Raise (ExService TokenExpiredError), db, None)
      else (Ok tp, rotated h tok tp db, Some (TokenRevokedEvent h))
  end.
(** Ticks: the pair, [NOW()] and the clock read for [is_expired]. *)
Definition refresh_ticks (h : string) db : nat :=
  match refresh_tokens db !! h with
  | Some tok => if rt_is_revoked tok then 5 else 6
  | None => 5
  end.

(** Only an exchange needs the user's row and an unused pair. *)
Definition exchangeable (raw : string) w : Prop :=
  ∀ tok, refresh_tokens (w_db w) !! hash_token raw = Some tok → rt_is_revoked tok = false →
    rt_is_expired (ent_clock (5 + w_tick w)) tok = false →
    has_user (w_db w) (rt_user_id tok) ∧ fresh_pair (pair_at (w_tick w)) (w_db w).
Lemma exchangeable_intro raw w :
  wf_db (w_db w) → fresh_pair (pair_at (w_tick w)) (w_db w) → exchangeable raw w.
Proof. intros Hwf Hf tok Htok _ _. split; [|done]. apply (wf_refresh_tokens _ Hwf _ _ Htok). Qed.

Lemma refresh_run raw w :
  healthy w → exchangeable raw w →
  refresh settings raw w =
  let '(r, db, ev) := refresh_table (hash_token raw) (ent_clock (5 + w_tick w))
                        (pair_at (w_tick w)) (w_db w) in
  announce_opt ev r (after w db (refresh_ticks (hash_token raw) (w_db w) + w_tick w)).
Proof.
  intros Hw Hex. unfold refresh, handle_db_constraint_error, handle_db_not_found_error.
  rewrite M_bind_run, generate_token_pair_run, M_bind_run, transaction_run by done.
  unfold refresh_tx, refresh_table, refresh_ticks. cbn [w_db w_tick set_tick]. run_queries.
  destruct (refresh_tokens (w_db w) !! hash_token raw) as [tok|] eqn:Htok; cbn; [|done].
  destruct (rt_is_revoked tok) eqn:Hrev.
  - run_queries. finish_publish.
  - run_queries. cbn.
    destruct (rt_is_expired _ tok) eqn:Hexp; run_queries; [done|].
    destruct (Hex tok Htok Hrev Hexp) as [Hu [Ha Hr]].
    rewrite Htok. cbn. run_queries. rewrite run_issue_token_pair; [|done|].
    + run_queries. finish_publish.
    + split; [done|]. cbn. rewrite lookup_insert_ne; [done|].
      intros Heq. rewrite Heq in Htok. cbn in Hr. congruence.
Qed.

(** ** login *)

(** The user's row after a login: active, and under a fresh hash if the stored
    one was outdated. *)
Definition user_after_login (u : User) (new_hash : option string) : User :=
  MkUser (user_id u) (username u) (default (password_hash u) new_hash) false (user_created_at u).

(** [tp] is the pair, [salt] the one a rehash would draw. *)
Definition login_table (name pw : string) (salt : list N) (tp : TokenPair) db
    : outcome' (User * TokenPair) * Database * option RedisEvent :=
  match user_named name db with
  | None => (Raise (ExService InvalidCredentialsError), db, None)
  | Some u =>
      match verify_password pw (password_hash u), needs_rehash (password_hash u) with
      | Raise e, _ => (Raise (ExArgon2 e), db, None)
      | Ok false, _ => (Raise (ExService InvalidCredentialsError), db, None)
      | Ok true, Raise e => (Raise (ExArgon2 e), db, None)
      | Ok true, Ok outdated =>
          let new_hash := if outdated then Some (hash_password salt pw) else None in
          (Ok (u, tp),
           issued (user_id u) tp (set_users <[user_id u := user_after_login u new_hash]> db),
           if deactivated u || outdated then Some (UserInvalidatedEvent (user_id u)) else None)
      end
  end.
Definition login_ticks (name pw : string) db : nat :=
  match user_named name db with
  | Some u => match verify_password pw (password_hash u), needs_rehash (password_hash u) with
              | Ok true, Ok true => 6 | _, _ => 5 end
  | None => 5
  end.

Lemma user_named_some name db u :
  RowOrderLaws → wf_db db → user_named name db = Some u →
  users db !! user_id u = Some u ∧ username u = name.
Proof.
  intros Hs Hwf Hn. unfold user_named, Fetch.where_rows in Hn.
  apply head_Some_elem_of in Hn. rewrite (scan_perm User) in Hn.
  apply filter_gmap_values_spec in Hn as [Hn [k Hk]]. split; [|done].
  by rewrite (wf_users _ Hwf _ _ Hk).
Qed.

Lemma user_named_intro name db k u :
  RowOrderLaws → wf_db db → users db !! k = Some u → username u = name →
  user_named name db = Some u.
Proof.
  intros Hs Hwf Hk Hn. destruct (user_named name db) as [v|] eqn:Hv.
  - apply user_named_some in Hv as [Hv Hvn]; [|done..]. f_equal.
    assert (user_id v = k) as <- by (eapply (wf_usernames _ Hwf); eauto; congruence). congruence.
  - unfold user_named, Fetch.where_rows in Hv. apply head_None in Hv.
    assert (u ∈ filter (λ u, username u = name) (table_rows (users db))) as Hin
      by (apply filter_gmap_values_spec; eauto).
    rewrite <-(scan_perm User), Hv in Hin. by apply elem_of_nil in Hin.
Qed.

Lemma set_users_id k u db : users db !! k = Some u → set_users <[k := u]> db = db.
Proof. intros Hk. unfold set_users. rewrite insert_id by done. by destruct db. Qed.
Lemma set_users_twice k u v db :
  set_users <[k := u]> (set_users <[k := v]> db) = set_users <[k := u]> db.
Proof. unfold set_users. cbn. by rewrite insert_insert_eq. Qed.
Lemma has_user_set k u db : has_user (set_users <[k := u]> db) k.
Proof. unfold has_user. cbn. by rewrite lookup_insert_eq. Qed.

(** The reactivation and rehash steps of [login_tx]. *)
Lemma run_reactivation now u db t :
  users db !! user_id u = Some u →
  run_tx now (if deactivated u then _ ← reactivate_user (user_id u); mret true else mret false)
    (MkTx db t []) =
  (Ok (deactivated u), MkTx (set_users <[user_id u := user_after_login u None]> db) t []).
Proof.
  intros Hu. destruct (deactivated u) eqn:Hd; run_queries.
  - unfold user_updated. by rewrite Hu.
  - rewrite set_users_id; [done|]. rewrite Hu. by destruct u; cbn in *; subst.
Qed.
Lemma run_rehash now pw u (old inv1 : bool) db t :
  users db !! user_id u = Some (user_after_login u None) →
  run_tx now (if old then
                salt ← tx_draw (DBytes 16);
                let new_hash := hash_password salt pw in
                _ ← update_user_password (user_id u) new_hash (password_hash u);
                mret true
              else mret inv1) (MkTx db t []) =
  (Ok (inv1 || old),
   MkTx (set_users <[user_id u := user_after_login u (if old then Some (hash_password (ent_bytes t 16) pw)
                                                      else None)]> db)
     (if old then S t else t) []).
Proof.
  intros Hu. destruct old; run_queries.
  - rewrite Hu. cbn. rewrite decide_True by done. cbn. by rewrite orb_true_r.
  - by rewrite orb_false_r, set_users_id.
Qed.

Lemma login_run `{!PlatformLaws} name pw w :
  healthy w → wf_db (w_db w) → fresh_pair (pair_at (w_tick w)) (w_db w) →
  login settings name pw w =
  let '(r, db, ev) := login_table name pw (ent_bytes (5 + w_tick w) 16) (pair_at (w_tick w))
                        (w_db w) in
  announce_opt ev r (after w db (login_ticks name pw (w_db w) + w_tick w)).
Proof.
  intros Hw Hwf Hf. unfold login, handle_db_constraint_error, handle_db_not_found_error.
  rewrite M_bind_run, generate_token_pair_run, M_bind_run, transaction_run by done.
  unfold login_tx, login_table, login_ticks. cbn [w_db w_tick set_tick]. run_queries.
  destruct (user_named name (w_db w)) as [u|] eqn:Hn; cbn; [|done].
  apply user_named_some in Hn as [Hu Hname]; [|apply _|done].
  destruct (verify_password pw (password_hash u)) as [[]|e]; cbn [argon2]; run_queries; [|done..].
  cbn. run_queries. rewrite run_reactivation by done. run_queries.
  destruct (needs_rehash (password_hash u)) as [old|e]; cbn [argon2]; run_queries; [|done].
  rewrite run_rehash by (cbn; by rewrite lookup_insert_eq). run_queries.
  rewrite set_users_twice, run_issue_token_pair by (apply has_user_set || done).
  run_queries. destruct (deactivated u || old); cbn; [|by destruct old].
  destruct old; finish_publish.
Qed.

(** ** register *)

Definition new_user (name pw : string) t : User :=
  MkUser (ent_uuid (1 + t)) name (hash_password (ent_bytes t 16) pw) false (ent_clock (2 + t)).
Definition register_table (name pw : string) t db
    : outcome' (User * TokenPair) * Database :=
  let u := new_user name pw t in
  let tp := pair_at (3 + t) in
  if taken (users db !! user_id u) then
    (Raise (ExDb (ConstraintViolationError (Some "users") (Some "pk_users"))), db)
  else if any_row (λ v, username v = name) (users db) then
    (Raise (ExService (UserAlreadyExistsError (PStr name))), db)
  else (Ok (u, tp), issued (user_id u) tp (set_users <[user_id u := u]> db)).

Lemma register_run name pw w :
  healthy w → fresh_pair (pair_at (3 + w_tick w)) (w_db w) →
  register settings name pw w =
  let '(r, db) := register_table name pw (w_tick w) (w_db w) in (r, after w db (8 + w_tick w)).
Proof.
  intros Hw Hf. unfold register, handle_db_constraint_error.
  rewrite !M_bind_run. cbn -[transaction]. rewrite !M_bind_run. cbn -[transaction].
  rewrite !M_bind_run. cbn -[transaction]. rewrite M_bind_run, generate_token_pair_run.
  rewrite !M_bind_run, transaction_run by done.
  unfold register_tx, register_table. cbn [w_db w_tick set_tick user_id new_user]. run_queries.
  unfold insert_user_row. cbn [user_id username].
  destruct (taken _); [done|]. unfold unique. cbn [Nat.add].
  destruct (any_row _ _); [done|]. cbn. run_queries.
  rewrite run_issue_token_pair; [|apply has_user_set|done]. run_queries. done.
Qed.

(** ** logout *)

(** The tables after a logout that goes through; [None] if either token is
    unknown, which undoes the other revocation too. *)
Definition logout_table (h : string) (ah : option string) db : option Database :=
  tok ← refresh_tokens db !! h;
  let db1 := set_refresh_tokens <[h := Write.revoke_rt tok]> db in
  match ah with
  | None => Some db1
  | Some a => atok ← access_tokens db !! a; Some (set_access_tokens <[a := Write.revoke_at atok]> db1)
  end.
Fixpoint announce_all {A} (evs : list RedisEvent) (r : outcome' A) w : outcome' A * World :=
  match evs with
  | [] => (r, w)
  | ev :: evs =>
      match publish_stream_event ev (w_redis w) with
      | (Ok _, rd) => announce_all evs r (set_redis rd w)
      | (Raise e, rd) => (Raise e, set_redis rd w)
      end
  end.
Definition evicted (ah : option string) w : World :=
  match ah with
  | Some a => set_cache (TokenCache.evict (ent_mono (w_tick w)) a (w_cache w))
                (set_tick (S (w_tick w)) w)
  | None => w
  end.

Lemma logout_run raw acc w :
  healthy w →
  logout raw acc w =
  let h := hash_token raw in
  let ah := access_hash_of acc in
  match logout_table h ah (w_db w) with
  | None => (Ok tt, after w (w_db w) (S (w_tick w)))
  | Some db => announce_all (TokenRevokedEvent <$> h :: option_list ah) (Ok tt)
                 (evicted ah (after w db (S (w_tick w))))
  end.
Proof.
  intros Hw. unfold logout, handle_db_not_found_error.
  rewrite M_bind_run, transaction_run by done. unfold logout_tx, logout_table. run_queries.
  destruct (refresh_tokens (w_db w) !! hash_token raw) as [tok|]; cbn; [|done].
  destruct (access_hash_of acc) as [a|]; cbn; run_queries; cbn.
  - destruct (access_tokens (w_db w) !! a) as [atok|]; cbn; [|done].
    unfold mbind, M_bind, with_redis, with_cache. cbn.
    destruct (publish_stream_event _ _) as [[[]|e] rd] eqn:H1; cbn.
    + destruct (publish_stream_event _ rd) as [[[]|e] rd'] eqn:H2; cbn; [done|].
      by apply publish_raises in H2 as [? ->].
    + by apply publish_raises in H1 as [? ->].
  - unfold mbind, M_bind, with_redis. cbn.
    destruct (publish_stream_event _ _) as [[[]|e] rd] eqn:H1; cbn; [done|].
    by apply publish_raises in H1 as [? ->].
Qed.

End auth_proofs.
