(* ===== verification/AuthTheorems.v ===== *)
(** * Properties of AuthService

    What a caller can rely on: rotation, reuse detection, single use, login,
    registration and logout, each with a run on the sample tables. *)

From S2P Require Export AuthProofs Handlers.

Section theorems.
Context {P : Platform} {PL : PlatformLaws} (settings : AuthConfig).
Implicit Types (w : World) (db : Database).

(** Every token of [u], of either kind, is revoked. *)
Definition tokens_revoked (u : UUID) db : Prop :=
  (∀ h t, access_tokens db !! h = Some t → at_user_id t = u → at_is_revoked t = true) ∧
  (∀ h t, refresh_tokens db !! h = Some t → rt_user_id t = u → rt_is_revoked t = true).
Lemma all_revoked_spec u db : tokens_revoked u (all_revoked u db).
Proof.
  split; intros h t; cbn; rewrite lookup_fmap_Some; intros (t0 & <- & _).
  - unfold Write.revoke_at_of. by destruct (decide (at_user_id t0 = u)).
  - unfold Write.revoke_rt_of. by destruct (decide (rt_user_id t0 = u)).
Qed.

(** C1: refreshing with a live token succeeds when the drawn tokens are new and
    the stream accepts the event: the old refresh token is revoked, exactly one access and one refresh
    row of the same user are added, with the configured lifetimes, nothing else
    in the tables or in this worker's cache changes, and the last stream entry
    announces the revocation. *)
Theorem refresh_rotates raw tok rd w :
  healthy w → wf_db (w_db w) → fresh_pair (pair_at settings (w_tick w)) (w_db w) →
  refresh_tokens (w_db w) !! hash_token raw = Some tok →
  rt_is_revoked tok = false → rt_is_expired (ent_clock (5 + w_tick w)) tok = false →
  publish_stream_event (TokenRevokedEvent (hash_token raw)) (w_redis w) = (Ok tt, rd) →
  let tp := pair_at settings (w_tick w) in
  ∃ w', refresh settings raw w = (Ok tp, w') ∧
    w_db w' = set_refresh_tokens (λ m, <[hash_token (refresh_token tp) :=
        MkRefreshToken (hash_token (refresh_token tp)) (rt_user_id tok) false
          (ent_clock (3 + w_tick w) + seconds (refresh_token_ttl settings))%Z]>
        (<[hash_token raw := Write.revoke_rt tok]> m))
      (set_access_tokens <[hash_token (access_token tp) :=
        MkAccessToken (hash_token (access_token tp)) (rt_user_id tok) false
          (ent_clock (2 + w_tick w) + seconds (access_token_ttl settings))%Z]> (w_db w)) ∧
    w_cache w' = w_cache w ∧ w_tasks w' = w_tasks w ∧
    ∃ i, last (stream_of (w_redis w') SYSTEM_STREAM_KEY) =
           Some (i, dumps (to_dict (TokenRevokedEvent (hash_token raw)))).
Proof.
  intros Hw Hwf Hf Htok Hrev Hexp Hpub tp. rewrite refresh_run by eauto using exchangeable_intro.
  unfold refresh_table, refresh_ticks. rewrite Htok, Hrev, Hexp. cbn.
  unfold announce. cbn. rewrite Hpub. eexists. split; [done|].
  apply publish_stream_event_ok in Hpub as [(i & Hl & _) _]. repeat split; eauto.
Qed.

(** Of one table of tokens, exactly the rows of [u] are revoked. *)
Definition revoked_of {A} (owner : A → UUID) (revoke : A → A) (u : UUID) (t t' : gmap string A) : Prop :=
  ∀ h, t' !! h = (λ x, if decide (owner x = u) then revoke x else x) <$> t !! h.
(** The tables without tokens. *)
Definition apart_from_tokens db db' : Prop :=
  users db' = users db ∧ friendships db' = friendships db ∧ groups db' = groups db ∧
  memberships db' = memberships db ∧ direct_messages db' = direct_messages db ∧
  group_messages db' = group_messages db.

(** C2: a refresh token already exchanged (or revoked) never yields tokens: the
    attempt revokes every access and refresh token of its user, leaves every
    other token and the rest of the tables alone, and reports the reuse, or the
    Redis failure that kept it from being broadcast. *)
Theorem refresh_reuse_detected raw tok w :
  healthy w →
  refresh_tokens (w_db w) !! hash_token raw = Some tok → rt_is_revoked tok = true →
  ∃ e w', refresh settings raw w = (Raise e, w') ∧
    (e = ExService TokenRevokedError ∨ ∃ re, e = ExRedis re) ∧
    tokens_revoked (rt_user_id tok) (w_db w') ∧
    revoked_of at_user_id Write.revoke_at (rt_user_id tok)
      (access_tokens (w_db w)) (access_tokens (w_db w')) ∧
    revoked_of rt_user_id Write.revoke_rt (rt_user_id tok)
      (refresh_tokens (w_db w)) (refresh_tokens (w_db w')) ∧
    apart_from_tokens (w_db w) (w_db w').
Proof.
  intros Hw Htok Hrev. rewrite refresh_run by (done || intros ?; congruence).
  unfold refresh_table. rewrite Htok, Hrev. cbn. unfold announce. cbn.
  pose proof (all_revoked_spec (rt_user_id tok) (w_db w)) as Hall.
  destruct (publish_stream_event _ _) as [[u|e] rd] eqn:Hp; [|apply publish_raises in Hp as [re ->]];
    (do 2 eexists; split; [done|]; split; [eauto|]; split; [done|]);
    (split_and!; [intros h; apply lookup_fmap..|done]).
Qed.

(** The refusals of [refresh]: an unknown token is invalid and an expired
    one expired, and neither changes the tables, the cache or Redis. *)
Lemma refresh_refuses raw w :
  healthy w →
  let refused e := ∃ w', refresh settings raw w = (Raise (ExService e), w') ∧
    w_db w' = w_db w ∧ w_redis w' = w_redis w ∧ w_cache w' = w_cache w in
  (refresh_tokens (w_db w) !! hash_token raw = None → refused InvalidTokenError) ∧
  (∀ tok, refresh_tokens (w_db w) !! hash_token raw = Some tok → rt_is_revoked tok = false →
     (rt_expires_at tok ≤ ent_clock (5 + w_tick w))%Z → refused TokenExpiredError).
Proof.
  intros Hw refused. unfold refused. split.
  - intros Hno. rewrite refresh_run by (done || intros ?; congruence).
    unfold refresh_table. rewrite Hno. by eexists.
  - intros tok Htok Hrev Hexp. apply Z.leb_le in Hexp.
    rewrite refresh_run by (done || intros ? ? ? ?; unfold rt_is_expired in *; congruence).
    unfold refresh_table, rt_is_expired. rewrite Htok, Hrev, Hexp. by eexists.
Qed.

(** Single use across two calls: once [refresh] returned a pair for a
    token, a later call with that token (its row as the first call left it)
    fails and leaves every token of the user revoked, the new pair included. *)
Lemma refresh_single_use raw tp w1 w1' w2 :
  healthy w1 → wf_db (w_db w1) → fresh_pair (pair_at settings (w_tick w1)) (w_db w1) →
  refresh settings raw w1 = (Ok tp, w1') →
  healthy w2 →
  refresh_tokens (w_db w2) !! hash_token raw = refresh_tokens (w_db w1') !! hash_token raw →
  ∃ tok e, refresh_tokens (w_db w1) !! hash_token raw = Some tok ∧
    (refresh settings raw w2).1 = Raise e ∧
    tokens_revoked (rt_user_id tok) (w_db (refresh settings raw w2).2).
Proof.
  intros Hw1 Hwf1 Hf1 Hr1 Hw2 Hrow.
  rewrite refresh_run in Hr1 by eauto using exchangeable_intro. unfold refresh_table in Hr1.
  destruct (refresh_tokens (w_db w1) !! hash_token raw) as [tok|] eqn:Htok; [|discriminate].
  exists tok. destruct (rt_is_revoked tok) eqn:Hrev.
  { cbn in Hr1. unfold announce in Hr1. destruct (publish_stream_event _ _) as [[]]; discriminate. }
  destruct (rt_is_expired _ tok); [discriminate|].
  assert (refresh_tokens (w_db w1') !! hash_token raw = Some (Write.revoke_rt tok)) as Hrow1.
  { cbn in Hr1. unfold announce in Hr1. destruct (publish_stream_event _ _) as [[u|e] rd];
      [injection Hr1 as <- <-|discriminate Hr1]. cbn.
    destruct Hf1 as [_ Hf1]. rewrite lookup_insert_ne; [by rewrite lookup_insert_eq|].
    intros Heq. cbn in Heq, Hf1. rewrite Heq in Hf1. congruence. }
  rewrite refresh_run by (done || intros ?; rewrite Hrow, Hrow1; intros [= <-]; done).
  unfold refresh_table. rewrite Hrow, Hrow1. cbn. unfold announce. cbn.
  pose proof (all_revoked_spec (rt_user_id tok) (w_db w2)) as Hall.
  destruct (publish_stream_event _ _) as [[u|e] rd]; eexists; done.
Qed.

(** C25: a login with an unknown username and one with a wrong password are
    indistinguishable and change nothing; when the password library gives up, so
    does the login, with nothing changed. A known username with its password
    stores the pair, if its tokens are new to the tables, and leaves the account active, under a hash that still
    verifies the password, and changes nothing else in the tables. It then
    returns the user as they were and the pair, unless the account was
    reactivated or its hash renewed and Redis refuses the event of that: then
    the caller gets that failure, though the login is in the tables. *)
Theorem login_correct name pw w :
  healthy w → wf_db (w_db w) → fresh_pair (pair_at settings (w_tick w)) (w_db w) →
  let tp := pair_at settings (w_tick w) in
  let refused e := (Raise e : outcome' (User * TokenPair), after w (w_db w) (5 + w_tick w)) in
  (user_named name (w_db w) = None →
     login settings name pw w = refused (ExService InvalidCredentialsError)) ∧
  ∀ u, user_named name (w_db w) = Some u →
    match verify_password pw (password_hash u), needs_rehash (password_hash u) with
    | Ok false, _ => login settings name pw w = refused (ExService InvalidCredentialsError)
    | Raise e, _ | Ok true, Raise e => login settings name pw w = refused (ExArgon2 e)
    | Ok true, Ok outdated =>
        ∃ hash r rd w', login settings name pw w = (r, w') ∧
          verify_password pw hash = Ok true ∧ (outdated = false → hash = password_hash u) ∧
          let u' := MkUser (user_id u) name hash false (user_created_at u) in
          w_db w' =
            set_refresh_tokens <[hash_token (refresh_token tp) := refresh_row (user_id u) tp]>
            (set_access_tokens <[hash_token (access_token tp) := access_row (user_id u) tp]>
            (set_users <[user_id u := u']> (w_db w))) ∧
          w_redis w' = rd ∧
          if deactivated u || outdated
          then (publish_stream_event (UserInvalidatedEvent (user_id u)) (w_redis w) = (Ok tt, rd) ∧
                r = Ok (u, tp)) ∨
               (∃ e, publish_stream_event (UserInvalidatedEvent (user_id u)) (w_redis w) =
                       (Raise (ExRedis e), rd) ∧ r = Raise (ExRedis e))
          else rd = w_redis w ∧ r = Ok (u, tp)
    end.
Proof.
  intros Hw Hwf Hf tp refused. unfold refused. rewrite login_run by done.
  unfold login_table, login_ticks. split; [by intros ->|]. intros u Hn. rewrite Hn.
  pose proof (user_named_some _ _ _ plat_rows_laws Hwf Hn) as [_ <-].
  destruct (verify_password pw (password_hash u)) as [[]|e] eqn:Hv; [|done..].
  destruct (needs_rehash (password_hash u)) as [outdated|e]; [|done].
  exists (default (password_hash u)
    (if outdated then Some (hash_password (ent_bytes (5 + w_tick w) 16) pw) else None)).
  set (db' := issued _ _ _).
  assert (verify_password pw (default (password_hash u)
    (if outdated then Some (hash_password (ent_bytes (5 + w_tick w) 16) pw) else None)) = Ok true) as Hv'.
  { destruct outdated; cbn; [|done]. unfold verify_password, hash_password. by rewrite argon2_verify_hash. }
  destruct (deactivated u || outdated); cbn [announce_opt].
  - unfold announce. cbn [w_redis after].
    destruct (publish_stream_event _ _) as [[[]|e] rd] eqn:Hp; [|apply publish_raises in Hp as Hre; destruct Hre as [re ->]];
      do 3 eexists; (split; [done|]); (split; [done|]); (split; [by intros ->|]);
      (split; [done|]); (split; [done|]); eauto.
  - do 3 eexists. split; [done|]. split; [done|]. split; [by intros ->|]. done.
Qed.

Lemma register_keeps_wf name pw w :
  wf_db (w_db w) → wf_db (w_db (register settings name pw w).2).
Proof.
  intros Hwf. pose proof (run_op_keeps settings wf_db (ORegister name pw)
    (λ s, service_stmt_wf _ s) w Hwf) as Hk. cbn [run_op] in Hk. unfold discard in Hk.
  rewrite M_bind_run in Hk. by destruct (register settings name pw w) as [[a|e] w'].
Qed.

(** C29: what was registered can log in: after a registration that succeeded, a
    login with the same credentials on the tables it left succeeds and returns
    the registered user, whatever the salt, as long as the tokens that either
    call draws are not yet in the tables. *)
Theorem register_login name pw u tp w1 w1' w2 :
  healthy w1 → wf_db (w_db w1) → fresh_pair (pair_at settings (3 + w_tick w1)) (w_db w1) →
  register settings name pw w1 = (Ok (u, tp), w1') →
  healthy w2 → w_db w2 = w_db w1' →
  fresh_pair (pair_at settings (w_tick w2)) (w_db w2) →
  username u = name ∧
  (login settings name pw w2).1 = Ok (u, pair_at settings (w_tick w2)).
Proof.
  intros Hw1 Hwf1 Hf1 Hr Hw2 Hdb Hf2. pose proof (register_keeps_wf name pw w1 Hwf1) as Hwf.
  rewrite Hr in Hwf. rewrite register_run in Hr by done.
  unfold register_table in Hr.
  destruct (taken _); [discriminate|]. destruct (any_row _ _); [discriminate|].
  injection Hr as <- <- <-. split; [done|].
  rewrite login_run by first [done|by rewrite Hdb]. unfold login_table. rewrite Hdb.
  erewrite user_named_intro; [|apply _|exact Hwf|cbn; by rewrite lookup_insert_eq|done].
  cbn [password_hash new_user]. unfold verify_password, needs_rehash, hash_password.
  by rewrite argon2_verify_hash, argon2_fresh.
Qed.

(** C28: registration, when the identifier and the tokens it draws are new to the
    tables, fails under a taken username with that username and leaves the
    tables alone; under any other it adds one active user and one pair of tokens. *)
Theorem register_correct name pw w :
  healthy w → fresh_pair (pair_at settings (3 + w_tick w)) (w_db w) →
  users (w_db w) !! ent_uuid (1 + w_tick w) = None →
  let r := register settings name pw w in
  ((∃ k v, users (w_db w) !! k = Some v ∧ username v = name) →
     r.1 = Raise (ExService (UserAlreadyExistsError (PStr name))) ∧ w_db r.2 = w_db w) ∧
  ((∀ k v, users (w_db w) !! k = Some v → username v ≠ name) →
     ∃ u, r.1 = Ok (u, pair_at settings (3 + w_tick w)) ∧
       username u = name ∧ deactivated u = false ∧
       verify_password pw (password_hash u) = Ok true ∧
       w_db r.2 = issued (user_id u) (pair_at settings (3 + w_tick w))
                    (set_users <[user_id u := u]> (w_db w))).
Proof.
  intros Hw Hf Hid. rewrite register_run by done. unfold register_table.
  cbn [user_id new_user]. rewrite Hid. cbn [taken]. split.
  - intros (k & v & Hk & Hv). destruct (any_row _ _) eqn:Ha; [done|].
    rewrite any_row_false in Ha. by destruct (Ha k v Hk).
  - intros Hnone. destruct (any_row _ _) eqn:Ha.
    + exfalso. rewrite (proj2 (any_row_false _ _)) in Ha; [done|]. eauto.
    + exists (new_user name pw (w_tick w)). repeat split; try done. cbn.
      unfold verify_password, hash_password. by rewrite argon2_verify_hash.
Qed.

(** A logout whose two tokens are known revokes both rows, drops the access
    token from this worker's cache for good, and puts both revocations on the
    stream. *)
Lemma logout_revokes raw acc tok atok rd1 rd2 t w :
  healthy w → acc ≠ EmptyString →
  refresh_tokens (w_db w) !! hash_token raw = Some tok →
  access_tokens (w_db w) !! hash_token acc = Some atok →
  publish_stream_event (TokenRevokedEvent (hash_token raw)) (w_redis w) = (Ok tt, rd1) →
  publish_stream_event (TokenRevokedEvent (hash_token acc)) rd1 = (Ok tt, rd2) →
  (ent_mono (S (w_tick w)) ≤ t)%Z →
  ∃ w', logout raw (Some acc) w = (Ok tt, w') ∧
    w_db w' = set_access_tokens <[hash_token acc := Write.revoke_at atok]>
      (set_refresh_tokens <[hash_token raw := Write.revoke_rt tok]> (w_db w)) ∧
    TokenCache.get t (hash_token acc) (w_cache w') = None ∧
    w_redis w' = rd2.
Proof.
  intros Hw Hacc Htok Hatok Hp1 Hp2 Ht. rewrite logout_run by done.
  unfold logout_table, access_hash_of. rewrite bool_decide_eq_false_2 by done.
  rewrite Htok. cbn. rewrite Hatok. cbn. rewrite Hp1. cbn. rewrite Hp2.
  eexists. split; [done|]. split; [done|]. split; [|done].
  by apply cache_get_pop_eq.
Qed.

(** A logout naming an access token the tables do not know reports success
    and revokes nothing: the refresh token stays live. *)
Lemma logout_unknown_access raw acc w :
  healthy w → acc ≠ EmptyString → access_tokens (w_db w) !! hash_token acc = None →
  ∃ w', logout raw (Some acc) w = (Ok tt, w') ∧ w_db w' = w_db w ∧
    w_redis w' = w_redis w ∧ w_cache w' = w_cache w.
Proof.
  intros Hw Hacc Hno. rewrite logout_run by done.
  unfold logout_table, access_hash_of. rewrite bool_decide_eq_false_2 by done.
  destruct (refresh_tokens (w_db w) !! hash_token raw); cbn; rewrite ?Hno; by eexists.
Qed.

End theorems.

(** ** Runs on the sample tables *)
Abbreviation cfg := default_AuthConfig.
Abbreviation rt_row h u r := (MkRefreshToken (hash_token h) u r (seconds 9000)).
(** Redis after the events [evs]. *)
Definition redis_after (evs : list RedisEvent) : ref_redis_t :=
  fold_left (λ rd ev, (publish_stream_event (H := ref_redis) ev rd).2) evs ref_redis_empty.
(** The same worker, later. *)
Definition later (n : nat) (w : @World ref_platform) : @World ref_platform := set_tick n w.

Lemma refresh_rotates_witness :
  ∃ w', refresh (P := ref_platform) cfg "rt-alice" sample_world =
          (Ok (pair_at (P := ref_platform) cfg 0), w').
Proof.
  destruct (refresh_rotates (PL := ref_platform_laws) cfg "rt-alice" (rt_row "rt-alice" alice_id false)
    (redis_after [TokenRevokedEvent (hash_token "rt-alice")]) sample_world) as (w' & Hr & _);
    [eval_hyp..|exact (ex_intro _ w' Hr)].
Defined.

Lemma refresh_reuse_detected_witness :
  ∃ e w', refresh (P := ref_platform) cfg "rt-used" sample_world = (Raise e, w') ∧
    tokens_revoked alice_id (w_db w').
Proof.
  destruct (refresh_reuse_detected (P := ref_platform) cfg "rt-used"
    (rt_row "rt-used" alice_id true) sample_world) as (e & w' & Hr & _ & Ht & _); [eval_hyp..|].
  exact (ex_intro _ e (ex_intro _ w' (conj Hr Ht))).
Defined.

Lemma refresh_refuses_witness :
  ∃ w', refresh (P := ref_platform) cfg "nope" sample_world =
    (Raise (ExService InvalidTokenError), w') ∧ w_db w' = sample_db.
Proof.
  destruct (refresh_refuses (P := ref_platform) cfg "nope" sample_world) as [H _];
    [eval_hyp..|].
  destruct H as (w' & Hr & Hdb & _); [eval_hyp|]. exact (ex_intro _ w' (conj Hr Hdb)).
Defined.

Lemma refresh_single_use_witness :
  ∃ w1' tok e, refresh (P := ref_platform) cfg "rt-alice" sample_world =
      (Ok (pair_at (P := ref_platform) cfg 0), w1') ∧
    refresh_tokens sample_db !! hash_token "rt-alice" = Some tok ∧
    (refresh (P := ref_platform) cfg "rt-alice" w1').1 = Raise e.
Proof.
  assert ((refresh (P := ref_platform) cfg "rt-alice" sample_world).1 =
    Ok (pair_at (P := ref_platform) cfg 0)) as Hok by eval_hyp.
  assert (healthy (refresh (P := ref_platform) cfg "rt-alice" sample_world).2) as Hh by eval_hyp.
  destruct (refresh (P := ref_platform) cfg "rt-alice" sample_world) as [r w1'] eqn:Hr.
  cbn [fst snd] in Hok, Hh. subst r.
  destruct (refresh_single_use (P := ref_platform) cfg "rt-alice" _ _ _ w1' sample_healthy wf_sample
    ltac:(eval_hyp) Hr Hh eq_refl) as (tok & e & Htok & He & _).
  exact (ex_intro _ w1' (ex_intro _ tok (ex_intro _ e (conj eq_refl (conj Htok He))))).
Defined.

Lemma login_correct_witness :
  ∃ hash w', login (P := ref_platform) cfg "carol" "pw-carol" sample_world =
    (Ok (carol, pair_at (P := ref_platform) cfg 0), w') ∧
    users (w_db w') = <[carol_id := MkUser carol_id "carol" hash false (user_created_at carol)]>
                        (users sample_db).
Proof.
  destruct (login_correct (PL := ref_platform_laws) cfg "carol" "pw-carol" sample_world)
    as [_ H]; [eval_hyp..|]. specialize (H carol).
  assert (verify_password (H := plat_passwords (Platform := ref_platform)) "pw-carol" (password_hash carol) = Ok true) as Hv by eval_hyp.
  assert (needs_rehash (H := plat_passwords (Platform := ref_platform)) (password_hash carol) = Ok true) as Ho by eval_hyp.
  rewrite Hv, Ho in H.
  destruct H as (hash & r & rd & w' & Hl & _ & _ & Hdb & _ & Hr); [eval_hyp|].
  assert (publish_stream_event (UserInvalidatedEvent carol_id) (w_redis sample_world) =
    (Ok tt, redis_after [UserInvalidatedEvent carol_id])) as Hp by eval_hyp.
  destruct Hr as [[_ ->]|(e & He & _)]; [|change (user_id carol) with carol_id in He; congruence].
  exists hash, w'. split; [exact Hl|]. rewrite Hdb. reflexivity.
Defined.

Lemma register_login_witness :
  ∃ u tp w1', register (P := ref_platform) cfg "dave" "pw-dave" sample_world = (Ok (u, tp), w1') ∧
    username u = "dave" ∧
    (login (P := ref_platform) cfg "dave" "pw-dave" (later 20 (ref_world_with (w_db w1')))).1 =
      Ok (u, pair_at (P := ref_platform) cfg 20).
Proof.
  assert (fresh_pair (pair_at (P := ref_platform) cfg 20)
    (w_db (register (P := ref_platform) cfg "dave" "pw-dave" sample_world).2)) as Hf
    by (split; vm_compute; reflexivity).
  assert (is_ok (register (P := ref_platform) cfg "dave" "pw-dave" sample_world).1 = true) as Hok
    by (vm_compute; reflexivity).
  destruct (register (P := ref_platform) cfg "dave" "pw-dave" sample_world) as [[[u tp]|e] w1'] eqn:Hr;
    [|discriminate Hok].
  destruct (register_login (PL := ref_platform_laws) cfg "dave" "pw-dave" u tp sample_world w1'
    (later 20 (ref_world_with (w_db w1'))) sample_healthy wf_sample
    ltac:(split; vm_compute; reflexivity) Hr (conj eq_refl eq_refl) eq_refl Hf) as [Hn Hl].
  exact (ex_intro _ u (ex_intro _ tp (ex_intro _ w1' (conj eq_refl (conj Hn Hl))))).
Defined.

Lemma register_correct_witness :
  (register (P := ref_platform) cfg "alice" "x" sample_world).1 =
    Raise (ExService (UserAlreadyExistsError (PStr "alice"))).
Proof.
  destruct (register_correct (PL := ref_platform_laws) cfg "alice" "x" sample_world) as [H _];
    [eval_hyp..|].
  refine (proj1 (H (ex_intro _ alice_id (ex_intro _ alice _)))). eval_hyp.
Defined.

Lemma logout_revokes_witness :
  ∃ w', logout (P := ref_platform) "rt-alice" (Some "at-alice") sample_world = (Ok tt, w').
Proof.
  destruct (logout_revokes (PL := ref_platform_laws) "rt-alice" "at-alice"
    (rt_row "rt-alice" alice_id false)
    (MkAccessToken (hash_token "at-alice") alice_id false (seconds 900))
    (redis_after [TokenRevokedEvent (hash_token "rt-alice")])
    (redis_after [TokenRevokedEvent (hash_token "rt-alice"); TokenRevokedEvent (hash_token "at-alice")])
    (seconds 5) sample_world) as (w' & Hl & _); [eval_hyp..|]. exact (ex_intro _ w' Hl).
Defined.

Lemma logout_unknown_access_witness :
  ∃ w', logout (P := ref_platform) "rt-alice" (Some "nope") sample_world = (Ok tt, w') ∧
    w_db w' = sample_db.
Proof.
  destruct (logout_unknown_access (P := ref_platform) "rt-alice" "nope" sample_world)
    as (w' & Hl & Hdb & _); [eval_hyp..|]. exact (ex_intro _ w' (conj Hl Hdb)).
Defined.
