(* ===== verification/TopN.v ===== *)
(** * Pagination: the newest [n] of a list

    [top_n ts n l r]: [r] holds the [n] newest elements of [l] (all of them if
    there are fewer), newest first. Ordering and cutting gives it, and so does
    cutting two parts first and merging what is left, which is how the
    conversation query avoids reading a whole history. *)

From S2P Require Export Sql.

Section top_n.
Context {A : Type} (ts : A → timestamp).
Implicit Types l r a b rest : list A.

Definition newest_first r : Prop := StronglySorted (newer ts) r.
Definition top_n (n : nat) l r : Prop :=
  length r = Nat.min n (length l) ∧ newest_first r ∧
  ∃ rest, r ++ rest ≡ₚ l ∧ ∀ x y, x ∈ r → y ∈ rest → (ts y ≤ ts x)%Z.

#[local] Instance newer_trans : Transitive (newer ts).
Proof. intros x y z. unfold newer. lia. Qed.
#[local] Instance newer_total : Total (newer ts).
Proof. intros x y. unfold newer. lia. Qed.

Lemma order_desc_perm l : order_desc ts l ≡ₚ l.
Proof. apply merge_sort_Permutation. Qed.
Lemma order_desc_sorted l : newest_first (order_desc ts l).
Proof. apply StronglySorted_merge_sort; apply _. Qed.

Lemma top_n_order n l l' : l' ≡ₚ l → top_n n l (take n (order_desc ts l')).
Proof.
  intros Hl. split; [|split].
  - rewrite length_take, order_desc_perm, Hl. done.
  - pose proof (order_desc_sorted l') as Hs. rewrite <-(take_drop n (order_desc ts l')) in Hs.
    by eapply StronglySorted_app_1_l in Hs.
  - exists (drop n (order_desc ts l')). split; [by rewrite take_drop, order_desc_perm|].
    pose proof (order_desc_sorted l') as Hs. rewrite <-(take_drop n (order_desc ts l')) in Hs.
    intros x y Hx Hy. by eapply (StronglySorted_app_1_elem_of (newer ts)) in Hs.
Qed.

Lemma top_n_perm n l l' r : l ≡ₚ l' → top_n n l r → top_n n l' r.
Proof.
  intros Hl (Hlen & Hs & rest & Hp & Hd). split; [by rewrite <-Hl|]. split; [done|].
  exists rest. split; [by rewrite Hp|done].
Qed.

(** The elements at least as new as [t]. *)
Definition since (t : timestamp) l : list A := filter (λ x, (t ≤ ts x)%Z) l.
#[local] Instance since_perm t : Proper (Permutation ==> Permutation) (since t).
Proof. intros l1 l2 Hl. unfold since. by rewrite Hl. Qed.
Lemma since_app t l1 l2 : since t (l1 ++ l2) = since t l1 ++ since t l2.
Proof. apply filter_app. Qed.
Lemma since_length_le t l : length (since t l) ≤ length l.
Proof. apply length_filter. Qed.
Lemma since_all t l : (∀ x, x ∈ l → (t ≤ ts x)%Z) → length (since t l) = length l.
Proof.
  intros Hl. unfold since. induction l as [|x l IH]; [done|].
  rewrite filter_cons_True by (apply Hl; left). simpl. rewrite IH; [done|].
  intros y Hy. apply Hl. by right.
Qed.
Lemma since_lt t x l : x ∈ l → (ts x < t)%Z → length (since t l) < length l.
Proof.
  intros Hx Ht. apply elem_of_Permutation in Hx as [l' ->].
  pose proof (since_length_le t l') as Hle. unfold since in *. rewrite filter_cons_False by lia.
  simpl. lia.
Qed.

(** An element cut from one part is no newer than anything the merge kept. *)
Lemma cut_dominated n a b r rest_r x y :
  length a = n → (∀ z, z ∈ a → (ts y ≤ ts z)%Z) →
  r ++ rest_r ≡ₚ a ++ b → length r ≤ n →
  (∀ u v, u ∈ r → v ∈ rest_r → (ts v ≤ ts u)%Z) → x ∈ r → (ts y ≤ ts x)%Z.
Proof.
  intros Hlen Ha Hp Hr Hd Hx. destruct (Z.le_gt_cases (ts y) (ts x)) as [|Hxy]; [done|].
  assert (length (since (ts y) (r ++ rest_r)) = length (since (ts y) (a ++ b))) as Hc
    by by rewrite Hp.
  rewrite !since_app, !length_app, (since_all (ts y) a) in Hc by done.
  pose proof (since_lt (ts y) x r Hx Hxy) as Hlt.
  destruct (since (ts y) rest_r) as [|z l] eqn:Hf; [simpl in Hc; lia|].
  assert (z ∈ since (ts y) rest_r) as Hz by (rewrite Hf; left).
  apply list_elem_of_filter in Hz as [Hz1 Hz2]. specialize (Hd x z Hx Hz2). lia.
Qed.

(** Cutting each part to [n] before merging loses nothing. *)
Lemma top_n_merge n la lb a b r :
  top_n n la a → top_n n lb b → top_n n (a ++ b) r → top_n n (la ++ lb) r.
Proof.
  intros (Hla & Hsa & ra & Hpa & Hda) (Hlb & Hsb & rb & Hpb & Hdb) (Hlr & Hsr & rr & Hpr & Hdr).
  assert (length a + length ra = length la) as Hna by (rewrite <-length_app; by rewrite Hpa).
  assert (length b + length rb = length lb) as Hnb by (rewrite <-length_app; by rewrite Hpb).
  rewrite length_app in Hlr. split; [rewrite length_app; lia|]. split; [done|].
  exists (rr ++ ra ++ rb). split.
  - rewrite app_assoc, Hpr, <-Hpa, <-Hpb. solve_Permutation.
  - intros x y Hx. rewrite !elem_of_app. intros [Hy|[Hy|Hy]]; [by apply Hdr| |].
    + assert (0 < length ra) by (destruct ra; [by apply elem_of_nil in Hy|simpl; lia]).
      eapply (cut_dominated n a b r rr); eauto; lia.
    + assert (0 < length rb) by (destruct rb; [by apply elem_of_nil in Hy|simpl; lia]).
      eapply (cut_dominated n b a r rr); eauto; [lia|by rewrite Hpr, Permutation_app_comm|lia].
Qed.

(** ** Following the cursor

    [page t]: the [n] newest elements strictly before [t]. Each next page is
    asked for before the last element of the one at hand. *)
Definition before (t : timestamp) l : list A := filter (λ x, (ts x < t)%Z) l.
#[local] Instance before_perm t : Proper (Permutation ==> Permutation) (before t).
Proof. intros l1 l2 Hl. unfold before. by rewrite Hl. Qed.

Fixpoint follow (page : timestamp → list A) (fuel : nat) (t : timestamp) : list A :=
  match fuel with
  | O => []
  | S fuel' =>
      let r := page t in
      r ++ match last r with Some x => follow page fuel' (ts x) | None => [] end
  end.

(** No two elements carry the same time. *)
Definition told_apart l : Prop := NoDup (ts <$> l).
Lemma told_apart_before t l : told_apart l → told_apart (before t l).
Proof. intros Hl. eapply sublist_NoDup, fmap_sublist, sublist_filter. exact Hl. Qed.

Lemma newest_first_last r m x : newest_first r → last r = Some m → x ∈ r → (ts m ≤ ts x)%Z.
Proof.
  intros Hs [l ->]%last_Some [Hx| ->%list_elem_of_singleton]%elem_of_app; [|done].
  eapply (StronglySorted_app_1_elem_of (newer ts)) in Hs; [done..|by left].
Qed.
Lemma before_before t t' l : (t' ≤ t)%Z → before t' (before t l) = before t' l.
Proof. intros Ht. unfold before. induction l as [|x l IH]; [done|]. rewrite !filter_cons.
  destruct (decide (ts x < t)%Z), (decide (ts x < t')%Z); rewrite ?filter_cons; try lia;
    rewrite ?decide_True, ?decide_False by lia; by rewrite IH.
Qed.
Lemma before_all t l : (∀ x, x ∈ l → (ts x < t)%Z) → before t l = l.
Proof. intros Hl. by apply filter_all, Forall_forall. Qed.
Lemma before_none t l : (∀ x, x ∈ l → (t ≤ ts x)%Z) → before t l = [].
Proof. intros Hl. apply filter_none, Forall_forall. intros x Hx Ht. specialize (Hl x Hx). lia. Qed.

(** What a page leaves is what the next cursor asks for. *)
Lemma next_cursor t l r m rest :
  told_apart l → newest_first r → last r = Some m → r ++ rest ≡ₚ before t l →
  (∀ x y, x ∈ r → y ∈ rest → (ts y ≤ ts x)%Z) → rest ≡ₚ before (ts m) l.
Proof.
  intros Hl Hs Hm Hp Hd. assert (m ∈ r) as Hin by by apply last_Some_elem_of.
  assert (m ∈ before t l) as [Ht _]%list_elem_of_filter by (rewrite <-Hp, elem_of_app; by left).
  rewrite <-(before_before t) by lia. rewrite <-Hp. unfold before. rewrite filter_app.
  fold (before (ts m) r) (before (ts m) rest).
  rewrite before_none by (intros x Hx; by eapply newest_first_last). cbn.
  rewrite before_all; [done|]. intros y Hy.
  assert (ts y ≠ ts m); [|specialize (Hd m y Hin Hy); lia].
  apply (told_apart_before t) in Hl. unfold told_apart in Hl. rewrite <-Hp, fmap_app in Hl.
  apply NoDup_app in Hl as (_ & Hl & _). intros Heq. apply (Hl (ts m)).
  - by apply list_elem_of_fmap_2.
  - rewrite <-Heq. by apply list_elem_of_fmap_2.
Qed.

Lemma follow_complete n page l fuel t :
  0 < n → told_apart l → (∀ t, top_n n (before t l) (page t)) → length (before t l) < fuel →
  follow page fuel t ≡ₚ before t l ∧ newest_first (follow page fuel t).
Proof.
  intros Hn Hl Hpage. revert t. induction fuel as [|fuel IH]; intros t Hfuel; [lia|]. cbn.
  destruct (Hpage t) as (Hlen & Hs & rest & Hp & Hd).
  destruct (last (page t)) as [m|] eqn:Hm.
  - assert (rest ≡ₚ before (ts m) l) as Hrest by by eapply next_cursor.
    assert (length (page t) ≠ 0) by (by destruct (page t)).
    assert (length (page t) + length rest = length (before t l)) as Hsum
      by (rewrite <-length_app; by rewrite Hp).
    destruct (IH (ts m)) as [IHp IHs]; [rewrite <-Hrest; lia|]. split.
    + by rewrite IHp, <-Hrest.
    + apply StronglySorted_app_2; [|done|done]. intros x y Hx Hy. apply Hd; [done|].
      by rewrite Hrest, <-IHp.
  - apply last_None in Hm. rewrite Hm in *. cbn in Hlen.
    assert (length (before t l) = 0) as ->%nil_length_inv by lia. by split; [|constructor].
Qed.

End top_n.
