(* ===== verification/MessagingTheorems.v ===== *)
(** * Properties of MessagingService

    Who may send and read, what a message leaves behind, and that the paginated
    histories are exactly the newest messages before the cutoff. *)

From S2P Require Export MessagingService DbInv TopN Samples.

Section messaging_theorems.
Context {P : Platform} {PL : PlatformLaws}.
Implicit Types (w : World) (db : Database).

(** ** Friendship between two users, whichever of them asked *)

(** All rows between [a] and [b], and at least one, are accepted; or none is. *)
Definition are_friends (a b : UUID) db : Prop :=
  (∃ k f, friendships db !! k = Some f ∧ Fetch.between a b f) ∧
  ∀ k f, friendships db !! k = Some f → Fetch.between a b f → accepted f = true.
Definition not_friends (a b : UUID) db : Prop :=
  ∀ k f, friendships db !! k = Some f → Fetch.between a b f → accepted f = false.

Lemma between_rows a b db f :
  f ∈ Fetch.where_rows (Fetch.between a b) (friendships db) ↔
  Fetch.between a b f ∧ ∃ k, friendships db !! k = Some f.
Proof. unfold Fetch.where_rows. rewrite (scan_perm Friendship). apply filter_gmap_values_spec. Qed.

Lemma friendship_between_friends a b db :
  are_friends a b db →
  ∃ k f, friendship_between a b db = Some f ∧ friendships db !! k = Some f ∧
    Fetch.between a b f ∧ accepted f = true.
Proof.
  intros [(k & f & Hk & Hf) Hall]. unfold friendship_between.
  assert (f ∈ Fetch.where_rows (Fetch.between a b) (friendships db)) as Hin
    by (apply between_rows; eauto).
  destruct (Fetch.where_rows _ _) as [|f' l] eqn:Hl; [by apply elem_of_nil in Hin|].
  assert (f' ∈ Fetch.where_rows (Fetch.between a b) (friendships db)) as Hin' by (rewrite Hl; left).
  apply between_rows in Hin' as [Hb [k' Hk']]. exists k', f'. eauto.
Qed.
Lemma friendship_between_strangers a b db :
  not_friends a b db →
  match friendship_between a b db with Some f => accepted f = false | None => True end.
Proof.
  intros Hall. destruct (friendship_between a b db) as [f|] eqn:Hf; [|done].
  apply head_Some_elem_of, between_rows in Hf as [Hb [k Hk]]. eauto.
Qed.

(** ** Sending *)

(** The worker after a committed session that spawned [t]. *)
Definition after_spawn w db (tick : nat) (t : Task) : World :=
  MkWorld db true [] (w_redis w) (w_cache w) (w_tasks w ++ [t]) tick.

(** A message whose sender and recipient have an accepted row first, one without,
    and one of a group member, on a healthy worker. *)
Lemma send_dm_row s r content w f :
  healthy w → wf_db (w_db w) → direct_messages (w_db w) !! ent_uuid (S (w_tick w)) = None →
  friendship_between s r (w_db w) = Some f → accepted f = true →
  let dm := MkDirectMessage (ent_uuid (S (w_tick w))) s r content (ent_clock (2 + w_tick w)) in
  svc_send_direct_message s r content w =
  (Ok dm, after_spawn w (set_direct_messages <[dm_message_id dm := dm]> (w_db w)) (3 + w_tick w)
            (PushToUser r (dm_event dm))).
Proof.
  intros Hw Hwf Hid Hfb Ha dm. pose proof Hfb as Hf.
  apply head_Some_elem_of, between_rows in Hf as [Hb [k Hk]].
  unfold svc_send_direct_message, handle_db_constraint_error, handle_db_not_found_error.
  rewrite M_bind_run, transaction_run by done. unfold send_dm_tx. run_queries.
  rewrite Hfb. cbn. rewrite Ha. cbn. run_queries.
  destruct (wf_friendships _ Hwf _ _ Hk) as (_ & [u1 Hu1] & [u2 Hu2]).
  assert (is_Some (users (w_db w) !! s) ∧ is_Some (users (w_db w) !! r)) as [[us Hs] [ur Hr]].
  { destruct Hb as [[<- <-]|[<- <-]]; by rewrite Hu1, Hu2. }
  unfold insert_direct_message_row. cbn. rewrite Hid, Hs, Hr. cbn. by run_queries.
Qed.
Lemma send_dm_run s r content w :
  healthy w → wf_db (w_db w) → direct_messages (w_db w) !! ent_uuid (S (w_tick w)) = None →
  are_friends s r (w_db w) →
  let dm := MkDirectMessage (ent_uuid (S (w_tick w))) s r content (ent_clock (2 + w_tick w)) in
  svc_send_direct_message s r content w =
  (Ok dm, after_spawn w (set_direct_messages <[dm_message_id dm := dm]> (w_db w)) (3 + w_tick w)
            (PushToUser r (dm_event dm))).
Proof.
  intros Hw Hwf Hid (k & f & Hfb & _ & _ & Ha)%friendship_between_friends. by eapply send_dm_row.
Qed.
Lemma send_dm_refused s r content w :
  healthy w → match friendship_between s r (w_db w) with Some f => accepted f = false | None => True end →
  svc_send_direct_message s r content w =
  (Raise (ExService (DirectMessageNotAllowedError (PUuid r))), after w (w_db w) (S (w_tick w))).
Proof.
  intros Hw Hno.
  unfold svc_send_direct_message, handle_db_constraint_error, handle_db_not_found_error.
  rewrite M_bind_run, transaction_run by done. unfold send_dm_tx. run_queries.
  destruct (friendship_between s r (w_db w)) as [f|]; cbn; [|done].
  rewrite Hno. cbn. by run_queries.
Qed.
Lemma send_gm_run s g content w :
  healthy w → wf_db (w_db w) → group_messages (w_db w) !! ent_uuid (S (w_tick w)) = None →
  is_Some (memberships (w_db w) !! (g, s)) →
  let msg := MkGroupMessage (ent_uuid (S (w_tick w))) g s content (ent_clock (2 + w_tick w)) in
  svc_send_group_message s g content w =
  (Ok msg, after_spawn w (set_group_messages <[gm_message_id msg := msg]> (w_db w)) (3 + w_tick w)
             (PushToGroup g (gm_event msg) (Some s))).
Proof.
  intros Hw Hwf Hid [m Hm] msg.
  unfold svc_send_group_message, handle_db_constraint_error, handle_db_not_found_error.
  rewrite M_bind_run, transaction_run by done. unfold send_gm_tx. run_queries.
  rewrite Hm. cbn. run_queries.
  destruct (wf_memberships _ Hwf _ _ Hm) as (Hpk & [gr Hg] & [u Hu]). injection Hpk as -> ->.
  unfold insert_group_message_row. cbn. rewrite Hid, Hg, Hu. cbn. by run_queries.
Qed.

(** C19: a direct message goes through between accepted friends: it is stored
    with the identifier drawn, if that is new, and the current time, nothing else
    in the tables changes, and one push to the recipient is spawned. Without an
    accepted request between the two the sender is told it is not allowed and
    nothing changes. When both have asked and one of the two requests is
    accepted, it is the row that the query's LIMIT 1 returns that decides between
    these outcomes. *)
Theorem send_direct_message_correct s r content w :
  healthy w → wf_db (w_db w) → direct_messages (w_db w) !! ent_uuid (S (w_tick w)) = None →
  let dm := MkDirectMessage (ent_uuid (S (w_tick w))) s r content (ent_clock (2 + w_tick w)) in
  let sent := (Ok dm, after_spawn w (set_direct_messages <[dm_message_id dm := dm]> (w_db w))
                        (3 + w_tick w) (PushToUser r (dm_event dm))) in
  let refused := (Raise (ExService (DirectMessageNotAllowedError (PUuid r))),
                  after w (w_db w) (S (w_tick w))) in
  (are_friends s r (w_db w) → svc_send_direct_message s r content w = sent) ∧
  (not_friends s r (w_db w) → svc_send_direct_message s r content w = refused) ∧
  match head (Fetch.where_rows (Fetch.between s r) (friendships (w_db w))) with
  | Some f => svc_send_direct_message s r content w = if accepted f then sent else refused
  | None => svc_send_direct_message s r content w = refused
  end.
Proof.
  intros Hw Hwf Hid dm sent refused. split; [by apply send_dm_run|]. split.
  - intros Hno%friendship_between_strangers. by apply send_dm_refused.
  - fold (friendship_between s r (w_db w)).
    destruct (friendship_between s r (w_db w)) as [f|] eqn:Hf;
      [destruct (accepted f) eqn:Ha; [by eapply send_dm_row|]|]; apply send_dm_refused; by rewrite ?Hf.
Qed.

(** A group message goes through exactly for members of the group: it is
    stored, and one push to the group that skips the sender is spawned;
    otherwise the sender is told it is not allowed and nothing changes. *)
Lemma send_group_message_correct s g content w :
  healthy w → wf_db (w_db w) → group_messages (w_db w) !! ent_uuid (S (w_tick w)) = None →
  let msg := MkGroupMessage (ent_uuid (S (w_tick w))) g s content (ent_clock (2 + w_tick w)) in
  (is_Some (memberships (w_db w) !! (g, s)) →
     svc_send_group_message s g content w =
     (Ok msg, after_spawn w (set_group_messages <[gm_message_id msg := msg]> (w_db w))
                (3 + w_tick w) (PushToGroup g (gm_event msg) (Some s)))) ∧
  (memberships (w_db w) !! (g, s) = None →
     svc_send_group_message s g content w =
     (Raise (ExService (GroupMessageNotAllowedError (PUuid g))), after w (w_db w) (S (w_tick w)))).
Proof.
  intros Hw Hwf Hid msg. split; [by apply send_gm_run|].
  unfold svc_send_group_message, handle_db_constraint_error, handle_db_not_found_error.
  intros Hm. rewrite M_bind_run, transaction_run by done. unfold send_gm_tx. run_queries.
    by rewrite Hm.
Qed.

(** ** Histories *)

(** The rows of a table satisfying [Q], in no particular order. *)
Definition rows_where {K A} `{Countable K} (Q : A → Prop) `{∀ x, Decision (Q x)} (t : gmap K A)
    : list A := filter Q (table_rows t).

Definition in_conversation (a b : UUID) (before : timestamp) (m : DirectMessage) : Prop :=
  ((dm_sender_id m = a ∧ dm_recipient_id m = b) ∨ (dm_sender_id m = b ∧ dm_recipient_id m = a)) ∧
  (dm_created_at m < before)%Z.
#[export] Instance in_conversation_dec a b t m : Decision (in_conversation a b t m).
Proof. unfold in_conversation. apply _. Defined.

(** A disjunction of exclusive filters is the concatenation of both. *)
Lemma filter_split {A} (Q R S : A → Prop) `{∀ x, Decision (Q x)} `{∀ x, Decision (R x)}
    `{∀ x, Decision (S x)} (l : list A) :
  (∀ x, S x ↔ Q x ∨ R x) → (∀ x, Q x → R x → False) →
  filter S l ≡ₚ filter Q l ++ filter R l.
Proof.
  intros HS Hx. induction l as [|x l IH]; [done|]. rewrite !filter_cons.
  destruct (decide (Q x)), (decide (R x)), (decide (S x)); try naive_solver.
  - rewrite IH. by rewrite Permutation_middle.
Qed.

Lemma dm_direction_top s r before n db :
  top_n dm_created_at n
    (rows_where (λ m, dm_sender_id m = s ∧ dm_recipient_id m = r ∧ (dm_created_at m < before)%Z)
       (direct_messages db))
    (take n (Fetch.dm_direction s r before db)).
Proof. apply top_n_order. unfold Fetch.where_rows. apply (scan_perm DirectMessage). Qed.

Lemma dm_history_top a b before n db :
  a ≠ b →
  top_n dm_created_at n (rows_where (in_conversation a b before) (direct_messages db))
    (Fetch.dm_history_rows a b before n db).
Proof.
  intros Hab. eapply top_n_perm; [|eapply top_n_merge;
    [apply (dm_direction_top a b before)|apply (dm_direction_top b a before)|]].
  - symmetry. apply filter_split.
    + intros m. unfold in_conversation. naive_solver.
    + naive_solver.
  - apply top_n_order. apply (scan_perm DirectMessage).
Qed.

(** The cutoff, and the rows a history call reads. *)
Lemma cutoff_run before w :
  healthy w →
  ∃ w1, cutoff_of before w = (Ok (default (ent_clock (w_tick w)) before), w1) ∧
    w_db w1 = w_db w ∧ healthy w1.
Proof.
  intros [Hp Hf]. exists (if before then w else set_tick (S (w_tick w)) w). by destruct before.
Qed.
Lemma dm_history_run a b before limit w :
  healthy w → (0 ≤ limit)%Z → are_friends a b (w_db w) →
  ∃ w', get_dm_history a b before limit w =
    (Ok (Fetch.dm_history_rows a b (default (ent_clock (w_tick w)) before) (Z.to_nat limit) (w_db w)),
     w') ∧ w_db w' = w_db w ∧ healthy w'.
Proof.
  intros Hw Hlim (k & f & Hfb & _ & _ & Ha)%friendship_between_friends.
  unfold get_dm_history, handle_db_constraint_error, handle_db_not_found_error.
  destruct (cutoff_run before w Hw) as (w1 & Hcut & Hdb & Hw1).
  rewrite M_bind_run, Hcut, connection_run by done. unfold dm_history_tx. run_queries.
  rewrite Hdb, Hfb. cbn. rewrite Ha. cbn. rewrite run_get_dm_conversation_history by done.
  by eexists.
Qed.
Lemma group_history_run u g before limit w :
  healthy w → (0 ≤ limit)%Z → is_Some (memberships (w_db w) !! (g, u)) →
  ∃ w', get_group_history u g before limit w =
    (Ok (Fetch.group_timeline_rows g (default (ent_clock (w_tick w)) before) (Z.to_nat limit) (w_db w)),
     w') ∧ w_db w' = w_db w ∧ healthy w'.
Proof.
  intros Hw Hlim [m Hm].
  unfold get_group_history, handle_db_constraint_error, handle_db_not_found_error.
  destruct (cutoff_run before w Hw) as (w1 & Hcut & Hdb & Hw1).
  rewrite M_bind_run, Hcut, connection_run by done. unfold group_history_tx. run_queries.
  rewrite Hdb, Hm. cbn. rewrite run_get_group_messages_timeline by done. by eexists.
Qed.
Lemma group_timeline_top g before n db :
  top_n gm_created_at n
    (rows_where (λ m, gm_group_id m = g ∧ (gm_created_at m < before)%Z) (group_messages db))
    (Fetch.group_timeline_rows g before n db).
Proof. apply top_n_order. apply (scan_perm GroupMessage). Qed.

(** C23: the history two friends read is the newest [limit] messages exchanged
    between them, in either direction, strictly before the cutoff (the current
    time when none is given), newest first; strangers get an error. Limiting
    each direction before merging them loses nothing. *)
Theorem dm_history_correct a b before limit w :
  healthy w → a ≠ b → (0 ≤ limit)%Z →
  let cutoff := default (ent_clock (w_tick w)) before in
  (are_friends a b (w_db w) →
     ∃ l w', get_dm_history a b before limit w = (Ok l, w') ∧ w_db w' = w_db w ∧
       top_n dm_created_at (Z.to_nat limit)
         (rows_where (in_conversation a b cutoff) (direct_messages (w_db w))) l) ∧
  (not_friends a b (w_db w) →
     (get_dm_history a b before limit w).1 =
       Raise (ExService (DirectMessageNotAllowedError (PUuid b)))).
Proof.
  intros Hw Hab Hlim cutoff. split.
  - intros Hfr. destruct (dm_history_run a b before limit w Hw Hlim Hfr) as (w' & Hrun & Hdb & _).
    do 2 eexists. split; [exact Hrun|]. split; [done|]. by apply dm_history_top.
  - intros Hno%friendship_between_strangers. destruct Hw as [Hp Hf].
    unfold get_dm_history, handle_db_constraint_error, handle_db_not_found_error.
    destruct (cutoff_run before w) as (w1 & Hcut & Hdb & Hw1); [done|].
    rewrite M_bind_run, Hcut, connection_run by done. unfold dm_history_tx. run_queries. rewrite Hdb.
    destruct (friendship_between a b (w_db w)) as [f|]; cbn; [|done].
    rewrite Hno. cbn. by run_queries.
Qed.

(** A member of a group reads its newest [limit] messages strictly before
    the cutoff, newest first; anybody else gets an error. *)
Lemma group_history_correct u g before limit w :
  healthy w → (0 ≤ limit)%Z →
  let cutoff := default (ent_clock (w_tick w)) before in
  (is_Some (memberships (w_db w) !! (g, u)) →
     ∃ l w', get_group_history u g before limit w = (Ok l, w') ∧ w_db w' = w_db w ∧
       top_n gm_created_at (Z.to_nat limit)
         (rows_where (λ m, gm_group_id m = g ∧ (gm_created_at m < cutoff)%Z)
            (group_messages (w_db w))) l) ∧
  (memberships (w_db w) !! (g, u) = None →
     (get_group_history u g before limit w).1 =
       Raise (ExService (GroupMessageNotAllowedError (PUuid g)))).
Proof.
  intros Hw Hlim cutoff. split.
  - intros Hm. destruct (group_history_run u g before limit w Hw Hlim Hm) as (w' & Hrun & Hdb & _).
    do 2 eexists. split; [exact Hrun|]. split; [done|]. apply group_timeline_top.
  - intros Hm. destruct Hw as [Hp Hf].
    unfold get_group_history, handle_db_constraint_error, handle_db_not_found_error.
    destruct (cutoff_run before w) as (w1 & Hcut & Hdb & Hw1); [done|].
    rewrite M_bind_run, Hcut, connection_run by done. unfold group_history_tx. run_queries.
    by rewrite Hdb, Hm.
Qed.

End messaging_theorems.

(** ** Runs on the sample tables *)

(** The three relationships of the sample: friends, a pending request, none. *)
Lemma all_friendships (Q : Friendship → Prop) :
  Forall Q (table_rows (friendships sample_db)) →
  ∀ k f, friendships sample_db !! k = Some f → Q f.
Proof.
  rewrite Forall_forall. intros HQ k f Hk. apply HQ, list_elem_of_fmap.
  exists (k, f). split; [done|]. by apply elem_of_map_to_list.
Qed.
Lemma alice_bob_friends : are_friends alice_id bob_id sample_db.
Proof.
  split.
  - exists (alice_id, bob_id), (MkFriendship alice_id bob_id true 0 0).
    split; [by vm_compute|]. by left.
  - refine (all_friendships (λ f, Fetch.between alice_id bob_id f → accepted f = true) _).
    apply (bool_decide_unpack _). by vm_compute.
Qed.
Lemma bob_carol_strangers : not_friends bob_id carol_id sample_db.
Proof.
  refine (all_friendships (λ f, Fetch.between bob_id carol_id f → accepted f = false) _).
  apply (bool_decide_unpack _). by vm_compute.
Qed.

Lemma send_direct_message_correct_witness :
  let dm := MkDirectMessage (uuid_of 1001) alice_id bob_id "yo" (seconds 2) in
  svc_send_direct_message (P := ref_platform) alice_id bob_id "yo" sample_world =
    (Ok dm, after_spawn sample_world (set_direct_messages <[uuid_of 1001 := dm]> sample_db) 3
              (PushToUser bob_id (dm_event dm))) ∧
  svc_send_direct_message (P := ref_platform) bob_id carol_id "yo" sample_world =
    (Raise (ExService (DirectMessageNotAllowedError (PUuid carol_id))),
     after sample_world sample_db 1).
Proof.
  split.
  - assert (direct_messages (w_db sample_world) !! @ent_uuid ref_entropy 1 = None) as Hid by eval_hyp.
    destruct (send_direct_message_correct (PL := ref_platform_laws) alice_id bob_id "yo" sample_world
      sample_healthy wf_sample Hid) as [H _]. exact (H alice_bob_friends).
  - assert (direct_messages (w_db sample_world) !! @ent_uuid ref_entropy 1 = None) as Hid by eval_hyp.
    destruct (send_direct_message_correct (PL := ref_platform_laws) bob_id carol_id "yo" sample_world
      sample_healthy wf_sample Hid) as (_ & H & _). exact (H bob_carol_strangers).
Defined.

Lemma send_group_message_correct_witness :
  (svc_send_group_message (P := ref_platform) bob_id team_id "yo" sample_world).1 =
    Ok (MkGroupMessage (uuid_of 1001) team_id bob_id "yo" (seconds 2)) ∧
  (svc_send_group_message (P := ref_platform) carol_id team_id "yo" sample_world).1 =
    Raise (ExService (GroupMessageNotAllowedError (PUuid team_id))).
Proof.
  split.
  - assert (is_Some (memberships sample_db !! (team_id, bob_id))) as Hm by eval_hyp.
    rewrite (proj1 (send_group_message_correct bob_id team_id "yo" sample_world sample_healthy
      wf_sample ltac:(eval_hyp)) Hm). reflexivity.
  - assert (memberships sample_db !! (team_id, carol_id) = None) as Hm by eval_hyp.
    rewrite (proj2 (send_group_message_correct carol_id team_id "yo" sample_world sample_healthy
      wf_sample ltac:(eval_hyp)) Hm). reflexivity.
Defined.

Lemma dm_history_correct_witness :
  ∃ l w', get_dm_history (P := ref_platform) alice_id bob_id (Some 100%Z) 1 sample_world = (Ok l, w') ∧
    top_n dm_created_at 1 (rows_where (in_conversation alice_id bob_id 100) (direct_messages sample_db)) l.
Proof.
  destruct (dm_history_correct (PL := ref_platform_laws) alice_id bob_id (Some 100%Z) 1 sample_world
    sample_healthy) as [H _]; [eval_hyp|eval_hyp|].
  destruct (H alice_bob_friends) as (l & w' & Hl & _ & Ht).
  exact (ex_intro _ l (ex_intro _ w' (conj Hl Ht))).
Defined.

Lemma group_history_correct_witness :
  ∃ l w', get_group_history (P := ref_platform) alice_id team_id (Some 100%Z) 5 sample_world =
      (Ok l, w').
Proof.
  destruct (group_history_correct (PL := ref_platform_laws) alice_id team_id (Some 100%Z) 5
    sample_world sample_healthy) as [H _]; [eval_hyp|].
  destruct H as (l & w' & Hl & _); [eval_hyp|]. exact (ex_intro _ l (ex_intro _ w' Hl)).
Defined.
