(* ===== verification/Pagination.v ===== *)
(** * Reading a whole history, page by page

    A client of GET /messages/direct/{id} and /messages/groups/{id} that asks
    for the next page [before] the last message of the one at hand, until a page
    is empty, reads every message exactly once, provided no two messages of the
    history carry the same time: the cursor is the time alone. *)

From S2P Require Export MessagingTheorems.

Section pagination.
Context {P : Platform} {PL : PlatformLaws}.
Implicit Types (w : World) (db : Database).

Section client.
Context {A : Type} (ts : A → timestamp) (page : option timestamp → M (list A)).

Fixpoint read_pages (fuel : nat) (cursor : option timestamp) : M (list A) :=
  match fuel with
  | O => mret []
  | S fuel' =>
      l ← page cursor;
      match last l with
      | None => mret []
      | Some m => rest ← read_pages fuel' (Some (ts m)); mret (l ++ rest)
      end
  end.

(** When the pages are those of [rows], which no call changes. *)
Lemma read_pages_run (rows : timestamp → list A) db fuel cursor w :
  (∀ c w, healthy w → w_db w = db →
     ∃ w', page c w = (Ok (rows (default (ent_clock (w_tick w)) c)), w') ∧ w_db w' = db ∧ healthy w') →
  healthy w → w_db w = db →
  ∃ w', read_pages fuel cursor w =
    (Ok (follow ts rows fuel (default (ent_clock (w_tick w)) cursor)), w') ∧ w_db w' = db.
Proof.
  intros Hpage. revert cursor w. induction fuel as [|fuel IH]; intros cursor w Hw Hdb; [by exists w|].
  cbn [read_pages follow]. destruct (Hpage cursor w Hw Hdb) as (w1 & Hrun & Hdb1 & Hw1).
  rewrite M_bind_run, Hrun. destruct (last (rows _)) as [m|] eqn:Hm.
  - destruct (IH (Some (ts m)) w1 Hw1 Hdb1) as (w2 & Hrun2 & Hdb2).
    exists w2. by rewrite M_bind_run, Hrun2.
  - apply last_None in Hm. exists w1. by rewrite Hm.
Qed.
End client.

Lemma before_rows {K A} `{Countable K} ts (Q R : A → Prop) `{∀ x, Decision (Q x)} `{∀ x, Decision (R x)}
    t (tbl : gmap K A) :
  (∀ x, R x ↔ (ts x < t)%Z ∧ Q x) → before ts t (rows_where Q tbl) = rows_where R tbl.
Proof.
  intros HR. unfold before, rows_where. induction (table_rows tbl) as [|x l IH]; [done|].
  rewrite !filter_cons. specialize (HR x).
  destruct (decide (Q x)), (decide (R x)); rewrite ?filter_cons;
    try destruct (decide (ts x < t)%Z); try tauto; by rewrite IH.
Qed.

Definition conversation (a b : UUID) (m : DirectMessage) : Prop :=
  (dm_sender_id m = a ∧ dm_recipient_id m = b) ∨ (dm_sender_id m = b ∧ dm_recipient_id m = a).
#[export] Instance conversation_dec a b m : Decision (conversation a b m).
Proof. unfold conversation. apply _. Defined.
(** The messages of a conversation, and those of a group. *)
Definition direct_history (a b : UUID) db : list DirectMessage :=
  rows_where (conversation a b) (direct_messages db).
Definition group_history (g : UUID) db : list GroupMessage :=
  rows_where (λ m, gm_group_id m = g) (group_messages db).

Lemma direct_page a b limit db t :
  a ≠ b → top_n dm_created_at limit (before dm_created_at t (direct_history a b db))
            (Fetch.dm_history_rows a b t limit db).
Proof.
  intros Hab. unfold direct_history. erewrite before_rows; [by apply dm_history_top|].
  intros m. unfold in_conversation, conversation. tauto.
Qed.
Lemma group_page g limit db t :
  top_n gm_created_at limit (before gm_created_at t (group_history g db))
    (Fetch.group_timeline_rows g t limit db).
Proof.
  unfold group_history. erewrite before_rows; [apply group_timeline_top|]. intros m. cbn. tauto.
Qed.

(** C24: following the cursor reads a history completely: with any positive
    page size, two friends who ask for page after page get every message
    between them from before the first cutoff exactly once, newest first, and
    the members of a group every message of the group, when no two messages of
    the history carry the same time; one call more than there are messages is
    enough. *)
Theorem histories_complete actor b g cursor limit fuel w :
  healthy w → (0 < limit)%Z →
  let cutoff := default (ent_clock (w_tick w)) cursor in
  (actor ≠ b → are_friends actor b (w_db w) →
   let history := direct_history actor b (w_db w) in
   told_apart dm_created_at history → length history < fuel →
   ∃ l w', read_pages dm_created_at (λ c, get_dm_history actor b c limit) fuel cursor w = (Ok l, w') ∧
     l ≡ₚ before dm_created_at cutoff history ∧ newest_first dm_created_at l) ∧
  (is_Some (memberships (w_db w) !! (g, actor)) →
   let history := group_history g (w_db w) in
   told_apart gm_created_at history → length history < fuel →
   ∃ l w', read_pages gm_created_at (λ c, get_group_history actor g c limit) fuel cursor w = (Ok l, w') ∧
     l ≡ₚ before gm_created_at cutoff history ∧ newest_first gm_created_at l).
Proof.
  intros Hw Hlim cutoff.
  assert (∀ A (ts : A → timestamp) l, length l < fuel → length (before ts cutoff l) < fuel) as Hshort.
  { intros A ts l Hl. eapply Nat.le_lt_trans, Hl. apply length_filter. }
  split.
  - intros Hab Hfr history Hap Hfuel.
    destruct (read_pages_run dm_created_at (λ c, get_dm_history actor b c limit)
      (λ t, Fetch.dm_history_rows actor b t (Z.to_nat limit) (w_db w)) (w_db w) fuel cursor w)
      as (w' & Hrun & _); [|done..|].
    { intros c w1 Hw1 Hdb. rewrite <-Hdb in *. apply dm_history_run; [done|lia|done]. }
    do 2 eexists. split; [exact Hrun|].
    apply (follow_complete _ (Z.to_nat limit)); [lia|done| |by apply Hshort].
    intros t. by apply direct_page.
  - intros Hm history Hap Hfuel.
    destruct (read_pages_run gm_created_at (λ c, get_group_history actor g c limit)
      (λ t, Fetch.group_timeline_rows g t (Z.to_nat limit) (w_db w)) (w_db w) fuel cursor w)
      as (w' & Hrun & _); [|done..|].
    { intros c w1 Hw1 Hdb. rewrite <-Hdb in *. apply group_history_run; [done|lia|done]. }
    do 2 eexists. split; [exact Hrun|].
    apply (follow_complete _ (Z.to_nat limit)); [lia|done| |by apply Hshort].
    intros t. by apply group_page.
Qed.
End pagination.

(** ** Runs on the sample tables *)
Lemma histories_complete_witness :
  (∃ l w', read_pages (P := ref_platform) dm_created_at
      (λ c, get_dm_history alice_id bob_id c 1) 5 (Some 100%Z) sample_world = (Ok l, w') ∧
    l ≡ₚ before dm_created_at 100 (direct_history alice_id bob_id sample_db)) ∧
  ∃ l w', read_pages (P := ref_platform) gm_created_at
      (λ c, get_group_history alice_id team_id c 1) 5 (Some 100%Z) sample_world = (Ok l, w') ∧
    l ≡ₚ before gm_created_at 100 (group_history team_id sample_db).
Proof.
  destruct (histories_complete (PL := ref_platform_laws) alice_id bob_id team_id (Some 100%Z) 1 5 sample_world
    sample_healthy eq_refl) as [Hd Hg].
  destruct Hd as (l & w' & Hl & Hp & _); [eval_hyp|apply alice_bob_friends| | |].
  - unfold told_apart. apply (bool_decide_unpack _). by vm_compute.
  - apply (bool_decide_unpack _). by vm_compute.
  - destruct Hg as (l2 & w2 & Hl2 & Hp2 & _); [eval_hyp| | |].
    + unfold told_apart. apply (bool_decide_unpack _). by vm_compute.
    + apply (bool_decide_unpack _). by vm_compute.
    + exact (conj (ex_intro _ l (ex_intro _ w' (conj Hl Hp)))
        (ex_intro _ l2 (ex_intro _ w2 (conj Hl2 Hp2)))).
Defined.

(** Messages that carry the time of the last message of a page are on no page:
    two at the same time, read one at a time, and the second is never seen. *)
Definition tied_db : Database :=
  match insert_direct_message_row (MkDirectMessage (uuid_of 22) alice_id bob_id "tied" 7) sample_db with
  | inr db => db | inl _ => sample_db end.
Definition all_pages (fuel : nat) : outcome' nat :=
  o_map length (read_pages (P := ref_platform) dm_created_at
    (λ c, get_dm_history alice_id bob_id c 1) fuel (Some 100%Z) (ref_world_with tied_db)).1.
Lemma tied_message_unread :
  size (direct_messages tied_db) = 3 ∧ all_pages 9 = Ok 2.
Proof. vm_compute. by split. Qed.
