(* ===== verification/GroupTheorems.v ===== *)
(** * Properties of GroupService

    Creation, and the permission rules of membership changes and deletion, each
    as the complete list of outcomes. *)

From S2P Require Export GroupService DbInv Samples.

Section group_theorems.
Context {P : Platform}.
Implicit Types (w : World) (db : Database) (actor gid target : UUID).

(** The worker after a committed session that spawned [t]. *)
Definition spawned w db (tick : nat) (t : Task) : World :=
  MkWorld db true [] (w_redis w) (w_cache w) (w_tasks w ++ [t]) tick.
(** [e] raised with the tables untouched, at tick [tick]. *)
Definition refused {A} w (tick : nat) (e : ServiceError) : outcome' A * World :=
  (Raise (ExService e), after w (w_db w) tick).

Ltac run_handler_tx :=
  rewrite M_bind_run, transaction_run by done; unfold denied; run_queries.

(** An existing user who creates a group becomes its creator and its first
    member, and the join is announced; an unknown creator is reported as a
    missing user. *)
Lemma create_group_correct creator name w :
  healthy w → groups (w_db w) !! ent_uuid (w_tick w) = None →
  memberships (w_db w) !! (ent_uuid (w_tick w), creator) = None →
  let g := MkGroup (ent_uuid (w_tick w)) name (Some creator) (ent_clock (S (w_tick w))) in
  let m := MkMembership (group_id g) creator (ent_clock (2 + w_tick w)) in
  (is_Some (users (w_db w) !! creator) →
     svc_create_group creator name w =
     (Ok (g, m), spawned w (set_memberships <[mb_pk m := m]> (set_groups <[group_id g := g]> (w_db w)))
                   (4 + w_tick w) (PushGroupMembershipChange creator (group_id g) "JOIN"))) ∧
  (users (w_db w) !! creator = None →
     svc_create_group creator name w = refused w (4 + w_tick w) (UserNotFoundError unknown)).
Proof.
  intros Hw Hg Hm g m. unfold svc_create_group, handle_db_constraint_error.
  rewrite M_bind_run, new_group_run, M_bind_run, new_membership_run.
  rewrite M_bind_run, transaction_run by done. unfold create_group_tx. run_queries.
  unfold insert_group_row. cbn. rewrite Hg. cbn. split.
  - intros [u Hu]. rewrite Hu. cbn. run_queries.
    unfold insert_membership_row, unique, references, mb_pk. cbn.
    rewrite Hm, lookup_insert_eq, Hu. cbn. by run_queries.
  - intros Hu. by rewrite Hu.
Qed.

(** C36: only the creator adds members, only existing users who are not yet
    members, and every other attempt is refused with the tables untouched and
    nothing announced. *)
Theorem add_member_correct actor gid target w :
  healthy w →
  let t := w_tick w in
  let m := MkMembership gid target (ent_clock (S t)) in
  match groups (w_db w) !! gid with
  | None => add_member actor gid target w = refused w (S t) (GroupNotFoundError (PStr (str_uuid gid)))
  | Some g =>
      (created_by g ≠ Some actor → add_member actor gid target w =
         refused w (S t) (InsufficientGroupPermissionError
                            "Only the group creator can add new members.")) ∧
      (created_by g = Some actor → is_Some (memberships (w_db w) !! (gid, target)) →
         add_member actor gid target w =
         refused w (2 + t) (AlreadyGroupMemberError unknown unknown)) ∧
      (created_by g = Some actor → memberships (w_db w) !! (gid, target) = None →
         users (w_db w) !! target = None →
         add_member actor gid target w =
         refused w (2 + t) (UserNotFoundError (PStr (str_uuid target)))) ∧
      (created_by g = Some actor → memberships (w_db w) !! (gid, target) = None →
         is_Some (users (w_db w) !! target) →
         add_member actor gid target w =
         (Ok m, spawned w (set_memberships <[(gid, target) := m]> (w_db w)) (2 + t)
                  (PushGroupMembershipChange target gid "JOIN")))
  end.
Proof.
  intros Hw t m. unfold add_member, handle_db_constraint_error, handle_db_not_found_error.
  run_handler_tx. unfold add_member_tx. run_queries.
  destruct (groups (w_db w) !! gid) as [g|] eqn:Hg; cbn; [|done].
  destruct (decide (created_by g ≠ Some actor)) as [Hc|Hc]; unfold denied; run_queries.
  { split_and!; intros; [done|by destruct Hc..]. }
  unfold insert_membership_row, unique, references, mb_pk. cbn.
  split_and!; [done| | |].
  - intros _ [m' Hm]. by rewrite Hm.
  - intros _ Hm Hu. rewrite Hm. cbn. by rewrite Hg, Hu.
  - intros _ Hm [u Hu]. rewrite Hm. cbn. rewrite Hg, Hu. cbn. by run_queries.
Qed.

(** C22: members leave by themselves or are removed by the creator; the creator
    cannot leave; every other attempt is refused with the tables untouched and
    nothing announced. *)
Theorem remove_member_correct actor gid target w :
  healthy w →
  let t := w_tick w in
  match groups (w_db w) !! gid with
  | None => remove_member actor gid target w = refused w (S t) (GroupNotFoundError (PStr (str_uuid gid)))
  | Some g =>
      (created_by g = Some target → remove_member actor gid target w =
         refused w (S t) (InsufficientGroupPermissionError
           "Group creator cannot leave the group. Delete the group instead.")) ∧
      (created_by g ≠ Some target → actor ≠ target → created_by g ≠ Some actor →
         remove_member actor gid target w =
         refused w (S t) (InsufficientGroupPermissionError
           "Only the group creator can remove other members.")) ∧
      (created_by g ≠ Some target → actor = target ∨ created_by g = Some actor →
         memberships (w_db w) !! (gid, target) = None →
         remove_member actor gid target w =
         refused w (S t) (NotGroupMemberError (PUuid actor) (PUuid gid))) ∧
      (created_by g ≠ Some target → actor = target ∨ created_by g = Some actor →
         is_Some (memberships (w_db w) !! (gid, target)) →
         remove_member actor gid target w =
         (Ok tt, spawned w (set_memberships (delete (gid, target)) (w_db w)) (S t)
                   (PushGroupMembershipChange target gid "LEAVE")))
  end.
Proof.
  intros Hw t. unfold remove_member, handle_db_constraint_error, handle_db_not_found_error.
  run_handler_tx. unfold remove_member_tx. run_queries.
  destruct (groups (w_db w) !! gid) as [g|]; cbn; [|done].
  destruct (decide (Some target = created_by g)) as [Hc|Hc]; unfold denied; run_queries.
  { split_and!; intros; [done|by destruct H..]. }
  assert (created_by g ≠ Some target) as Hc' by (intros Heq; by rewrite Heq in Hc).
  split_and!.
  - by intros ?%Hc'.
  - intros _ Hne Hnc. rewrite !bool_decide_eq_false_2 by done. cbn. by run_queries.
  - intros _ Hor Hm.
    assert (bool_decide (actor = target) || bool_decide (created_by g = Some actor) = true) as ->
      by (rewrite orb_true_iff, !bool_decide_eq_true; done).
    cbn. run_queries. by rewrite Hm.
  - intros _ Hor [m Hm].
    assert (bool_decide (actor = target) || bool_decide (created_by g = Some actor) = true) as ->
      by (rewrite orb_true_iff, !bool_decide_eq_true; done).
    cbn. run_queries. by rewrite Hm.
Qed.

(** Only the creator deletes a group. Deletion removes exactly the group,
    its memberships and its messages, and spawns the clean-up with exactly the
    identifiers of the members it had. *)
Lemma delete_group_correct `{!RowOrderLaws} actor gid w :
  healthy w → wf_db (w_db w) →
  match groups (w_db w) !! gid with
  | None => svc_delete_group actor gid w =
              refused w (S (w_tick w)) (GroupNotFoundError (PStr (str_uuid gid)))
  | Some g =>
      (created_by g ≠ Some actor → svc_delete_group actor gid w =
         refused w (S (w_tick w)) (InsufficientGroupPermissionError
           "Only the group creator can delete this group.")) ∧
      (created_by g = Some actor → ∃ ids db',
         svc_delete_group actor gid w =
           (Ok tt, spawned w db' (S (w_tick w)) (GroupDeletionSideEffects gid ids)) ∧
         (∀ u, u ∈ ids ↔ is_Some (memberships (w_db w) !! (gid, u))) ∧
         groups db' = delete gid (groups (w_db w)) ∧
         (∀ g' u, memberships db' !! (g', u) =
            if decide (g' = gid) then None else memberships (w_db w) !! (g', u)) ∧
         group_messages db' = filter (λ kv, gm_group_id kv.2 ≠ gid) (group_messages (w_db w)) ∧
         users db' = users (w_db w) ∧ direct_messages db' = direct_messages (w_db w))
  end.
Proof.
  intros Hw Hwf. unfold svc_delete_group, handle_db_constraint_error, handle_db_not_found_error.
  run_handler_tx. unfold delete_group_tx. run_queries.
  destruct (groups (w_db w) !! gid) as [g|] eqn:Hg; cbn; [|done].
  destruct (decide (created_by g ≠ Some actor)) as [Hc|Hc]; unfold denied; run_queries.
  { split; [done|]. by intros ?%Hc. }
  split; [done|]. intros Hcr. rewrite Hg, decide_True by done. run_queries. cbn.
  do 2 eexists. split; [done|]. split; [|split; [done|split; [|done]]].
  - intros u. rewrite list_elem_of_fmap. split.
    + intros (m & -> & Hm). unfold Fetch.where_rows in Hm. rewrite (scan_perm Membership) in Hm.
      apply filter_gmap_values_spec in Hm as [Hmg [k Hk]].
      pose proof (wf_memberships _ Hwf _ _ Hk) as [-> _]. unfold mb_pk in Hk. rewrite Hmg in Hk. eauto.
    + intros [m Hm]. exists m. pose proof (wf_memberships _ Hwf _ _ Hm) as [Hpk _].
      injection Hpk as -> ->. split; [done|]. unfold Fetch.where_rows.
      rewrite (scan_perm Membership). apply filter_gmap_values_spec. eauto.
  - intros g' u. cbn. rewrite map_lookup_filter.
    destruct (memberships (w_db w) !! (g', u)) as [m|] eqn:Hm; cbn; [|by case_decide].
    pose proof (wf_memberships _ Hwf _ _ Hm) as [Hpk _]. injection Hpk as -> ->.
    by repeat case_decide; try case_guard.
Qed.
End group_theorems.

(** ** Runs on the sample tables *)
Lemma create_group_correct_witness :
  (svc_create_group (P := ref_platform) carol_id "new" sample_world).1 =
    Ok (MkGroup (uuid_of 1000) "new" (Some carol_id) (seconds 1),
        MkMembership (uuid_of 1000) carol_id (seconds 2)) ∧
  (svc_create_group (P := ref_platform) (uuid_of 99) "new" sample_world).1 =
    Raise (ExService (UserNotFoundError unknown)).
Proof.
  split.
  - assert (is_Some (users sample_db !! carol_id)) as Hu by eval_hyp.
    rewrite (proj1 (create_group_correct carol_id "new" sample_world sample_healthy
      ltac:(eval_hyp) ltac:(eval_hyp)) Hu). vm_compute. reflexivity.
  - assert (users sample_db !! uuid_of 99 = None) as Hu by eval_hyp.
    rewrite (proj2 (create_group_correct (uuid_of 99) "new" sample_world sample_healthy
      ltac:(eval_hyp) ltac:(eval_hyp)) Hu). reflexivity.
Defined.

Lemma add_member_correct_witness :
  add_member (P := ref_platform) bob_id team_id carol_id sample_world =
    refused sample_world 1 (InsufficientGroupPermissionError "Only the group creator can add new members.").
Proof.
  pose proof (add_member_correct bob_id team_id carol_id sample_world sample_healthy) as H.
  assert (groups sample_db !! team_id = Some (MkGroup team_id "team" (Some alice_id) 0)) as Hg
    by eval_hyp.
  cbv zeta in H. change (w_db sample_world) with sample_db in H. rewrite Hg in H.
  exact (proj1 H ltac:(discriminate)).
Defined.

Lemma remove_member_correct_witness :
  remove_member (P := ref_platform) alice_id team_id alice_id sample_world =
    refused sample_world 1 (InsufficientGroupPermissionError
      "Group creator cannot leave the group. Delete the group instead.").
Proof.
  pose proof (remove_member_correct alice_id team_id alice_id sample_world sample_healthy) as H.
  assert (groups sample_db !! team_id = Some (MkGroup team_id "team" (Some alice_id) 0)) as Hg
    by eval_hyp.
  cbv zeta in H. change (w_db sample_world) with sample_db in H. rewrite Hg in H.
  exact (proj1 H eq_refl).
Defined.

Lemma delete_group_correct_witness :
  ∃ ids db', svc_delete_group (P := ref_platform) alice_id team_id sample_world =
      (Ok tt, spawned sample_world db' 1 (GroupDeletionSideEffects team_id ids)) ∧
    ∀ u, u ∈ ids ↔ is_Some (memberships sample_db !! (team_id, u)).
Proof.
  pose proof (delete_group_correct (P := ref_platform) (H := ref_rows_laws) alice_id team_id sample_world
    sample_healthy wf_sample) as H.
  assert (groups sample_db !! team_id = Some (MkGroup team_id "team" (Some alice_id) 0)) as Hg
    by eval_hyp.
  change (w_db sample_world) with sample_db in H. rewrite Hg in H.
  destruct (proj2 H eq_refl) as (ids & db' & Hr & Hids & _).
  exact (ex_intro _ ids (ex_intro _ db' (conj Hr Hids))).
Defined.
