(* ===== verification/UserTheorems.v ===== *)
(** * Properties of UserService

    Account deletion and its cascade, deactivation, and the life of a
    friendship from request to removal. *)

From S2P Require Export UserService MessagingTheorems.

Section user_theorems.
Context {P : Platform}.
Implicit Types (w : World) (db : Database) (u a b : UUID).

(** No row of any table mentions [u]. *)
Definition forgotten u db : Prop :=
  users db !! u = None ∧
  map_Forall (λ _ f, requester_id f ≠ u ∧ addressee_id f ≠ u) (friendships db) ∧
  map_Forall (λ _ t, at_user_id t ≠ u) (access_tokens db) ∧
  map_Forall (λ _ t, rt_user_id t ≠ u) (refresh_tokens db) ∧
  map_Forall (λ _ g, created_by g ≠ Some u) (groups db) ∧
  map_Forall (λ _ m, mb_user_id m ≠ u) (memberships db) ∧
  map_Forall (λ _ m, dm_sender_id m ≠ u ∧ dm_recipient_id m ≠ u) (direct_messages db) ∧
  map_Forall (λ _ m, gm_sender_id m ≠ u) (group_messages db).

Lemma map_Forall_filter_self {K A} `{Countable K} (Q : A → Prop) `{∀ x, Decision (Q x)}
    (m : gmap K A) : map_Forall (λ _ x, Q x) (filter (λ kv, Q kv.2) m).
Proof. intros k x Hk. by apply map_lookup_filter_Some in Hk as [_ Hx]. Qed.

(** C38: deleting an account removes every row that mentions the user, keeps
    every row of the eight tables that does not, as it was, and needs the user to
    have created no group: the creator of a group gets a database error and
    nothing is deleted. *)
Theorem delete_account_correct u w :
  healthy w →
  (users (w_db w) !! u = None → delete_account u w =
     (Raise (ExService (UserNotFoundError (PStr (str_uuid u)))), after w (w_db w) (S (w_tick w)))) ∧
  (is_Some (users (w_db w) !! u) →
     (∃ g r, groups (w_db w) !! g = Some r ∧ created_by r = Some u) →
     delete_account u w = (Raise (ExDb DatabaseError), after w (w_db w) (S (w_tick w)))) ∧
  (is_Some (users (w_db w) !! u) →
     (∀ g r, groups (w_db w) !! g = Some r → created_by r ≠ Some u) →
     ∃ w', delete_account u w = (Ok tt, w') ∧ forgotten u (w_db w') ∧
       users (w_db w') = delete u (users (w_db w)) ∧ groups (w_db w') = groups (w_db w) ∧
       (∀ k f, friendships (w_db w') !! k = Some f ↔
          friendships (w_db w) !! k = Some f ∧ requester_id f ≠ u ∧ addressee_id f ≠ u) ∧
       (∀ h t, access_tokens (w_db w') !! h = Some t ↔
          access_tokens (w_db w) !! h = Some t ∧ at_user_id t ≠ u) ∧
       (∀ h t, refresh_tokens (w_db w') !! h = Some t ↔
          refresh_tokens (w_db w) !! h = Some t ∧ rt_user_id t ≠ u) ∧
       (∀ k m, direct_messages (w_db w') !! k = Some m ↔
          direct_messages (w_db w) !! k = Some m ∧ dm_sender_id m ≠ u ∧ dm_recipient_id m ≠ u) ∧
       (∀ k m, group_messages (w_db w') !! k = Some m ↔
          group_messages (w_db w) !! k = Some m ∧ gm_sender_id m ≠ u) ∧
       (∀ k m, memberships (w_db w') !! k = Some m ↔
          memberships (w_db w) !! k = Some m ∧ mb_user_id m ≠ u)).
Proof.
  intros Hw. unfold delete_account, handle_db_not_found_error.
  rewrite transaction_run by done. run_queries. unfold delete_user_row. split_and!.
  - by intros ->.
  - intros [v ->] (g & r & Hg & Hr). destruct (any_row _ _) eqn:Ha; [done|].
    rewrite any_row_false in Ha. by destruct (Ha g r Hg).
  - intros [v ->] Hno. rewrite (proj2 (any_row_false _ _)) by exact Hno. cbn.
    eexists. split; [done|]. cbn. split; [|split_and!; [done|done|..]].
    + split_and!; cbn; try (refine (map_Forall_filter_self (λ x, _) _)).
      * apply lookup_delete_eq.
      * intros g r Hg. by apply (Hno g r).
    + intros k f. apply map_lookup_filter_Some.
    + intros h t. apply map_lookup_filter_Some.
    + intros h t. apply map_lookup_filter_Some.
    + intros k m. apply map_lookup_filter_Some.
    + intros k m. apply map_lookup_filter_Some.
    + intros k m. apply map_lookup_filter_Some.
Qed.

(** Asking for a friendship: oneself is refused before any database
    access; a repeated request, and a request to somebody unknown, are reported
    as such with nothing stored; otherwise one pending row is added, even when
    the other side has already asked. *)
Lemma friend_request_correct a b w :
  healthy w →
  let now := ent_dbclock (w_tick w) in
  let w1 db := after w db (S (w_tick w)) in
  (a = b → user_send_friend_request a b w = (Raise (ExService SelfFriendshipError), w)) ∧
  (a ≠ b → is_Some (friendships (w_db w) !! (a, b)) →
     user_send_friend_request a b w =
     (Raise (ExService (FriendRequestAlreadyExistsError (PUuid b))), w1 (w_db w))) ∧
  (a ≠ b → friendships (w_db w) !! (a, b) = None → is_Some (users (w_db w) !! a) →
     users (w_db w) !! b = None →
     user_send_friend_request a b w =
     (Raise (ExService (UserNotFoundError (PUuid b))), w1 (w_db w))) ∧
  (a ≠ b → friendships (w_db w) !! (a, b) = None → is_Some (users (w_db w) !! a) →
     is_Some (users (w_db w) !! b) →
     user_send_friend_request a b w =
     (Ok tt, w1 (set_friendships <[(a, b) := MkFriendship a b false now now]> (w_db w)))).
Proof.
  intros Hw now w1. unfold user_send_friend_request, handle_db_constraint_error.
  destruct (decide (a = b)) as [Hab|Hab]; [by split_and!|].
  rewrite transaction_run by done. run_queries.
  unfold insert_friendship_row, unique, references. cbn. split_and!.
  - done.
  - intros _ [f Hf]. by rewrite Hf.
  - intros _ Hf [v Hv] Hb. by rewrite Hf, Hv, Hb.
  - intros _ Hf [v Hv] [v' Hv']. by rewrite Hf, Hv, Hv'.
Qed.

(** C39: a friendship's life: when nothing links the two yet, a request and its
    acceptance by the other side make them friends whichever way one looks,
    and a removal by either makes them strangers again. *)
Theorem friendship_lifecycle a b w1 w2 w3 (by_requester : bool) :
  healthy w1 → healthy w2 → healthy w3 → a ≠ b →
  (∀ k f, friendships (w_db w1) !! k = Some f → ¬ Fetch.between a b f) →
  is_Some (users (w_db w1) !! a) → is_Some (users (w_db w1) !! b) →
  friendships (w_db w1) !! (a, b) = None →
  w_db w2 = w_db (user_send_friend_request a b w1).2 →
  w_db w3 = w_db (user_accept_friend_request b a w2).2 →
  let gone := remove_or_decline_friendship (if by_requester then a else b)
                (if by_requester then b else a) w3 in
  not_friends a b (w_db w2) ∧
  are_friends a b (w_db w3) ∧ are_friends b a (w_db w3) ∧
  gone.1 = Ok tt ∧ ∀ k f, friendships (w_db gone.2) !! k = Some f → ¬ Fetch.between a b f.
Proof.
  intros Hw1 Hw2 Hw3 Hab Hnone Ha Hb Hno Hdb2 Hdb3 gone.
  destruct (friend_request_correct a b w1 Hw1) as (_ & _ & _ & Hreq).
  rewrite (Hreq Hab Hno Ha Hb) in Hdb2. cbn in Hdb2.
  assert (∀ k f, friendships (w_db w2) !! k = Some f → Fetch.between a b f →
    k = (a, b) ∧ accepted f = false) as Hrows.
  { intros k f. rewrite Hdb2. cbn. rewrite lookup_insert_Some.
    intros [[<- <-]|[_ Hk]]; [done|]. intros Hbt. by destruct (Hnone k f Hk). }
  assert (friendships (w_db w2) !! (a, b) =
    Some (MkFriendship a b false (ent_dbclock (w_tick w1)) (ent_dbclock (w_tick w1)))) as Hab2
    by (rewrite Hdb2; apply lookup_insert_eq).
  unfold user_accept_friend_request, handle_db_not_found_error in Hdb3.
  rewrite transaction_run in Hdb3 by done. revert Hdb3. run_queries. rewrite Hab2. cbn.
  intros Hdb3.
  assert (∀ k f, friendships (w_db w3) !! k = Some f → Fetch.between a b f →
    accepted f = true) as Hrows3.
  { intros k f. rewrite Hdb3. cbn. rewrite lookup_insert_Some.
    intros [[<- <-]|[Hne Hk]]; [done|]. intros Hbt. destruct (Hrows k f Hk Hbt). congruence. }
  assert (∃ f, friendships (w_db w3) !! (a, b) = Some f ∧ Fetch.between a b f) as (f3 & Hf3 & Hb3).
  { rewrite Hdb3. eexists. split; [apply lookup_insert_eq|]. by left. }
  assert (∀ f, Fetch.between b a f ↔ Fetch.between a b f) as Hsym
    by (intros f; unfold Fetch.between; tauto).
  split; [|split; [|split]].
  - intros k f Hk Hbt. by apply (Hrows k f).
  - split; [by eauto|done].
  - split; [|intros k f Hk Hbt%Hsym; by eapply Hrows3].
    exists (a, b), f3. by rewrite Hsym.
  - unfold gone, remove_or_decline_friendship, handle_db_not_found_error.
    rewrite transaction_run by done. run_queries.
    set (x := if by_requester then a else b). set (y := if by_requester then b else a).
    assert (∀ f, Fetch.between x y f ↔ Fetch.between a b f) as Hxy by (by destruct by_requester).
    rewrite decide_False.
    + split; [done|]. cbn. intros k f Hk. apply map_lookup_filter_Some in Hk as [_ Hn].
      by rewrite Hxy in Hn.
    + intros Hnil. assert (f3 ∈ filter (Fetch.between x y) (table_rows (friendships (w_db w3)))) as Hin.
      { apply filter_gmap_values_spec. rewrite Hxy. eauto. }
      rewrite Hnil in Hin. by apply elem_of_nil in Hin.
Qed.

End user_theorems.

(** ** Runs on the sample tables *)
Lemma delete_account_correct_witness :
  delete_account (P := ref_platform) alice_id sample_world =
    (Raise (ExDb DatabaseError), after sample_world sample_db 1) ∧
  ∃ w', delete_account (P := ref_platform) bob_id sample_world = (Ok tt, w') ∧
    forgotten bob_id (w_db w').
Proof.
  split.
  - destruct (delete_account_correct alice_id sample_world sample_healthy) as (_ & H & _).
    refine (H _ (ex_intro _ team_id (ex_intro _ (MkGroup team_id "team" (Some alice_id) 0) _)));
      [eval_hyp|split; [eval_hyp|reflexivity]].
  - destruct (delete_account_correct bob_id sample_world sample_healthy) as (_ & _ & H).
    destruct H as (w' & Hr & Hf & _); [eval_hyp| |exact (ex_intro _ w' (conj Hr Hf))].
    intros g r Hg. apply (any_row_false (λ r, created_by r = Some bob_id) (groups sample_db)) in Hg;
      [done|by vm_compute].
Defined.

Lemma friend_request_correct_witness :
  user_send_friend_request (P := ref_platform) alice_id alice_id sample_world =
    (Raise (ExService SelfFriendshipError), sample_world) ∧
  user_send_friend_request (P := ref_platform) alice_id bob_id sample_world =
    (Raise (ExService (FriendRequestAlreadyExistsError (PUuid bob_id))),
     after sample_world sample_db 1).
Proof.
  split.
  - exact (proj1 (friend_request_correct alice_id alice_id sample_world sample_healthy) eq_refl).
  - refine (proj1 (proj2 (friend_request_correct alice_id bob_id sample_world sample_healthy)) _ _);
      [by vm_compute|eval_hyp].
Defined.

Lemma friendship_lifecycle_witness :
  ∃ db2 db3, db2 = w_db (user_send_friend_request (P := ref_platform) bob_id carol_id sample_world).2 ∧
    db3 = w_db (user_accept_friend_request (P := ref_platform) carol_id bob_id (ref_world_with db2)).2 ∧
    are_friends carol_id bob_id db3.
Proof.
  destruct (friendship_lifecycle bob_id carol_id sample_world (ref_world_with _) (ref_world_with _) true
    sample_healthy (ref_world_healthy _) (ref_world_healthy _) ltac:(by vm_compute)
    ltac:(refine (all_friendships (λ f, ¬ Fetch.between bob_id carol_id f) _);
          apply (bool_decide_unpack _); by vm_compute)
    ltac:(eval_hyp) ltac:(eval_hyp) ltac:(eval_hyp) (ref_world_db _) (ref_world_db _))
    as (_ & _ & H & _).
  rewrite ref_world_db in H. exact (ex_intro _ _ (ex_intro _ _ (conj eq_refl (conj eq_refl H)))).
Defined.

(** Bob and carol ask each other, and one of them accepts: with one request
    accepted and the other left pending, the message of a friend goes through or
    not by the order in which the server returns the two rows. *)
Definition crossed (accepts asked : UUID) : @World ref_platform :=
  (user_accept_friend_request (P := ref_platform) accepts asked
    (user_send_friend_request (P := ref_platform) carol_id bob_id
      (user_send_friend_request (P := ref_platform) bob_id carol_id sample_world).2).2).2.
Lemma crossed_requests_refuse_friends :
  let send w := is_ok (svc_send_direct_message (P := ref_platform) bob_id carol_id "hi" w).1 in
  accepted <$> friendships (w_db (crossed bob_id carol_id)) !! (carol_id, bob_id) = Some true ∧
  send (crossed bob_id carol_id) = false ∧ send (crossed carol_id bob_id) = true.
Proof. vm_compute. split_and!; reflexivity. Qed.
