(* ===== verification/Atomicity.v ===== *)
(** * Failed requests leave no trace

    All operations but login, refresh and logout do everything visible (commit,
    then spawn) after their last possible failure. A handler that raises,
    because of its own checks or because of a driver error at any statement or
    at the commit, has changed nothing; the tables excepted when the commit was
    carried out and its acknowledgement lost. *)

From S2P Require Export Handlers Samples.

Section atomicity.
Context {P : Platform}.
Implicit Types w : World.

(** Same tables, tasks, cache and Redis server, and no new faults ahead. *)
Definition unchanged w w' : Prop :=
  w_faults w' `suffix_of` w_faults w ∧ w_db w' = w_db w ∧
  w_tasks w' = w_tasks w ∧ w_cache w' = w_cache w ∧ w_redis w' = w_redis w.
(** The same, unless a commit in flight is carried out unacknowledged: that
    may have changed the tables. *)
Definition no_trace w w' : Prop :=
  (acknowledged w → w_db w' = w_db w) ∧
  w_tasks w' = w_tasks w ∧ w_cache w' = w_cache w ∧ w_redis w' = w_redis w.

Definition quiet {A} (m : M A) : Prop := ∀ w, unchanged w (m w).2.
Definition atomic {A} (m : M A) : Prop :=
  ∀ w e w', m w = (Raise e, w') → no_trace w w'.
Definition never_raises {A} (m : M A) : Prop := ∀ w, is_ok (m w).1 = true.

Lemma unchanged_no_trace w1 w2 w3 : unchanged w1 w2 → no_trace w2 w3 → no_trace w1 w3.
Proof.
  unfold no_trace. intros (Hf & Hd & <- & <- & <-) (Hack & ?). split; [|done].
  intros H1. rewrite <-Hd. apply Hack. by eapply acknowledged_suffix.
Qed.
Lemma unchanged_trans w1 w2 w3 : unchanged w1 w2 → unchanged w2 w3 → unchanged w1 w3.
Proof.
  unfold unchanged. intros (Hf & <- & <- & <- & <-) (Hf' & ?). split; [by etrans|done].
Qed.

Lemma quiet_ret {A} (a : A) : quiet (mret a).
Proof. by intros w. Qed.
Lemma quiet_raise {A} e : quiet (raise (A:=A) e).
Proof. by intros w. Qed.
Lemma quiet_bind {A B} (m : M A) (f : A → M B) :
  quiet m → (∀ a, quiet (f a)) → quiet (m ≫= f).
Proof.
  intros Hm Hf w. rewrite M_bind_run. specialize (Hm w).
  destruct (m w) as [[a|e] w']; [|done]. eapply unchanged_trans; [exact Hm|apply Hf].
Qed.
Lemma quiet_connection {A} (p : txprog A) :
  stmts_ok (λ s, ∀ I, preserves I s) p → quiet (connection p).
Proof.
  intros Hp w. unfold connection. destruct (w_pool w); [|done].
  assert (stmts_ok (preserves (λ db, db = w_db w)) p) as Hp'
    by (eapply stmts_ok_weaken, Hp; auto).
  pose proof (run_tx_preserves (λ db, db = w_db w) (ent_dbclock (w_tick w)) p
    (MkTx (w_db w) (S (w_tick w)) (w_faults w)) Hp' eq_refl) as Hr.
  pose proof (run_tx_faults (ent_dbclock (w_tick w)) p
    (MkTx (w_db w) (S (w_tick w)) (w_faults w))) as Hf.
  destruct (run_tx _ _ _) as [r st]. cbn in *. by split_and!.
Qed.

Lemma atomic_quiet {A} (m : M A) : quiet m → atomic m.
Proof.
  intros Hm w e w' Hr. specialize (Hm w). rewrite Hr in Hm. by eapply unchanged_no_trace.
Qed.
Lemma atomic_transaction {A} (p : txprog A) : atomic (transaction p).
Proof.
  intros w e w' Hr. split; [intros Hack; by eapply transaction_raise_db|].
  unfold transaction in Hr. destruct (w_pool w); [|by injection Hr as <- <-].
  destruct (commit _ _) as [r st]. by injection Hr as _ <-.
Qed.
(** Effects last: quiet steps, then an atomic one. *)
Lemma atomic_after_quiet {A B} (m : M A) (f : A → M B) :
  quiet m → (∀ a, atomic (f a)) → atomic (m ≫= f).
Proof.
  intros Hm Hf w e w'. rewrite M_bind_run. specialize (Hm w).
  destruct (m w) as [[a|e'] w1]; [|intros [= _ <-]; by eapply unchanged_no_trace].
  intros Hr. eapply unchanged_no_trace; [exact Hm|by eapply Hf].
Qed.
(** Failure first: an atomic step, then ones that cannot fail. *)
Lemma atomic_then_safe {A B} (m : M A) (f : A → M B) :
  atomic m → (∀ a, never_raises (f a)) → atomic (m ≫= f).
Proof.
  intros Hm Hf w e w'. rewrite M_bind_run. specialize (Hm w).
  destruct (m w) as [[a|e'] w1]; [|by intros [= <- <-]; eapply Hm].
  intros Hr. specialize (Hf a w1). by rewrite Hr in Hf.
Qed.
Lemma atomic_constraint {A} o k (m : M A) : atomic m → atomic (handle_db_constraint_error o k m).
Proof.
  intros Hm w e w'. unfold handle_db_constraint_error. specialize (Hm w).
  destruct (m w) as [[a|e'] w1]; [done|]. intros [= _ <-]. by eapply Hm.
Qed.
Lemma atomic_not_found {A} o k (m : M A) : atomic m → atomic (handle_db_not_found_error o k m).
Proof.
  intros Hm w e w'. unfold handle_db_not_found_error. specialize (Hm w).
  destruct (m w) as [[a|e'] w1]; [done|]. intros [= _ <-]. by eapply Hm.
Qed.

Lemma never_raises_ret {A} (a : A) : never_raises (mret a).
Proof. by intros w. Qed.
Lemma never_raises_spawn t : never_raises (spawn_task t).
Proof. by intros w. Qed.
Lemma never_raises_bind {A B} (m : M A) (f : A → M B) :
  never_raises m → (∀ a, never_raises (f a)) → never_raises (m ≫= f).
Proof.
  intros Hm Hf w. rewrite M_bind_run. specialize (Hm w). destruct (m w) as [[a|e] w']; [|done].
  apply Hf.
Qed.

Lemma select_quiet q b : ∀ I, preserves I (with_lock q b).
Proof. intros I. apply preserves_select. Qed.
Lemma limited_quiet n rows : ∀ I, preserves I (limited n rows).
Proof. intros I. apply preserves_limited. Qed.

End atomicity.

#[export] Hint Resolve quiet_ret quiet_raise never_raises_ret never_raises_spawn : keeps.

Ltac atomic_step :=
  match goal with
  | |- atomic (handle_db_constraint_error _ _ _) => apply atomic_constraint
  | |- atomic (handle_db_not_found_error _ _ _) => apply atomic_not_found
  | |- atomic (transaction _) => apply atomic_transaction
  | |- atomic (connection _) => apply atomic_quiet
  | |- atomic (raise _) => apply atomic_quiet
  | |- atomic (mret _) => apply atomic_quiet
  | |- atomic (mbind _ (transaction _)) => apply atomic_then_safe; [|intros ?]
  | |- atomic (mbind _ (connection _)) => apply atomic_then_safe; [|intros ?]
  | |- atomic (mbind _ (handle_db_constraint_error _ _ _)) => apply atomic_then_safe; [|intros ?]
  | |- atomic (mbind _ (handle_db_not_found_error _ _ _)) => apply atomic_then_safe; [|intros ?]
  | |- atomic (mbind _ (draw_m _)) => apply atomic_after_quiet; [by intros ?|intros ?]
  | |- atomic (mbind _ uuid_v4) => apply atomic_after_quiet; [by intros ?|intros ?]
  | |- atomic (mbind _ current_ts) => apply atomic_after_quiet; [by intros ?|intros ?]
  | |- atomic (mbind _ (new_group _ _)) => apply atomic_after_quiet; [by intros ?|intros ?]
  | |- atomic (mbind _ (new_membership _ _)) => apply atomic_after_quiet; [by intros ?|intros ?]
  | |- atomic (mbind _ (generate_token_pair _)) => apply atomic_after_quiet; [by intros ?|intros ?]
  | |- atomic (mbind _ (cutoff_of ?b)) =>
      apply atomic_after_quiet; [by destruct b; intros ?|intros ?]
  | |- atomic (mbind _ ?m) => let h := get_head m in unfold h
  | |- atomic (match ?x with _ => _ end) => destruct x
  | |- atomic ?m => let h := get_head m in unfold h
  | |- never_raises (mbind _ _) => apply never_raises_bind; [|intros ?]
  | |- never_raises _ => solve [auto with keeps]
  | |- quiet (connection _) => apply quiet_connection
  | |- quiet _ => solve [auto with keeps]
  | |- stmts_ok _ _ => progress tx_ok
  | |- ∀ I, preserves I (with_lock _ _) => apply select_quiet
  | |- ∀ I, preserves I _ => first [apply limited_quiet | exact (select_quiet _ false)]
  end.

(** Everything but the three operations that publish after committing. *)
Definition transactional (o : op) : Prop :=
  match o with OLogin _ _ | ORefresh _ | OLogout _ _ => False | _ => True end.

Lemma transactional_atomic `{Platform} settings o :
  transactional o → atomic (run_op settings o).
Proof.
  destruct o; try done; intros _; cbn [run_op]; unfold discard; repeat atomic_step.
Qed.

(** A request that fails has done nothing: for every operation but login,
    refresh and logout, whichever driver errors strike its statements or its
    commit, an exception means that the spawned tasks, the token cache and Redis
    are as they were, and the tables unless the commit was carried out
    unacknowledged. *)
Theorem failure_leaves_no_trace `{Platform} settings o w e w' :
  transactional o → run_op settings o w = (Raise e, w') → no_trace w w'.
Proof. intros Ho. by apply transactional_atomic. Qed.
