(* ===== verification/System.v ===== *)
(** * The service as a whole

    Any number of workers run operations against the shared tables, each with
    its own cache, clock, Redis connection and driver errors: [db_step] is one
    operation of some worker. The theorems are about every database the service
    can reach. *)

From S2P Require Export AuthTheorems.

(** ** Case analysis of the statements *)

(** Opens one statement of the services down to its new tables. *)
Ltac service_case :=
  try apply preserves_select; try apply preserves_limited;
  lazymatch goal with
  | |- preserves _ (Write.SEND_FRIEND_REQUEST _ _) =>
      intros ?now db HI; cbn -[insert_friendship_row];
      destruct (insert_friendship_row _ _) as [?|db'] eqn:Hins; [done|]; revert Hins;
      unfold insert_friendship_row; insert_row
  | |- preserves _ (Delete.USER_BY_ID ?u) =>
      intros ?now db HI; cbn -[delete_user_row]; destruct (users db !! u); [|done];
      destruct (delete_user_row u db) as [?|db'] eqn:Hdel; [done|]; cbn
  | |- preserves _ _ =>
      first [ apply preserves_insert; intros ?m db db' HI;
              unfold insert_user_row, insert_access_token_row, insert_refresh_token_row,
                insert_group_row, insert_membership_row, insert_direct_message_row,
                insert_group_message_row;
              try (destruct (created_by _) eqn:?; [|discriminate]); insert_row
            | apply preserves_write; intros ?now db HI; cbn -[delete_group_row] ]
  | |- _ => idtac
  end; try assumption.
(** Splits the statements of the services into their cases. *)
Ltac service_cases := destruct 1; service_case.

(** The two conditional writes. *)
Ltac conditional_write :=
  match goal with
  | |- context [users ?db !! ?u] => destruct (users db !! u); cbn; [destruct (decide _)|]; cbn
  | |- context [groups ?db !! ?g] => destruct (groups db !! g) as [r|] eqn:Hg;
      cbn -[delete_group_row]; [destruct (decide _) as [Hcr|]|]; cbn -[delete_group_row]
  end; try assumption.

Section system.
Context {P : Platform}.
Implicit Types (w : World) (db : Database).

Inductive db_step db db' : Prop :=
| db_step_op settings o w :
    w_db w = db → w_db (run_op settings o w).2 = db' → db_step db db'.
Definition db_reachable : Database → Prop := rtc db_step empty_db.
(** Steps that leave the account of [u] in place. *)
Inductive db_step_sparing (u : UUID) db db' : Prop :=
| db_step_sparing_op settings o w :
    ¬ deletes o u → w_db w = db → w_db (run_op settings o w).2 = db' → db_step_sparing u db db'.

Lemma db_step_keeps (I : Database → Prop) db db' :
  (∀ settings o, keeps I (run_op settings o)) → db_step db db' → I db → I db'.
Proof. intros HI [settings o w <- <-]. apply HI. Qed.
Lemma reachable_invariant (I : Database → Prop) db :
  (∀ settings o, keeps I (run_op settings o)) → I empty_db → db_reachable db → I db.
Proof.
  intros HI H0 Hr. unfold db_reachable in Hr. induction Hr as [|db1 db2 db3 Hstep _ IH]; [done|].
  apply IH. by eapply db_step_keeps.
Qed.

(** ** Application invariants beyond the schema *)

Definition no_self_friendship db : Prop :=
  map_Forall (λ _ f, requester_id f ≠ addressee_id f) (friendships db).
Definition creator_is_member db : Prop :=
  ∀ g r c, groups db !! g = Some r → created_by r = Some c →
    ∃ m, memberships db !! (g, c) = Some m ∧ mb_pk m = (g, c).
Definition sound_db db : Prop := wf_db db ∧ creator_is_member db ∧ no_self_friendship db.

Lemma no_self_stmt D s : service_stmt D s → preserves no_self_friendship s.
Proof.
  service_cases; try conditional_write.
  - revert Hdel. unfold delete_user_row. destruct (any_row _ _); [discriminate|]. intros [= <-].
    eapply map_Forall_filter', HI. auto.
  - by apply map_Forall_insert_2.
  - by apply map_Forall_alter'.
  - eapply map_Forall_filter', HI. auto.
Qed.

(** Statements outside a governing session. *)
Lemma creator_stmt D s : ¬ may_govern D → service_stmt D s → preserves creator_is_member s.
Proof.
  intros Hgov. service_cases; try (by destruct Hgov); try conditional_write.
  - revert Hdel. unfold delete_user_row. destruct (any_row _ _) eqn:Hc; [discriminate|].
    rewrite any_row_false in Hc. intros [= <-] g r c Hg Hcr.
    destruct (HI g r c Hg Hcr) as (m & Hm & Hpk). exists m. split; [|done]. cbn.
    apply map_lookup_filter_Some. split; [done|]. cbn. injection Hpk as _ ->.
    intros ->. by apply (Hc _ _ Hg).
  - intros g' r' c Hg' Hcr'. change (delete g (groups db) !! g' = Some r') in Hg'.
    apply lookup_delete_Some in Hg' as [Hne Hg'].
    destruct (HI g' r' c Hg' Hcr') as (m & Hm & Hpk). exists m. split; [|done]. cbn.
    apply map_lookup_filter_Some. split; [done|]. cbn. by injection Hpk as -> _.
  - intros g' r' c Hg' Hcr'. destruct (decide (mb_pk m = (g', c))) as [Heq|Hne].
    + exists m. split; [|done]. rewrite <-Heq. apply (lookup_insert_eq (memberships db)).
    + destruct (HI g' r' c Hg' Hcr') as (m' & Hm' & Hpk). exists m'. split; [|done].
      by apply lookup_insert_Some; right.
Qed.

Lemma creator_create_group now g m db t a db' t' :
  mb_group_id m = group_id g → created_by g = Some (mb_user_id m) →
  creator_is_member db →
  run_tx now (create_group_tx g m) (MkTx db t []) = (Ok a, MkTx db' t' []) →
  creator_is_member db'.
Proof.
  intros Hg Hc HI. unfold create_group_tx. run_queries.
  destruct (insert_group_row g db) as [e|db1] eqn:H1; [discriminate|]. run_queries.
  destruct (insert_membership_row m db1) as [e|db2] eqn:H2; [discriminate|]. run_queries.
  intros [= _ <- _]. revert H1 H2. unfold insert_group_row, insert_membership_row. rewrite Hc.
  insert_row. insert_row. intros g' r' c' Hg' Hc'. cbn in *.
  destruct (decide (mb_pk m = (g', c'))) as [Heq|Hne].
  { exists m. split; [|done]. rewrite <-Heq. apply lookup_insert_eq. }
  rewrite lookup_insert_ne by done. apply lookup_insert_Some in Hg' as [[<- <-]|[_ Hg']].
  - destruct Hne. unfold mb_pk. rewrite Hg. congruence.
  - eauto.
Qed.
Lemma creator_remove_member now actor gid target db t a db' t' :
  creator_is_member db →
  run_tx now (remove_member_tx actor gid target) (MkTx db t []) = (Ok a, MkTx db' t' []) →
  creator_is_member db'.
Proof.
  intros HI. unfold remove_member_tx, denied. run_queries.
  destruct (groups db !! gid) as [r|] eqn:Hg; run_queries; [|discriminate].
  case_decide as Hne; run_queries; [discriminate|]. cbn.
  destruct (negb _); run_queries; [discriminate|].
  destruct (memberships db !! (gid, target)) as [m|]; [|discriminate].
  intros [= _ <- _] g' r' c' Hg' Hc'. cbn in *.
  rewrite lookup_delete_ne; [eauto|]. intros [= -> ->]. congruence.
Qed.

Lemma strict_create_group_tx g m : strict_tx (create_group_tx g m).
Proof. tx_strict. Qed.
Lemma strict_remove_member_tx actor gid target : strict_tx (remove_member_tx actor gid target).
Proof. tx_strict. Qed.

Lemma keeps_discard {A} I (m : M A) : keeps I m → keeps I (discard m).
Proof. intros Hm. apply keeps_bind; [done|]. auto with keeps. Qed.

Lemma creator_op settings o : keeps creator_is_member (run_op settings o).
Proof.
  assert (governs o ∨ ¬ governs o) as [Hgov|Hgov] by (destruct o; cbn; tauto).
  - destruct o; try done; cbn [run_op].
    + apply keeps_discard. apply keeps_constraint. intros w HI.
      rewrite M_bind_run, new_group_run, M_bind_run, new_membership_run.
      cbv beta iota. apply keeps_bind_at; [|intros a; repeat keeps_step].
      apply keeps_commit; [apply strict_create_group_tx| |done].
      intros now db t a db' t'. by apply creator_create_group.
    + apply keeps_constraint, keeps_not_found, keeps_bind; [|auto with keeps].
      apply keeps_commit; [apply strict_remove_member_tx|].
      intros now db k x db' k'. by apply creator_remove_member.
  - apply run_op_keeps. intros s. by apply creator_stmt.
Qed.
Lemma no_self_op settings o : keeps no_self_friendship (run_op settings o).
Proof. apply run_op_keeps. intros s. apply no_self_stmt. Qed.
Lemma wf_op settings o : keeps wf_db (run_op settings o).
Proof. apply run_op_keeps. intros s. apply service_stmt_wf. Qed.

Lemma sound_op settings o : keeps sound_db (run_op settings o).
Proof.
  intros w (Hwf & Hc & Hn). split_and!; [by apply wf_op|by apply creator_op|by apply no_self_op].
Qed.
Lemma sound_empty : sound_db empty_db.
Proof. split_and!; [apply wf_empty|done|apply map_Forall_empty]. Qed.

(** C8: in every database the service can reach, whatever the workers ran, in
    whatever order, and whichever driver, commit or Redis errors struck: rows
    sit under their keys, usernames are unique and every foreign key points to
    a row; every group's creator is one of its members; nobody is their own
    friend. *)
Theorem reachable_sound db : db_reachable db → sound_db db.
Proof. apply reachable_invariant; [apply sound_op|apply sound_empty]. Qed.

(** ** Revocation is permanent *)

(** The refresh token under [h] is one of [u]'s, and revoked. *)
Definition burnt (h : string) (u : UUID) db : Prop :=
  ∃ t, refresh_tokens db !! h = Some t ∧ rt_user_id t = u ∧ rt_is_revoked t = true.

Lemma burnt_stmt h u D s : ¬ may_delete D u → service_stmt D s → preserves (burnt h u) s.
Proof.
  intros Hspare. service_cases; try conditional_write; destruct HI as (t & Ht & Hu & Hr).
  - revert Hdel. unfold delete_user_row. destruct (any_row _ _); [discriminate|]. intros [= <-].
    exists t. split; [|done]. apply map_lookup_filter_Some. split; [done|]. cbn. congruence.
  - exists t. split; [|done]. cbn. rewrite lookup_insert_ne; [done|]. intros Heq.
    rewrite <-Heq in Ht. by rewrite Ht in Heqb.
  - destruct (decide (h0 = h)) as [->|Hne].
    + exists (Write.revoke_rt t). split; [|done]. cbn. by rewrite lookup_alter_eq, Ht.
    + exists t. split; [|done]. cbn. by rewrite lookup_alter_ne.
  - exists (Write.revoke_rt_of u0 t). cbn. rewrite lookup_fmap, Ht.
    split; [done|]. unfold Write.revoke_rt_of. by case_decide.
Qed.

Lemma burnt_steps h u db db' : rtc (db_step_sparing u) db db' → burnt h u db → burnt h u db'.
Proof.
  induction 1 as [|db1 db2 db3 [settings o w Hu <- <-] _ IH]; [done|]. intros Hb. apply IH.
  refine (run_op_keeps settings (burnt h u) o _ w Hb). intros s. by apply burnt_stmt.
Qed.

(** C3: once a refresh token is revoked it never yields tokens again while its
    account exists: after any further operations of any workers, presenting it
    fails, and leaves every token of the account revoked. *)
Theorem revoked_forever raw u db w settings :
  burnt (hash_token raw) u db → rtc (db_step_sparing u) db (w_db w) → healthy w →
  ∃ e, (refresh settings raw w).1 = Raise e ∧
    tokens_revoked u (w_db (refresh settings raw w).2).
Proof.
  intros Hb Hs Hw. apply (burnt_steps _ _ _ _ Hs) in Hb as (t & Ht & <- & Hr).
  rewrite refresh_run by (done || intros ?; congruence).
  unfold refresh_table. rewrite Ht, Hr. cbn. unfold announce. cbn.
  pose proof (all_revoked_spec (rt_user_id t) (w_db w)) as Hall.
  destruct (publish_stream_event _ _) as [[x|e] rd]; by eexists.
Qed.

End system.

(** ** Runs *)
Lemma reachable_sound_witness :
  any_row (λ u, username u = "dave")
    (users (w_db (run_op (P := ref_platform) cfg (ORegister "dave" "pw") ref_world).2)) = true ∧
  sound_db (w_db (run_op (P := ref_platform) cfg (ORegister "dave" "pw") ref_world).2).
Proof.
  split; [vm_compute; reflexivity|]. apply (reachable_sound (P := ref_platform)).
  apply rtc_once. exact (db_step_op _ _ cfg (ORegister "dave" "pw") ref_world eq_refl eq_refl).
Defined.

Lemma revoked_forever_witness :
  ∃ e, (refresh (P := ref_platform) cfg "rt-used" sample_world).1 = Raise e.
Proof.
  destruct (revoked_forever (P := ref_platform) "rt-used" alice_id sample_db sample_world cfg)
    as (e & He & _); [| |exact sample_healthy|exact (ex_intro _ e He)].
  - exists (rt_row "rt-used" alice_id true). split; [eval_hyp|split; reflexivity].
  - apply rtc_refl.
Defined.
