(* ===== verification/Dependencies.v ===== *)
(** * Request authentication (api/dependencies.py)

    The bearer token is looked up in the worker's cache first, then in the
    database; what the slow path accepts is cached. The other dependencies of
    the file hand out the objects on [app.state], which here are the fields of
    [World]. *)

From S2P Require Export World.

Section dependencies.
Context {P : Platform}.

Definition HTTP_401_UNAUTHORIZED : Z := 401.
Definition WS_1008_POLICY_VIOLATION : Z := 1008.
Definition unauthorized (detail : string) : Exn := ExHTTP HTTP_401_UNAUTHORIZED detail.

(** [credentials.credentials if credentials else None] *)
Definition get_raw_access_token (credentials : option string) : option string := credentials.

(** The session of the slow path. *)
Definition authenticate_tx (token_hash : string) (allow_deactivated : bool) : txprog User :=
  token_record ← get_access_token token_hash false;
  if at_is_revoked token_record then tx_raise (unauthorized "Access token has been revoked.") else
  now ← tx_draw DNow;
  if at_is_expired now token_record then tx_raise (unauthorized "Access token has expired.") else
  user ← get_user_by_id (at_user_id token_record) false;
  if deactivated user && negb allow_deactivated
  then tx_raise (unauthorized "User account is deactivated.")
  else mret user.

(** [except NotFoundError: raise HTTPException(401)] *)
Definition except_not_found {A} (m : M A) : M A := λ w,
  match m w with
  | (Raise (ExDb (NotFoundError _ _)), w') =>
      (Raise (unauthorized "Invalid or nonexistent access token."), w')
  | r => r
  end.

Definition authenticate_token (raw_token : string) (allow_deactivated : bool) : M User :=
  let token_hash := hash_token raw_token in
  cached_user ← with_cache (λ t c, (TokenCache.get t token_hash c, c));
  match cached_user with
  | Some u =>
      if deactivated u && negb allow_deactivated
      then raise (unauthorized "User account is deactivated.")
      else mret u
  | None =>
      user ← except_not_found (connection (authenticate_tx token_hash allow_deactivated));
      _ ← with_cache (λ t c, (tt, TokenCache.set t token_hash user c));
      mret user
  end.

(** [credentials is None or not credentials.credentials] *)
Definition bearer (credentials : option string) (k : string → M User) : M User :=
  match credentials with
  | Some raw => if bool_decide (raw = EmptyString)
                then raise (unauthorized "Missing Bearer authentication token.") else k raw
  | None => raise (unauthorized "Missing Bearer authentication token.")
  end.
Definition get_current_user (credentials : option string) : M User :=
  bearer credentials (λ raw, authenticate_token raw false).
Definition get_current_user_allow_deactivated (credentials : option string) : M User :=
  bearer credentials (λ raw, authenticate_token raw true).

(** The WebSocket variant also closes the socket: the close code, if any, comes
    with the result. Only [HTTPException]s close it. *)
Definition get_current_user_ws (token : option string) (w : World)
    : outcome' User * option Z * World :=
  let missing :=
    (Raise (unauthorized "Missing WebSocket authentication token query parameter."),
     Some WS_1008_POLICY_VIOLATION, w) in
  match token with
  | None => missing
  | Some raw =>
      if bool_decide (raw = EmptyString) then missing else
      match authenticate_token raw false w with
      | (Raise (ExHTTP c d), w') => (Raise (ExHTTP c d), Some WS_1008_POLICY_VIOLATION, w')
      | (r, w') => (r, None, w')
      end
  end.

(** ** Runs *)

(** What the slow path decides from the tables and the clock. *)
Definition auth_decision (h : string) (allow : bool) (now : timestamp) (db : Database)
    : outcome' User :=
  match access_tokens db !! h with
  | None => Raise (unauthorized "Invalid or nonexistent access token.")
  | Some tok =>
      if at_is_revoked tok then Raise (unauthorized "Access token has been revoked.")
      else if at_is_expired now tok then Raise (unauthorized "Access token has expired.")
      else match users db !! at_user_id tok with
           | None => Raise (unauthorized "Invalid or nonexistent access token.")
           | Some u => if deactivated u && negb allow
                       then Raise (unauthorized "User account is deactivated.") else Ok u
           end
  end.

(** Ticks of the fast path: one; of the slow path: the cache read, NOW(), the
    clock where the token is known and live, the cache write. *)
Definition slow_ticks (h : string) (db : Database) : nat :=
  match access_tokens db !! h with
  | Some tok => if at_is_revoked tok then 2 else 3
  | None => 2
  end.

Lemma authenticate_hit raw allow w u :
  TokenCache.get (ent_mono (w_tick w)) (hash_token raw) (w_cache w) = Some u →
  authenticate_token raw allow w =
  (if deactivated u && negb allow then Raise (unauthorized "User account is deactivated.") else Ok u,
   set_tick (S (w_tick w)) w).
Proof.
  intros Hc. unfold authenticate_token, with_cache. rewrite M_bind_run. cbn. rewrite Hc.
  unfold set_cache, set_tick. cbn. by destruct (deactivated u && negb allow), w.
Qed.

Lemma authenticate_miss raw allow w :
  healthy w →
  TokenCache.get (ent_mono (w_tick w)) (hash_token raw) (w_cache w) = None →
  authenticate_token raw allow w =
  let h := hash_token raw in
  let w1 := after w (w_db w) (slow_ticks h (w_db w) + w_tick w) in
  match auth_decision h allow (ent_clock (2 + w_tick w)) (w_db w) with
  | Ok u => (Ok u, set_cache (TokenCache.set (ent_mono (w_tick w1)) h u (w_cache w))
                     (set_tick (S (w_tick w1)) w1))
  | Raise e => (Raise e, w1)
  end.
Proof.
  intros Hw Hc. unfold authenticate_token. rewrite M_bind_run. unfold with_cache at 1.
  rewrite Hc. cbv beta iota zeta. rewrite M_bind_run. unfold except_not_found.
  rewrite connection_run by done. unfold authenticate_tx, auth_decision, slow_ticks.
  cbn [w_db w_tick set_cache set_tick].
  run_queries.
  destruct (access_tokens (w_db w) !! hash_token raw) as [tok|] eqn:Htok; run_queries; [|done].
  destruct (at_is_revoked tok); run_queries; [done|].
  destruct (at_is_expired _ tok); run_queries; [done|].
  destruct (users (w_db w) !! at_user_id tok) as [u|]; run_queries; [|done].
  destruct (deactivated u && negb allow); run_queries; done.
Qed.

End dependencies.
