(* ===== verification/Authentication.v ===== *)
(** * Properties of request authentication

    What the slow path accepts, and how long the worker's cache can keep
    serving a session after the tables stopped allowing it. *)

From S2P Require Export Dependencies UserService AuthProofs.

Section authentication.
Context {P : Platform} {PL : PlatformLaws}.
Implicit Types (w : World) (db : Database) (u : User).

(** C20: without a cached entry, a token is accepted, for a user, exactly when
    its row exists, is not revoked and not expired, and belongs to an existing
    account that is active (or deactivated accounts are allowed); no outcome
    changes the tables, and only acceptance changes the cache. *)
Theorem authenticate_miss_iff raw allow u w :
  healthy w → TokenCache.get (ent_mono (w_tick w)) (hash_token raw) (w_cache w) = None →
  ((authenticate_token raw allow w).1 = Ok u ↔
   ∃ tok, access_tokens (w_db w) !! hash_token raw = Some tok ∧ at_is_revoked tok = false ∧
     (ent_clock (2 + w_tick w) < at_expires_at tok)%Z ∧
     users (w_db w) !! at_user_id tok = Some u ∧ (deactivated u = false ∨ allow = true)) ∧
  w_db (authenticate_token raw allow w).2 = w_db w ∧
  (is_ok (authenticate_token raw allow w).1 = false →
   w_cache (authenticate_token raw allow w).2 = w_cache w).
Proof.
  intros Hw Hc. rewrite authenticate_miss by done. cbv zeta.
  split; [|destruct (auth_decision _ _ _ _); split; (done || discriminate)].
  transitivity (auth_decision (hash_token raw) allow (ent_clock (2 + w_tick w)) (w_db w) = Ok u).
  { destruct (auth_decision _ _ _ _); done. }
  unfold auth_decision, at_is_expired.
  destruct (access_tokens (w_db w) !! hash_token raw) as [tok|];
    [|split; [done|by intros (? & ? & _)]].
  destruct (at_is_revoked tok) eqn:Hr; [split; [done|intros (? & [= <-] & ? & _); congruence]|].
  destruct (Z.leb_spec (at_expires_at tok) (ent_clock (2 + w_tick w))).
  { split; [done|]. intros (tok' & [= <-] & _ & ? & _). lia. }
  destruct (users (w_db w) !! at_user_id tok) as [v|] eqn:Hv;
    [|split; [done|intros (? & [= <-] & _ & _ & ? & _); congruence]].
  split.
  - destruct (deactivated v && negb allow) eqn:Hd; [discriminate|]. intros [= <-].
    exists tok. split_and!; try done. destruct (deactivated v), allow; auto.
  - intros (? & [= <-] & _ & _ & Hv' & Hor). rewrite Hv in Hv'. injection Hv' as <-.
    by destruct Hor as [-> | ->]; rewrite ?andb_false_r.
Qed.

(** ** How long a cached session lives *)

(** What a worker's slow path once accepted: when it was cached, for which
    token and user, and the tables and clock it was checked against. *)
Record grant := MkGrant {
  g_time : timestamp; g_hash : string; g_user : User; g_db : Database; g_clock : timestamp;
}.
Definition grants_of (raw : string) (allow : bool) w : list grant :=
  let h := hash_token raw in
  match TokenCache.get (ent_mono (w_tick w)) h (w_cache w), authenticate_token raw allow w with
  | None, (Ok u, w') => [MkGrant (ent_mono (pred (w_tick w'))) h u (w_db w) (ent_clock (2 + w_tick w))]
  | _, _ => []
  end.

(** The life of a worker's cache: it starts empty; requests are authenticated,
    users log out, invalidation events arrive; and in between anything but the
    cache may change in any way, the tables, the clocks, Redis and the driver
    included. *)
Inductive cache_life : list grant → World → Prop :=
| life_start w : w_cache w = TokenCache.init → cache_life [] w
| life_env gs w w' : cache_life gs w → w_cache w' = w_cache w → cache_life gs w'
| life_event gs w t ev : cache_life gs w →
    cache_life gs (set_cache (TokenCache.handle_invalidation_event t ev (w_cache w)) w)
| life_logout gs w raw acc : cache_life gs w → cache_life gs (logout raw acc w).2
| life_auth gs w raw allow : cache_life gs w →
    cache_life (grants_of raw allow w ++ gs) (authenticate_token raw allow w).2.

(** Every item of [c] is covered by a grant of [gs]. *)
Definition covered (gs : list grant) (c : ttl_cache) : Prop :=
  cache_ttl c = TokenCache.TTL ∧
  ∀ t k u, TokenCache.get t k c = Some u →
    ∃ g, g ∈ gs ∧ g_hash g = k ∧ g_user g = u ∧ (t < g_time g + TokenCache.TTL)%Z.
Definition valid_grant (g : grant) : Prop :=
  ∃ allow, auth_decision (g_hash g) allow (g_clock g) (g_db g) = Ok (g_user g).

Lemma strict_authenticate_tx h allow : strict_tx (authenticate_tx h allow).
Proof. tx_strict. Qed.

(** The slow path under any driver errors: it fails and leaves the cache, or
    accepts what the tables allow and caches it. *)
Lemma authenticate_miss_any raw allow w r w' :
  TokenCache.get (ent_mono (w_tick w)) (hash_token raw) (w_cache w) = None →
  authenticate_token raw allow w = (r, w') →
  match r with
  | Raise _ => w_cache w' = w_cache w
  | Ok u => auth_decision (hash_token raw) allow (ent_clock (2 + w_tick w)) (w_db w) = Ok u ∧
      w_cache w' = TokenCache.set (ent_mono (pred (w_tick w'))) (hash_token raw) u (w_cache w)
  end.
Proof.
  intros Hc. unfold authenticate_token. rewrite M_bind_run. unfold with_cache at 1. rewrite Hc.
  cbv beta iota zeta. rewrite M_bind_run. set (w1 := set_cache _ _).
  unfold except_not_found.
  pose proof (connection_cache (authenticate_tx (hash_token raw) allow) w1) as Hcc.
  destruct (connection _ w1) as [[u|e] w2] eqn:Hconn; cbn in Hcc.
  - apply connection_ok in Hconn as [Hrun _]; [|apply strict_authenticate_tx].
    unfold with_cache. rewrite M_bind_run. cbn. intros [= <- <-]. cbn.
    rewrite Hcc. split; [|done]. revert Hrun. unfold authenticate_tx, auth_decision.
    cbn [w1 w_db w_tick set_cache set_tick]. run_queries.
    destruct (access_tokens (w_db w) !! hash_token raw) as [tok|]; run_queries; [|discriminate].
    destruct (at_is_revoked tok); run_queries; [discriminate|].
    destruct (at_is_expired _ tok); run_queries; [discriminate|].
    destruct (users (w_db w) !! at_user_id tok) as [v|]; run_queries; [|discriminate].
    destruct (deactivated v && negb allow); run_queries; [discriminate|]. by intros [= <-].
  - destruct e as [| [] | | | | | | | |]; intros [= <- <-]; exact Hcc.
Qed.

Lemma transaction_cache {A} (body : txprog A) w : w_cache (transaction body w).2 = w_cache w.
Proof. unfold transaction. destruct (w_pool w); [|done]. by destruct (commit _ _). Qed.
Lemma with_redis_cache {A} (m : redis_m A) w : w_cache (with_redis m w).2 = w_cache w.
Proof. unfold with_redis. by destruct (m _). Qed.
Lemma logout_cache raw acc w :
  w_cache (logout raw acc w).2 = w_cache w ∨
  ∃ t h, w_cache (logout raw acc w).2 = TokenCache.evict t h (w_cache w).
Proof.
  unfold logout, handle_db_not_found_error. rewrite M_bind_run.
  pose proof (transaction_cache (logout_tx (hash_token raw) (access_hash_of acc)) w) as Ht.
  destruct (transaction _ w) as [[[]|e] w1]; cbn in Ht; [|by left].
  rewrite M_bind_run. destruct (access_hash_of acc) as [h|].
  - right. exists (ent_mono (w_tick w1)), h. unfold with_cache. cbv beta iota. rewrite M_bind_run.
    match goal with |- context [with_redis ?m ?w2] =>
      pose proof (with_redis_cache m w2) as H1; destruct (with_redis m w2) as [[[]|e] w3] end.
    + pose proof (with_redis_cache (publish_stream_event (TokenRevokedEvent h)) w3) as H2.
      destruct (with_redis _ w3) as [[[]|e] w4]; cbn in *; by rewrite H2, H1, Ht.
    + cbn in *. by rewrite H1, Ht.
  - left. unfold mret, M_ret. cbv beta iota. rewrite M_bind_run.
    match goal with |- context [with_redis ?m ?w2] =>
      pose proof (with_redis_cache m w2) as H1; destruct (with_redis m w2) as [[[]|e] w3] end;
    cbn in *; by rewrite H1, Ht.
Qed.

Lemma covered_cache_life gs w :
  cache_life gs w → covered gs (w_cache w) ∧ Forall valid_grant gs.
Proof.
  induction 1 as [w Hi|gs w w' _ IH Hc|gs w t ev _ [[Ht IH] IHv]|gs w raw acc _ [[Ht IH] IHv]
                 |gs w raw allow _ [[Ht IH] IHv]].
  - rewrite Hi. split; [|done]. split; [apply cache_ttl_new|]. intros t k u Hg.
    unfold TokenCache.get, TokenCache.init in Hg. by rewrite cache_get_new in Hg.
  - by rewrite Hc.
  - split; [|done]. cbn. split; [by rewrite TokenCache.handle_event_ttl|].
    intros t' k u Hg%TokenCache.handle_event_sub. eauto.
  - split; [|done].
    destruct (logout_cache raw acc w) as [->|(t & h & ->)].
    + done.
    + split; [by rewrite <-Ht; apply cache_ttl_pop|]. intros t' k u Hg%cache_get_pop_sub. eauto.
  - unfold grants_of. destruct (TokenCache.get _ _ (w_cache w)) as [u|] eqn:Hc.
    + rewrite (authenticate_hit _ _ _ _ Hc). cbn. done.
    + destruct (authenticate_token raw allow w) as [r w'] eqn:Ha.
      pose proof (authenticate_miss_any _ _ _ _ _ Hc Ha) as Hr. cbn [snd].
      destruct r as [u|e]; [|by rewrite Hr]. destruct Hr as [Hd ->]. split.
      * split; [unfold TokenCache.set; by rewrite cache_ttl_set|]. intros t k v Hg.
        destruct (decide (k = hash_token raw)) as [->|Hk].
        -- apply cache_get_set_eq in Hg as [-> Hlt]. eexists. split; [by left|].
           rewrite Ht in Hlt. done.
        -- apply cache_get_set_ne in Hg; [|done]. destruct (IH _ _ _ Hg) as (g & Hg' & ?).
           exists g. split; [by right|done].
      * constructor; [by exists allow|done].
Qed.

(** C21: a cached session outlives its legitimacy by at most the cache's 300
    seconds: whatever happened to the tables meanwhile, when a token is accepted
    either the tables allow it at this very moment, or this worker cached it
    less than 300 seconds ago, for the same user, when the tables of that moment
    allowed it. *)
Theorem cached_session_bound gs raw allow u w w' :
  cache_life gs w → authenticate_token raw allow w = (Ok u, w') →
  auth_decision (hash_token raw) allow (ent_clock (2 + w_tick w)) (w_db w) = Ok u ∨
  ∃ g allow', g ∈ gs ∧ g_hash g = hash_token raw ∧ g_user g = u ∧
    (ent_mono (w_tick w) < g_time g + seconds 300)%Z ∧
    auth_decision (hash_token raw) allow' (g_clock g) (g_db g) = Ok u.
Proof.
  intros [[_ Hcov] Hval]%covered_cache_life Ha.
  destruct (TokenCache.get (ent_mono (w_tick w)) (hash_token raw) (w_cache w)) as [v|] eqn:Hc.
  - right. rewrite (authenticate_hit _ _ _ _ Hc) in Ha.
    destruct (deactivated v && negb allow); [discriminate|]. injection Ha as <- _.
    destruct (Hcov _ _ _ Hc) as (g & Hg & Hh & Hu & Ht).
    rewrite Forall_forall in Hval. destruct (Hval g Hg) as [allow' Hd].
    exists g, allow'. by rewrite <-Hh, <-Hu.
  - left. by destruct (authenticate_miss_any _ _ _ _ _ Hc Ha).
Qed.

(** Revocation is final on a worker that processed its event: once the
    row is revoked and the event for its hash handled, every later attempt with
    the token fails, whatever was cached before. *)
Lemma revocation_event_effective raw allow t tok w :
  healthy w → (t ≤ ent_mono (w_tick w))%Z →
  access_tokens (w_db w) !! hash_token raw = Some tok → at_is_revoked tok = true →
  hash_token raw ≠ EmptyString →
  let w1 := set_cache (TokenCache.handle_invalidation_event t
              (to_dict (TokenRevokedEvent (hash_token raw))) (w_cache w)) w in
  (authenticate_token raw allow w1).1 = Raise (unauthorized "Access token has been revoked.").
Proof.
  intros Hw Ht Htok Hrev Hne w1.
  rewrite authenticate_miss.
  - unfold auth_decision. cbn [w1 w_db set_cache]. by rewrite Htok, Hrev.
  - done.
  - cbn. rewrite TokenCache.handle_token_revoked by done. by apply cache_get_pop_eq.
Qed.

(** Deactivating an account does not reach the caches: a worker that has
    one of its sessions cached keeps accepting it after the account was
    deactivated, until the item expires. *)
Lemma deactivation_leaves_cached_sessions raw u w :
  healthy w → users (w_db w) !! user_id u = Some u → deactivated u = false →
  TokenCache.get (ent_mono (w_tick (deactivate_account (user_id u) w).2)) (hash_token raw)
    (w_cache w) = Some u →
  let w1 := (deactivate_account (user_id u) w).2 in
  (∃ u1, users (w_db w1) !! user_id u = Some u1 ∧ deactivated u1 = true) ∧
  (authenticate_token raw false w1).1 = Ok u.
Proof.
  intros Hw Hu Hd Hc w1. split.
  - unfold w1, deactivate_account, handle_db_not_found_error. rewrite transaction_run by done.
    run_queries. unfold user_updated. rewrite Hu. cbn.
    eexists. by rewrite lookup_insert_eq.
  - unfold w1. rewrite (authenticate_hit _ _ _ u); [by rewrite Hd|].
    rewrite <-Hc. f_equal. unfold deactivate_account, handle_db_not_found_error.
    pose proof (transaction_cache (deactivate_user (user_id u)) w) as Ht.
    by destruct (transaction _ w).
Qed.

End authentication.

(** ** Runs on the sample tables *)

(** A worker that has authenticated alice's session once. *)
Definition warm_world : @World ref_platform :=
  (authenticate_token (P := ref_platform) "at-alice" false sample_world).2.

Lemma authenticate_miss_iff_witness :
  (authenticate_token (P := ref_platform) "at-alice" false sample_world).1 = Ok alice.
Proof.
  refine (proj2 (proj1 (authenticate_miss_iff "at-alice" false alice sample_world sample_healthy _)) _);
    [eval_hyp|].
  exists (MkAccessToken (hash_token "at-alice") alice_id false (seconds 900)).
  split; [eval_hyp|]. split; [reflexivity|]. split; [by vm_compute|]. split; [eval_hyp|by left].
Defined.

Lemma cached_session_bound_witness :
  ∃ gs w', cache_life gs warm_world ∧
    authenticate_token (P := ref_platform) "at-alice" false warm_world = (Ok alice, w') ∧
    (auth_decision (hash_token "at-alice") false (@ent_clock ref_entropy (2 + w_tick warm_world))
       (w_db warm_world) = Ok alice ∨
     ∃ g, g ∈ gs ∧ g_user g = alice).
Proof.
  pose proof (life_auth [] sample_world "at-alice" false (life_start sample_world eq_refl)) as Hl.
  fold warm_world in Hl.
  assert ((authenticate_token (P := ref_platform) "at-alice" false warm_world).1 = Ok alice) as Ha
    by (vm_compute; reflexivity).
  destruct (authenticate_token (P := ref_platform) "at-alice" false warm_world) as [r w'] eqn:Hr.
  cbn [fst] in Ha. subst r.
  destruct (cached_session_bound (PL := ref_platform_laws) _ "at-alice" false alice warm_world w' Hl Hr)
    as [Hd|(g & allow' & Hg & _ & Hu & _)].
  - exact (ex_intro _ _ (ex_intro _ w' (conj Hl (conj eq_refl (or_introl Hd))))).
  - exact (ex_intro _ _ (ex_intro _ w' (conj Hl (conj eq_refl
      (or_intror (ex_intro _ g (conj Hg Hu))))))).
Defined.

(** Revoked in the tables, with the session still cached. *)
Definition revoked_world : @World ref_platform :=
  set_db (set_access_tokens (alter Write.revoke_at (hash_token "at-alice")) sample_db) warm_world.
Lemma revocation_event_effective_witness :
  (authenticate_token (P := ref_platform) "at-alice" false revoked_world).1 = Ok alice ∧
  (authenticate_token (P := ref_platform) "at-alice" false
    (set_cache (P := ref_platform) (TokenCache.handle_invalidation_event (H := ref_cache) 0
       (to_dict (TokenRevokedEvent (hash_token "at-alice"))) (w_cache revoked_world))
       revoked_world)).1 = Raise (unauthorized "Access token has been revoked.").
Proof.
  split; [vm_compute; reflexivity|].
  refine (revocation_event_effective (PL := ref_platform_laws) "at-alice" false 0
    (MkAccessToken (hash_token "at-alice") alice_id true (seconds 900)) revoked_world _ _ _ _ _);
    eval_hyp.
Defined.

Lemma deactivation_leaves_cached_sessions_witness :
  (authenticate_token (P := ref_platform) "at-alice" false
     (deactivate_account (P := ref_platform) alice_id warm_world).2).1 = Ok alice.
Proof.
  refine (proj2 (deactivation_leaves_cached_sessions "at-alice" alice warm_world _ _ _ _)); eval_hyp.
Defined.
