(* ===== verification/WebSocket.v ===== *)
(** * WebSocketManager (services/websocket.py)

    The worker-local routing registries, the socket lifecycle, and the cluster
    pushes. Coroutines are cut at their awaits: a segment between two awaits is
    one function on the registries, since the event loop runs it alone. *)

From S2P Require Export World.

(** A WebSocket object, by identity. *)
Abbreviation Socket := nat.

(** The three [defaultdict(set)] registries. *)
Record Manager := MkManager {
  local_connections : gmap UUID (gset Socket);
  group_connections : gmap UUID (gset UUID);
  user_groups : gmap UUID (gset UUID);
}.
Definition new_manager : Manager := MkManager ∅ ∅ ∅.

(** [d[k]] for reading, [d.get(k, set())], of a [defaultdict(set)]. *)
Definition dd {A} `{Countable A} (m : gmap UUID (gset A)) (k : UUID) : gset A :=
  default ∅ (m !! k).
(** [d[k].add(x)] *)
Definition dd_add {A} `{Countable A} (k : UUID) (x : A) (m : gmap UUID (gset A))
    : gmap UUID (gset A) := <[k := {[x]} ∪ dd m k]> m.
(** [d[k].discard(x); if not d[k]: d.pop(k, None)] *)
Definition dd_discard {A} `{Countable A} (k : UUID) (x : A) (m : gmap UUID (gset A))
    : gmap UUID (gset A) :=
  let s := dd m k ∖ {[x]} in if decide (s = ∅) then delete k m else <[k := s]> m.

(** ** register_connection: first segment, up to the await on Redis *)
Definition add_socket (uid : UUID) (ws : Socket) (m : Manager) : Manager :=
  MkManager (dd_add uid ws (local_connections m)) (group_connections m) (user_groups m).

(** [for group_id in gs: self._group_connections[group_id].add(user_id)] *)
Definition join_all (uid : UUID) (gs : gset UUID) (gc : gmap UUID (gset UUID))
    : gmap UUID (gset UUID) := set_fold (λ g gc, dd_add g uid gc) gc gs.

(** ... and last segment, once the query answered. *)
Definition merge_groups (uid : UUID) (ws : Socket) (user_group_ids : gset UUID) (m : Manager) : Manager :=
  if bool_decide (is_Some (local_connections m !! uid)) && bool_decide (ws ∈ dd (local_connections m) uid)
  then MkManager (local_connections m) (join_all uid user_group_ids (group_connections m))
         (<[uid := dd (user_groups m) uid ∪ user_group_ids]> (user_groups m))
  else m.

(** ** unregister_connection: the segment under the lock, up to Redis

    The flag says whether this was the user's last socket. *)
Definition leave_all (uid : UUID) (gs : gset UUID) (gc : gmap UUID (gset UUID))
    : gmap UUID (gset UUID) := set_fold (λ g gc, dd_discard g uid gc) gc gs.
(** [sockets = self._local_connections.get(user_id); if sockets: sockets.discard(ws)] *)
Definition discard_socket (uid : UUID) (ws : Socket) (lc : gmap UUID (gset Socket))
    : gmap UUID (gset Socket) :=
  match lc !! uid with
  | Some sockets => <[uid := sockets ∖ {[ws]}]> lc
  | None => lc
  end.
Definition drop_socket (uid : UUID) (ws : Socket) (m : Manager) : Manager * bool :=
  let lc := discard_socket uid ws (local_connections m) in
  if decide (dd lc uid = ∅) then
    let groups := dd (user_groups m) uid in
    (MkManager (delete uid lc) (leave_all uid groups (group_connections m))
       (delete uid (user_groups m)), true)
  else (MkManager lc (group_connections m) (user_groups m), false).

Section lifecycle.
Context {P : Platform}.

(** The groups a registration merges: none when the query fails in any way. *)
Definition load_groups (uid : UUID) (w : World) : gset UUID * World :=
  match connection (list_user_groups uid) w with
  | (Ok gs, w') => (list_to_set (group_id <$> gs), w')
  | (Raise _, w') => (∅, w')
  end.
Definition register_connection (uid : UUID) (ws : Socket) (mw : Manager * World)
    : outcome' unit * (Manager * World) :=
  let '(m, w) := mw in
  let m1 := add_socket uid ws m in
  match with_redis (add_active_user (str_uuid uid)) w with
  | (Raise e, w1) => (Raise e, (m1, w1))
  | (Ok _, w1) =>
      let '(user_group_ids, w2) := load_groups uid w1 in
      (Ok tt, (merge_groups uid ws user_group_ids m1, w2))
  end.
Definition unregister_connection (uid : UUID) (ws : Socket) (mw : Manager * World)
    : outcome' unit * (Manager * World) :=
  let '(m, w) := mw in
  match drop_socket uid ws m with
  | (m1, true) => let '(r, w1) := with_redis (remove_active_user (str_uuid uid)) w in (r, (m1, w1))
  | (m1, false) => (Ok tt, (m1, w))
  end.

(** The endpoint's [finally]: unregister only what was registered. *)
Inductive session_end := Registered | NotRegistered.
Definition websocket_open (uid : UUID) (ws : Socket) (mw : Manager * World)
    : session_end * (Manager * World) :=
  match register_connection uid ws mw with
  | (Ok _, mw') => (Registered, mw')
  | (Raise _, mw') => (NotRegistered, mw')
  end.
Definition websocket_close (s : session_end) (uid : UUID) (ws : Socket) (mw : Manager * World)
    : Manager * World :=
  match s with Registered => (unregister_connection uid ws mw).2 | NotRegistered => mw end.

(** [{UUID(u) for u in raw_users}] *)
Definition fetch_active_users : M (gset UUID) :=
  raw ← with_redis get_active_users;
  match mapM parse_uuid (elements (raw : gset string)) with
  | Some l => mret (list_to_set l)
  | None => raise ExValueError
  end.

End lifecycle.

(** ** Cluster pushes *)
Section pushes.
Context `{RedisServer}.

Definition membership_payload (e : RedisEvent) : json := JObj [("data", to_dict e)].
Definition user_payload (uid : UUID) (e : RedisEvent) : json :=
  JObj [("user_id", JStr (str_uuid uid)); ("data", to_dict e)].
Definition group_payload (gid : UUID) (e : RedisEvent) (sender_id : option UUID) : json :=
  JObj [("group_id", JStr (str_uuid gid));
        ("sender_id", match sender_id with Some s => JStr (str_uuid s) | None => JNull end);
        ("data", to_dict e)].

(** [MembershipAction(action)], a [ValueError] before anything is published. *)
Definition push_group_membership_change (uid gid : UUID) (action : string) : redis_m unit :=
  match parse_action action with
  | Some act => publish_ws_push CHANNEL_NAME (membership_payload (GroupMembershipEvent act uid gid))
  | None => λ r, (Raise ExValueError, r)
  end.
Definition push_group_deleted (gid : UUID) : redis_m unit :=
  publish_ws_push CHANNEL_NAME (membership_payload (GroupDeletedEvent gid)).
Definition push_to_user (uid : UUID) (e : RedisEvent) : redis_m unit :=
  publish_ws_push CHANNEL_NAME (user_payload uid e).
Definition push_to_group (gid : UUID) (e : RedisEvent) (sender_id : option UUID) : redis_m unit :=
  publish_ws_push CHANNEL_NAME (group_payload gid e sender_id).

(** [GroupService._handle_group_deletion_side_effects] *)
Definition handle_group_deletion_side_effects (gid : UUID) (member_user_ids : list UUID)
    : redis_m unit :=
  _ ← invalidate_deleted_group_cache (str_uuid gid) (str_uuid <$> member_user_ids);
  push_group_deleted gid.

(** The coroutine behind a spawned task; [spawn_task] only logs what it raises. *)
Definition run_task (t : Task) : redis_m unit :=
  match t with
  | PushGroupMembershipChange u g a => push_group_membership_change u g a
  | PushToUser u e => push_to_user u e
  | PushToGroup g e s => push_to_group g e s
  | GroupDeletionSideEffects g ids => handle_group_deletion_side_effects g ids
  end.
Definition run_background (t : Task) (r : redis_t) : redis_t := (run_task t r).2.

End pushes.

(** ** Local dispatch

    A frame is one attempted send; a failing send is logged and skipped, so the
    frames a dispatch attempts are its observable result. *)
Definition frame : Type := Socket * json.

Definition send_frame_to_user_sockets (uid : UUID) (payload_data : json) (m : Manager) : list frame :=
  (λ ws, (ws, payload_data)) <$> elements (dd (local_connections m) uid).
Definition send_frame_to_users (users : list UUID) (data : json) (m : Manager) : list frame :=
  mjoin ((λ u, send_frame_to_user_sockets u data m) <$> users).

(** [data[k]] of a dict, [UUID(...)] of it. *)
Definition json_item (k : string) (j : json) : outcome' json :=
  match j with
  | JObj l => match assoc k l with Some v => Ok v | None => Raise (ExKeyError k) end
  | _ => Raise ExTypeError
  end.
Definition json_to_uuid (v : json) : outcome' UUID :=
  match v with
  | JStr s => match parse_uuid s with Some u => Ok u | None => Raise ExValueError end
  | _ => Raise ExTypeError
  end.
Definition json_uuid (k : string) (j : json) : outcome' UUID := o_bind json_to_uuid (json_item k j).

Definition join_group (uid gid : UUID) (m : Manager) : Manager :=
  if bool_decide (is_Some (local_connections m !! uid)) then
    MkManager (local_connections m) (dd_add gid uid (group_connections m))
      (dd_add uid gid (user_groups m))
  else m.
Definition leave_group (uid gid : UUID) (m : Manager) : Manager :=
  MkManager (local_connections m) (dd_discard gid uid (group_connections m))
    (match user_groups m !! uid with
     | Some gs => <[uid := gs ∖ {[gid]}]> (user_groups m)
     | None => user_groups m
     end).

Definition handle_membership_change (data : json) (m : Manager)
    : outcome' (list frame) * Manager :=
  match json_uuid "user_id" data, json_uuid "group_id" data, json_item "action" data with
  | Ok uid, Ok gid, Ok (JStr a) =>
      match parse_action a with
      | None => (Raise ExValueError, m)
      | Some act =>
          let m' := match act with JOIN => join_group uid gid m | LEAVE => leave_group uid gid m end in
          (Ok (send_frame_to_user_sockets uid data m'), m')
      end
  | Raise e, _, _ | Ok _, Raise e, _ | Ok _, Ok _, Raise e => (Raise e, m)
  | Ok _, Ok _, Ok _ => (Raise ExValueError, m)
  end.

(** [_handle_group_deleted] sends to the members it saw, and once those sends
    are done forgets the group. *)
Definition group_deleted_members (gid : UUID) (m : Manager) : list UUID :=
  elements (dd (group_connections m) gid).
Definition forget_member (gid uid : UUID) (ug : gmap UUID (gset UUID)) : gmap UUID (gset UUID) :=
  match ug !! uid with Some gs => <[uid := gs ∖ {[gid]}]> ug | None => ug end.
Definition forget_group (gid : UUID) (local_members : list UUID) (m : Manager) : Manager :=
  MkManager (local_connections m) (delete gid (group_connections m))
    (fold_left (λ ug u, forget_member gid u ug) local_members (user_groups m)).
Definition handle_group_deleted (data : json) (m : Manager) : outcome' (list frame) * Manager :=
  match json_uuid "group_id" data with
  | Raise e => (Raise e, m)
  | Ok gid =>
      let local_members := group_deleted_members gid m in
      (Ok (send_frame_to_users local_members data m), forget_group gid local_members m)
  end.

Definition dispatch_direct_message (raw_user_id data : json) (m : Manager) : outcome' (list frame) :=
  o_map (λ u, send_frame_to_user_sockets u data m) (json_to_uuid raw_user_id).

(** [payload.get("data") or {}] *)
Definition json_or_empty (j : json) : json := if json_truthy j then j else JObj [].
Definition dispatch_group_message (payload : json) (m : Manager) : outcome' (list frame) :=
  match json_uuid "group_id" payload with
  | Raise e => Raise e
  | Ok gid =>
      let raw := json_get "sender_id" JNull payload in
      match (if json_truthy raw then o_map Some (json_to_uuid raw) else Ok None) with
      | Raise e => Raise e
      | Ok sender_id =>
          let data := json_or_empty (json_get "data" JNull payload) in
          let local_members :=
            filter (λ u, Some u ≠ sender_id) (elements (dd (group_connections m) gid)) in
          Ok (send_frame_to_users local_members data m)
      end
  end.

(** [event_type == EventType.X], an equality of strings. *)
Definition json_is (s : string) (j : json) : bool :=
  match j with JStr t => bool_decide (t = s) | _ => false end.
(** [x.get(...)] on something that is not a dict raises [AttributeError]. *)
Definition is_dict (j : json) : bool := match j with JObj _ => true | _ => false end.
Definition dispatch_local_message (payload : json) (m : Manager) : outcome' (list frame) * Manager :=
  if negb (is_dict payload) then (Raise ExTypeError, m) else
  let data := json_get "data" (JObj []) payload in
  if negb (is_dict data) then (Raise ExTypeError, m) else
  let event_type := json_get "event" JNull data in
  if json_is (EventType_value EV_GROUP_MEMBERSHIP) event_type
  then handle_membership_change data m
  else if json_is (EventType_value EV_GROUP_DELETED) event_type
  then handle_group_deleted data m
  else
    let raw_user_id := json_get "user_id" JNull payload in
    if json_truthy raw_user_id then (dispatch_direct_message raw_user_id data m, m)
    else if json_truthy (json_get "group_id" JNull payload)
    then (dispatch_group_message payload m, m)
    else (Ok [], m).

(** ** pubsub.py: one message of the channel, and [_safe_dispatch] *)
Definition safe_dispatch (payload : json) (m : Manager) : list frame * Manager :=
  match dispatch_local_message payload m with
  | (Ok frames, m') => (frames, m')
  | (Raise _, m') => ([], m')
  end.
(** Malformed JSON is logged and skipped. *)
Definition on_message (raw_data : string) (m : Manager) : list frame * Manager :=
  match loads raw_data with
  | Some payload => safe_dispatch payload m
  | None => ([], m)
  end.
