(* ===== verification/JsonProofs.v ===== *)
(** * The wire format reads back what was written

    [loads] is a left inverse of [dumps] on every document whose objects have
    distinct keys, which is what a Python dict gives. *)

From S2P Require Export Json.
From Stdlib Require Import Ascii.

(** Induction over documents, with the hypothesis at every element. *)
Lemma json_nested_ind (P : json → Prop) :
  P JNull → (∀ b, P (JBool b)) → (∀ z, P (JInt z)) → (∀ s, P (JStr s)) →
  (∀ l, Forall P l → P (JArr l)) →
  (∀ l, Forall (λ kj, P kj.2) l → P (JObj l)) →
  ∀ j, P j.
Proof.
  intros H1 H2 Hz H3 H4 H5. fix IH 1. intros [|b|z|s|l|l]; [done|done|done|done| |].
  - apply H4. induction l as [|j l IHl]; constructor; [apply IH|exact IHl].
  - apply H5. induction l as [|[k j] l IHl]; constructor; [apply IH|exact IHl].
Qed.

(** Every object of the document has distinct keys. *)
Inductive json_ok : json → Prop :=
| ok_null : json_ok JNull
| ok_bool b : json_ok (JBool b)
| ok_int z : json_ok (JInt z)
| ok_str s : json_ok (JStr s)
| ok_arr l : Forall json_ok l → json_ok (JArr l)
| ok_obj l : NoDup l.*1 → Forall (λ kj, json_ok kj.2) l → json_ok (JObj l).
#[export] Hint Constructors json_ok : py.

(** ** Strings *)
Lemma load_escaped (c : ascii) (r : chars) :
  expect dquote (escape_char c ++ r) = None ∧ load_char (escape_char c ++ r) = Some (c, r).
Proof. destruct c as [[] [] [] [] [] [] [] []]; split; reflexivity. Qed.

Lemma load_chars_dumped (s r : chars) (fuel : nat) :
  length s < fuel →
  load_chars fuel (mjoin (map escape_char s) ++ dquote :: r) = Some (s, r).
Proof.
  revert fuel. induction s as [|c s IH]; intros [|fuel] Hf; simpl in *; try lia; [done|].
  rewrite <-app_assoc. destruct (load_escaped c (mjoin (map escape_char s) ++ dquote :: r)) as [-> ->].
  simpl. rewrite IH by lia. done.
Qed.

Lemma escaped_length (s : chars) : length s ≤ length (mjoin (map escape_char s)).
Proof.
  induction s as [|c s IH]; simpl; [done|]. rewrite length_app.
  assert (1 ≤ length (escape_char c)); [|lia].
  unfold escape_char. repeat case_match; simpl; lia.
Qed.

Lemma load_str_dumped (s : string) (r : chars) :
  load_str (mjoin (map escape_char (to_chars s)) ++ dquote :: r) = Some (s, r).
Proof.
  unfold load_str. rewrite load_chars_dumped.
  - simpl. by rewrite of_to_chars.
  - rewrite length_app. pose proof (escaped_length (to_chars s)). simpl. lia.
Qed.

(** ** Integers *)
(** Where a number may end. *)
Definition no_digit (r : chars) : Prop := ∀ c r', r = c :: r' → is_digit c = false.
Lemma load_nat_dumped (n : N) (r : chars) : no_digit r → load_nat (dec_N n ++ r) = Some (n, r).
Proof.
  intros Hr. destruct (dec_N_spec n) as (Hn & c & l & Hcl & Hzero).
  pose proof (digits_all (S (N.to_nat (N.size n))) n) as Hall. change (digits _ n) with (dec_N n) in Hall.
  rewrite Hcl in *. cbn [load_nat app]. destruct (N.eqb_spec (N_of_ascii c) 48) as [Hc|_].
  - destruct (Hzero Hc) as [-> ->]. done.
  - apply Forall_cons in Hall as Hall'. destruct Hall' as [Hc _]. rewrite Hc.
    pose proof (span_digits_app (c :: l) r Hall Hr) as Hs. cbn [app] in Hs. rewrite Hs.
    by rewrite Hn.
Qed.
Lemma dec_N_head (n : N) : ∃ c l, dec_N n = c :: l ∧ is_digit c = true.
Proof.
  destruct (dec_N_spec n) as (_ & c & l & Hcl & _).
  pose proof (digits_all (S (N.to_nat (N.size n))) n) as Hall. change (digits _ n) with (dec_N n) in Hall.
  rewrite Hcl in Hall. exists c, l. split; [done|]. by inversion Hall.
Qed.
(** A number starts with a digit or a minus sign. *)
Lemma dec_Z_head (z : Z) : ∃ c l, dec_Z z = c :: l ∧ (is_digit c = true ∨ c = "-"%char).
Proof.
  unfold dec_Z. destruct z as [|p|p]; try (by do 2 eexists; split; [|right]);
    edestruct dec_N_head as (c & l & -> & Hc); eauto.
Qed.
Lemma load_int_dumped (z : Z) (r : chars) : no_digit r → load_int (dec_Z z ++ r) = Some (z, r).
Proof.
  intros Hr. unfold load_int. assert (∀ n, expect "-"%char (dec_N n ++ r) = None) as Hpos.
  { intros n. destruct (dec_N_head n) as (c & l & -> & Hc). cbn.
    rewrite bool_decide_eq_false_2; [done|]. by intros <-. }
  destruct z as [|p|p]; cbn [dec_Z].
  - rewrite Hpos, load_nat_dumped by done. done.
  - rewrite Hpos, load_nat_dumped by done. done.
  - cbn [app expect]. rewrite bool_decide_eq_true_2, load_nat_dumped by done. done.
Qed.

(** ** Objects *)
Lemma dict_set_fresh {A} (k : string) (v : A) (l : list (string * A)) :
  k ∉ l.*1 → dict_set k v l = l ++ [(k, v)].
Proof.
  induction l as [|[k' v'] l IH]; simpl; [done|]. rewrite not_elem_of_cons. intros [Hk Hl].
  rewrite bool_decide_eq_false_2 by done. by rewrite IH.
Qed.
Lemma dict_of_NoDup {A} (l : list (string * A)) : NoDup l.*1 → dict_of l = l.
Proof.
  unfold dict_of. change l with ([] ++ l) at 1 3. generalize (@nil (string * A)) as acc.
  induction l as [|[k v] l IH]; intros acc Hnd; [by rewrite app_nil_r|]. simpl.
  rewrite dict_set_fresh.
  - rewrite IH; rewrite <-app_assoc; done.
  - rewrite fmap_app in Hnd. apply NoDup_app in Hnd as (_ & Hd & _).
    intros Hk. by apply (Hd k Hk), elem_of_cons; left.
Qed.

(** ** Documents

    [fuel_of j] bounds the nesting of calls on [dump j], and is within the fuel
    [loads] starts with. *)
Fixpoint fuel_of (j : json) : nat :=
  match j with
  | JArr l => S (foldr (λ j n, S (fuel_of j + n)) 0 l)
  | JObj l => S (foldr (λ kj n, S (fuel_of kj.2 + n)) 0 l)
  | _ => 1
  end.

Lemma length_intersperse {A} (sep : list A) (l : list (list A)) :
  sep ≠ [] → length (mjoin l) + length l ≤ S (length (intersperse sep l)).
Proof.
  destruct sep as [|c sep]; [done|intros _]. induction l as [|x [|y l] IH]; simpl in *; [lia|..].
  - rewrite length_app. simpl. lia.
  - rewrite !length_app in *. simpl in *. rewrite !length_app in *. lia.
Qed.

Lemma fuel_fold {A} (g : A → nat) (f : A → chars) (l : list A) :
  Forall (λ a, g a ≤ 2 * length (f a)) l →
  foldr (λ a n, S (g a + n)) 0 l ≤ 2 * length (mjoin (map f l)) + length l.
Proof. induction 1 as [|a l Ha _ IH]; simpl; [lia|]. rewrite length_app. lia. Qed.

Lemma fuel_of_length (j : json) : fuel_of j ≤ 2 * length (dump j).
Proof.
  induction j as [|b|z|s|l IH|l IH] using json_nested_ind; cbn [fuel_of dump].
  - simpl. lia.
  - destruct b; simpl; lia.
  - destruct (dec_Z_head z) as (c & l & -> & _). simpl. lia.
  - unfold dump_str. simpl. rewrite length_app. simpl. lia.
  - cbn [length]. rewrite length_app. cbn [length].
    pose proof (fuel_fold fuel_of dump l IH).
    pose proof (length_intersperse (to_chars ", ") (map dump l) ltac:(done)) as Hl.
    rewrite length_map in Hl. lia.
  - cbn [length]. rewrite length_app. cbn [length].
    set (f := λ kj : string * json, dump_str kj.1 ++ to_chars ": " ++ dump kj.2).
    assert (Forall (λ kj, fuel_of kj.2 ≤ 2 * length (f kj)) l) as Hf%fuel_fold.
    { eapply Forall_impl; [exact IH|]. intros [k j] Hj. unfold f. rewrite !length_app. simpl in *. lia. }
    pose proof (length_intersperse (to_chars ", ") (map f l) ltac:(done)) as Hl.
    rewrite length_map in Hl. lia.
Qed.

Section load.
Local Open Scope nat_scope.

Definition reads_back (j : json) : Prop :=
  ∀ fuel r, fuel_of j ≤ fuel → no_digit r → load fuel (dump j ++ r) = Some (j, r).

(** The white space a separator leaves before the next element. *)
Lemma load_skip fuel l : load fuel (" "%char :: l) = load fuel l.
Proof. by destruct fuel. Qed.

Lemma load_elems_skip fuel l : load_elems fuel (" "%char :: l) = load_elems fuel l.
Proof. destruct fuel; [done|]. cbn. by rewrite load_skip. Qed.
Lemma load_pairs_skip fuel l : load_pairs fuel (" "%char :: l) = load_pairs fuel l.
Proof. by destruct fuel. Qed.

Lemma intersperse_cons {A} (sep x y : list A) (l : list (list A)) :
  intersperse sep (x :: y :: l) = x ++ sep ++ intersperse sep (y :: l).
Proof. done. Qed.

Lemma load_elems_dumped l fuel r :
  l ≠ [] → Forall reads_back l → foldr (λ j n, S (fuel_of j + n)) 0 l ≤ fuel →
  load_elems fuel (intersperse (to_chars ", ") (map dump l) ++ "]"%char :: r) = Some (l, r).
Proof.
  intros Hne Hl. revert fuel r Hne. induction Hl as [|j l Hj Hl IH]; [done|].
  intros [|fuel] r _ Hf; [simpl in Hf; lia|]. cbn [foldr] in Hf.
  destruct l as [|j' l].
  - cbn [map intersperse load_elems]. rewrite Hj by (lia || by intros c ? [= <- _]). done.
  - specialize (IH fuel r ltac:(done) ltac:(lia)). revert IH.
    rewrite !map_cons, intersperse_cons, <-!app_assoc.
    generalize (intersperse (to_chars ", ") (dump j' :: map dump l) ++ "]"%char :: r).
    intros tl IH. cbn [load_elems]. rewrite Hj by (lia || by intros c ? [= <- _]). cbn -[skip to_chars N_of_ascii].
    change (skip (to_chars ", " ++ tl)) with (","%char :: " "%char :: tl). cbv iota.
    change (N_of_ascii ","%char =? 44)%N with true. by rewrite load_elems_skip, IH.
Qed.

(** The key of a pair and the separator after it. *)
Lemma load_pairs_key fuel k l :
  load_pairs (S fuel) (dump_str k ++ to_chars ": " ++ l) =
  '(j, r) ← load fuel l;
  match skip r with
  | c :: r =>
      if (N_of_ascii c =? 44)%N then '(kjs, r) ← load_pairs fuel r; Some ((k, j) :: kjs, r)
      else if (N_of_ascii c =? 125)%N then Some ([(k, j)], r) else None
  | [] => None
  end.
Proof.
  unfold dump_str. rewrite <-app_comm_cons, <-app_assoc. cbn [load_pairs].
  change (skip (dquote :: ?x)) with (dquote :: x). change (expect dquote (dquote :: ?x)) with (Some x).
  cbn -[skip to_chars N_of_ascii load_str load]. rewrite load_str_dumped.
  cbn -[skip to_chars N_of_ascii load]. 
  change (skip (to_chars ": " ++ l)) with (":"%char :: " "%char :: l).
  change (expect ":"%char (":"%char :: ?x)) with (Some x).
  cbn -[skip N_of_ascii load]. by rewrite load_skip.
Qed.

Lemma load_pairs_dumped l fuel r :
  l ≠ [] → Forall (λ kj, reads_back kj.2) l → foldr (λ kj n, S (fuel_of kj.2 + n)) 0 l ≤ fuel →
  load_pairs fuel (intersperse (to_chars ", ")
    (map (λ kj, dump_str kj.1 ++ to_chars ": " ++ dump kj.2) l) ++ "}"%char :: r) = Some (l, r).
Proof.
  intros Hne Hl. revert fuel r Hne. induction Hl as [|[k j] l Hj Hl IH]; [done|].
  intros [|fuel] r _ Hf; [simpl in Hf; lia|]. cbn [foldr fst snd] in Hf, Hj.
  destruct l as [|kj' l].
  - cbn [map intersperse fst snd]. rewrite <-!app_assoc, load_pairs_key, Hj by (lia || by intros c ? [= <- _]). done.
  - specialize (IH fuel r ltac:(done) ltac:(lia)). revert IH.
    rewrite !map_cons, intersperse_cons, <-!app_assoc. cbn [fst snd].
    match goal with |- context [intersperse _ (?h :: ?t) ++ _] =>
      generalize (intersperse (to_chars ", ") (h :: t) ++ "}"%char :: r) end.
    intros tl IH. rewrite load_pairs_key, Hj by (lia || by intros c ? [= <- _]). cbn -[skip to_chars N_of_ascii].
    change (skip (to_chars ", " ++ tl)) with (","%char :: " "%char :: tl). cbv iota.
    change (N_of_ascii ","%char =? 44)%N with true. by rewrite load_pairs_skip, IH.
Qed.

End load.

(** A document starts with a character that is neither blank nor a bracket
    that closes. *)
Lemma dump_head (j : json) :
  ∃ c t, dump j = c :: t ∧ is_space c = false ∧ ∀ r, expect "]"%char (c :: r) = None.
Proof.
  destruct j as [|[]|z| | |]; [..|do 2 eexists; (split; [reflexivity|done])|
    do 2 eexists; (split; [reflexivity|done])|do 2 eexists; (split; [reflexivity|done])];
    [do 2 eexists; (split; [reflexivity|done])..|].
  cbn [dump]. destruct (dec_Z_head z) as (c & l & -> & Hc). exists c, l. split; [done|].
  destruct c as [[] [] [] [] [] [] [] []]; by destruct Hc.
Qed.

Lemma intersperse_head {A} (sep x : list A) (l : list (list A)) :
  ∃ t, intersperse sep (x :: l) = x ++ t.
Proof. destruct l; [exists []; by rewrite app_nil_r|by eexists]. Qed.
Lemma elems_not_closed (j : json) (l : list json) (r : chars) :
  expect "]"%char (skip (intersperse (to_chars ", ") (map dump (j :: l)) ++ r)) = None.
Proof.
  rewrite map_cons. destruct (intersperse_head (to_chars ", ") (dump j) (map dump l)) as [t ->].
  destruct (dump_head j) as (c & t' & -> & Hc & Hb). simpl. rewrite Hc. apply Hb.
Qed.
Lemma pairs_not_closed (f : string * json → chars) kj (l : list (string * json)) (r : chars) :
  expect "}"%char (skip (intersperse (to_chars ", ")
    (map (λ kj, dump_str kj.1 ++ f kj) (kj :: l)) ++ r)) = None.
Proof.
  rewrite map_cons.
  match goal with |- context [intersperse ?s (?x :: ?m)] =>
    destruct (intersperse_head s x m) as [t ->] end. done.
Qed.

(** A digit or a minus sign leads to [load_int]. *)
Lemma load_number fuel c l :
  is_digit c = true ∨ c = "-"%char →
  load (S fuel) (c :: l) = ('(z, r) ← load_int (c :: l); Some (JInt z, r)).
Proof. intros Hc. destruct c as [[] [] [] [] [] [] [] []]; try done; by destruct Hc. Qed.
Lemma load_dumped (j : json) : json_ok j → reads_back j.
Proof.
  induction j as [|b|z|s|l IH|l IH] using json_nested_ind; intros Hok [|fuel] r Hf Hr;
    try (simpl in Hf; lia).
  - done.
  - by destruct b.
  - cbn [dump]. pose proof (load_int_dumped z r Hr) as Hz.
    destruct (dec_Z_head z) as (c & l & Hcl & Hc). rewrite Hcl in *. cbn [app] in *.
    by rewrite (load_number fuel c), Hz.
  - cbn [dump]. unfold dump_str. rewrite <-app_comm_cons, <-app_assoc. cbn [load].
    change (skip (dquote :: ?x)) with (dquote :: x). cbv iota.
    change (N_of_ascii dquote =? 34)%N with true. cbn -[load_str to_chars].
    by rewrite load_str_dumped.
  - inversion Hok as [| | | |? Hl|]; subst. cbn [fuel_of] in Hf.
    assert (Forall reads_back l) as HF.
    { apply Forall_forall. intros j Hj. by apply (proj1 (Forall_forall _ _) IH j), (proj1 (Forall_forall _ _) Hl j). }
    destruct l as [|j l]; [done|].
    pose proof (load_elems_dumped (j :: l) fuel r ltac:(done) HF ltac:(lia)) as Hload.
    cbn [dump]. rewrite <-app_comm_cons, <-app_assoc. cbn [load].
    change (skip ("["%char :: ?x)) with ("["%char :: x). cbv iota zeta.
    change (N_of_ascii "["%char =? 34)%N with false. change (N_of_ascii "["%char =? 91)%N with true.
    cbv iota. change (["]"%char] ++ r) with ("]"%char :: r). by rewrite elems_not_closed, Hload.
  - inversion Hok as [| | | | |? Hnd Hl]; subst. cbn [fuel_of] in Hf.
    assert (Forall (λ kj, reads_back kj.2) l) as HF.
    { apply Forall_forall. intros j Hj. by apply (proj1 (Forall_forall _ _) IH j), (proj1 (Forall_forall _ _) Hl j). }
    destruct l as [|j l]; [done|].
    pose proof (load_pairs_dumped (j :: l) fuel r ltac:(done) HF ltac:(lia)) as Hload.
    cbn [dump]. rewrite <-app_comm_cons, <-app_assoc. cbn [load].
    change (skip ("{"%char :: ?x)) with ("{"%char :: x). cbv iota zeta.
    change (N_of_ascii "{"%char =? 34)%N with false. change (N_of_ascii "{"%char =? 91)%N with false.
    change (N_of_ascii "{"%char =? 123)%N with true.
    cbv iota. change (["}"%char] ++ r) with ("}"%char :: r).
    rewrite pairs_not_closed, Hload. simpl. by rewrite dict_of_NoDup.
Qed.

Theorem loads_dumps (j : json) : json_ok j → loads (dumps j) = Some j.
Proof.
  intros Hj. unfold loads, dumps. rewrite to_of_chars.
  pose proof (fuel_of_length j) as Hf.
  pose proof (load_dumped j Hj (2 + 2 * length (dump j)) [] ltac:(lia) ltac:(done)) as Hl.
  rewrite app_nil_r in Hl. by rewrite Hl.
Qed.
