(* ===== verification/Registry.v ===== *)
(** * The routing registries as sets

    Membership in the three registries after each of their updates, and the
    invariant that ties them together: routing state exists for connected users
    only, and a group that routes to a user is remembered for them; conversely,
    a group remembered for a user routes to them until its deletion. *)

From S2P Require Export WebSocket.

(** ** [defaultdict(set)] *)
Section dd.
Context {A : Type} `{Countable A}.
Implicit Types (m : gmap UUID (gset A)) (k : UUID) (x y : A).

(** No key keeps an empty set. *)
Definition full (m : gmap UUID (gset A)) : Prop := map_Forall (λ _ s, s ≠ ∅) m.

Lemma dd_insert m k k' s : dd (<[k := s]> m) k' = if decide (k' = k) then s else dd m k'.
Proof. unfold dd. rewrite lookup_insert. repeat case_decide; simpl; congruence. Qed.
Lemma dd_delete m k k' : dd (delete k m) k' = if decide (k' = k) then ∅ else dd m k'.
Proof. unfold dd. rewrite lookup_delete. repeat case_decide; simpl; congruence. Qed.

Lemma elem_of_dd_add k x m k' y :
  y ∈ dd (dd_add k x m) k' ↔ (k' = k ∧ y = x) ∨ y ∈ dd m k'.
Proof. unfold dd_add. rewrite dd_insert. case_decide; subst; set_solver. Qed.
Lemma elem_of_dd_discard k x m k' y :
  y ∈ dd (dd_discard k x m) k' ↔ y ∈ dd m k' ∧ ¬ (k' = k ∧ y = x).
Proof.
  unfold dd_discard. case_decide as Hs; rewrite ?dd_delete, ?dd_insert; case_decide; subst; set_solver.
Qed.

Lemma full_insert m k s : s ≠ ∅ → full m → full (<[k := s]> m).
Proof. intros. by apply map_Forall_insert_2. Qed.
Lemma full_delete m k : full m → full (delete k m).
Proof. apply map_Forall_delete. Qed.
Lemma full_dd_add k x m : full m → full (dd_add k x m).
Proof. apply full_insert. set_solver. Qed.
Lemma full_dd_discard k x m : full m → full (dd_discard k x m).
Proof. intros. unfold dd_discard. case_decide; [by apply full_delete|by apply full_insert]. Qed.

Lemma full_is_Some m k : full m → is_Some (m !! k) ↔ dd m k ≠ ∅.
Proof.
  intros Hm. unfold dd. destruct (m !! k) as [s|] eqn:Hk; simpl.
  - split; [intros _; by apply (Hm k)|eauto].
  - split; [by intros [??]|done].
Qed.
Lemma dd_is_Some m k x : x ∈ dd m k → is_Some (m !! k).
Proof. unfold dd. destruct (m !! k); [eauto|set_solver]. Qed.
End dd.
#[export] Hint Resolve full_dd_add full_dd_discard full_insert full_delete : py.

(** ** All the groups of a user at once *)
Section groups.
Implicit Types (gc : gmap UUID (gset UUID)) (u v g : UUID) (gs : gset UUID).

Lemma elem_of_join_all u gs gc g v :
  v ∈ dd (join_all u gs gc) g ↔ (g ∈ gs ∧ v = u) ∨ v ∈ dd gc g.
Proof.
  unfold join_all. revert g v.
  apply (set_fold_ind_L (λ r X, ∀ g v, v ∈ dd r g ↔ (g ∈ X ∧ v = u) ∨ v ∈ dd gc g)).
  - set_solver.
  - intros g X r _ IH g' v. rewrite elem_of_dd_add, IH. set_solver.
Qed.
Lemma elem_of_leave_all u gs gc g v :
  v ∈ dd (leave_all u gs gc) g ↔ v ∈ dd gc g ∧ ¬ (g ∈ gs ∧ v = u).
Proof.
  unfold leave_all. revert g v.
  apply (set_fold_ind_L (λ r X, ∀ g v, v ∈ dd r g ↔ v ∈ dd gc g ∧ ¬ (g ∈ X ∧ v = u))).
  - set_solver.
  - intros g X r _ IH g' v. rewrite elem_of_dd_discard, IH. set_solver.
Qed.
Lemma full_join_all u gs gc : full gc → full (join_all u gs gc).
Proof.
  intros. unfold join_all. apply (set_fold_ind_L (λ r _, full r)); [done|]. auto with py.
Qed.
Lemma full_leave_all u gs gc : full gc → full (leave_all u gs gc).
Proof.
  intros. unfold leave_all. apply (set_fold_ind_L (λ r _, full r)); [done|]. auto with py.
Qed.

Lemma elem_of_forget_all g us ug h v :
  h ∈ dd (fold_left (λ ug u, forget_member g u ug) us ug) v ↔
  h ∈ dd ug v ∧ ¬ (h = g ∧ v ∈ us).
Proof.
  revert ug. induction us as [|u us IH]; intros ug; simpl; [set_solver|].
  rewrite IH. assert (h ∈ dd (forget_member g u ug) v ↔ h ∈ dd ug v ∧ ¬ (h = g ∧ v = u)) as ->.
  - unfold forget_member. destruct (ug !! u) as [s|] eqn:Hu.
    + rewrite dd_insert. case_decide; [subst|set_solver]. unfold dd. rewrite Hu. set_solver.
    + split; [|tauto]. intros Hh. split; [done|]. intros [_ ->].
      unfold dd in Hh. rewrite Hu in Hh. set_solver.
  - rewrite elem_of_cons. tauto.
Qed.
Lemma forget_all_is_Some g us ug v :
  is_Some (fold_left (λ ug u, forget_member g u ug) us ug !! v) ↔ is_Some (ug !! v).
Proof.
  revert ug. induction us as [|u us IH]; intros ug; simpl; [done|]. rewrite IH.
  unfold forget_member. destruct (ug !! u) eqn:Hu; [|done].
  rewrite lookup_insert_is_Some. destruct (decide (u = v)) as [->|]; [rewrite Hu|]; naive_solver.
Qed.
End groups.
#[export] Hint Resolve full_join_all full_leave_all : py.

(** ** The invariant *)
Record registry_ok (m : Manager) : Prop := {
  (* A user with an entry has a socket; a group with an entry has a member. *)
  connections_full : full (local_connections m);
  groups_full : full (group_connections m);
  (* Members are remembered under their own entry, *)
  members_tracked u g : u ∈ dd (group_connections m) g → g ∈ dd (user_groups m) u;
  (* and only connected users have one. *)
  tracked_connected u : is_Some (user_groups m !! u) → is_Some (local_connections m !! u);
  (* A socket belongs to one user. *)
  socket_owner u v ws : ws ∈ dd (local_connections m) u → ws ∈ dd (local_connections m) v → u = v;
}.

Lemma member_connected m u g :
  registry_ok m → u ∈ dd (group_connections m) g → ∃ ws, ws ∈ dd (local_connections m) u.
Proof.
  intros Hm Hu. apply set_choose_L, full_is_Some; [by apply Hm|].
  apply tracked_connected; [done|]. eapply dd_is_Some, members_tracked; eauto.
Qed.

Lemma new_manager_ok : registry_ok new_manager.
Proof. split; try apply map_Forall_empty; try done; unfold dd; simpl; intros *; rewrite ?lookup_empty; set_solver. Qed.

(** ** Preservation *)

(** No user holds [ws] yet. *)
Definition unowned (ws : Socket) (m : Manager) : Prop := ∀ u, ws ∉ dd (local_connections m) u.

Lemma add_socket_ok u ws m : unowned ws m → registry_ok m → registry_ok (add_socket u ws m).
Proof.
  intros Hws [Hl Hg Ht Hc Ho]. split; simpl; auto with py.
  - intros v Hv. unfold dd_add. rewrite lookup_insert_is_Some. destruct (decide (u = v)); auto.
  - intros v v' ws'. rewrite !elem_of_dd_add. specialize (Hws). unfold unowned in Hws.
    intros [[-> ->]|Hv] [[-> Heq]|Hv']; subst; try done; try (exfalso; by eapply Hws). eauto.
Qed.

(** While a socket is open, [merge_groups] merges the loaded groups. *)
Lemma merge_groups_connected u ws gs m :
  ws ∈ dd (local_connections m) u →
  merge_groups u ws gs m = MkManager (local_connections m) (join_all u gs (group_connections m))
                         (<[u := dd (user_groups m) u ∪ gs]> (user_groups m)).
Proof.
  intros Hws. unfold merge_groups.
  by rewrite !bool_decide_eq_true_2 by (done || by eapply dd_is_Some).
Qed.
Lemma merge_groups_ok u ws gs m : registry_ok m → registry_ok (merge_groups u ws gs m).
Proof.
  intros Hm. unfold merge_groups. repeat case_bool_decide; simpl; try done.
  destruct Hm as [Hl Hg Ht Hc Ho]. split; simpl; auto with py.
  - intros v g. rewrite elem_of_join_all, dd_insert. specialize (Ht v g).
    case_decide; subst; set_solver.
  - intros v. rewrite lookup_insert_is_Some. intros [->|[_ Hv]]; auto.
Qed.

Lemma difference_empty_subseteq (X : gset Socket) ws : X ∖ {[ws]} = ∅ → X ⊆ {[ws]}.
Proof.
  intros HX x Hx. apply elem_of_singleton. destruct (decide (x = ws)) as [|Hne]; [done|].
  assert (x ∈ X ∖ {[ws]}) as Hin by (by apply elem_of_difference; rewrite not_elem_of_singleton).
  rewrite HX in Hin. by apply not_elem_of_empty in Hin.
Qed.
Lemma dd_discard_socket u ws lc :
  dd (discard_socket u ws lc) u = dd lc u ∖ {[ws]} ∧ delete u (discard_socket u ws lc) = delete u lc.
Proof.
  unfold discard_socket, dd. destruct (lc !! u) as [s|] eqn:Hu.
  - by rewrite lookup_insert_eq, delete_insert_eq.
  - rewrite Hu. split; [set_solver|done].
Qed.

(** The last socket of a user takes all of its routing state along. *)
Lemma drop_last u ws m m' :
  registry_ok m → drop_socket u ws m = (m', true) →
  dd (local_connections m) u ⊆ {[ws]} ∧
  local_connections m' = delete u (local_connections m) ∧
  user_groups m' = delete u (user_groups m) ∧
  ∀ g v, v ∈ dd (group_connections m') g ↔ v ∈ dd (group_connections m) g ∧ v ≠ u.
Proof.
  intros Hm. unfold drop_socket. pose proof (dd_discard_socket u ws (local_connections m)) as [Hu Hd].
  case_decide as Hlc; [|done]. intros [= <-]. simpl. rewrite Hu in Hlc. split_and!; [by apply difference_empty_subseteq|done..|].
  intros g v. rewrite elem_of_leave_all. pose proof (members_tracked m Hm v g) as Ht.
  split; intros [Hv Hn]; (split; [done|]); [intros ->; apply Hn; auto|by intros [_ ?]].
Qed.
Lemma drop_other u ws m m' :
  drop_socket u ws m = (m', false) →
  (∃ ws', ws' ≠ ws ∧ ws' ∈ dd (local_connections m) u) ∧
  group_connections m' = group_connections m ∧ user_groups m' = user_groups m ∧
  local_connections m' = <[u := dd (local_connections m) u ∖ {[ws]}]> (local_connections m).
Proof.
  unfold drop_socket. pose proof (dd_discard_socket u ws (local_connections m)) as [Hu _].
  rewrite Hu. case_decide as Hs; [done|]. intros [= <-]. simpl. split_and!; try done.
  - apply set_choose_L in Hs as [ws' Hws']. set_solver.
  - unfold discard_socket, dd in *. by destruct (local_connections m !! u); [|set_solver].
Qed.
Lemma drop_socket_ok u ws m : registry_ok m → registry_ok (drop_socket u ws m).1.
Proof.
  intros Hm. destruct (drop_socket u ws m) as [m' []] eqn:Hd; simpl.
  - pose proof (drop_last _ _ _ _ Hm Hd) as (_ & HL & HU & HG). 
    assert (full (group_connections m')).
    { unfold drop_socket in Hd. case_decide; [|done]. injection Hd as <-. simpl.
      apply full_leave_all, Hm. }
    destruct Hm as [Hl Hg Ht Hc Ho]. split; [rewrite HL; auto with py|done|..].
    + intros v g. rewrite HG, HU, dd_delete. intros [Hv Hne]. rewrite decide_False by done. auto.
    + intros v. rewrite HU, HL, !lookup_delete_is_Some. naive_solver.
    + intros v v' ws'. rewrite HL, !dd_delete. repeat case_decide; set_solver.
  - apply drop_other in Hd as ((ws' & Hne & Hws') & HG & HU & HL).
    destruct Hm as [Hl Hg Ht Hc Ho]. split; rewrite ?HG, ?HU; try done.
    + rewrite HL. apply full_insert; [set_solver|done].
    + intros v Hv. rewrite HL, lookup_insert_is_Some. destruct (decide (u = v)); auto.
    + intros v v' ws''. rewrite HL, !dd_insert. repeat case_decide; subst; set_solver.
Qed.

Lemma join_group_ok u g m : registry_ok m → registry_ok (join_group u g m).
Proof.
  intros Hm. unfold join_group. case_bool_decide as Hu; [|done].
  destruct Hm as [Hl Hg Ht Hc Ho]. split; simpl; auto with py.
  - intros v h. rewrite !elem_of_dd_add. specialize (Ht v h). naive_solver.
  - intros v. unfold dd_add. rewrite lookup_insert_is_Some. intros [<-|[_ Hv]]; auto.
Qed.
Lemma leave_group_ok u g m : registry_ok m → registry_ok (leave_group u g m).
Proof.
  intros [Hl Hg Ht Hc Ho]. split; simpl; auto with py.
  - intros v h. rewrite elem_of_dd_discard. intros [Hv Hne]. apply Ht in Hv.
    unfold dd in Hv |- *. destruct (user_groups m !! u) as [s|] eqn:Hu; [|done].
    rewrite lookup_insert. case_decide; subst; simpl; [|done]. rewrite Hu in Hv. set_solver.
  - intros v. destruct (user_groups m !! u) as [s|] eqn:Hu; [|apply Hc].
    rewrite lookup_insert_is_Some. intros [<-|[_ Hv]]; eauto.
Qed.
(** Whatever members a deletion remembers, forgetting the group is safe. *)
Lemma forget_group_ok g us m : registry_ok m → registry_ok (forget_group g us m).
Proof.
  intros [Hl Hg Ht Hc Ho]. split; simpl; auto with py.
  - intros v h. rewrite dd_delete, elem_of_forget_all. case_decide; [set_solver|].
    intros Hv. split; [auto|]. by intros [-> _].
  - intros v. rewrite forget_all_is_Some. auto.
Qed.
Lemma handle_membership_change_ok j m r m' :
  registry_ok m → handle_membership_change j m = (r, m') → registry_ok m'.
Proof.
  intros Hm. unfold handle_membership_change. repeat case_match; intros [= <- <-]; try done.
  - by apply join_group_ok.
  - by apply leave_group_ok.
Qed.

(** ** The other direction: what is remembered is routed

    Every update but [forget_group g] changes the two registries of [g] alike. *)
Definition remembered_routed (g : UUID) (m : Manager) : Prop :=
  ∀ u, g ∈ dd (user_groups m) u → u ∈ dd (group_connections m) g.

Lemma merge_groups_routed g u ws gs m :
  remembered_routed g m → remembered_routed g (merge_groups u ws gs m).
Proof.
  intros Hm. unfold merge_groups. destruct (_ && _); [|done]. intros v. cbn.
  rewrite dd_insert, elem_of_join_all. specialize (Hm v). case_decide; subst; set_solver.
Qed.
Lemma drop_socket_routed g u ws m :
  registry_ok m → remembered_routed g m → remembered_routed g (drop_socket u ws m).1.
Proof.
  intros Hok Hm. destruct (drop_socket u ws m) as [m' []] eqn:Hd; cbn; intros v.
  - apply drop_last in Hd as (_ & _ & -> & HG); [|done]. rewrite dd_delete, HG.
    case_decide; [by intros ?%elem_of_empty|]. intros Hg. split; [by apply Hm|done].
  - apply drop_other in Hd as (_ & -> & -> & _). apply Hm.
Qed.
Lemma join_group_routed g u h m : remembered_routed g m → remembered_routed g (join_group u h m).
Proof.
  intros Hm. unfold join_group. case_match; [|done]. intros v. cbn.
  rewrite !elem_of_dd_add. specialize (Hm v). naive_solver.
Qed.
Lemma leave_group_routed g u h m : remembered_routed g m → remembered_routed g (leave_group u h m).
Proof.
  intros Hm v. cbn. rewrite elem_of_dd_discard. specialize (Hm v).
  destruct (user_groups m !! u) as [gs|] eqn:Hu.
  - rewrite dd_insert. case_decide; [subst|naive_solver]. intros [Hg Hne]%elem_of_difference.
    split; [|set_solver]. apply Hm. unfold dd. by rewrite Hu.
  - intros Hg. split; [by apply Hm|]. intros [_ ->]. unfold dd in Hg. rewrite Hu in Hg.
    by apply elem_of_empty in Hg.
Qed.
Lemma forget_group_routed g h us m :
  g ≠ h → remembered_routed g m → remembered_routed g (forget_group h us m).
Proof.
  intros Hne Hm v. cbn. rewrite elem_of_forget_all, dd_delete, decide_False by done.
  intros [Hg _]. by apply Hm.
Qed.
Lemma membership_routed g j m :
  remembered_routed g m → remembered_routed g (handle_membership_change j m).2.
Proof.
  intros Hm. unfold handle_membership_change. repeat case_match; cbn; try done;
    auto using join_group_routed, leave_group_routed.
Qed.
