(* ===== verification/Interleaving.v ===== *)
(** * Interleavings of a worker's coroutines (services/websocket.py, api/routers/websocket.py)

    The event loop switches coroutines at their awaits only. A coroutine
    waiting at an await is a value of [Coroutine]; one step runs one of them up
    to its next await, in any order, against a Redis server that answers or
    fails and that other workers use too. *)

From S2P Require Export Registry.

Inductive Coroutine :=
| RegisterRedis (u : UUID) (ws : Socket)       (* before [add_active_user] answers *)
| RegisterQuery (u : UUID) (ws : Socket)       (* before the group query answers *)
| Serving (u : UUID) (ws : Socket)             (* the endpoint's receive loop *)
| AwaitLock (u : UUID) (ws : Socket)           (* [unregister_connection], before the lock *)
| RemoveDecr (u : UUID)                        (* lock held, before [hincrby] answers *)
| RemoveDel (u : UUID)                         (* lock held, before [hdel] answers *)
| DeletedSends (g : UUID) (members : list UUID). (* [_handle_group_deleted], sending *)

Record Node := MkNode {
  n_mgr : Manager;
  n_locked : gset UUID;              (* users whose [asyncio.Lock] is held *)
  n_next : Socket;                   (* sockets from here on are not created yet *)
  n_coros : list Coroutine;
}.
Definition start_node : Node := MkNode new_manager ∅ 0 [].

Section steps.
Context `{RedisServer}.

(** [remove_active_user] cut at its awaits. *)
Definition presence_decr (u : UUID) : redis_m Z := command (hincrby REDIS_KEY (str_uuid u) (-1)).
Definition presence_del (u : UUID) : redis_m Z := command (hdel REDIS_KEY (str_uuid u)).
Lemma remove_active_user_cut u :
  remove_active_user (str_uuid u) =
  handle_redis_errors (count ← presence_decr u;
    if (count <=? 0)%Z then _ ← presence_del u; mret tt else mret tt).
Proof. done. Qed.

Definition is_group_deleted (j : json) : bool :=
  json_is (EventType_value EV_GROUP_DELETED) (json_get "event" JNull (json_get "data" (JObj []) j)).

Implicit Types (m : Manager) (k : gset UUID) (n : Socket) (r : redis_t).

(** [step] of the scheduler: one coroutine leaves the list, its continuation
    enters it. *)
Inductive node_step : Node * redis_t → Node * redis_t → Prop :=
| step_connect m k n cs r u :
    node_step (MkNode m k n cs, r)
              (MkNode (add_socket u n m) k (S n) (RegisterRedis u n :: cs), r)
| step_registered m k n cs1 cs2 r r' u ws :
    add_active_user (str_uuid u) r = (Ok tt, r') →
    node_step (MkNode m k n (cs1 ++ RegisterRedis u ws :: cs2), r)
              (MkNode m k n (RegisterQuery u ws :: cs1 ++ cs2), r')
| step_register_fails m k n cs1 cs2 r r' u ws e :
    add_active_user (str_uuid u) r = (Raise e, r') →
    node_step (MkNode m k n (cs1 ++ RegisterRedis u ws :: cs2), r)
              (MkNode m k n (cs1 ++ cs2), r')
| step_loaded m k n cs1 cs2 r u ws (gs : gset UUID) :
    (* whatever the query answers; ∅ when it fails *)
    node_step (MkNode m k n (cs1 ++ RegisterQuery u ws :: cs2), r)
              (MkNode (merge_groups u ws gs m) k n (Serving u ws :: cs1 ++ cs2), r)
| step_disconnect m k n cs1 cs2 r u ws :
    node_step (MkNode m k n (cs1 ++ Serving u ws :: cs2), r)
              (MkNode m k n (AwaitLock u ws :: cs1 ++ cs2), r)
| step_drop_last m m' k n cs1 cs2 r u ws :
    u ∉ k → drop_socket u ws m = (m', true) →
    node_step (MkNode m k n (cs1 ++ AwaitLock u ws :: cs2), r)
              (MkNode m' ({[u]} ∪ k) n (RemoveDecr u :: cs1 ++ cs2), r)
| step_drop_other m m' k n cs1 cs2 r u ws :
    u ∉ k → drop_socket u ws m = (m', false) →
    node_step (MkNode m k n (cs1 ++ AwaitLock u ws :: cs2), r)
              (MkNode m' k n (cs1 ++ cs2), r)
| step_decr_zero m k n cs1 cs2 r r' u count :
    presence_decr u r = (Ok count, r') → (count <= 0)%Z →
    node_step (MkNode m k n (cs1 ++ RemoveDecr u :: cs2), r)
              (MkNode m k n (RemoveDel u :: cs1 ++ cs2), r')
| step_decr_done m k n cs1 cs2 r r' u o :
    presence_decr u r = (o, r') → (∀ count, o = Ok count → (0 < count)%Z) →
    node_step (MkNode m k n (cs1 ++ RemoveDecr u :: cs2), r)
              (MkNode m (k ∖ {[u]}) n (cs1 ++ cs2), r')
| step_del m k n cs1 cs2 r r' u o :
    presence_del u r = (o, r') →
    node_step (MkNode m k n (cs1 ++ RemoveDel u :: cs2), r)
              (MkNode m (k ∖ {[u]}) n (cs1 ++ cs2), r')
| step_message m k n cs r j :
    is_group_deleted j = false →
    node_step (MkNode m k n cs, r) (MkNode (dispatch_local_message j m).2 k n cs, r)
| step_group_deleted m k n cs r g :
    node_step (MkNode m k n cs, r)
              (MkNode m k n (DeletedSends g (group_deleted_members g m) :: cs), r)
| step_forget m k n cs1 cs2 r g us :
    node_step (MkNode m k n (cs1 ++ DeletedSends g us :: cs2), r)
              (MkNode (forget_group g us m) k n (cs1 ++ cs2), r)
| step_other_worker node r r' :
    node_step (node, r) (node, r').

Definition node_reachable (r : redis_t) : Node * redis_t → Prop :=
  rtc node_step (start_node, r).
(** A step that does not leave a deletion of [g] under way. *)
Definition step_sparing (g : UUID) (s s' : Node * redis_t) : Prop :=
  node_step s s' ∧ ∀ us, DeletedSends g us ∉ n_coros s'.1.

End steps.

(** ** The invariant of every interleaving *)

(** The socket a coroutine is responsible for, and the lock it holds. *)
Definition socket_of (c : Coroutine) : option (UUID * Socket) :=
  match c with
  | RegisterRedis u ws | RegisterQuery u ws | Serving u ws | AwaitLock u ws => Some (u, ws)
  | _ => None
  end.
Definition holder_of (c : Coroutine) : option UUID :=
  match c with RemoveDecr u | RemoveDel u => Some u | _ => None end.

Record node_ok (s : Node) : Prop := {
  node_registry : registry_ok (n_mgr s);
  (* An open socket is registered; each has one coroutine. *)
  node_open u ws : (u, ws) ∈ omap socket_of (n_coros s) → ws ∈ dd (local_connections (n_mgr s)) u;
  node_sockets : NoDup (omap socket_of (n_coros s)).*2;
  node_fresh u ws : ws ∈ dd (local_connections (n_mgr s)) u → (ws < n_next s)%nat;
  (* A lock is held by one coroutine, and only while it is. *)
  node_holders : NoDup (omap holder_of (n_coros s));
  node_locked u : u ∈ n_locked s ↔ u ∈ omap holder_of (n_coros s);
}.

Lemma start_node_ok : node_ok start_node.
Proof.
  split; simpl; [apply new_manager_ok|set_solver|constructor| |constructor|set_solver].
  intros u ws. unfold dd. simpl. rewrite lookup_empty. set_solver.
Qed.

(** Where a coroutine stands in the list does not matter. *)
Lemma node_ok_perm m k n cs cs' :
  cs ≡ₚ cs' → node_ok (MkNode m k n cs) → node_ok (MkNode m k n cs').
Proof.
  intros Hp [H1 H2 H3 H4 H5 H6]; simpl in *. split; simpl; [done|..|done| |].
  - intros u ws. rewrite <-Hp. auto.
  - by rewrite <-Hp.
  - by rewrite <-Hp.
  - intros u. by rewrite <-Hp.
Qed.

(** What every step but the last removal of a socket does to the connections. *)
Definition keeps_connections (m m' : Manager) : Prop :=
  registry_ok m → registry_ok m' ∧ local_connections m' = local_connections m.

Lemma merge_groups_keeps u ws gs m : keeps_connections m (merge_groups u ws gs m).
Proof.
  intros Hm. split; [by apply merge_groups_ok|]. unfold merge_groups. by destruct (_ && _).
Qed.
Lemma forget_keeps g us m : keeps_connections m (forget_group g us m).
Proof. intros Hm. split; [by apply forget_group_ok|done]. Qed.
Lemma membership_keeps j m : keeps_connections m (handle_membership_change j m).2.
Proof.
  intros Hm. destruct (handle_membership_change j m) as [o m'] eqn:Hh. simpl.
  split; [by eapply handle_membership_change_ok|]. revert Hh.
  unfold handle_membership_change, join_group. repeat case_match; by intros [= <- <-].
Qed.
Lemma dispatch_keeps j m :
  is_group_deleted j = false → keeps_connections m (dispatch_local_message j m).2.
Proof.
  unfold is_group_deleted, dispatch_local_message. intros Hj. rewrite Hj.
  repeat case_match; simpl; try done. apply membership_keeps.
Qed.

(** A coroutine moves on, keeping its socket and its lock; or it ends; or one
    without either starts. *)
Lemma node_moves m m' k n c c' cs :
  keeps_connections m m' → socket_of c' = socket_of c → holder_of c' = holder_of c →
  node_ok (MkNode m k n (c :: cs)) → node_ok (MkNode m' k n (c' :: cs)).
Proof.
  intros Hk Hs Hh [H1 H2 H3 H4 H5 H6]. destruct (Hk H1) as [Hr Hl].
  split; simpl in *; rewrite ?Hs, ?Hh, ?Hl; done.
Qed.
Lemma node_ends m m' k n c cs :
  keeps_connections m m' → holder_of c = None →
  node_ok (MkNode m k n (c :: cs)) → node_ok (MkNode m' k n cs).
Proof.
  intros Hk Hh [H1 H2 H3 H4 H5 H6]. destruct (Hk H1) as [Hr Hl].
  simpl in *. rewrite Hh in *. split; simpl; rewrite ?Hl; try done.
  - intros u ws Hin. apply H2. destruct (socket_of c); [by apply elem_of_cons; right|done].
  - destruct (socket_of c); [by apply NoDup_cons in H3 as [_ ?]|done].
Qed.
Lemma node_spawns m k n c cs :
  socket_of c = None → holder_of c = None →
  node_ok (MkNode m k n cs) → node_ok (MkNode m k n (c :: cs)).
Proof. intros Hs Hh [H1 H2 H3 H4 H5 H6]. split; simpl in *; rewrite ?Hs, ?Hh; done. Qed.
Lemma node_unlocks m k n c u cs :
  socket_of c = None → holder_of c = Some u →
  node_ok (MkNode m k n (c :: cs)) → node_ok (MkNode m (k ∖ {[u]}) n cs).
Proof.
  intros Hs Hh [H1 H2 H3 H4 H5 H6]. simpl in *. rewrite Hs in *. rewrite Hh in *.
  apply NoDup_cons in H5 as [Hu H5]. split; simpl; try done.
  intros v. rewrite elem_of_difference, H6, elem_of_cons, not_elem_of_singleton.
  split; [tauto|]. intros Hv. split; [auto|]. by intros ->.
Qed.

Lemma node_connects m k n u cs :
  node_ok (MkNode m k n cs) →
  node_ok (MkNode (add_socket u n m) k (S n) (RegisterRedis u n :: cs)).
Proof.
  intros [H1 H2 H3 H4 H5 H6]; simpl in *.
  assert (unowned n m) as Hn. { intros v Hv. apply H4 in Hv. lia. }
  split; simpl; try done.
  - by apply add_socket_ok.
  - intros v ws Hin. rewrite elem_of_dd_add. apply elem_of_cons in Hin as [[= -> ->]|Hin]; auto.
  - apply NoDup_cons. split; [|done]. intros Hin.
    apply list_elem_of_fmap in Hin as ([v ws] & ? & Hin). simplify_eq/=. by apply H2, Hn in Hin.
  - intros v ws. rewrite elem_of_dd_add. intros [[-> ->]|Hv]; [lia|]. apply H4 in Hv. lia.
Qed.

(** Removing one coroutine's socket leaves the others' in place. *)
Lemma node_drops m m' b k n u ws cs :
  u ∉ k → drop_socket u ws m = (m', b) →
  node_ok (MkNode m k n (AwaitLock u ws :: cs)) →
  node_ok (if b then MkNode m' ({[u]} ∪ k) n (RemoveDecr u :: cs) else MkNode m' k n cs).
Proof.
  intros Hu Hd [H1 H2 H3 H4 H5 H6]; simpl in *.
  pose proof (drop_socket_ok u ws m H1) as Hr. rewrite Hd in Hr. simpl in Hr.
  apply NoDup_cons in H3 as [Hws H3].
  assert (∀ v ws', ws' ∈ dd (local_connections m') v ↔
                   ws' ∈ dd (local_connections m) v ∧ ¬ (v = u ∧ ws' = ws)) as HL.
  { intros v ws'. destruct b.
    - apply drop_last in Hd as (Hsub & -> & _); [|done]. rewrite dd_delete. case_decide; set_solver.
    - apply drop_other in Hd as (_ & _ & _ & ->). rewrite dd_insert. case_decide; set_solver. }
  assert (∀ v ws', (v, ws') ∈ omap socket_of cs → ws' ∈ dd (local_connections m') v) as Hopen.
  { intros v ws' Hin. apply HL. split; [apply H2, elem_of_cons; auto|]. intros [-> ->].
    apply Hws, list_elem_of_fmap. by exists (u, ws). }
  assert (∀ v ws', ws' ∈ dd (local_connections m') v → (ws' < n)%nat) as Hfresh.
  { intros v ws' Hv. apply HL in Hv as [Hv _]. by eapply H4. }
  destruct b; split; simpl; try done.
  - apply NoDup_cons. split; [by rewrite <-H6|done].
  - intros v. rewrite elem_of_union, elem_of_singleton, elem_of_cons, H6. done.
Qed.

Section invariant.
Context `{RedisServer}.

Lemma node_step_ok s s' : node_step s s' → node_ok s.1 → node_ok s'.1.
Proof.
  intros Hs Hok.
  assert (∀ m, keeps_connections m m) as Hid by done.
  destruct Hs; simpl in *;
    try (eapply (node_ok_perm _ _ _ _ (_ :: _)) in Hok; [|symmetry; apply Permutation_middle]).
  - by apply node_connects.
  - eapply node_moves; [..|exact Hok]; done.
  - eapply node_ends; [..|exact Hok]; done.
  - eapply node_moves; [apply merge_groups_keeps|..|exact Hok]; done.
  - eapply node_moves; [..|exact Hok]; done.
  - by eapply (node_drops _ _ true).
  - by eapply (node_drops _ _ false).
  - eapply node_moves; [..|exact Hok]; done.
  - eapply node_unlocks; [..|exact Hok]; done.
  - eapply node_unlocks; [..|exact Hok]; done.
  - destruct Hok as [H1 H2 H3 H4 H5 H6]. simpl in *.
    destruct (dispatch_keeps j m H0 H1) as [Hr Hl]. split; simpl; rewrite ?Hl; done.
  - by apply node_spawns.
  - eapply node_ends; [apply forget_keeps|..|exact Hok]; done.
  - done.
Qed.

Lemma node_reachable_ok r s : node_reachable r s → node_ok s.1.
Proof.
  intros Hr. unfold node_reachable in Hr. revert Hr. generalize start_node_ok.
  change start_node with (start_node, r).1 at 1. intros Hok Hr. induction Hr; eauto using node_step_ok.
Qed.

(** While no deletion of [g] is handled, what is remembered of it is routed. *)
Lemma step_sparing_routed g s s' :
  step_sparing g s s' → node_ok s.1 → (∀ us, DeletedSends g us ∉ n_coros s.1) →
  remembered_routed g (n_mgr s.1) → remembered_routed g (n_mgr s'.1).
Proof.
  intros [Hs _] Hok Hno Hm. destruct Hs; cbn in *; try done.
  - by apply merge_groups_routed.
  - pose proof (drop_socket_routed g u ws m (node_registry _ Hok) Hm) as Hd.
    by match goal with H : drop_socket _ _ _ = _ |- _ => rewrite H in Hd end.
  - pose proof (drop_socket_routed g u ws m (node_registry _ Hok) Hm) as Hd.
    by match goal with H : drop_socket _ _ _ = _ |- _ => rewrite H in Hd end.
  - match goal with H : is_group_deleted _ = false |- _ => revert H end.
    unfold is_group_deleted, dispatch_local_message. intros ->.
    repeat case_match; cbn; try done. by apply membership_routed.
  - apply forget_group_routed; [|done]. intros ->. apply (Hno us), elem_of_app. right. left.
Qed.
Lemma spared_routed g r s :
  rtc (step_sparing g) (start_node, r) s → remembered_routed g (n_mgr s.1).
Proof.
  intros Hr.
  assert (∀ s1, rtc (step_sparing g) s1 s → node_ok s1.1 → (∀ us, DeletedSends g us ∉ n_coros s1.1) →
    remembered_routed g (n_mgr s1.1) → remembered_routed g (n_mgr s.1)) as Hrun.
  { clear Hr. induction 1 as [|s1 s2 s3 Hs _ IH]; [done|]. intros Hok Hno Hm. apply IH.
    - eapply node_step_ok; [apply Hs|done].
    - apply Hs.
    - by eapply step_sparing_routed. }
  apply (Hrun _ Hr); cbn; [apply start_node_ok|by intros us ?%elem_of_nil|].
  intros u. unfold dd. cbn. rewrite lookup_empty. by intros ?%elem_of_empty.
Qed.

End invariant.
