(* ===== verification/Delivery.v ===== *)
(** * From a push to the frames it sends (services/websocket.py, redis/pubsub.py)

    What each spawned push publishes, and the frames that every worker which
    receives the published text attempts. The text goes through [dumps] and
    [loads]; the registries are those of a worker that satisfies
    [registry_ok]. *)

From S2P Require Export Interleaving JsonProofs Instances.

(** ** The payloads as documents *)

Lemma to_dict_ok e : json_ok (to_dict e).
Proof.
  unfold to_dict. constructor.
  - destruct e; simpl; repeat (apply NoDup_cons; split; [set_solver|]); constructor.
  - apply Forall_forall. intros kj (kv & -> & _)%list_elem_of_fmap. destruct kv as [k []]; constructor.
Qed.
Lemma payload_ok l : NoDup l.*1 → Forall json_ok l.*2 → json_ok (JObj l).
Proof. intros Hk Hv. apply ok_obj; [done|]. rewrite Forall_fmap in Hv. exact Hv. Qed.
Lemma membership_payload_ok e : json_ok (membership_payload e).
Proof. apply payload_ok; simpl; [apply NoDup_singleton|]. constructor; [apply to_dict_ok|done]. Qed.
Lemma user_payload_ok u e : json_ok (user_payload u e).
Proof.
  apply payload_ok; simpl; [repeat (apply NoDup_cons; split; [set_solver|]); constructor|].
  repeat first [apply Forall_cons_2|apply Forall_nil_2|apply to_dict_ok|apply ok_str].
Qed.
Lemma group_payload_ok g e s : json_ok (group_payload g e s).
Proof.
  apply payload_ok; simpl; [repeat (apply NoDup_cons; split; [set_solver|]); constructor|].
  repeat first [apply Forall_cons_2|apply Forall_nil_2|apply to_dict_ok|apply ok_str].
  by destruct s; constructor.
Qed.

Lemma on_message_dumps j m : json_ok j → on_message (dumps j) m = safe_dispatch j m.
Proof. intros Hj. unfold on_message. by rewrite loads_dumps. Qed.

(** ** Frames *)

Lemma elem_of_frames_to_user u j m ws d :
  (ws, d) ∈ send_frame_to_user_sockets u j m ↔ d = j ∧ ws ∈ dd (local_connections m) u.
Proof.
  unfold send_frame_to_user_sockets. rewrite list_elem_of_fmap. split.
  - by intros (ws' & [= -> ->] & Hws%elem_of_elements).
  - intros [-> Hws]. exists ws. by rewrite elem_of_elements.
Qed.
Lemma elem_of_frames_to_users us j m ws d :
  (ws, d) ∈ send_frame_to_users us j m ↔
  d = j ∧ ∃ u, u ∈ us ∧ ws ∈ dd (local_connections m) u.
Proof.
  unfold send_frame_to_users. rewrite list_elem_of_join. split.
  - intros (l & Hin & (u & -> & Hu)%list_elem_of_fmap).
    apply elem_of_frames_to_user in Hin as [-> Hws]. eauto.
  - intros [-> (u & Hu & Hws)]. exists (send_frame_to_user_sockets u j m).
    rewrite elem_of_frames_to_user. split; [done|]. apply list_elem_of_fmap. eauto.
Qed.
Lemma NoDup_frames_to_user u j m : NoDup (send_frame_to_user_sockets u j m).
Proof. apply NoDup_fmap_2; [by intros ?? [=]|apply NoDup_elements]. Qed.
Lemma NoDup_frames_to_users us j m :
  registry_ok m → NoDup us → NoDup (send_frame_to_users us j m).
Proof.
  intros Hm. unfold send_frame_to_users. induction 1 as [|u us Hu Hus IH]; simpl; [constructor|].
  apply NoDup_app. split_and!; [apply NoDup_frames_to_user| |done].
  intros [ws d] Hin Hin'. apply elem_of_frames_to_user in Hin as [-> Hws].
  apply (elem_of_frames_to_users us j m) in Hin' as [_ (v & Hv & Hws')].
  by rewrite (socket_owner m Hm u v ws) in Hu.
Qed.

(** [f] is sent to each open socket of the users [P] selects, once. *)
Definition delivers (j : json) (P : UUID → Prop) (m : Manager) (frames : list frame) : Prop :=
  NoDup frames ∧
  ∀ ws d, (ws, d) ∈ frames ↔ d = j ∧ ∃ u, P u ∧ ws ∈ dd (local_connections m) u.

Lemma delivers_user u j m P :
  (∀ v, P v ↔ v = u) → delivers j P m (send_frame_to_user_sockets u j m).
Proof.
  intros HP. split; [apply NoDup_frames_to_user|]. intros ws d.
  rewrite elem_of_frames_to_user. setoid_rewrite HP. naive_solver.
Qed.
Lemma delivers_users us j m P :
  registry_ok m → NoDup us → (∀ v, P v ↔ v ∈ us) → delivers j P m (send_frame_to_users us j m).
Proof.
  intros Hm Hus HP. split; [by apply NoDup_frames_to_users|]. intros ws d.
  rewrite elem_of_frames_to_users. by setoid_rewrite HP.
Qed.

(** ** Reading the payloads *)
Lemma json_to_uuid_str u : json_to_uuid (JStr (str_uuid u)) = Ok u.
Proof. unfold json_to_uuid. by rewrite parse_str_uuid. Qed.
Lemma json_truthy_uuid u : json_truthy (JStr (str_uuid u)) = true.
Proof. unfold json_truthy. by rewrite bool_decide_eq_false_2 by apply TokenCache.str_uuid_nonempty. Qed.

(** Events the dispatcher routes by the payload's address. *)
Definition routed (e : RedisEvent) : Prop :=
  event_type e ≠ EV_GROUP_MEMBERSHIP ∧ event_type e ≠ EV_GROUP_DELETED.

Lemma routed_is e : routed e →
  json_is (EventType_value EV_GROUP_MEMBERSHIP) (json_get "event" JNull (to_dict e)) = false ∧
  json_is (EventType_value EV_GROUP_DELETED) (json_get "event" JNull (to_dict e)) = false.
Proof. intros [H1 H2]. by destruct e. Qed.

Lemma dispatch_user u e m :
  routed e →
  safe_dispatch (user_payload u e) m = (send_frame_to_user_sockets u (to_dict e) m, m).
Proof.
  intros [H1 H2]%routed_is. unfold safe_dispatch, dispatch_local_message.
  change (is_dict (user_payload u e)) with true.
  change (json_get "data" (JObj []) (user_payload u e)) with (to_dict e).
  change (json_get "user_id" JNull (user_payload u e)) with (JStr (str_uuid u)).
  change (is_dict (to_dict e)) with true. cbv zeta. cbn [negb]. rewrite H1, H2, json_truthy_uuid.
  unfold dispatch_direct_message. by rewrite json_to_uuid_str.
Qed.

Lemma dispatch_group g e sender m :
  routed e →
  safe_dispatch (group_payload g e sender) m =
  (send_frame_to_users (filter (λ u, Some u ≠ sender) (elements (dd (group_connections m) g)))
     (to_dict e) m, m).
Proof.
  intros [H1 H2]%routed_is. unfold safe_dispatch, dispatch_local_message.
  change (is_dict (group_payload g e sender)) with true.
  change (json_get "data" (JObj []) (group_payload g e sender)) with (to_dict e).
  change (json_get "user_id" JNull (group_payload g e sender)) with JNull.
  change (json_get "group_id" JNull (group_payload g e sender)) with (JStr (str_uuid g)).
  change (is_dict (to_dict e)) with true. cbv zeta. cbn [negb]. rewrite H1, H2, json_truthy_uuid.
  cbn [json_truthy]. unfold dispatch_group_message.
  change (json_uuid "group_id" (group_payload g e sender)) with (json_to_uuid (JStr (str_uuid g))).
  change (json_get "sender_id" JNull (group_payload g e sender))
    with (match sender with Some s => JStr (str_uuid s) | None => JNull end).
  change (json_or_empty (json_get "data" JNull (group_payload g e sender))) with (to_dict e).
  rewrite json_to_uuid_str. destruct sender as [s|]; cbv zeta; [|done].
  by rewrite json_truthy_uuid, json_to_uuid_str.
Qed.

Lemma dispatch_membership act u g m :
  safe_dispatch (membership_payload (GroupMembershipEvent act u g)) m =
  (send_frame_to_user_sockets u (to_dict (GroupMembershipEvent act u g)) m,
   match act with JOIN => join_group u g m | LEAVE => leave_group u g m end).
Proof.
  set (e := GroupMembershipEvent act u g). unfold safe_dispatch, dispatch_local_message.
  change (is_dict (membership_payload e)) with true.
  change (json_get "data" (JObj []) (membership_payload e)) with (to_dict e).
  change (is_dict (to_dict e)) with true. cbv zeta. cbn [negb].
  change (json_is (EventType_value EV_GROUP_MEMBERSHIP) (json_get "event" JNull (to_dict e))) with true.
  unfold handle_membership_change.
  change (json_uuid "user_id" (to_dict e)) with (json_to_uuid (JStr (str_uuid u))).
  change (json_uuid "group_id" (to_dict e)) with (json_to_uuid (JStr (str_uuid g))).
  change (json_item "action" (to_dict e)) with (Ok (E := Exn) (JStr (MembershipAction_value act))).
  rewrite !json_to_uuid_str. destruct act; simpl; [|done].
  unfold join_group, send_frame_to_user_sockets. by case_bool_decide.
Qed.

Lemma dispatch_deleted g m :
  safe_dispatch (membership_payload (GroupDeletedEvent g)) m =
  (send_frame_to_users (group_deleted_members g m) (to_dict (GroupDeletedEvent g)) m,
   forget_group g (group_deleted_members g m) m).
Proof.
  set (e := GroupDeletedEvent g). unfold safe_dispatch, dispatch_local_message.
  change (is_dict (membership_payload e)) with true.
  change (json_get "data" (JObj []) (membership_payload e)) with (to_dict e).
  change (is_dict (to_dict e)) with true. cbv zeta. cbn [negb].
  change (json_is (EventType_value EV_GROUP_MEMBERSHIP) (json_get "event" JNull (to_dict e))) with false.
  change (json_is (EventType_value EV_GROUP_DELETED) (json_get "event" JNull (to_dict e))) with true.
  unfold handle_group_deleted.
  change (json_uuid "group_id" (to_dict e)) with (json_to_uuid (JStr (str_uuid g))).
  by rewrite json_to_uuid_str.
Qed.

(** ** Publishing *)
Section pushes.
Context `{RedisServer} `{!RedisLaws}.

(** A successful push puts one text on the channel and touches nothing else;
    [sent j r r'] names it. *)
Definition sent (j : json) (r r' : redis_t) : Prop :=
  published r' CHANNEL_NAME = published r CHANNEL_NAME ++ [dumps j] ∧
  same_hashes r r' ∧ same_streams r r'.
Lemma publish_ws_push_sent j r r' :
  publish_ws_push CHANNEL_NAME j r = (Ok tt, r') → sent j r r'.
Proof.
  unfold publish_ws_push, handle_redis_errors, command, mbind, redis_bind, sent.
  destruct (publish _ _ r) as [[x|i] r1] eqn:Hx; [by destruct x|]. intros [= <-].
  apply publish_ok in Hx as (Hc & Hh & Hst). by rewrite Hc, bool_decide_eq_true_2.
Qed.
End pushes.
