(* ===== verification/WebSocketTheorems.v ===== *)
(** * What the WebSocket layer guarantees

    The registries under every interleaving, the exact audience of each cluster
    push, the effect of membership changes and group deletions on later pushes,
    and the last disconnection of a user. *)

From S2P Require Import Delivery Samples.

(** ** A busy worker for the examples: alice with two sockets, bob with one *)
Definition sample_manager : Manager :=
  merge_groups bob_id 2 {[team_id]} (add_socket bob_id 2
    (merge_groups alice_id 1 {[team_id]} (add_socket alice_id 1
      (merge_groups alice_id 0 {[team_id]} (add_socket alice_id 0 new_manager))))).
Definition sample_event : RedisEvent :=
  GroupMessageEvent (uuid_of 77) team_id alice_id "hello" 0.


Section theorems.
Context `{RedisServer} `{!RedisLaws}.

(** The wire format loses nothing: a document whose objects have distinct keys, as
    every event's dictionary has, is read back by [json.loads] exactly as
    [json.dumps] wrote it, for strings of Latin-1 characters. *)
Lemma wire_roundtrip (j : json) :
  json_ok j → loads (dumps j) = Some j ∧ ∀ e, json_ok (to_dict e).
Proof. intros Hj. split; [by apply loads_dumps|apply to_dict_ok]. Qed.
Lemma wire_roundtrip_witness :
  loads (dumps (JObj [("a", JArr [JStr "x"; JNull])])) = Some (JObj [("a", JArr [JStr "x"; JNull])]).
Proof.
  apply wire_roundtrip, ok_obj; [apply NoDup_singleton|].
  apply Forall_singleton, ok_arr, Forall_cons_2; [apply ok_str|apply Forall_singleton, ok_null].
Defined.


(** C17: A successful [push_to_group] publishes one text on the cluster channel,
    and any worker that receives it sends the event to exactly the open sockets
    of the group's local members other than the sender, each once, and changes
    no registry. *)
Theorem group_push_delivery (g : UUID) (e : RedisEvent) (sender : option UUID) (r r' : redis_t) :
  routed e → run_task (PushToGroup g e sender) r = (Ok tt, r') →
  ∃ text, published r' CHANNEL_NAME = published r CHANNEL_NAME ++ [text] ∧
    ∀ m, registry_ok m → ∃ frames,
      on_message text m = (frames, m) ∧
      delivers (to_dict e) (λ u, u ∈ dd (group_connections m) g ∧ Some u ≠ sender) m frames.
Proof.
  intros He (Hp & _)%publish_ws_push_sent. eexists. split; [exact Hp|]. intros m Hm.
  rewrite on_message_dumps by apply group_payload_ok. rewrite dispatch_group by done.
  eexists. split; [done|]. apply delivers_users; [done|apply NoDup_filter, NoDup_elements|].
  intros v. rewrite list_elem_of_filter, elem_of_elements. tauto.
Qed.

(** A successful [push_to_user] publishes one text, and any worker that
    receives it sends the event to exactly the open sockets of that user. *)
Theorem direct_push_delivery (u : UUID) (e : RedisEvent) (r r' : redis_t) :
  routed e → run_task (PushToUser u e) r = (Ok tt, r') →
  ∃ text, published r' CHANNEL_NAME = published r CHANNEL_NAME ++ [text] ∧
    ∀ m, ∃ frames, on_message text m = (frames, m) ∧
      delivers (to_dict e) (λ v, v = u) m frames.
Proof.
  intros He (Hp & _)%publish_ws_push_sent. eexists. split; [exact Hp|]. intros m.
  rewrite on_message_dumps by apply user_payload_ok. rewrite dispatch_user by done.
  eexists. split; [done|]. by apply delivers_user.
Qed.

(** A membership push tells the user's own sockets, and from then on group
    pushes on that worker reach the user (JOIN, if connected) or do not (LEAVE);
    no other routing changes. Another action is refused before anything is
    published. *)
Lemma membership_push_effect (u g : UUID) (act : MembershipAction) (r r' : redis_t) :
  run_task (PushGroupMembershipChange u g (MembershipAction_value act)) r = (Ok tt, r') →
  ∃ text, published r' CHANNEL_NAME = published r CHANNEL_NAME ++ [text] ∧
    ∀ m, registry_ok m → ∃ frames m',
      on_message text m = (frames, m') ∧ registry_ok m' ∧
      local_connections m' = local_connections m ∧
      delivers (to_dict (GroupMembershipEvent act u g)) (λ v, v = u) m frames ∧
      ∀ v h, v ∈ dd (group_connections m') h ↔
        match act with
        | JOIN => v ∈ dd (group_connections m) h ∨
                  (v = u ∧ h = g ∧ is_Some (local_connections m !! u))
        | LEAVE => v ∈ dd (group_connections m) h ∧ ¬ (v = u ∧ h = g)
        end.
Proof.
  unfold run_task, push_group_membership_change.
  assert (parse_action (MembershipAction_value act) = Some act) as -> by by destruct act.
  intros (Hp & _)%publish_ws_push_sent. eexists. split; [exact Hp|]. intros m Hm.
  rewrite on_message_dumps by apply membership_payload_ok. rewrite dispatch_membership.
  eexists _, _. split; [done|]. destruct act; split_and!.
  - by apply join_group_ok.
  - unfold join_group. by case_bool_decide.
  - by apply delivers_user.
  - intros v h. unfold join_group. case_bool_decide; [|tauto]. simpl. rewrite elem_of_dd_add. tauto.
  - by apply leave_group_ok.
  - done.
  - by apply delivers_user.
  - intros v h. simpl. rewrite elem_of_dd_discard. tauto.
Qed.

Theorem membership_push_refused (u g : UUID) (action : string) (r : redis_t) :
  parse_action action = None →
  run_task (PushGroupMembershipChange u g action) r = (Raise ExValueError, r).
Proof. intros Ha. unfold run_task, push_group_membership_change. by rewrite Ha. Qed.

(** C37: The side effects of a group deletion publish one text; a worker that
    receives it tells exactly the connected local members, and afterwards routes
    nothing to the group and remembers it for none of them, while all other
    groups keep their members. *)
Theorem group_deletion_effect (g : UUID) (ids : list UUID) (r r' : redis_t) :
  run_task (GroupDeletionSideEffects g ids) r = (Ok tt, r') →
  ∃ text, published r' CHANNEL_NAME = published r CHANNEL_NAME ++ [text] ∧
    ∀ m, registry_ok m → ∃ frames m',
      on_message text m = (frames, m') ∧ registry_ok m' ∧
      local_connections m' = local_connections m ∧
      delivers (to_dict (GroupDeletedEvent g)) (λ v, v ∈ dd (group_connections m) g) m frames ∧
      (∀ v h, v ∈ dd (group_connections m') h ↔ v ∈ dd (group_connections m) h ∧ h ≠ g) ∧
      (∀ v, v ∈ dd (group_connections m) g → g ∉ dd (user_groups m') v).
Proof.
  unfold run_task, handle_group_deletion_side_effects, mbind, redis_bind.
  unfold invalidate_deleted_group_cache, handle_redis_errors, command.
  destruct (pipeline_execute _ r) as [[x|[]] r1] eqn:Hx; [by destruct x|].
  apply pipeline_ok in Hx as (_ & _ & Hc). simpl. intros (Hp & _)%publish_ws_push_sent.
  rewrite Hc in Hp. eexists. split; [exact Hp|]. intros m Hm.
  rewrite on_message_dumps by apply membership_payload_ok. rewrite dispatch_deleted.
  eexists _, _. split; [done|]. split_and!.
  - by apply forget_group_ok.
  - done.
  - apply delivers_users; [done|apply NoDup_elements|]. intros v. unfold group_deleted_members. by rewrite elem_of_elements.
  - intros v h. simpl. rewrite dd_delete. case_decide; set_solver.
  - intros v Hv. simpl. rewrite elem_of_forget_all. unfold group_deleted_members.
    rewrite elem_of_elements. tauto.
Qed.

End theorems.

(** C26: When the endpoint of a user's last socket unregisters it, the worker
    forgets the user: no connection, no remembered groups, no membership in any
    routing set, so no push reaches them, and presence is counted back. Closing
    one of several sockets removes that socket and touches no routing and no
    Redis state. Other users' sockets and memberships are kept in both cases. *)
Theorem unregister_connection_effect {P : Platform} (u : UUID) (ws : Socket) (m m' : Manager)
    (w w' : World) (o : outcome' unit) :
  registry_ok m → ws ∈ dd (local_connections m) u →
  unregister_connection u ws (m, w) = (o, (m', w')) →
  registry_ok m' ∧
  (∀ v ws', ws' ∈ dd (local_connections m') v ↔
     ws' ∈ dd (local_connections m) v ∧ ¬ (v = u ∧ ws' = ws)) ∧
  (∀ v g, v ≠ u → v ∈ dd (group_connections m') g ↔ v ∈ dd (group_connections m) g) ∧
  if decide (dd (local_connections m) u = {[ws]}) then
    local_connections m' !! u = None ∧ user_groups m' !! u = None ∧
    (∀ g, u ∉ dd (group_connections m') g) ∧
    (o, w_redis w') = remove_active_user (str_uuid u) (w_redis w)
  else group_connections m' = group_connections m ∧ user_groups m' = user_groups m ∧
       o = Ok tt ∧ w' = w.
Proof.
  intros Hm Hws. unfold unregister_connection, with_redis.
  pose proof (drop_socket_ok u ws m Hm) as Hok.
  destruct (drop_socket u ws m) as [m1 []] eqn:Hd; simpl in Hok.
  - destruct (drop_last _ _ _ _ Hm Hd) as (Hsub & HL & HU & HG).
    destruct (remove_active_user _ _) as [o' r'] eqn:Hr. intros [= <- <- <-].
    rewrite decide_True by set_solver. split_and!; [done|..|done].
    + intros v ws'. rewrite HL, dd_delete. case_decide; set_solver.
    + intros v g Hv. rewrite HG. tauto.
    + by rewrite HL, lookup_delete_eq.
    + by rewrite HU, lookup_delete_eq.
    + intros g. rewrite HG. tauto.
  - destruct (drop_other _ _ _ _ Hd) as ((ws' & Hne & Hws') & HG & HU & HL). intros [= <- <- <-].
    rewrite decide_False by set_solver. split_and!; try done.
    + intros v ws''. rewrite HL, dd_insert. case_decide; set_solver.
    + intros v g _. by rewrite HG.
Qed.

(** ** A run that connects three endpoints *)
Section run.
#[local] Existing Instance ref_platform.
#[local] Existing Instance ref_platform_laws.

Definition new_redis : redis_t := ref_redis_empty.
Definition joined (n : nat) : redis_t :=
  let incr u (r : redis_t) := (add_active_user (str_uuid u) r).2 in
  match n with
  | 0 => new_redis
  | 1 => incr alice_id new_redis
  | 2 => incr alice_id (incr alice_id new_redis)
  | _ => incr bob_id (incr alice_id (incr alice_id new_redis))
  end.
Definition sample_node : Node :=
  MkNode sample_manager ∅ 3 [Serving bob_id 2; Serving alice_id 1; Serving alice_id 0].

Lemma joins g m n cs u r r' :
  (∀ us, DeletedSends g us ∉ cs) → add_active_user (str_uuid u) r = (Ok tt, r') →
  rtc (step_sparing g) (MkNode m ∅ n cs, r)
    (MkNode (merge_groups u n {[team_id]} (add_socket u n m)) ∅ (S n) (Serving u n :: cs), r').
Proof.
  intros Hno Ha.
  assert (∀ c us, socket_of c ≠ None → DeletedSends g us ∉ c :: cs) as Hc
    by (intros c us Hs [<-|Hin]%elem_of_cons; [done|by eapply Hno]).
  eapply rtc_l; [split; [apply (step_connect _ _ _ _ _ u)|by intros us; apply Hc]|].
  eapply rtc_l; [split; [by apply (step_registered _ _ _ [])|by intros us; apply Hc]|].
  apply rtc_once. split; [apply (step_loaded _ _ _ [] _ _ _ _ {[team_id]})|by intros us; apply Hc].
Qed.
Lemma sample_spared g : rtc (step_sparing g) (start_node, new_redis) (sample_node, joined 3).
Proof.
  assert (∀ cs us, Forall (λ c, socket_of c ≠ None) cs → DeletedSends g us ∉ cs) as Hno
    by (intros cs us Hcs Hin; by apply (proj1 (Forall_forall _ _) Hcs) in Hin).
  unfold start_node, sample_node, sample_manager.
  etrans; [apply (joins g _ _ _ alice_id _ (joined 1)); [intros us|vm_compute; reflexivity]|].
  { apply Hno. constructor. }
  etrans; [apply (joins g _ _ _ alice_id _ (joined 2)); [intros us|vm_compute; reflexivity]|].
  { apply Hno. by repeat constructor. }
  apply (joins g _ _ _ bob_id _ (joined 3)); [intros us|vm_compute; reflexivity].
  apply Hno. by repeat constructor.
Qed.
Lemma sample_reachable : node_reachable new_redis (sample_node, joined 3).
Proof.
  unfold node_reachable. generalize (sample_spared team_id).
  apply rtc_subrel. by intros s s' [Hs _].
Qed.
Lemma sample_manager_ok : registry_ok sample_manager.
Proof. exact (node_registry _ (node_reachable_ok _ _ sample_reachable)). Qed.


Lemma group_push_delivery_witness :
  ∃ text, published (run_task (PushToGroup team_id sample_event (Some alice_id)) new_redis).2
            CHANNEL_NAME = [text] ∧
    ∃ frames, on_message text sample_manager = (frames, sample_manager) ∧
      (2, to_dict sample_event) ∈ frames ∧ (0, to_dict sample_event) ∉ frames.
Proof.
  destruct (run_task (PushToGroup team_id sample_event (Some alice_id)) new_redis)
    as [o r'] eqn:Hr.
  assert (o = Ok tt) as -> by (change o with (o, r').1; rewrite <-Hr; vm_compute; reflexivity).
  destruct (group_push_delivery team_id sample_event (Some alice_id) new_redis r')
    as (text & Hp & Hd); [by split|exact Hr|].
  exists text. split; [cbn [snd]; rewrite Hp; reflexivity|].
  destruct (Hd sample_manager sample_manager_ok) as (frames & Hm & _ & Hf).
  exists frames. split; [exact Hm|]. split.
  - apply Hf. split; [reflexivity|]. exists bob_id. split; [split|].
    + vm_compute; reflexivity.
    + intros [=].
    + vm_compute; reflexivity.
  - intros (_ & u & [_ Hne] & Hws)%Hf. apply Hne. f_equal.
    refine (socket_owner _ sample_manager_ok u alice_id 0 Hws _). vm_compute. reflexivity.
Defined.

(** A task that succeeds on an idle server. *)
Lemma task_runs (t : Task) :
  (run_task t new_redis).1 = Ok tt → run_task t new_redis = (Ok tt, (run_task t new_redis).2).
Proof. destruct (run_task t new_redis) as [o r]. cbn. by intros ->. Qed.

Lemma direct_push_delivery_witness :
  ∃ text, published (run_task (PushToUser bob_id sample_event) new_redis).2 CHANNEL_NAME = [text] ∧
    ∃ frames, on_message text sample_manager = (frames, sample_manager) ∧
      (2, to_dict sample_event) ∈ frames.
Proof.
  destruct (direct_push_delivery bob_id sample_event new_redis
    (run_task (PushToUser bob_id sample_event) new_redis).2) as (text & Hp & Hd);
    [by split|apply task_runs; vm_compute; reflexivity|].
  exists text. split; [rewrite Hp; reflexivity|].
  destruct (Hd sample_manager) as (frames & Hm & _ & Hf). exists frames. split; [exact Hm|].
  apply Hf. split; [reflexivity|]. exists bob_id. split; [reflexivity|]. vm_compute. reflexivity.
Defined.

Lemma membership_push_effect_witness :
  ∃ text m', (on_message text sample_manager).2 = m' ∧ bob_id ∉ dd (group_connections m') team_id ∧
    alice_id ∈ dd (group_connections m') team_id.
Proof.
  destruct (membership_push_effect bob_id team_id LEAVE new_redis
    (run_task (PushGroupMembershipChange bob_id team_id "LEAVE") new_redis).2) as (text & _ & Hd);
    [apply task_runs; vm_compute; reflexivity|].
  destruct (Hd sample_manager sample_manager_ok) as (frames & m' & Hm & _ & _ & _ & Hg).
  exists text, m'. split_and!; [by rewrite Hm|..]; rewrite Hg.
  - by intros [_ []].
  - split; [vm_compute; reflexivity|]. intros [Hx _]. revert Hx. vm_compute. discriminate.
Defined.

Lemma membership_push_refused_witness :
  run_task (PushGroupMembershipChange bob_id team_id "EVICT") new_redis = (Raise ExValueError, new_redis).
Proof. apply (membership_push_refused bob_id team_id "EVICT" new_redis). reflexivity. Defined.

Lemma group_deletion_effect_witness :
  ∃ text frames m', on_message text sample_manager = (frames, m') ∧
    (2, to_dict (GroupDeletedEvent team_id)) ∈ frames ∧ bob_id ∉ dd (group_connections m') team_id.
Proof.
  destruct (group_deletion_effect team_id [alice_id; bob_id] new_redis
    (run_task (GroupDeletionSideEffects team_id [alice_id; bob_id]) new_redis).2) as (text & _ & Hd);
    [apply task_runs; vm_compute; reflexivity|].
  destruct (Hd sample_manager sample_manager_ok) as (frames & m' & Hm & _ & _ & [_ Hf] & Hg & _).
  exists text, frames, m'. split_and!; [exact Hm|..].
  - apply Hf. split; [reflexivity|]. exists bob_id. split; vm_compute; reflexivity.
  - rewrite Hg. by intros [_ []].
Defined.

Lemma unregister_connection_effect_witness :
  ∃ m' w' o, unregister_connection bob_id 2 (sample_manager, ref_world) = (o, (m', w')) ∧
    bob_id ∉ dd (group_connections m') team_id ∧ alice_id ∈ dd (group_connections m') team_id.
Proof.
  destruct (unregister_connection bob_id 2 (sample_manager, ref_world)) as [o [m' w']] eqn:Hu.
  exists m', w', o. split; [reflexivity|].
  destruct (unregister_connection_effect bob_id 2 sample_manager m' ref_world w' o)
    as (_ & _ & Hother & Hlast); [apply sample_manager_ok|vm_compute; reflexivity|exact Hu|].
  rewrite decide_True in Hlast by (vm_compute; reflexivity).
  destruct Hlast as (_ & _ & Hgone & _). split; [apply Hgone|].
  apply Hother; [|vm_compute; reflexivity]. intros Hx. revert Hx. vm_compute. discriminate.
Defined.
End run.
