(* ===== verification/Presence.v ===== *)
(** * Online presence across workers (services/websocket.py, redis/queries.py)

    The [active_user_counts] hash against the sockets that are really open: an
    abstract cluster of workers whose endpoints open and close sockets one
    whole operation at a time, and the two ways the program loses track. *)

From S2P Require Import Delivery Samples.

(** ** Redis effects of presence *)
Section redis.
Context `{RedisServer} `{!RedisLaws}.

Definition presence (r : redis_t) (u : UUID) : option Z := hget r REDIS_KEY (str_uuid u).

(** Only presence fields of users, all positive. *)
Definition presence_fields (r : redis_t) : Prop :=
  ∀ f, is_Some (hget r REDIS_KEY f) → ∃ u, f = str_uuid u ∧ ∃ n, presence r u = Some n ∧ (0 < n)%Z.

Lemma add_active_user_ok u r r' :
  add_active_user (str_uuid u) r = (Ok tt, r') →
  ∀ f, hget r' REDIS_KEY f =
    if decide (f = str_uuid u) then Some (default 0 (presence r u) + 1)%Z else hget r REDIS_KEY f.
Proof.
  unfold add_active_user, handle_redis_errors, command, mbind, redis_bind.
  destruct (hincrby _ _ _ r) as [[x|v] r1] eqn:Hx; [by destruct x|]. intros [= <-] f.
  apply hincrby_ok in Hx as (-> & Hh & _). rewrite Hh.
  case_decide; [by rewrite bool_decide_eq_true_2|by rewrite bool_decide_eq_false_2 by naive_solver].
Qed.

Lemma remove_active_user_ok u r r' :
  remove_active_user (str_uuid u) r = (Ok tt, r') →
  let n := (default 0 (presence r u) - 1)%Z in
  ∀ f, hget r' REDIS_KEY f =
    if decide (f = str_uuid u) then (if decide (0 < n)%Z then Some n else None)
    else hget r REDIS_KEY f.
Proof.
  unfold remove_active_user, handle_redis_errors, command, mbind, redis_bind.
  destruct (hincrby _ _ _ r) as [[x|v] r1] eqn:Hx; [by destruct x|].
  apply hincrby_ok in Hx as (-> & Hh & _). fold (presence r u).
  set (n := (default 0 (presence r u) - 1)%Z). change (_ + -1)%Z with n.
  destruct (Z.leb_spec n 0) as [Hn|Hn].
  - destruct (hdel _ _ r1) as [[x|v] r2] eqn:Hy; [by destruct x|]. intros [= <-] f.
    apply hdel_ok in Hy as (Hd & _). rewrite Hd, Hh.
    case_decide; [|by rewrite !bool_decide_eq_false_2 by naive_solver].
    rewrite bool_decide_eq_true_2 by done. by rewrite decide_False by lia.
  - intros [= <-] f. rewrite Hh.
    case_decide; [|by rewrite bool_decide_eq_false_2 by naive_solver].
    rewrite bool_decide_eq_true_2 by done. by rewrite decide_True by lia.
Qed.

Lemma presence_fields_set u r r' o :
  presence_fields r → (∀ n, o = Some n → (0 < n)%Z) →
  (∀ f, hget r' REDIS_KEY f = if decide (f = str_uuid u) then o else hget r REDIS_KEY f) →
  presence_fields r' ∧ ∀ v, presence r' v = if decide (v = u) then o else presence r v.
Proof.
  intros Hr Ho Hh.
  assert (∀ v, presence r' v = if decide (v = u) then o else presence r v) as Hp.
  { intros v. unfold presence. rewrite Hh. repeat case_decide; simplify_eq; done. }
  split; [|done]. intros f. rewrite Hh. case_decide as Hf.
  - intros [n ->]. exists u. split; [done|]. exists n. rewrite Hp, decide_True by done. eauto.
  - intros Hs. destruct (Hr f Hs) as (v & -> & n & Hn & Hpos). exists v. split; [done|].
    exists n. rewrite Hp, decide_False by congruence. done.
Qed.
End redis.

(** ** Whole operations of the endpoints *)
Section cluster.
Context {P : Platform} `{PL : !PlatformLaws}.

Definition connected_on (u : UUID) (m : Manager) : bool :=
  bool_decide (is_Some (local_connections m !! u)).
(** On how many workers the user has an open socket. *)
Definition workers_with (u : UUID) (ms : list Manager) : nat :=
  length (filter (λ m, is_Some (local_connections m !! u)) ms).

(** One endpoint opens or closes a socket on worker [i], Redis answering; or
    something else happens that leaves connections and presence alone.
    [opens] says which sockets are opened. *)
Inductive cluster_step (opens : UUID → Manager → Prop)
    : list Manager * redis_t → list Manager * redis_t → Prop :=
| cluster_open ms i m m' u ws w w' :
    ms !! i = Some m → opens u m →
    websocket_open u ws (m, w) = (Registered, (m', w')) →
    cluster_step opens (ms, w_redis w) (<[i := m']> ms, w_redis w')
| cluster_close ms i m m' u ws w w' :
    ms !! i = Some m → ws ∈ dd (local_connections m) u →
    unregister_connection u ws (m, w) = (Ok tt, (m', w')) →
    cluster_step opens (ms, w_redis w) (<[i := m']> ms, w_redis w')
| cluster_other ms i m m' r r' :
    ms !! i = Some m → local_connections m' = local_connections m →
    (∀ f, hget r' REDIS_KEY f = hget r REDIS_KEY f) →
    cluster_step opens (ms, r) (<[i := m']> ms, r').

Lemma websocket_open_run u ws m w m' w' :
  websocket_open u ws (m, w) = (Registered, (m', w')) →
  local_connections m' = dd_add u ws (local_connections m) ∧
  ∃ r', add_active_user (str_uuid u) (w_redis w) = (Ok tt, r') ∧ w_redis w' = r'.
Proof.
  unfold websocket_open, register_connection, with_redis.
  destruct (add_active_user _ _) as [[[]|e] r'] eqn:Ha; [|done].
  unfold load_groups. destruct (connection _ _) as [o w2] eqn:Hc.
  assert (w_redis w2 = r') as Hw.
  { revert Hc. unfold connection. destruct (w_pool _); [|by intros [= <- <-]].
    destruct (run_tx _ _ _) as [x st]. by intros [= <- <-]. }
  intros Hrun. assert (w_redis w' = r' ∧ ∃ gs, m' = merge_groups u ws gs (add_socket u ws m)) as [Hr [gs ->]].
  { destruct o; injection Hrun as <- <-; eauto. }
  split; [|eauto]. unfold merge_groups. by destruct (_ && _).
Qed.

Lemma unregister_run u ws m w m' w' :
  ws ∈ dd (local_connections m) u →
  unregister_connection u ws (m, w) = (Ok tt, (m', w')) →
  if decide (dd (local_connections m) u ∖ {[ws]} = ∅)
  then local_connections m' = delete u (local_connections m) ∧
       remove_active_user (str_uuid u) (w_redis w) = (Ok tt, w_redis w')
  else local_connections m' = <[u := dd (local_connections m) u ∖ {[ws]}]> (local_connections m) ∧
       w' = w.
Proof.
  intros Hws. unfold unregister_connection, with_redis.
  pose proof (dd_discard_socket u ws (local_connections m)) as [Hdd Hdel].
  destruct (drop_socket u ws m) as [m1 b] eqn:Hd. pose proof Hd as Hd'.
  unfold drop_socket in Hd. rewrite Hdd in Hd. case_decide; injection Hd as <- <-; simpl.
  - destruct (remove_active_user _ _) as [[[]|e] r'] eqn:Hr; [|done]. by intros [= <- <-].
  - intros [= <- <-]. by apply drop_other in Hd' as (_ & _ & _ & ?).
Qed.

Lemma workers_with_insert u i ms m m' :
  ms !! i = Some m →
  workers_with u (<[i := m']> ms) + Nat.b2n (connected_on u m) =
  workers_with u ms + Nat.b2n (connected_on u m').
Proof.
  intros Hi. rewrite insert_take_drop by by eapply lookup_lt_Some.
  rewrite <-(take_drop_middle ms i m Hi) at 3. unfold workers_with, connected_on.
  rewrite !filter_app, !length_app, !filter_cons.
  repeat case_decide; repeat case_bool_decide; simpl; try done; lia.
Qed.

Lemma presence_nonneg r u : presence_fields r → (0 <= default 0 (presence r u))%Z.
Proof.
  intros Hr. destruct (presence r u) as [n|] eqn:Hn; simpl; [|lia].
  destruct (Hr (str_uuid u)) as (v & <-%(inj str_uuid) & n' & Hn' & Hpos); [by exists n|].
  rewrite Hn in Hn'. injection Hn' as <-. lia.
Qed.

(** The effect of a step on a user: none; one more counted, on a worker that
    had no socket of theirs or on one that had; or one less. *)
Definition counted (opens : UUID → Manager → Prop) (ms ms' : list Manager) (r r' : redis_t)
    (v : UUID) : Prop :=
  let c := workers_with v ms in
  let c' := workers_with v ms' in
  let p := default 0%Z (presence r v) in
  (c' = c ∧ presence r' v = presence r v) ∨
  (presence r' v = Some (p + 1)%Z ∧
    (c' = S c ∨ (c' = c ∧ ∃ m, m ∈ ms ∧ opens v m ∧ is_Some (local_connections m !! v)))) ∨
  (S c' = c ∧ presence r' v = if decide (0 < p - 1)%Z then Some (p - 1)%Z else None).

Lemma cluster_step_counted opens ms r ms' r' :
  cluster_step opens (ms, r) (ms', r') → presence_fields r →
  presence_fields r' ∧ ∀ v, counted opens ms ms' r r' v.
Proof.
  intros Hs Hr.
  inversion Hs as [? i m m' u ws w w' Hi Had Hop|? i m m' u ws w w' Hi Hws Hun|? i m m' ? ? Hi HL Hh];
    subst; clear Hs.
  - apply websocket_open_run in Hop as (HL & r' & Ha & <-).
    edestruct (presence_fields_set u) as [Hr' Hp]; [exact Hr| |exact (add_active_user_ok _ _ _ Ha)|].
    { intros n [= <-]. pose proof (presence_nonneg _ u Hr). lia. }
    split; [done|]. intros v. unfold counted. rewrite Hp.
    pose proof (workers_with_insert v i ms m m' Hi) as Hc. revert Hc. unfold connected_on.
    rewrite HL. unfold dd_add. case_decide as Hv.
    + subst v. rewrite (bool_decide_eq_true_2 (is_Some (<[u:=_]> _ !! u)))
        by (rewrite lookup_insert_eq; eauto).
      case_bool_decide as Hm; simpl; intros Hc; right; left; (split; [done|]).
      * right. split; [lia|]. exists m. split_and!; [by eapply list_elem_of_lookup_2|done..].
      * left. lia.
    + rewrite lookup_insert_ne by done. intros. left. split; [lia|done].
  - apply unregister_run in Hun; [|done]. case_decide; destruct Hun as [HL Ha]; [|subst w'].
    + edestruct (presence_fields_set u) as [Hr' Hp]; [exact Hr| |exact (remove_active_user_ok _ _ _ Ha)|].
      { intros n. case_decide; [by intros [= <-]|done]. }
      split; [done|]. intros v. unfold counted. rewrite Hp.
      pose proof (workers_with_insert v i ms m m' Hi) as Hc. revert Hc. unfold connected_on.
      rewrite HL. destruct (decide (v = u)) as [Hv|Hv].
      * subst v. rewrite (bool_decide_eq_false_2 (is_Some (delete u _ !! u)))
          by (rewrite lookup_delete_eq; by intros [??]).
        rewrite bool_decide_eq_true_2 by by eapply dd_is_Some.
        simpl. intros Hc. right; right. split; [lia|done].
      * rewrite lookup_delete_ne by done. intros. left. split; [lia|done].
    + split; [done|]. intros v. unfold counted.
      pose proof (workers_with_insert v i ms m m' Hi) as Hc. revert Hc. unfold connected_on.
      rewrite HL. destruct (decide (v = u)) as [->|Hv].
      * rewrite (bool_decide_eq_true_2 (is_Some (<[u:=_]> _ !! u)))
          by (rewrite lookup_insert_eq; eauto).
        rewrite bool_decide_eq_true_2 by by eapply dd_is_Some. intros. left. split; [lia|done].
      * rewrite lookup_insert_ne by done. intros. left. split; [lia|done].
  - split.
    + intros f. rewrite Hh. intros Hf. destruct (Hr f Hf) as (v & -> & n & Hn & Hpos).
      exists v. split; [done|]. exists n. unfold presence. by rewrite Hh.
    + intros v. left. unfold presence. rewrite Hh. split; [|done].
      pose proof (workers_with_insert v i ms m m' Hi) as Hc. revert Hc. unfold connected_on.
      rewrite HL. lia.
Qed.

Lemma fetch_active_users_spec w s w' :
  presence_fields (w_redis w) → fetch_active_users w = (Ok s, w') →
  ∀ u, u ∈ s ↔ is_Some (presence (w_redis w) u).
Proof.
  intros Hr. unfold fetch_active_users. rewrite M_bind_run. unfold with_redis, get_active_users.
  unfold handle_redis_errors, command, mbind, redis_bind. simpl.
  destruct (hkeys _ _) as [[x|l] r1] eqn:Hk; [by destruct x|]. simpl.
  apply hkeys_ok in Hk as [Hk _].
  destruct (mapM _ _) as [us|] eqn:Hus; [|done]. intros [= <- <-] u.
  rewrite elem_of_list_to_set, (elem_of_mapM_Some _ _ _ _ Hus). unfold presence.
  setoid_rewrite elem_of_elements. setoid_rewrite elem_of_list_to_set. setoid_rewrite Hk. split.
  - intros (f & Hf & Hpf). destruct (Hr f Hf) as (v & -> & _).
    rewrite parse_str_uuid in Hpf. by injection Hpf as <-.
  - intros Hu. exists (str_uuid u). by rewrite parse_str_uuid.
Qed.

(** A cluster before any connection. *)
Definition idle (s : list Manager * redis_t) : Prop :=
  (∀ m, m ∈ s.1 → local_connections m = ∅) ∧ (∀ f, hget s.2 REDIS_KEY f = None).
Lemma idle_workers ms r u : idle (ms, r) → workers_with u ms = 0%nat.
Proof.
  intros [Hms _]. unfold workers_with. apply length_zero_iff_nil, elem_of_nil_inv.
  intros m [Hs Hm]%list_elem_of_filter. rewrite (Hms m Hm), lookup_empty in Hs. by destruct Hs.
Qed.
Lemma idle_presence ms r : idle (ms, r) → presence_fields r ∧ ∀ u, presence r u = None.
Proof.
  intros [_ Hr]. simpl in Hr. split; [|intros u; apply Hr]. intros f. rewrite Hr. by intros [??].
Qed.

Lemma cluster_run_lower opens s s' :
  rtc (cluster_step opens) s s' → presence_fields s.2 →
  (∀ u, Z.of_nat (workers_with u s.1) <= default 0 (presence s.2 u))%Z →
  presence_fields s'.2 ∧ ∀ u, (Z.of_nat (workers_with u s'.1) <= default 0 (presence s'.2 u))%Z.
Proof.
  induction 1 as [|[ms r] [ms1 r1] s' Hs _ IH]; [auto|]. simpl in *. intros Hr Hle.
  apply cluster_step_counted in Hs as [Hr1 Hc]; [|done]. apply IH; [done|]. intros u.
  specialize (Hle u). destruct (Hc u) as [[-> ->]|[[-> Hcc]|[Hcc ->]]]; [done|simpl|].
  - destruct Hcc as [->|[-> _]]; lia.
  - case_decide; simpl; lia.
Qed.

Definition exact_presence (ms : list Manager) (r : redis_t) (u : UUID) : Prop :=
  presence r u = match workers_with u ms with 0%nat => None | n => Some (Z.of_nat n) end.
Lemma cluster_run_exact s s' :
  rtc (cluster_step (λ u m, local_connections m !! u = None)) s s' → presence_fields s.2 →
  (∀ u, exact_presence s.1 s.2 u) →
  presence_fields s'.2 ∧ ∀ u, exact_presence s'.1 s'.2 u.
Proof.
  induction 1 as [|[ms r] [ms1 r1] s' Hs _ IH]; [auto|]. simpl in *. intros Hr Hle.
  apply cluster_step_counted in Hs as [Hr1 Hc]; [|done]. apply IH; [done|]. intros u.
  specialize (Hle u). unfold exact_presence in *.
  destruct (Hc u) as [[-> ->]|[[-> Hcc]|[Hcc ->]]]; [done| |].
  - destruct Hcc as [->|(_ & m & _ & Hm & Hs)]; [|rewrite Hm in Hs; by destruct Hs].
    rewrite Hle. destruct (workers_with u ms); simpl; f_equal; lia.
  - rewrite Hle. rewrite <-Hcc. destruct (workers_with u ms1) as [|n]; [done|]. cbn [default].
    rewrite decide_True by (simpl; lia). f_equal. simpl. lia.
Qed.

End cluster.
