(* ===== verification/PresenceTheorems.v ===== *)
(** * Online presence: what holds and what does not

    A connected user is always shown online; the converse needs one socket per
    user and worker, and registrations that do not overlap a cleanup. *)

From S2P Require Import Delivery Samples Presence.

Section theorems.
Context {P : Platform} `{PL : !PlatformLaws}.

(** C27: As long as endpoints open and close their sockets one after another and
    Redis answers, every user with an open socket on some worker is in the
    answer of [fetch_active_users]. *)
Theorem connected_users_online (ms ms' : list Manager) (r : redis_t) (w w' : World)
    (s : gset UUID) (u : UUID) :
  idle (ms, r) → rtc (cluster_step (λ _ _, True)) (ms, r) (ms', w_redis w) →
  fetch_active_users w = (Ok s, w') →
  (0 < workers_with u ms')%nat → u ∈ s.
Proof.
  intros Hi Hrun Hf Hu. pose proof (idle_presence ms r Hi) as [Hp Hn].
  apply cluster_run_lower in Hrun as [Hp' Hle]; [|done|].
  - rewrite (fetch_active_users_spec w s w' Hp' Hf). specialize (Hle u). simpl in Hle.
    destruct (presence (w_redis w) u); [eauto|simpl in Hle; lia].
  - intros v. simpl. rewrite (idle_workers ms r v Hi), Hn. done.
Qed.

(** If moreover no user opens a second socket on the same worker, the
    answer is exactly the set of connected users, and each counter is the number
    of workers the user is connected to. *)
Lemma single_socket_presence (ms ms' : list Manager) (r : redis_t) (w w' : World)
    (s : gset UUID) (u : UUID) :
  idle (ms, r) →
  rtc (cluster_step (λ u m, local_connections m !! u = None)) (ms, r) (ms', w_redis w) →
  fetch_active_users w = (Ok s, w') →
  (u ∈ s ↔ (0 < workers_with u ms')%nat) ∧
  presence (w_redis w) u =
    match workers_with u ms' with 0%nat => None | n => Some (Z.of_nat n) end.
Proof.
  intros Hi Hrun Hf. pose proof (idle_presence ms r Hi) as [Hp Hn].
  apply cluster_run_exact in Hrun as [Hp' Hex]; [|done|].
  - split; [|apply Hex]. rewrite (fetch_active_users_spec w s w' Hp' Hf).
    specialize (Hex u). unfold exact_presence in Hex. simpl in Hex. rewrite Hex.
    destruct (workers_with u ms'); split; try lia; eauto. by intros [??].
  - intros v. unfold exact_presence. simpl. by rewrite (idle_workers ms r v Hi), Hn.
Qed.

(** A user who opens two sockets on one worker and closes both stays online:
    every registration counts, only the last removal is counted back. *)
Lemma second_socket_leaks (u : UUID) (ws1 ws2 : Socket) (m m1 m2 m3 m4 : Manager)
    (w w1 w2 w3 w4 : World) :
  ws1 ≠ ws2 → local_connections m !! u = None → presence (w_redis w) u = None →
  websocket_open u ws1 (m, w) = (Registered, (m1, w1)) →
  websocket_open u ws2 (m1, w1) = (Registered, (m2, w2)) →
  unregister_connection u ws1 (m2, w2) = (Ok tt, (m3, w3)) →
  unregister_connection u ws2 (m3, w3) = (Ok tt, (m4, w4)) →
  local_connections m4 !! u = None ∧ presence (w_redis w4) u = Some 1%Z.
Proof.
  intros Hne Hm Hp H1 H2 H3 H4.
  apply websocket_open_run in H1 as (L1 & r1 & A1 & E1).
  apply websocket_open_run in H2 as (L2 & r2 & A2 & E2).
  assert (dd (local_connections m2) u = {[ws1; ws2]}) as D2.
  { rewrite L2, L1. unfold dd_add, dd. rewrite !lookup_insert_eq, Hm. set_solver. }
  apply unregister_run in H3; [|set_solver]. rewrite D2, decide_False in H3 by set_solver.
  destruct H3 as [L3 ->].
  assert (dd (local_connections m3) u = {[ws2]}) as D3.
  { rewrite L3. unfold dd. rewrite lookup_insert_eq. set_solver. }
  apply unregister_run in H4; [|set_solver]. rewrite D3, decide_True in H4 by set_solver.
  destruct H4 as [L4 A4]. split; [by rewrite L4, lookup_delete_eq|].
  assert (presence (w_redis w2) u = Some 2%Z) as P2.
  { unfold presence in *. rewrite E2, (add_active_user_ok _ _ _ A2), decide_True by done.
    unfold presence. rewrite E1, (add_active_user_ok _ _ _ A1), decide_True by done.
    unfold presence. by rewrite Hp. }
  unfold presence. rewrite (remove_active_user_ok _ _ _ A4), decide_True by done. by rewrite P2.
Qed.

(** When Redis fails during a registration the endpoint does not unregister,
    so the socket stays in the worker's registry for good: the user counts as
    connected there, and pushes keep addressing the dead socket. *)
Lemma failed_registration_stays (u : UUID) (ws : Socket) (m : Manager) (w : World) (e : Exn)
    (r' : redis_t) :
  add_active_user (str_uuid u) (w_redis w) = (Raise e, r') →
  ∃ m' w', websocket_open u ws (m, w) = (NotRegistered, (m', w')) ∧
    websocket_close NotRegistered u ws (m', w') = (m', w') ∧
    (∀ j, (ws, j) ∈ send_frame_to_user_sockets u j m') ∧ w_redis w' = r'.
Proof.
  intros Ha. unfold websocket_open, register_connection, with_redis. rewrite Ha.
  eexists _, _. split; [done|]. split; [done|]. split; [|done]. intros j.
  rewrite elem_of_frames_to_user. split; [done|]. simpl. rewrite elem_of_dd_add. by left.
Qed.
End theorems.

(** ** A run of the reference platform *)
Section runs.
#[local] Existing Instance ref_platform.
#[local] Existing Instance ref_platform_laws.

Definition presence_world : World := ref_world_with sample_db.
Definition open_at (u : UUID) (ws : Socket) (mw : Manager * World) : Manager * World :=
  (websocket_open u ws mw).2.
Definition close_at (u : UUID) (ws : Socket) (mw : Manager * World) : Manager * World :=
  (unregister_connection u ws mw).2.
Definition alice_open : Manager * World := open_at alice_id 0 (new_manager, presence_world).
Definition alice_twice : Manager * World := open_at alice_id 1 alice_open.
Definition alice_once : Manager * World := close_at alice_id 0 alice_twice.
Definition alice_none : Manager * World := close_at alice_id 1 alice_once.

Lemma idle_sample : idle ([new_manager], w_redis presence_world).
Proof.
  split.
  - intros m ->%list_elem_of_singleton. done.
  - intros f. unfold presence_world, ref_world_with. cbn [snd w_redis]. apply (lookup_empty (M := gmap _)).
Qed.

(** Evaluating the outcome of a run is enough to name its end state. *)
Lemma opened u ws mw :
  (websocket_open u ws mw).1 = Registered →
  websocket_open u ws (mw.1, mw.2) = (Registered, ((open_at u ws mw).1, (open_at u ws mw).2)).
Proof.
  unfold open_at. rewrite <-surjective_pairing.
  destruct (websocket_open u ws mw) as [e [m w]]. by intros [= ->].
Qed.
Lemma closed u ws mw :
  (unregister_connection u ws mw).1 = Ok tt →
  unregister_connection u ws (mw.1, mw.2) = (Ok tt, ((close_at u ws mw).1, (close_at u ws mw).2)).
Proof.
  unfold close_at. rewrite <-surjective_pairing.
  destruct (unregister_connection u ws mw) as [e [m w]]. by intros [= ->].
Qed.

(** One open on a cluster of one worker. *)
Lemma open_alone opens u ws mw :
  opens u mw.1 → (websocket_open u ws mw).1 = Registered →
  cluster_step opens ([mw.1], w_redis mw.2)
    ([(open_at u ws mw).1], w_redis (open_at u ws mw).2).
Proof.
  intros Ha Ho%opened. by eapply (cluster_open opens [mw.1] 0 mw.1); [done..|exact Ho].
Qed.

Lemma alice_opens : (websocket_open alice_id 0 (new_manager, presence_world)).1 = Registered.
Proof. vm_compute. reflexivity. Qed.
Lemma alice_opens_again : (websocket_open alice_id 1 alice_open).1 = Registered.
Proof. vm_compute. reflexivity. Qed.
Lemma alice_closes : (unregister_connection alice_id 0 alice_twice).1 = Ok tt.
Proof. vm_compute. reflexivity. Qed.
Lemma alice_closes_again : (unregister_connection alice_id 1 alice_once).1 = Ok tt.
Proof. vm_compute. reflexivity. Qed.

Lemma connected_users_online_witness :
  match fetch_active_users alice_twice.2 with
  | (Ok s, _) => alice_id ∈ s
  | (Raise _, _) => False
  end.
Proof.
  assert (is_ok (fetch_active_users alice_twice.2).1 = true) as Hok by (vm_compute; reflexivity).
  destruct (fetch_active_users alice_twice.2) as [[s|e] w'] eqn:Hf; [|exact (eq_ind false (λ b, if b then False else True) I _ Hok)].
  eapply (connected_users_online [new_manager] [alice_twice.1] (w_redis presence_world) alice_twice.2 w' s).
  - apply idle_sample.
  - eapply rtc_l; [apply (open_alone _ alice_id 0 (new_manager, presence_world)); [exact I|apply alice_opens]|].
    apply rtc_once, (open_alone _ alice_id 1 alice_open); [exact I|apply alice_opens_again].
  - exact Hf.
  - vm_compute. apply le_n.
Defined.

Lemma single_socket_presence_witness :
  match fetch_active_users alice_open.2 with
  | (Ok s, _) => alice_id ∈ s ∧ presence (w_redis alice_open.2) alice_id = Some 1%Z
  | (Raise _, _) => False
  end.
Proof.
  assert (is_ok (fetch_active_users alice_open.2).1 = true) as Hok by (vm_compute; reflexivity).
  destruct (fetch_active_users alice_open.2) as [[s|e] w'] eqn:Hf; [|exact (eq_ind false (λ b, if b then False else True) I _ Hok)].
  edestruct (single_socket_presence [new_manager] [alice_open.1] (w_redis presence_world) alice_open.2 w' s alice_id) as [Hs Hp].
  - apply idle_sample.
  - apply rtc_once, (open_alone _ alice_id 0 (new_manager, presence_world)); [reflexivity|apply alice_opens].
  - exact Hf.
  - split; [|exact Hp]. apply Hs. vm_compute. apply le_n.
Defined.

Lemma second_socket_leaks_witness :
  local_connections alice_none.1 !! alice_id = None ∧
  presence (w_redis alice_none.2) alice_id = Some 1%Z.
Proof.
  apply (second_socket_leaks alice_id 0 1 new_manager alice_open.1 alice_twice.1 alice_once.1
           alice_none.1 presence_world alice_open.2 alice_twice.2 alice_once.2 alice_none.2).
  - discriminate.
  - reflexivity.
  - vm_compute. reflexivity.
  - exact (opened alice_id 0 (new_manager, presence_world) alice_opens).
  - exact (opened alice_id 1 alice_open alice_opens_again).
  - exact (closed alice_id 0 alice_twice alice_closes).
  - exact (closed alice_id 1 alice_once alice_closes_again).
Defined.

(** A Redis server that is down. *)
Definition redis_down : World := set_redis (MkRefRedis false ∅ ∅ ∅ : redis_t) presence_world.
Lemma failed_registration_stays_witness :
  add_active_user (str_uuid alice_id) (w_redis redis_down) =
    (Raise (ExRedis RedisConnectionError), w_redis redis_down) ∧
  ∃ m' w', websocket_open alice_id 0 (new_manager, redis_down) = (NotRegistered, (m', w')) ∧
    websocket_close NotRegistered alice_id 0 (m', w') = (m', w') ∧
    (∀ j, (0, j) ∈ send_frame_to_user_sockets alice_id j m') ∧ w_redis w' = w_redis redis_down.
Proof.
  split; [reflexivity|].
  apply (failed_registration_stays alice_id 0 new_manager redis_down (ExRedis RedisConnectionError)).
  reflexivity.
Defined.

(** ** A cleanup overtaken by a registration *)
Definition race_redis (n : nat) : redis_t :=
  let incr r := (add_active_user (str_uuid alice_id) r).2 in
  match n with
  | 0 => ref_redis_empty
  | 1 => incr ref_redis_empty
  | 2 => (presence_decr alice_id (incr ref_redis_empty)).2
  | 3 => incr (presence_decr alice_id (incr ref_redis_empty)).2
  | _ => (presence_del alice_id (incr (presence_decr alice_id (incr ref_redis_empty)).2)).2
  end.

(** Removing a user's last connection decrements the counter and then
    deletes the field in two commands: a registration in between is deleted with
    it. There is a run of one worker with a healthy Redis after which alice's
    only endpoint is serving, its socket registered, and she is not online. *)
Lemma cleanup_race :
  ∃ s r, node_reachable ref_redis_empty (s, r) ∧
    n_coros s = [Serving alice_id 1] ∧ 1 ∈ dd (local_connections (n_mgr s)) alice_id ∧
    presence r alice_id = None.
Proof.
  eexists _, (race_redis 4). split_and!.
  - eapply rtc_l; [apply (step_connect _ _ _ _ _ alice_id)|].
    eapply rtc_l; [apply (step_registered _ _ _ [] [] _ (race_redis 1)); vm_compute; reflexivity|].
    eapply rtc_l; [apply (step_loaded _ _ _ [] [] _ _ _ ∅)|].
    eapply rtc_l; [apply (step_disconnect _ _ _ [] [])|].
    eapply rtc_l; [apply (step_drop_last _ new_manager _ _ [] []);
                   [apply not_elem_of_empty|vm_compute; reflexivity]|].
    eapply rtc_l; [apply (step_decr_zero _ _ _ [] [] _ (race_redis 2) _ 0); [vm_compute; reflexivity|done]|].
    eapply rtc_l; [apply (step_connect _ _ _ _ _ alice_id)|].
    eapply rtc_l; [apply (step_registered _ _ _ [] [_] _ (race_redis 3)); vm_compute; reflexivity|].
    eapply rtc_l; [apply (step_loaded _ _ _ [] [_] _ _ _ ∅)|].
    eapply rtc_l; [eapply (step_del _ _ _ [_] [] _ (race_redis 4)); vm_compute; reflexivity|].
    apply rtc_refl.
  - reflexivity.
  - vm_compute. reflexivity.
  - vm_compute. reflexivity.
Qed.
End runs.
