(* ===== verification/Schemas.v ===== *)
(** * Request validation and response schemas (api/schemas.py)

    The length constraints of the request models, and the responses: a schema
    is the list of its fields, [model_validate] reads them off the attributes of
    a service result ([from_attributes=True]). Pydantic's coercions of
    well-typed values are the identity; ill-typed JSON never reaches a
    handler. *)

From S2P Require Export AuthService.

(** ** Requests *)

Record RegisterRequest := MkRegisterRequest { reg_username : string; reg_password : string }.
Record LoginRequest := MkLoginRequest { log_username : string; log_password : string }.
Record RefreshRequest := MkRefreshRequest { ref_refresh_token : string }.
Record LogoutRequest := MkLogoutRequest { out_refresh_token : string }.
Record SendFriendRequest := MkSendFriendRequest { req_addressee_id : UUID }.
Record CreateGroupRequest := MkCreateGroupRequest { req_name : string }.
Record AddGroupMemberRequest := MkAddGroupMemberRequest { req_user_id : UUID }.
Record SendDirectMessageRequest :=
  MkSendDirectMessageRequest { req_recipient_id : UUID; req_dm_content : string }.
Record SendGroupMessageRequest := MkSendGroupMessageRequest { req_gm_content : string }.

(** [Field(min_length=lo, max_length=hi)] *)
Definition min_length (lo : nat) (s : string) : bool := (lo <=? String.length s)%nat.
Definition max_length (hi : Z) (s : string) : bool := (Z.of_nat (String.length s) <=? hi)%Z.

Definition RegisterRequest_valid (p : RegisterRequest) : bool :=
  min_length 3 (reg_username p) && max_length 50 (reg_username p) && min_length 8 (reg_password p).
Definition CreateGroupRequest_valid (p : CreateGroupRequest) : bool :=
  min_length 1 (req_name p) && max_length 100 (req_name p).
Definition content_valid (content : string) : bool :=
  min_length 1 content && max_length 4096 content.
Definition SendDirectMessageRequest_valid (p : SendDirectMessageRequest) : bool :=
  content_valid (req_dm_content p).
Definition SendGroupMessageRequest_valid (p : SendGroupMessageRequest) : bool :=
  content_valid (req_gm_content p).
(** [Query(default=50, ge=1, le=100)] *)
Definition limit_valid (limit : Z) : bool := (1 <=? limit)%Z && (limit <=? 100)%Z.

(** ** Responses *)

(** The field names of a schema, in order. *)
Abbreviation schema := (list string).
Definition GroupResponse : schema := ["group_id"; "name"; "created_by"; "created_at"].
Definition MembershipResponse : schema := ["group_id"; "user_id"; "joined_at"].
Definition UserResponse : schema := ["user_id"; "username"; "deactivated"; "created_at"].
Definition TokenPairResponse : schema :=
  ["access_token"; "refresh_token"; "access_token_expires_at"; "refresh_token_expires_at"].
Definition FriendshipResponse : schema :=
  ["requester_id"; "addressee_id"; "accepted"; "created_at"; "updated_at"].
Definition DirectMessageResponse : schema :=
  ["message_id"; "sender_id"; "recipient_id"; "content"; "created_at"].
Definition GroupMessageResponse : schema :=
  ["message_id"; "group_id"; "sender_id"; "content"; "created_at"].

(** The attributes of the [TokenPair] dataclass. *)
Definition token_pair_getattr (t : TokenPair) (k : string) : option sqlval :=
  assoc k [("access_token", VText (access_token t));
           ("refresh_token", VText (refresh_token t));
           ("access_token_expires_at", VTs (access_token_expires_at t));
           ("refresh_token_expires_at", VTs (refresh_token_expires_at t))].

(** [Schema.model_validate(obj)]: a missing attribute is a [ValidationError],
    which is a [ValueError]. *)
Definition model_validate (s : schema) (getattr : string → option sqlval) : outcome' record :=
  match mapM (λ k, v ← getattr k; Some (k, v)) s with
  | Some r => Ok r
  | None => Raise ExValueError
  end.
(** A comprehension over a list of models. *)
Fixpoint model_validate_all {M} `{DBModel M} (s : schema) (l : list M) : outcome' (list record) :=
  match l with
  | [] => Ok []
  | m :: l => o_bind (λ r, o_map (cons r) (model_validate_all s l))
                (model_validate s (model_getattr m))
  end.

Lemma model_validate_keys s get r : model_validate s get = Ok r → r.*1 = s.
Proof.
  unfold model_validate. destruct (mapM _ s) as [r'|] eqn:Hm; [|done]. intros [= <-].
  apply mapM_Some in Hm. induction Hm as [|k [k' v] s r' Hkv _ IH]; [done|]. simpl.
  destruct (get k); simplify_eq/=. by f_equal.
Qed.
(** Every field of a schema is an attribute of the model it is built from. *)
Definition covers (M : Type) `{DBModel M} (s : schema) : Prop :=
  ∀ m : M, is_ok (model_validate s (model_getattr m)) = true.
Lemma model_validate_all_ok {M} `{DBModel M} s (l : list M) :
  covers M s → is_ok (model_validate_all s l) = true.
Proof.
  intros Hs. induction l as [|m l IH]; [done|]. simpl. specialize (Hs m).
  destruct (model_validate _ _); [|done]. simpl. by destruct (model_validate_all s l).
Qed.
Lemma model_validate_all_keys {M} `{DBModel M} s (l : list M) rs :
  model_validate_all s l = Ok rs → Forall (λ r, r.*1 = s) rs.
Proof.
  revert rs. induction l as [|m l IH]; intros rs; simpl; [by intros [= <-]|].
  destruct (model_validate _ _) as [r|] eqn:Hr; [simpl|done].
  destruct (model_validate_all s l) as [rs'|]; [|done]. simpl. intros [= <-].
  constructor; [by eapply model_validate_keys|by apply IH].
Qed.

Lemma UserResponse_covers : covers User UserResponse. Proof. done. Qed.
Lemma GroupResponse_covers : covers Group GroupResponse. Proof. done. Qed.
Lemma MembershipResponse_covers : covers Membership MembershipResponse. Proof. done. Qed.
Lemma FriendshipResponse_covers : covers Friendship FriendshipResponse. Proof. done. Qed.
Lemma DirectMessageResponse_covers : covers DirectMessage DirectMessageResponse. Proof. done. Qed.
Lemma GroupMessageResponse_covers : covers GroupMessage GroupMessageResponse. Proof. done. Qed.
Lemma TokenPairResponse_covers t : is_ok (model_validate TokenPairResponse (token_pair_getattr t)) = true.
Proof. done. Qed.
#[export] Hint Resolve UserResponse_covers GroupResponse_covers MembershipResponse_covers
  FriendshipResponse_covers DirectMessageResponse_covers GroupMessageResponse_covers
  TokenPairResponse_covers : py.
