(* ===== verification/Api.v ===== *)
(** * The HTTP API (api/routers, main.py)

    The endpoints of the four HTTP routers on the services, the order in which
    a request is processed (the authentication dependency, then validation of
    parameters and body, then the endpoint), and the exception handlers that
    turn what is raised into a response. *)

From S2P Require Export Schemas UserService GroupService MessagingService Dependencies.

(** The content of a successful response. *)
Inductive Body :=
| BEmpty
| BModel (r : record)
| BModels (rs : list record)
| BAuth (user tokens : record)           (* [AuthResponse] *)
| BMessage (text : string)               (* [{"message": text}] *)
| BDetail (text : string)                (* [{"detail": text}] *)
| BUnprocessable.                        (* FastAPI's list of validation errors *)
Record Response := MkResponse { status : Z; body : Body }.

Inductive Route :=
| PostRegister (p : RegisterRequest) | PostLogin (p : LoginRequest)
| PostRefresh (p : RefreshRequest) | GetMe | PostLogout (p : LogoutRequest)
| GetMyProfile | GetUserByUsername (name : string) | GetUserById (u : UUID)
| PostDeactivate | PostReactivate | DeleteMe
| PostFriendRequest (p : SendFriendRequest) | GetPending | PostAccept (requester : UUID)
| GetFriends | GetFriendStatus (target : UUID) | DeleteFriend (target : UUID)
| PostGroup (p : CreateGroupRequest) | GetGroups | GetGroup (g : UUID) | DeleteGroup (g : UUID)
| PostMember (g : UUID) (p : AddGroupMemberRequest) | DeleteMember (g u : UUID) | GetMembers (g : UUID)
| PostDirect (p : SendDirectMessageRequest)
| GetDirect (recipient : UUID) (before : option timestamp) (limit : Z)
| PostGroupMessage (g : UUID) (p : SendGroupMessageRequest)
| GetGroupMessages (g : UUID) (before : option timestamp) (limit : Z).

(** What FastAPI checks before it calls the endpoint. *)
Definition validated (r : Route) : bool :=
  match r with
  | PostRegister p => RegisterRequest_valid p
  | PostGroup p => CreateGroupRequest_valid p
  | PostDirect p => SendDirectMessageRequest_valid p
  | PostGroupMessage _ p => SendGroupMessageRequest_valid p
  | GetDirect _ _ limit | GetGroupMessages _ _ limit => limit_valid limit
  | _ => true
  end.

(** The routes without [get_current_user]. *)
Definition is_public (r : Route) : bool :=
  match r with
  | PostRegister _ | PostLogin _ | PostRefresh _ | PostLogout _ => true
  | _ => false
  end.
(** Whether the route's dependency admits deactivated accounts. *)
Definition allows_deactivated (r : Route) : bool :=
  match r with PostReactivate => true | _ => false end.

(** The [status_code] of the route decorators, 200 by default. *)
Definition success_status (r : Route) : Z :=
  match r with
  | PostRegister _ | PostFriendRequest _ | PostGroup _ | PostMember _ _ | PostDirect _
  | PostGroupMessage _ _ => 201
  | PostLogout _ | PostDeactivate | PostReactivate | DeleteMe | DeleteFriend _ | DeleteGroup _
  | DeleteMember _ _ => 204
  | _ => 200
  end.

Section responses.
Context {P : Platform}.

(** [return Schema.model_validate(x)] *)
Definition returns {A} `{DBModel A} (s : schema) (a : A) : M Body :=
  lift_outcome (o_map BModel (model_validate s (model_getattr a))).
Definition returns_all {A} `{DBModel A} (s : schema) (l : list A) : M Body :=
  lift_outcome (o_map BModels (model_validate_all s l)).
(** [AuthResponse(user=..., tokens=...)] *)
Definition auth_response (u : User) (t : TokenPair) : M Body :=
  user ← lift_outcome (model_validate UserResponse (model_getattr u));
  tokens ← lift_outcome (model_validate TokenPairResponse (token_pair_getattr t));
  mret (BAuth user tokens).
Definition no_content (m : M unit) : M Body := _ ← m; mret BEmpty.
End responses.

Module AuthRouter.
Section endpoints.
Context {P : Platform} (settings : AuthConfig).
Definition register (payload : RegisterRequest) : M Body :=
  '(u, t) ← AuthService.register settings (reg_username payload) (reg_password payload);
  auth_response u t.
Definition login (payload : LoginRequest) : M Body :=
  '(u, t) ← AuthService.login settings (log_username payload) (log_password payload);
  auth_response u t.
Definition refresh (payload : RefreshRequest) : M Body :=
  token_pair ← AuthService.refresh settings (ref_refresh_token payload);
  lift_outcome (o_map BModel (model_validate TokenPairResponse (token_pair_getattr token_pair))).
Definition get_me (current_user : User) : M Body := returns UserResponse current_user.
Definition logout (payload : LogoutRequest) (raw_access_token : option string) : M Body :=
  no_content (AuthService.logout (out_refresh_token payload) raw_access_token).
End endpoints.
End AuthRouter.

Module UserRouter.
Section endpoints.
Context {P : Platform}.
Implicit Types current_user : User.
Definition get_my_profile current_user : M Body := returns UserResponse current_user.
Definition get_user_by_username (username : string) : M Body :=
  user ← get_by_username username; returns UserResponse user.
Definition get_user_by_id (uid : UUID) : M Body :=
  user ← get_by_id uid; returns UserResponse user.
Definition deactivate_my_account current_user : M Body :=
  no_content (deactivate_account (user_id current_user)).
Definition reactivate_my_account current_user : M Body :=
  no_content (reactivate_account (user_id current_user)).
Definition delete_my_account current_user : M Body :=
  no_content (delete_account (user_id current_user)).
Definition send_request (payload : SendFriendRequest) current_user : M Body :=
  _ ← user_send_friend_request (user_id current_user) (req_addressee_id payload);
  mret (BMessage "Friend request sent successfully.").
Definition list_pending_requests current_user : M Body :=
  pending ← get_pending_friend_requests (user_id current_user);
  returns_all FriendshipResponse pending.
Definition accept_request (requester : UUID) current_user : M Body :=
  _ ← user_accept_friend_request (user_id current_user) requester;
  mret (BMessage "Friend request accepted.").
Definition list_friends current_user : M Body :=
  friends ← get_friends (user_id current_user); returns_all FriendshipResponse friends.
Definition get_status (target : UUID) current_user : M Body :=
  status_record ← user_get_friendship_status (user_id current_user) target;
  returns FriendshipResponse status_record.
Definition remove_or_decline (target : UUID) current_user : M Body :=
  no_content (remove_or_decline_friendship (user_id current_user) target).
End endpoints.
End UserRouter.

Module GroupRouter.
Section endpoints.
Context {P : Platform}.
Implicit Types current_user : User.
Definition create_group (payload : CreateGroupRequest) current_user : M Body :=
  '(group, _) ← svc_create_group (user_id current_user) (req_name payload);
  returns GroupResponse group.
Definition list_groups current_user : M Body :=
  groups ← svc_list_user_groups (user_id current_user); returns_all GroupResponse groups.
Definition get_group (gid : UUID) current_user : M Body :=
  group ← get_group_details (user_id current_user) gid; returns GroupResponse group.
Definition delete_group (gid : UUID) current_user : M Body :=
  no_content (svc_delete_group (user_id current_user) gid).
Definition add_member (gid : UUID) (payload : AddGroupMemberRequest) current_user : M Body :=
  membership ← GroupService.add_member (user_id current_user) gid (req_user_id payload);
  returns MembershipResponse membership.
Definition remove_member (gid uid : UUID) current_user : M Body :=
  no_content (GroupService.remove_member (user_id current_user) gid uid).
Definition list_group_members (gid : UUID) : M Body :=
  memberships ← GroupService.list_group_members gid; returns_all MembershipResponse memberships.
End endpoints.
End GroupRouter.

Module MessagingRouter.
Section endpoints.
Context {P : Platform}.
Implicit Types current_user : User.
Definition send_direct_message (payload : SendDirectMessageRequest) current_user : M Body :=
  dm ← svc_send_direct_message (user_id current_user) (req_recipient_id payload)
         (req_dm_content payload);
  returns DirectMessageResponse dm.
Definition get_dm_history (recipient : UUID) (before : option timestamp) (limit : Z)
    current_user : M Body :=
  messages ← MessagingService.get_dm_history (user_id current_user) recipient before limit;
  returns_all DirectMessageResponse messages.
Definition send_group_message (gid : UUID) (payload : SendGroupMessageRequest) current_user : M Body :=
  msg ← svc_send_group_message (user_id current_user) gid (req_gm_content payload);
  returns GroupMessageResponse msg.
Definition get_group_history (gid : UUID) (before : option timestamp) (limit : Z)
    current_user : M Body :=
  messages ← MessagingService.get_group_history (user_id current_user) gid before limit;
  returns_all GroupMessageResponse messages.
End endpoints.
End MessagingRouter.

(** ** The exception handlers of main.py *)
Definition service_error_handler (exc : ServiceError) : Response :=
  MkResponse (status_code exc) (BDetail (message exc)).
Definition database_error_handler : Response :=
  MkResponse 500 (BDetail "A database operation failed.").
Definition redis_error_handler : Response :=
  MkResponse 500 (BDetail "A caching or messaging operation failed.").
Definition unhandled_exception_handler : Response :=
  MkResponse 500 (BDetail "An internal server error occurred.").
(** The handler registered for the nearest class of the exception; FastAPI's own
    for [HTTPException]. *)
Definition error_response (e : Exn) : Response :=
  match e with
  | ExService exc => service_error_handler exc
  | ExDb _ => database_error_handler
  | ExRedis _ => redis_error_handler
  | ExHTTP code detail => MkResponse code (BDetail detail)
  | _ => unhandled_exception_handler
  end.

(** ** A request *)
Section requests.
Context {P : Platform} (settings : AuthConfig).

(** The endpoint a request reaches once its dependencies have been solved. *)
Definition with_user (credentials : option string) (endpoint : User → M Body) : M (M Body) :=
  current_user ← get_current_user credentials; mret (endpoint current_user).
Definition with_any_user (credentials : option string) (endpoint : User → M Body) : M (M Body) :=
  current_user ← get_current_user_allow_deactivated credentials; mret (endpoint current_user).

Definition resolve (credentials : option string) (r : Route) : M (M Body) :=
  let user := with_user credentials in
  match r with
  | PostRegister p => mret (AuthRouter.register settings p)
  | PostLogin p => mret (AuthRouter.login settings p)
  | PostRefresh p => mret (AuthRouter.refresh settings p)
  | PostLogout p => mret (AuthRouter.logout p (get_raw_access_token credentials))
  | GetMe => user AuthRouter.get_me
  | GetMyProfile => user UserRouter.get_my_profile
  | GetUserByUsername name => user (λ _, UserRouter.get_user_by_username name)
  | GetUserById uid => user (λ _, UserRouter.get_user_by_id uid)
  | PostDeactivate => user UserRouter.deactivate_my_account
  | PostReactivate => with_any_user credentials UserRouter.reactivate_my_account
  | DeleteMe => user UserRouter.delete_my_account
  | PostFriendRequest p => user (UserRouter.send_request p)
  | GetPending => user UserRouter.list_pending_requests
  | PostAccept requester => user (UserRouter.accept_request requester)
  | GetFriends => user UserRouter.list_friends
  | GetFriendStatus target => user (UserRouter.get_status target)
  | DeleteFriend target => user (UserRouter.remove_or_decline target)
  | PostGroup p => user (GroupRouter.create_group p)
  | GetGroups => user GroupRouter.list_groups
  | GetGroup g => user (GroupRouter.get_group g)
  | DeleteGroup g => user (GroupRouter.delete_group g)
  | PostMember g p => user (GroupRouter.add_member g p)
  | DeleteMember g uid => user (GroupRouter.remove_member g uid)
  | GetMembers g => user (λ _, GroupRouter.list_group_members g)
  | PostDirect p => user (MessagingRouter.send_direct_message p)
  | GetDirect recipient before limit => user (MessagingRouter.get_dm_history recipient before limit)
  | PostGroupMessage g p => user (MessagingRouter.send_group_message g p)
  | GetGroupMessages g before limit => user (MessagingRouter.get_group_history g before limit)
  end.

Definition respond (r : Route) (x : outcome' Body * World) : Response * World :=
  match x with
  | (Ok b, w) => (MkResponse (success_status r) b, w)
  | (Raise e, w) => (error_response e, w)
  end.
Definition serve (credentials : option string) (r : Route) (w : World) : Response * World :=
  match resolve credentials r w with
  | (Raise e, w') => (error_response e, w')
  | (Ok endpoint, w') =>
      if validated r then respond r (endpoint w') else (MkResponse 422 BUnprocessable, w')
  end.

End requests.
