(* ===== verification/ApiTheorems.v ===== *)
(** * What the HTTP API guarantees

    Who may reach an endpoint, what an error response means, and what responses
    never carry. *)

From S2P Require Import Atomicity Api.

Section api.
Context {P : Platform} (settings : AuthConfig).
Implicit Types w : World.

(** ** The endpoints *)

Lemma never_raises_returns {A} `{DBModel A} s (a : A) :
  covers A s → never_raises (returns s a).
Proof.
  intros Hs w. unfold returns, lift_outcome. simpl. specialize (Hs a).
  by destruct (model_validate _ _).
Qed.
Lemma never_raises_returns_all {A} `{DBModel A} s (l : list A) :
  covers A s → never_raises (returns_all s l).
Proof.
  intros Hs w. unfold returns_all, lift_outcome. simpl. pose proof (model_validate_all_ok s l Hs).
  by destruct (model_validate_all _ _).
Qed.
Lemma never_raises_auth_response u t : never_raises (auth_response u t).
Proof.
  unfold auth_response. apply never_raises_bind.
  - intros w. apply UserResponse_covers.
  - intros r. apply never_raises_bind; [|intros ?; by intros w]. intros w. apply TokenPairResponse_covers.
Qed.
End api.
#[export] Hint Resolve never_raises_returns never_raises_returns_all never_raises_auth_response : keeps.

(** ** Solving the dependencies touches the token cache only *)
Section dependencies.
Context {P : Platform} (settings : AuthConfig).

Definition same_data (w w' : World) : Prop :=
  w_db w' = w_db w ∧ w_tasks w' = w_tasks w ∧ w_redis w' = w_redis w.
(** The same, with no new faults ahead. *)
Definition only_cache (w w' : World) : Prop := same_data w w' ∧ w_faults w' `suffix_of` w_faults w.

Lemma authenticate_only_cache raw allow w : only_cache w (authenticate_token raw allow w).2.
Proof.
  unfold authenticate_token. rewrite M_bind_run. unfold with_cache at 1.
  destruct (TokenCache.get _ _ _) as [u|].
  - by destruct (_ && _).
  - rewrite M_bind_run. unfold except_not_found.
    set (w1 := set_cache _ _). assert (only_cache w w1) as [(Hd & Ht & Hr) Hf] by done.
    pose proof (quiet_connection (authenticate_tx (hash_token raw) allow)) as Hq.
    destruct (Hq ltac:(unfold authenticate_tx; tx_ok; auto using select_quiet) w1) as (Hf' & H1 & H2 & _ & H3).
    destruct (connection _ w1) as [r w2]. simpl in Hf', H1, H2, H3.
    assert (only_cache w w2) as Hs by (unfold only_cache, same_data; rewrite H1, H2, H3; done).
    destruct r as [u|e]; [done|]. by repeat case_match; simplify_eq/=.
Qed.
Lemma authenticate_same_data raw allow w : same_data w (authenticate_token raw allow w).2.
Proof. apply authenticate_only_cache. Qed.
Lemma resolve_only_cache credentials r w : only_cache w (resolve settings credentials r w).2.
Proof.
  assert (∀ allow raw (k : User → M Body),
    only_cache w ((u ← authenticate_token raw allow; mret (k u)) w).2) as Ha.
  { intros allow raw k. rewrite M_bind_run. pose proof (authenticate_only_cache raw allow w) as Hw.
    by destruct (authenticate_token raw allow w) as [[u|e] w']. }
  assert (∀ allow (k : User → M Body),
    only_cache w ((u ← bearer credentials (λ raw, authenticate_token raw allow); mret (k u)) w).2) as Hb.
  { intros allow k. unfold bearer. destruct credentials as [raw|]; [|done].
    case_bool_decide; [done|apply Ha]. }
  destruct r; simpl; try done; apply Hb.
Qed.
Lemma resolve_same_data credentials r w : same_data w (resolve settings credentials r w).2.
Proof. apply resolve_only_cache. Qed.
End dependencies.

(** An endpoint is its service call followed by a response that cannot fail. *)
Ltac endpoint_step :=
  match goal with
  | |- atomic (no_content _) => unfold no_content
  | |- atomic (returns _ _) => unfold returns; apply atomic_quiet; by intros ?
  | |- never_raises (match ?x with _ => _ end) => destruct x
  | |- never_raises (mret _) => apply never_raises_ret
  | |- never_raises _ => solve [auto with keeps py]
  end.

(** What a route runs as the user [u]. *)
Section gate.
Context {P : Platform} `{PL : !PlatformLaws} (settings : AuthConfig).

Lemma resolve_atomic credentials r w endpoint w' :
  is_public r = false ∨ (∃ p, r = PostRegister p) →
  resolve settings credentials r w = (Ok endpoint, w') → atomic endpoint.
Proof.
  assert (∀ m k, with_user credentials k w = (Ok m, w') → (∀ u, atomic (k u)) → atomic m) as Hu.
  { intros m k. unfold with_user. rewrite M_bind_run.
    destruct (get_current_user _ _) as [[u|e] ?]; [|done]. by intros [= <- <-]. }
  assert (∀ m k, with_any_user credentials k w = (Ok m, w') → (∀ u, atomic (k u)) → atomic m) as Hv.
  { intros m k. unfold with_any_user. rewrite M_bind_run.
    destruct (get_current_user_allow_deactivated _ _) as [[u|e] ?]; [|done]. by intros [= <- <-]. }
  destruct r; intros Hr; cbn [resolve];
    try (intros Hx; eapply Hu in Hx; [exact Hx|]; intros ?);
    try (intros Hx; eapply Hv in Hx; [exact Hx|]; intros ?).
  all: try (destruct Hr as [Hr|[? Hr]]; discriminate Hr).
  1: intros [= <- <-].
  all: repeat first [endpoint_step|atomic_step].
Qed.

Lemma error_status_raises r x resp w' :
  respond r x = (resp, w') → (400 <= status resp)%Z → ∃ e, x = (Raise e, w').
Proof.
  destruct x as [[b|e] w]; intros [= <- <-]; [|eauto]. simpl. destruct r; simpl; lia.
Qed.

(** C13: An error response means that nothing happened: for every route but
    login, refresh and logout, whatever the credentials, the payload and the
    driver errors that strike, a response with a status of 400 or more leaves
    the spawned tasks and Redis as they were, and the tables too, unless the
    connection was lost or the command timed out with a COMMIT in flight that
    the server carried out all the same. *)
Theorem error_response_no_trace credentials r w resp w' :
  is_public r = false ∨ (∃ p, r = PostRegister p) →
  serve settings credentials r w = (resp, w') → (400 <= status resp)%Z →
  w_tasks w' = w_tasks w ∧ w_redis w' = w_redis w ∧ (acknowledged w → w_db w' = w_db w).
Proof.
  intros Hr. unfold serve. pose proof (resolve_only_cache settings credentials r w) as [Hd Hf].
  destruct (resolve settings credentials r w) as [[endpoint|e] w1] eqn:Hres; simpl in Hd, Hf;
    destruct Hd as (H1 & H2 & H3); [|by intros [= <- <-]].
  destruct (validated r); [|by intros [= <- <-]].
  intros Hresp Hst. destruct (error_status_raises _ _ _ _ Hresp Hst) as [e He].
  eapply resolve_atomic in He; [|exact Hr|exact Hres].
  destruct He as (H4 & H5 & _ & H6). rewrite H5, H6. split_and!; [done..|].
  intros Hack. rewrite H4; [done|]. by eapply acknowledged_suffix.
Qed.

(** The account a request acts for: the cached one, or the one the tables and
    the clock give; none without a usable token. *)
Definition session (allow : bool) (credentials : option string) (w : World) : option User :=
  raw ← credentials;
  if bool_decide (raw = EmptyString) then None else
  let h := hash_token raw in
  match TokenCache.get (ent_mono (w_tick w)) h (w_cache w) with
  | Some u => if deactivated u && negb allow then None else Some u
  | None => match auth_decision h allow (ent_clock (2 + w_tick w)) (w_db w) with
            | Ok u => Some u
            | Raise _ => None
            end
  end.
Lemma auth_decision_401 h allow now db e :
  auth_decision h allow now db = Raise e → ∃ d, e = unauthorized d.
Proof. unfold auth_decision. repeat case_match; intros [= <-]; eauto. Qed.

Lemma bearer_run allow credentials w :
  healthy w →
  match session allow credentials w with
  | Some u => ∃ w', bearer credentials (λ raw, authenticate_token raw allow) w = (Ok u, w')
  | None => ∃ d w', bearer credentials (λ raw, authenticate_token raw allow) w =
              (Raise (unauthorized d), w') ∧ w_cache w' = w_cache w
  end.
Proof.
  intros Hw. unfold session, bearer. destruct credentials as [raw|]; [simpl|by do 2 eexists].
  case_bool_decide; [by do 2 eexists|].
  destruct (TokenCache.get _ _ _) as [u|] eqn:Hc.
  - rewrite (authenticate_hit raw allow w u Hc). destruct (_ && _); [by do 2 eexists|by eexists].
  - rewrite (authenticate_miss raw allow w Hw Hc). cbv zeta.
    destruct (auth_decision _ _ _ _) as [u|e] eqn:Hd; [by eexists|].
    apply auth_decision_401 in Hd as [d ->]. by do 2 eexists.
Qed.

(** The endpoint behind a route's dependency, the same for all credentials. *)
Definition guard (allow : bool) (credentials : option string) (k : User → M Body) : M (M Body) :=
  u ← bearer credentials (λ raw, authenticate_token raw allow); mret (k u).
Definition guarded (r : Route) (k : User → M Body) : Prop :=
  ∀ credentials, resolve settings credentials r = guard (allows_deactivated r) credentials k.
Lemma route_guarded r : is_public r = false → ∃ k, guarded r k.
Proof. destruct r; intros [=]; eexists; intros c; reflexivity. Qed.

(** C12: A protected route runs only for the account its bearer token stands
    for. Without a session the answer is 401, whatever the payload, and neither
    data nor the token cache change; with one, an ill-formed payload is answered
    with 422 and changes no data, and otherwise the route's endpoint runs with
    exactly that account as its user. *)
Theorem authentication_gate credentials r w :
  healthy w → is_public r = false →
  let '(resp, w') := serve settings credentials r w in
  match session (allows_deactivated r) credentials w with
  | None => status resp = 401%Z ∧ same_data w w' ∧ w_cache w' = w_cache w
  | Some u =>
      if validated r then
        ∃ endpoint w1, guarded r endpoint ∧ same_data w w1 ∧ (resp, w') = respond r (endpoint u w1)
      else status resp = 422%Z ∧ same_data w w'
  end.
Proof.
  intros Hw Hr. destruct (route_guarded r Hr) as [k Hk].
  pose proof (resolve_same_data settings credentials r w) as Hd.
  pose proof (bearer_run (allows_deactivated r) credentials w Hw) as Hb.
  unfold serve. revert Hd. rewrite Hk. unfold guard. rewrite M_bind_run.
  destruct (session _ _ _) as [u|].
  - destruct Hb as [w1 ->]. simpl. intros Hd. destruct (validated r); [|done].
    destruct (respond r (k u w1)) as [resp w'] eqn:Hresp. by exists k, w1.
  - destruct Hb as (d & w1 & -> & Hc). simpl. done.
Qed.

(** ** What responses carry *)

(** The field names of a response. *)
Definition body_keys (b : Body) : list string :=
  match b with
  | BModel r => r.*1
  | BModels rs => mjoin (fmap fst <$> rs)
  | BAuth user tokens => user.*1 ++ tokens.*1
  | _ => []
  end.
Definition hides (b : Body) : Prop := "password_hash" ∉ body_keys b ∧ "token_hash" ∉ body_keys b.
Definition yields (m : M Body) : Prop := ∀ w b w', m w = (Ok b, w') → hides b.

(** No schema has the fields. *)
Definition public_schema (s : schema) : bool :=
  bool_decide ("password_hash" ∉ s) && bool_decide ("token_hash" ∉ s).

Lemma public_keys s : public_schema s = true → "password_hash" ∉ s ∧ "token_hash" ∉ s.
Proof. by intros [H1%bool_decide_eq_true H2%bool_decide_eq_true]%andb_prop. Qed.

Lemma yields_bind {A} (m : M A) (f : A → M Body) : (∀ a, yields (f a)) → yields (m ≫= f).
Proof.
  intros Hf w b w'. rewrite M_bind_run. destruct (m w) as [[a|e] w1]; [|done]. apply Hf.
Qed.
Lemma yields_ret b : hides b → yields (mret b).
Proof. by intros Hb w b' w' [= <- <-]. Qed.
Lemma hides_models s rs :
  public_schema s = true → Forall (λ r : record, r.*1 = s) rs → hides (BModels rs).
Proof.
  intros [H1 H2]%public_keys Hrs. unfold hides. simpl.
  induction Hrs as [|r rs Hr _ IH]; simpl; [split; apply not_elem_of_nil|].
  rewrite !elem_of_app, Hr. tauto.
Qed.
Lemma yields_returns {A} `{DBModel A} s (a : A) : public_schema s = true → yields (returns s a).
Proof.
  intros Hs w b w'. unfold returns, lift_outcome.
  destruct (model_validate _ _) as [r|] eqn:Hr; [|done]. intros [= <- <-].
  pose proof (hides_models s [r] Hs) as Hh. unfold hides in *. simpl in *. rewrite app_nil_r in Hh.
  apply Hh, Forall_singleton. by eapply model_validate_keys.
Qed.
Lemma yields_returns_all {A} `{DBModel A} s (l : list A) :
  public_schema s = true → yields (returns_all s l).
Proof.
  intros Hs w b w'. unfold returns_all, lift_outcome.
  destruct (model_validate_all _ _) as [rs|] eqn:Hr; [|done]. intros [= <- <-].
  eapply hides_models, model_validate_all_keys; eauto.
Qed.
Lemma yields_tokens t :
  yields (lift_outcome (o_map BModel (model_validate TokenPairResponse (token_pair_getattr t)))).
Proof.
  intros w b w'. unfold lift_outcome. destruct (model_validate _ _) as [r|] eqn:Hr; [|done].
  intros [= <- <-]. pose proof (hides_models TokenPairResponse [r] eq_refl) as Hh.
  unfold hides in *. simpl in *. rewrite app_nil_r in Hh.
  apply Hh, Forall_singleton. by eapply model_validate_keys.
Qed.
Lemma yields_auth_response u t : yields (auth_response u t).
Proof.
  intros w b w'. unfold auth_response, lift_outcome. rewrite M_bind_run.
  destruct (model_validate UserResponse _) as [ru|] eqn:Hu; [|done]. rewrite M_bind_run.
  destruct (model_validate TokenPairResponse _) as [rt|] eqn:Ht; [|done]. intros [= <- <-].
  apply model_validate_keys in Hu, Ht. unfold hides. cbn [body_keys]. rewrite Hu, Ht.
  by apply (public_keys (UserResponse ++ TokenPairResponse)).
Qed.
Lemma hides_empty : hides BEmpty. Proof. split; apply not_elem_of_nil. Qed.
Lemma hides_message s : hides (BMessage s). Proof. split; apply not_elem_of_nil. Qed.

Ltac yields_step :=
  match goal with
  | |- yields (mbind _ _) => apply yields_bind; intros ?
  | |- yields (match ?x with _ => _ end) => destruct x
  | |- yields (mret _) => apply yields_ret
  | |- yields (returns _ _) => by apply yields_returns
  | |- yields (returns_all _ _) => by apply yields_returns_all
  | |- yields (lift_outcome _) => apply yields_tokens
  | |- yields (auth_response _ _) => apply yields_auth_response
  | |- yields ?m => let h := get_head m in unfold h
  | |- hides _ => by (apply hides_empty || apply hides_message)
  end.

Lemma resolve_yields credentials r w endpoint w' :
  resolve settings credentials r w = (Ok endpoint, w') → yields endpoint.
Proof.
  assert (∀ m k, with_user credentials k w = (Ok m, w') → (∀ u, yields (k u)) → yields m) as Hu.
  { intros m k. unfold with_user. rewrite M_bind_run.
    destruct (get_current_user _ _) as [[u|e] ?]; [|done]. by intros [= <- <-]. }
  assert (∀ m k, with_any_user credentials k w = (Ok m, w') → (∀ u, yields (k u)) → yields m) as Hv.
  { intros m k. unfold with_any_user. rewrite M_bind_run.
    destruct (get_current_user_allow_deactivated _ _) as [[u|e] ?]; [|done]. by intros [= <- <-]. }
  destruct r; cbn [resolve];
    try (intros Hx; eapply Hu in Hx; [exact Hx|]; intros ?);
    try (intros Hx; eapply Hv in Hx; [exact Hx|]; intros ?);
    try intros [= <- <-]; repeat yields_step.
Qed.
Lemma hides_error e : hides (body (error_response e)).
Proof. destruct e; split; apply not_elem_of_nil. Qed.

(** C40: Whatever is asked, with whatever credentials and in whatever state, no
    response has a field for a password hash or a token hash. *)
Theorem responses_hide_secrets credentials r w :
  let keys := body_keys (body (serve settings credentials r w).1) in
  "password_hash" ∉ keys ∧ "token_hash" ∉ keys.
Proof.
  change (hides (body (serve settings credentials r w).1)). unfold serve.
  destruct (resolve settings credentials r w) as [[endpoint|e] w1] eqn:Hres; [|apply hides_error].
  destruct (validated r); [|split; apply not_elem_of_nil].
  destruct (endpoint w1) as [[b|e] w2] eqn:He; simpl; [|apply hides_error].
  by eapply resolve_yields.
Qed.
End gate.

(** ** Requests on the sample tables *)
Section runs.
#[local] Existing Instance ref_platform.
#[local] Existing Instance ref_platform_laws.

Definition ask (credentials : option string) (r : Route) : Response * World :=
  serve default_AuthConfig credentials r sample_world.

(** The sample worker when its fifth command, the COMMIT of a message, meets [e]. *)
Definition commit_meets (e : PgError) : @World ref_platform :=
  MkWorld (P := ref_platform) sample_db true [None; None; None; None; Some e] (w_redis sample_world)
    (w_cache sample_world) [] 0.
Definition yo : Route := PostDirect (MkSendDirectMessageRequest bob_id "yo").
Definition send_meeting (e : PgError) : Response * World :=
  serve (P := ref_platform) default_AuthConfig (Some "at-alice") yo (commit_meets e).
Lemma commit_refused : acknowledged (commit_meets (Pg_ConnectionLost false)).
Proof. intros e. cbn. rewrite !elem_of_cons, elem_of_nil. intros. naive_solver. Qed.
Lemma error_response_no_trace_witness :
  let r := PostMember team_id (MkAddGroupMemberRequest bob_id) in
  (status (ask (Some "at-alice") r).1 = 409%Z ∧
   w_tasks (ask (Some "at-alice") r).2 = w_tasks sample_world ∧
   w_db (ask (Some "at-alice") r).2 = sample_db) ∧
  let lost := send_meeting (Pg_ConnectionLost false) in
  status lost.1 = 500%Z ∧ w_tasks lost.2 = [] ∧ w_db lost.2 = sample_db.
Proof.
  intros r. split.
  - assert (status (ask (Some "at-alice") r).1 = 409%Z) as Hs by (vm_compute; reflexivity).
    split; [exact Hs|].
    destruct (ask (Some "at-alice") r) as [resp w'] eqn:Ha.
    destruct (error_response_no_trace default_AuthConfig (Some "at-alice") r sample_world resp w'
      (or_introl eq_refl) Ha) as (Ht & _ & Hd); [cbn [fst] in Hs; rewrite Hs; discriminate|].
    split; [exact Ht|]. exact (Hd (healthy_acknowledged _ sample_healthy)).
  - assert (status (send_meeting (Pg_ConnectionLost false)).1 = 500%Z) as Hs
      by (vm_compute; reflexivity).
    intros lost. unfold lost. clear lost. split; [exact Hs|].
    destruct (send_meeting (Pg_ConnectionLost false)) as [resp w'] eqn:Ha. unfold send_meeting in Ha.
    destruct (error_response_no_trace default_AuthConfig (Some "at-alice") yo _ resp w'
      (or_introl eq_refl) Ha) as (Ht & _ & Hd); [cbn [fst] in Hs; rewrite Hs; discriminate|].
    split; [exact Ht|]. exact (Hd commit_refused).
Defined.
(** The exception is real: the same answer, with the message stored, when the
    server had committed. *)
Lemma unacknowledged_commit_is_stored :
  let lost := send_meeting (Pg_ConnectionLost true) in
  status lost.1 = 500%Z ∧ w_tasks lost.2 = [] ∧
  size (direct_messages (w_db lost.2)) = S (size (direct_messages sample_db)).
Proof. vm_compute. split_and!; reflexivity. Qed.

Lemma authentication_gate_witness :
  session false (Some "at-alice") sample_world = Some alice ∧
  (status (ask None GetMe).1 = 401%Z ∧ same_data sample_world (ask None GetMe).2 ∧
   w_cache (ask None GetMe).2 = w_cache sample_world).
Proof.
  split; [vm_compute; reflexivity|].
  pose proof (authentication_gate default_AuthConfig None GetMe sample_world sample_healthy eq_refl) as Hg.
  unfold ask. destruct (serve _ _ _ _) as [resp w']. exact Hg.
Defined.
End runs.
