(* ===== verification/Ddl.v ===== *)
(** * The schema set-up (database/sql.py, EnsureTableExists, EnsureIndexExists)

    The DDL statements as data, what CREATE ... IF NOT EXISTS does to a
    catalogue, and [ensure_tables_exist] and [ensure_indexes_exist], which run
    the statements of a class in the order it declares them. *)

From S2P Require Export Sql.

(** ** Statements *)
Inductive ColType := T_UUID | T_TEXT | T_BOOLEAN | T_TIMESTAMPTZ.
Inductive ColDefault := D_FALSE | D_NOW.
Inductive OnDelete := CASCADE | SET_NULL.
(** A column; every one of the schema is NOT NULL. *)
Record Column := MkColumn { col_name : string; col_type : ColType; col_default : option ColDefault }.
Inductive TableConstraint :=
| PRIMARY_KEY (c : Constraint) (cols : list string)
| UNIQUE (c : Constraint) (cols : list string)
| FOREIGN_KEY (c : Constraint) (col table ref : string) (d : OnDelete).
Record Table := MkTable { tb_cols : list Column; tb_constraints : list TableConstraint }.
(** A key of an index: a column, descending or not. *)
Record IndexDef := MkIndexDef { ix_table : string; ix_keys : list (string * bool) }.
Inductive Ddl :=
| CREATE_TABLE (name : string) (t : Table)
| CREATE_INDEX (name : string) (i : IndexDef).

#[export] Instance ColType_eq_dec : EqDecision ColType.
Proof. solve_decision. Defined.
#[export] Instance ColDefault_eq_dec : EqDecision ColDefault.
Proof. solve_decision. Defined.
#[export] Instance OnDelete_eq_dec : EqDecision OnDelete.
Proof. solve_decision. Defined.
#[export] Instance Column_eq_dec : EqDecision Column.
Proof. solve_decision. Defined.
#[export] Instance TableConstraint_eq_dec : EqDecision TableConstraint.
Proof. solve_decision. Defined.
#[export] Instance Table_eq_dec : EqDecision Table.
Proof. solve_decision. Defined.
#[export] Instance IndexDef_eq_dec : EqDecision IndexDef.
Proof. solve_decision. Defined.

Inductive Index :=
| IDX_FRIENDSHIPS_ADDRESSEE_ID
| IDX_ACCESS_TOKENS_USER_ID | IDX_REFRESH_TOKENS_USER_ID
| IDX_ACCESS_TOKENS_EXPIRES_AT | IDX_REFRESH_TOKENS_EXPIRES_AT
| IDX_GROUPS_CREATED_BY | IDX_MEMBERSHIPS_USER_ID
| IDX_DM_SENDER_RECIPIENT | IDX_DM_RECIPIENT_SENDER
| IDX_GROUP_MESSAGES_TIMELINE | IDX_GROUP_MESSAGES_SENDER_ID.
(** [auto()] of a StrEnum: the lowered member name. *)
Definition Index_value (i : Index) : string :=
  match i with
  | IDX_FRIENDSHIPS_ADDRESSEE_ID => "idx_friendships_addressee_id"
  | IDX_ACCESS_TOKENS_USER_ID => "idx_access_tokens_user_id"
  | IDX_REFRESH_TOKENS_USER_ID => "idx_refresh_tokens_user_id"
  | IDX_ACCESS_TOKENS_EXPIRES_AT => "idx_access_tokens_expires_at"
  | IDX_REFRESH_TOKENS_EXPIRES_AT => "idx_refresh_tokens_expires_at"
  | IDX_GROUPS_CREATED_BY => "idx_groups_created_by"
  | IDX_MEMBERSHIPS_USER_ID => "idx_memberships_user_id"
  | IDX_DM_SENDER_RECIPIENT => "idx_dm_sender_recipient"
  | IDX_DM_RECIPIENT_SENDER => "idx_dm_recipient_sender"
  | IDX_GROUP_MESSAGES_TIMELINE => "idx_group_messages_timeline"
  | IDX_GROUP_MESSAGES_SENDER_ID => "idx_group_messages_sender_id"
  end.

Definition col (n : string) (t : ColType) : Column := MkColumn n t None.
Definition col_def (n : string) (t : ColType) (d : ColDefault) : Column := MkColumn n t (Some d).

(** ** class EnsureTableExists *)
Module EnsureTableExists.
Definition USER : Ddl := CREATE_TABLE "users" (MkTable
  [col "user_id" T_UUID; col "username" T_TEXT; col "password_hash" T_TEXT;
   col_def "deactivated" T_BOOLEAN D_FALSE; col_def "created_at" T_TIMESTAMPTZ D_NOW]
  [PRIMARY_KEY PK_USERS ["user_id"]; UNIQUE UQ_USERS_USERNAME ["username"]]).
Definition FRIENDSHIPS : Ddl := CREATE_TABLE "friendships" (MkTable
  [col "requester_id" T_UUID; col "addressee_id" T_UUID; col_def "accepted" T_BOOLEAN D_FALSE;
   col_def "created_at" T_TIMESTAMPTZ D_NOW; col_def "updated_at" T_TIMESTAMPTZ D_NOW]
  [PRIMARY_KEY PK_FRIENDSHIPS ["requester_id"; "addressee_id"];
   FOREIGN_KEY FK_FRIENDSHIPS_REQUESTER_ID "requester_id" "users" "user_id" CASCADE;
   FOREIGN_KEY FK_FRIENDSHIPS_ADDRESSEE_ID "addressee_id" "users" "user_id" CASCADE]).
Definition ACCESS_TOKENS : Ddl := CREATE_TABLE "access_tokens" (MkTable
  [col "token_hash" T_TEXT; col "user_id" T_UUID; col "expires_at" T_TIMESTAMPTZ;
   col_def "is_revoked" T_BOOLEAN D_FALSE]
  [PRIMARY_KEY PK_ACCESS_TOKENS ["token_hash"];
   FOREIGN_KEY FK_ACCESS_TOKENS_USER_ID "user_id" "users" "user_id" CASCADE]).
Definition REFRESH_TOKENS : Ddl := CREATE_TABLE "refresh_tokens" (MkTable
  [col "token_hash" T_TEXT; col "user_id" T_UUID; col_def "is_revoked" T_BOOLEAN D_FALSE;
   col "expires_at" T_TIMESTAMPTZ]
  [PRIMARY_KEY PK_REFRESH_TOKENS ["token_hash"];
   FOREIGN_KEY FK_REFRESH_TOKENS_USER_ID "user_id" "users" "user_id" CASCADE]).
Definition GROUPS : Ddl := CREATE_TABLE "groups" (MkTable
  [col "group_id" T_UUID; col "name" T_TEXT; col "created_by" T_UUID;
   col_def "created_at" T_TIMESTAMPTZ D_NOW]
  [PRIMARY_KEY PK_GROUPS ["group_id"];
   FOREIGN_KEY FK_GROUPS_CREATED_BY "created_by" "users" "user_id" SET_NULL]).
Definition MEMBERSHIPS : Ddl := CREATE_TABLE "memberships" (MkTable
  [col "group_id" T_UUID; col "user_id" T_UUID; col_def "joined_at" T_TIMESTAMPTZ D_NOW]
  [PRIMARY_KEY PK_MEMBERSHIPS ["group_id"; "user_id"];
   FOREIGN_KEY FK_MEMBERSHIPS_GROUP_ID "group_id" "groups" "group_id" CASCADE;
   FOREIGN_KEY FK_MEMBERSHIPS_USER_ID "user_id" "users" "user_id" CASCADE]).
Definition DIRECT_MESSAGES : Ddl := CREATE_TABLE "direct_messages" (MkTable
  [col "message_id" T_UUID; col "sender_id" T_UUID; col "recipient_id" T_UUID;
   col "content" T_TEXT; col_def "created_at" T_TIMESTAMPTZ D_NOW]
  [PRIMARY_KEY PK_DIRECT_MESSAGES ["message_id"];
   FOREIGN_KEY FK_DM_SENDER_ID "sender_id" "users" "user_id" CASCADE;
   FOREIGN_KEY FK_DM_RECIPIENT_ID "recipient_id" "users" "user_id" CASCADE]).
Definition GROUP_MESSAGES : Ddl := CREATE_TABLE "group_messages" (MkTable
  [col "message_id" T_UUID; col "group_id" T_UUID; col "sender_id" T_UUID;
   col "content" T_TEXT; col_def "created_at" T_TIMESTAMPTZ D_NOW]
  [PRIMARY_KEY PK_GROUP_MESSAGES ["message_id"];
   FOREIGN_KEY FK_GROUP_MESSAGES_GROUP_ID "group_id" "groups" "group_id" CASCADE;
   FOREIGN_KEY FK_GROUP_MESSAGES_SENDER_ID "sender_id" "users" "user_id" CASCADE]).
(** [IterableStatements.__iter__]: the attributes in declaration order. *)
Definition statements : list Ddl :=
  [USER; FRIENDSHIPS; ACCESS_TOKENS; REFRESH_TOKENS; GROUPS; MEMBERSHIPS; DIRECT_MESSAGES;
   GROUP_MESSAGES].
End EnsureTableExists.

(** ** class EnsureIndexExists *)
Module EnsureIndexExists.
Definition index (name table : string) (cols : list string) : Ddl :=
  CREATE_INDEX name (MkIndexDef table ((λ c, (c, false)) <$> cols)).
Definition index_desc (name table : string) (cols : list string) (desc : string) : Ddl :=
  CREATE_INDEX name (MkIndexDef table (((λ c, (c, false)) <$> cols) ++ [(desc, true)])).
Definition statements : list Ddl :=
  [index (Index_value IDX_FRIENDSHIPS_ADDRESSEE_ID) "friendships" ["addressee_id"; "accepted"];
   index "idx_friendships_requester_id" "friendships" ["requester_id"; "accepted"];
   index (Index_value IDX_ACCESS_TOKENS_USER_ID) "access_tokens" ["user_id"];
   index (Index_value IDX_REFRESH_TOKENS_USER_ID) "refresh_tokens" ["user_id"];
   index (Index_value IDX_ACCESS_TOKENS_EXPIRES_AT) "access_tokens" ["expires_at"];
   index (Index_value IDX_REFRESH_TOKENS_EXPIRES_AT) "refresh_tokens" ["expires_at"];
   index (Index_value IDX_GROUPS_CREATED_BY) "groups" ["created_by"];
   index (Index_value IDX_MEMBERSHIPS_USER_ID) "memberships" ["user_id"; "group_id"];
   index_desc (Index_value IDX_DM_SENDER_RECIPIENT) "direct_messages"
     ["sender_id"; "recipient_id"] "created_at";
   index_desc (Index_value IDX_DM_RECIPIENT_SENDER) "direct_messages"
     ["recipient_id"; "sender_id"] "created_at";
   index_desc (Index_value IDX_GROUP_MESSAGES_TIMELINE) "group_messages" ["group_id"] "created_at";
   index (Index_value IDX_GROUP_MESSAGES_SENDER_ID) "group_messages" ["sender_id"]].
End EnsureIndexExists.

(** ** The catalogue *)
Record Catalog := MkCatalog { cat_tables : gmap string Table; cat_indexes : gmap string IndexDef }.
Definition empty_catalog : Catalog := MkCatalog ∅ ∅.

Definition col_names (t : Table) : list string := col_name <$> tb_cols t.
(** The column sets a foreign key may point to. *)
Definition unique_keys (t : Table) : list (list string) :=
  omap (λ c, match c with
             | PRIMARY_KEY _ cols | UNIQUE _ cols => Some cols
             | FOREIGN_KEY _ _ _ _ _ => None end) (tb_constraints t).
Definition constraint_valid (tables : gmap string Table) (t : Table) (c : TableConstraint) : bool :=
  match c with
  | PRIMARY_KEY _ cols | UNIQUE _ cols => bool_decide (cols ⊆ col_names t)
  | FOREIGN_KEY _ k r ref _ =>
      bool_decide (k ∈ col_names t) &&
      match tables !! r with Some rt => bool_decide ([ref] ∈ unique_keys rt) | None => false end
  end.

(** One statement: a name already taken is left as it is; a table needs its
    constraints to make sense, an index its table and columns. *)
Definition exec_ddl (d : Ddl) (c : Catalog) : PgError + Catalog :=
  match d with
  | CREATE_TABLE name t =>
      if cat_tables c !! name then inr c
      else if forallb (constraint_valid (cat_tables c) t) (tb_constraints t)
      then inr (MkCatalog (<[name := t]> (cat_tables c)) (cat_indexes c))
      else inl Pg_OtherPostgresError
  | CREATE_INDEX name i =>
      if cat_indexes c !! name then inr c
      else match cat_tables c !! ix_table i with
           | Some t =>
               if bool_decide ((ix_keys i).*1 ⊆ col_names t)
               then inr (MkCatalog (cat_tables c) (<[name := i]> (cat_indexes c)))
               else inl Pg_OtherPostgresError
           | None => inl Pg_OtherPostgresError
           end
  end.
(** The loop [for statement in ...: await conn.execute(statement)]; outside a
    transaction block, so that what ran stays when a later one fails. *)
Fixpoint exec_all (ds : list Ddl) (c : Catalog) : option PgError * Catalog :=
  match ds with
  | [] => (None, c)
  | d :: ds => match exec_ddl d c with
               | inl e => (Some e, c)
               | inr c' => exec_all ds c'
               end
  end.
Definition ensure_tables_exist : Catalog → option PgError * Catalog :=
  exec_all EnsureTableExists.statements.
Definition ensure_indexes_exist : Catalog → option PgError * Catalog :=
  exec_all EnsureIndexExists.statements.

(** ** The schema, and catalogues on the way to it *)
Definition all_statements : list Ddl := EnsureTableExists.statements ++ EnsureIndexExists.statements.
Definition schema : Catalog := (exec_all all_statements empty_catalog).2.

(** Nothing in [c] differs from [full]. *)
Definition part_of (c full : Catalog) : Prop :=
  cat_tables c ⊆ cat_tables full ∧ cat_indexes c ⊆ cat_indexes full.
Definition present (c : Catalog) (d : Ddl) : Prop :=
  match d with
  | CREATE_TABLE n _ => is_Some (cat_tables c !! n)
  | CREATE_INDEX n _ => is_Some (cat_indexes c !! n)
  end.
(** The tables a statement needs. *)
Definition needs (d : Ddl) : list string :=
  match d with
  | CREATE_TABLE _ t =>
      omap (λ c, match c with FOREIGN_KEY _ _ r _ _ => Some r | _ => None end) (tb_constraints t)
  | CREATE_INDEX _ i => [ix_table i]
  end.
(** A statement declares what [full] has, and makes sense there. *)
Definition declared (full : Catalog) (d : Ddl) : bool :=
  match d with
  | CREATE_TABLE n t => bool_decide (cat_tables full !! n = Some t) &&
      forallb (constraint_valid (cat_tables full) t) (tb_constraints t)
  | CREATE_INDEX n i => bool_decide (cat_indexes full !! n = Some i) &&
      match cat_tables full !! ix_table i with
      | Some t => bool_decide ((ix_keys i).*1 ⊆ col_names t) | None => false end
  end.
Fixpoint well_ordered (full : Catalog) (seen : list string) (ds : list Ddl) : bool :=
  match ds with
  | [] => true
  | d :: ds => declared full d && bool_decide (needs d ⊆ seen) &&
      well_ordered full (match d with CREATE_TABLE n _ => n :: seen | _ => seen end) ds
  end.

Lemma valid_part tables full t c :
  tables ⊆ full → constraint_valid full t c = true →
  (∀ k n r f d, c = FOREIGN_KEY k n r f d → is_Some (tables !! r)) →
  constraint_valid tables t c = true.
Proof.
  intros Hsub Hv Hneeds. destruct c as [| |k n r f d]; [done..|]. cbn in *.
  destruct (Hneeds _ _ _ _ _ eq_refl) as [rt Hrt]. rewrite Hrt.
  by rewrite (lookup_weaken _ _ _ _ Hrt Hsub) in Hv.
Qed.

Lemma exec_part full c d :
  part_of c full → declared full d = true → (∀ n, n ∈ needs d → is_Some (cat_tables c !! n)) →
  ∃ c', exec_ddl d c = inr c' ∧ part_of c' full ∧ present c' d ∧ part_of c c'.
Proof.
  intros [Ht Hi] Hd Hneeds. assert (part_of c c) as Hrefl by done.
  destruct d as [n t|n i]; cbn in *; apply andb_prop in Hd as [Hd Hv];
    apply bool_decide_eq_true in Hd.
  - destruct (cat_tables c !! n) as [t'|] eqn:Hn; [exists c; split_and!; by eauto|].
    assert (forallb (constraint_valid (cat_tables c) t) (tb_constraints t) = true) as ->.
    { apply forallb_forall. intros k Hk. rewrite forallb_forall in Hv.
      apply (valid_part _ (cat_tables full)); [done|by apply Hv|].
      intros k' n' r f d' ->. apply Hneeds, list_elem_of_omap.
      exists (FOREIGN_KEY k' n' r f d'). split; [by apply list_elem_of_In|done]. }
    eexists. split; [done|]. split_and!; cbn.
    + split; cbn; [|done]. by apply insert_subseteq_l.
    + rewrite lookup_insert_eq. by eexists.
    + split; cbn; [|done]. by apply insert_subseteq.
  - destruct (cat_indexes c !! n) as [i'|] eqn:Hn; [exists c; split_and!; by eauto|].
    destruct (Hneeds (ix_table i)) as [t Hti]; [by apply list_elem_of_singleton|].
    rewrite Hti. rewrite (lookup_weaken _ _ _ _ Hti Ht) in Hv. rewrite Hv.
    eexists. split; [done|]. split_and!; cbn.
    + split; cbn; [done|]. by apply insert_subseteq_l.
    + rewrite lookup_insert_eq. by eexists.
    + split; cbn; [done|]. by apply insert_subseteq.
Qed.

Lemma present_part c c' d : part_of c c' → present c d → present c' d.
Proof. intros [Ht Hi]. destruct d; cbn; intros [x Hx]; eexists; by eapply lookup_weaken. Qed.

Lemma exec_all_part full seen ds c :
  well_ordered full seen ds = true → part_of c full →
  (∀ n, n ∈ seen → is_Some (cat_tables c !! n)) →
  ∃ c', exec_all ds c = (None, c') ∧ part_of c' full ∧ part_of c c' ∧ Forall (present c') ds.
Proof.
  revert seen c. induction ds as [|d ds IH]; intros seen c Hw Hc Hseen; cbn in *.
  { exists c. by split_and!. }
  apply andb_prop in Hw as [Hw Hds]. apply andb_prop in Hw as [Hd Hn].
  apply bool_decide_eq_true in Hn.
  destruct (exec_part full c d Hc Hd) as (c1 & -> & Hc1 & Hp & Hsub); [by auto|].
  destruct (IH _ c1 Hds Hc1) as (c' & Hr & Hc' & Hsub' & Hall).
  { destruct Hsub as [Hst _]. intros n Hn'.
    assert (n ∈ seen → is_Some (cat_tables c1 !! n)) as Hold
      by (intros [t Ht]%Hseen; eexists; by eapply lookup_weaken).
    destruct d as [m t|m i]; [|by auto]. apply elem_of_cons in Hn' as [->|Hn']; [done|by auto]. }
  exists c'. split; [done|]. split; [done|]. split.
  - destruct Hsub, Hsub'. split; by etrans.
  - constructor; [by eapply present_part|done].
Qed.

Lemma part_of_full c full :
  part_of c full → (∀ n, is_Some (cat_tables full !! n) → is_Some (cat_tables c !! n)) →
  (∀ n, is_Some (cat_indexes full !! n) → is_Some (cat_indexes c !! n)) → c = full.
Proof.
  intros [Ht Hi] Hdt Hdi. destruct c as [ct ci], full as [ft fi]; cbn in *.
  assert (∀ {A} (m m' : gmap string A), m ⊆ m' → (∀ n, is_Some (m' !! n) → is_Some (m !! n)) → m = m')
    as Heq.
  { intros A m m' Hs Hd. apply map_eq. intros n. destruct (m' !! n) as [x|] eqn:Hx.
    - destruct (Hd n) as [y Hy]; [by eexists|]. rewrite Hy. by rewrite (lookup_weaken _ _ _ _ Hy Hs) in Hx.
    - destruct (m !! n) as [y|] eqn:Hy; [|done]. by rewrite (lookup_weaken _ _ _ _ Hy Hs) in Hx. }
  f_equal; by apply Heq.
Qed.

Definition creates_table (n : string) (d : Ddl) : bool :=
  match d with CREATE_TABLE m _ => bool_decide (m = n) | _ => false end.
Definition creates_index (n : string) (d : Ddl) : bool :=
  match d with CREATE_INDEX m _ => bool_decide (m = n) | _ => false end.

(** The schema holds what the statements name, and nothing else. *)
Lemma schema_names :
  forallb (λ kt, existsb (creates_table kt.1) all_statements) (map_to_list (cat_tables schema)) &&
  forallb (λ ki, existsb (creates_index ki.1) all_statements) (map_to_list (cat_indexes schema)) =
  true.
Proof. vm_compute. reflexivity. Qed.
Lemma schema_well_ordered : well_ordered schema [] all_statements = true.
Proof. vm_compute. reflexivity. Qed.

Lemma present_all_full c :
  part_of c schema → Forall (present c) all_statements → c = schema.
Proof.
  intros Hc Hall. pose proof schema_names as Hn. apply andb_prop in Hn as [Ht Hi].
  rewrite forallb_forall in Ht, Hi. rewrite Forall_forall in Hall.
  apply part_of_full; [done|..]; intros n [x Hx].
  - apply elem_of_map_to_list, list_elem_of_In, Ht, existsb_exists in Hx as (d & Hd & Hn).
    apply list_elem_of_In, Hall in Hd. destruct d as [m t|m i]; cbn in Hn; [|done].
    by apply bool_decide_eq_true in Hn as ->.
  - apply elem_of_map_to_list, list_elem_of_In, Hi, existsb_exists in Hx as (d & Hd & Hn).
    apply list_elem_of_In, Hall in Hd. destruct d as [m t|m i]; cbn in Hn; [done|].
    by apply bool_decide_eq_true in Hn as ->.
Qed.

Lemma exec_all_app ds1 ds2 c c' :
  exec_all ds1 c = (None, c') → exec_all (ds1 ++ ds2) c = exec_all ds2 c'.
Proof.
  revert c. induction ds1 as [|d ds IH]; intros c; cbn; [by intros [= ->]|].
  destruct (exec_ddl d c); [done|]. apply IH.
Qed.

(** The whole set-up, from any part of the schema. *)
Lemma setup_from c :
  part_of c schema →
  ∃ c1, ensure_tables_exist c = (None, c1) ∧ ensure_indexes_exist c1 = (None, schema).
Proof.
  intros Hc.
  destruct (exec_all_part schema [] all_statements c schema_well_ordered Hc)
    as (c' & Hr & Hc' & _ & Hall); [by intros n ?%elem_of_nil|].
  apply present_all_full in Hall as ->; [|done]. unfold ensure_tables_exist, ensure_indexes_exist.
  destruct (exec_all EnsureTableExists.statements c) as [[e|] c1] eqn:H1.
  - exfalso. assert (∀ ds1 ds2 c e c1, exec_all ds1 c = (Some e, c1) →
      exec_all (ds1 ++ ds2) c = (Some e, c1)) as Hfail.
    { clear. induction ds1 as [|d ds IH]; intros ds2 c e c1; cbn; [done|].
      destruct (exec_ddl d c); [done|]. apply IH. }
    unfold all_statements in Hr. by rewrite (Hfail _ _ _ _ _ H1) in Hr.
  - exists c1. split; [done|]. unfold all_statements in Hr. by rewrite (exec_all_app _ _ _ _ H1) in Hr.
Qed.

(** The set-up can be run on an empty database, run again, and resumed: from
    any part of the schema (what an interrupted set-up leaves) every statement
    goes through, in the order the classes declare them, and the catalogue ends
    up as exactly the eight tables and twelve indexes. The tables have the
    columns, in the order, that the statements on rows use. *)
Lemma schema_setup c :
  part_of c schema →
  (∃ c1, ensure_tables_exist c = (None, c1) ∧ ensure_indexes_exist c1 = (None, schema)) ∧
  (λ kt, (kt.1, col_names kt.2)) <$> map_to_list (cat_tables schema) ≡ₚ
    [("users", users_cols); ("friendships", friendships_cols); ("access_tokens", access_tokens_cols);
     ("refresh_tokens", refresh_tokens_cols); ("groups", groups_cols);
     ("memberships", memberships_cols); ("direct_messages", direct_messages_cols);
     ("group_messages", group_messages_cols)] ∧
  size (cat_indexes schema) = 12.
Proof.
  intros Hc. split; [by apply setup_from|]. split; [|vm_compute; reflexivity].
  apply (bool_decide_unpack _). vm_compute. exact I.
Qed.

Lemma schema_setup_witness :
  (∃ c1, ensure_tables_exist empty_catalog = (None, c1) ∧ ensure_indexes_exist c1 = (None, schema)) ∧
  (∃ c1, ensure_tables_exist schema = (None, c1) ∧ ensure_indexes_exist c1 = (None, schema)).
Proof.
  split; refine (proj1 (schema_setup _ _)); [|done].
  split; apply map_empty_subseteq.
Defined.

(** ** The set-up on a live server

    The sessions of several starting workers run it side by side, each statement
    committing by itself, and any statement can meet a driver error: the loss of
    the connection, a timeout, or the conflict of two CREATEs that both saw no
    table. *)

(** What a statement meets: what siblings created since the statement before,
    and the error, if any, that it fails with. *)
Record Fate := MkFate { ft_siblings : Catalog; ft_error : option PgError }.
Definition with_siblings (c sib : Catalog) : Catalog :=
  MkCatalog (cat_tables c ∪ cat_tables sib) (cat_indexes c ∪ cat_indexes sib).
Definition exec_fated (f : Fate) (d : Ddl) (c : Catalog) : PgError * Catalog + Catalog :=
  let c := with_siblings c (ft_siblings f) in
  match ft_error f, exec_ddl d c with
  | None, inr c' => inr c'
  | None, inl e => inl (e, c)
  | Some e, inr c' => inl (e, if carried_out e then c' else c)
  | Some e, inl _ => inl (e, c)
  end.
(** [exec_all] when the statements meet the fates in order; past their end the
    worker is alone and nothing fails. *)
Definition no_fate : Fate := MkFate empty_catalog None.
Fixpoint exec_each (fs : list Fate) (ds : list Ddl) (c : Catalog) : option PgError * Catalog :=
  match ds with
  | [] => (None, c)
  | d :: ds =>
      match exec_fated (default no_fate (head fs)) d c with
      | inl (e, c') => (Some e, c')
      | inr c' => exec_each (tail fs) ds c'
      end
  end.

Definition siblings_within (full : Catalog) (fs : list Fate) : Prop :=
  Forall (λ f, part_of (ft_siblings f) full) fs.
Lemma with_siblings_part c sib full :
  part_of c full → part_of sib full →
  part_of (with_siblings c sib) full ∧ part_of c (with_siblings c sib).
Proof.
  intros [? ?] [? ?]. split; split; cbn; (by apply map_union_least) || by apply map_union_subseteq_l.
Qed.
Lemma fate_within full fs : siblings_within full fs → part_of (ft_siblings (default no_fate (head fs))) full.
Proof.
  intros Hfs. destruct fs as [|f fs]; [split; apply map_empty_subseteq|].
  by apply Forall_cons in Hfs as [? _].
Qed.

(** Each statement that meets no error goes through; the first error ends it. *)
Lemma exec_each_part full seen ds fs c :
  well_ordered full seen ds = true → part_of c full → siblings_within full fs →
  (∀ n, n ∈ seen → is_Some (cat_tables c !! n)) →
  let '(r, c') := exec_each fs ds c in
  r = head (omap ft_error (take (length ds) fs)) ∧ part_of c' full ∧ part_of c c' ∧
  (r = None → Forall (present c') ds).
Proof.
  revert seen fs c. induction ds as [|d ds IH]; intros seen fs c Hw Hc Hfs Hseen; cbn in *.
  { by split_and!. }
  apply andb_prop in Hw as [Hw Hds]. apply andb_prop in Hw as [Hd Hn].
  apply bool_decide_eq_true in Hn. unfold exec_fated.
  set (f := default no_fate (head fs)).
  destruct (with_siblings_part c (ft_siblings f) full Hc (fate_within full fs Hfs)) as [Hc1 Hsub1].
  set (c1 := with_siblings c (ft_siblings f)) in *.
  destruct (exec_part full c1 d Hc1 Hd) as (c2 & -> & Hc2 & Hp & Hsub2).
  { intros n [t Ht]%Hn%Hseen. eexists. eapply lookup_weaken; [exact Ht|apply Hsub1]. }
  assert (part_of c c2) as Hsub by (destruct Hsub1, Hsub2; split; by etrans).
  assert (head (omap ft_error (take (S (length ds)) fs)) =
    match ft_error f with Some e => Some e | None => head (omap ft_error (take (length ds) (tail fs))) end)
    as Hhead by (subst f; destruct fs as [|[sib [e|]] fs]; cbn; by rewrite ?take_nil).
  rewrite Hhead. destruct (ft_error f) as [e|].
  { split; [done|]. destruct (carried_out e); by split_and!. }
  assert (siblings_within full (tail fs)) as Htl
    by (destruct fs as [|? fs]; [done|by apply Forall_cons in Hfs as [_ ?]]).
  specialize (IH _ (tail fs) c2 Hds Hc2 Htl).
  destruct (exec_each (tail fs) ds c2) as [r c'].
  destruct IH as (-> & Hc' & Hsub' & Hall).
  { intros n Hn'.
    assert (n ∈ seen → is_Some (cat_tables c2 !! n)) as Hold
      by (intros [t Ht]%Hseen; eexists; eapply lookup_weaken; [exact Ht|apply Hsub]).
    destruct d as [m t|m i]; [|by auto]. apply elem_of_cons in Hn' as [->|Hn']; [done|by auto]. }
  split; [done|]. split; [done|]. split; [destruct Hsub, Hsub'; split; by etrans|].
  intros Hr. constructor; [by eapply present_part|by apply Hall].
Qed.
Lemma exec_each_app ds1 ds2 fs c :
  exec_each fs (ds1 ++ ds2) c =
  match exec_each fs ds1 c with
  | (None, c1) => exec_each (drop (length ds1) fs) ds2 c1
  | r => r
  end.
Proof.
  revert fs c. induction ds1 as [|d ds IH]; intros fs c; cbn; [by rewrite drop_0|].
  destruct (exec_fated _ _ _) as [[e c1]|c1]; [done|]. rewrite IH.
  by destruct fs; cbn; rewrite ?drop_nil.
Qed.
(** Alone on a healthy server it is [exec_all]. *)
Lemma exec_each_alone ds c : exec_each [] ds c = exec_all ds c.
Proof.
  revert c. induction ds as [|d ds IH]; intros c; cbn; [done|].
  unfold exec_fated, with_siblings. cbn. rewrite !(right_id_L ∅ (∪)). destruct c as [t i]. cbn.
  destruct (exec_ddl d (MkCatalog t i)); [done|apply IH].
Qed.

(** The whole set-up: it fails with the first error that its statements meet, and
    only then; it never leaves the schema, so that the next start resumes it. *)
Lemma setup_fated fs c :
  part_of c schema → siblings_within schema fs →
  let '(r, c') := exec_each fs all_statements c in
  r = head (omap ft_error (take (length all_statements) fs)) ∧ part_of c' schema ∧ part_of c c' ∧
  (r = None → c' = schema).
Proof.
  intros Hc Hfs.
  pose proof (exec_each_part schema [] all_statements fs c schema_well_ordered Hc Hfs) as Hrun.
  destruct (exec_each fs all_statements c) as [r c'].
  destruct Hrun as (Hr & Hc' & Hsub & Hall); [by intros n ?%elem_of_nil|].
  split_and!; [done..|]. intros Hn. by apply present_all_full, Hall.
Qed.
