(* ===== verification/Conformance.v ===== *)
(** * The tables against the schema

    What the DDL of database/sql.py asks of a server, read off its statements:
    typed columns without NULL, unique keys, foreign keys with what a deletion
    does to the rows that refer to the deleted one. The stored tables satisfy it,
    and the insertions and deletions of [Sql], written by hand for each table, do
    what the statements say, errors and the constraint they name included. *)

From S2P Require Export Ddl DbInv Samples.

(** ** The tables as records *)
Abbreviation Image := (string → list record).
Definition image (db : Database) : Image := λ name,
  default [] (assoc name [
    ("users", record_of users_cols <$> table_rows (users db));
    ("friendships", record_of friendships_cols <$> table_rows (friendships db));
    ("access_tokens", record_of access_tokens_cols <$> table_rows (access_tokens db));
    ("refresh_tokens", record_of refresh_tokens_cols <$> table_rows (refresh_tokens db));
    ("groups", record_of groups_cols <$> table_rows (groups db));
    ("memberships", record_of memberships_cols <$> table_rows (memberships db));
    ("direct_messages", record_of direct_messages_cols <$> table_rows (direct_messages db));
    ("group_messages", record_of group_messages_cols <$> table_rows (group_messages db))]).
(** What the set-up creates. *)
Definition ddl_tables : list (string * Table) :=
  omap (λ d, match d with CREATE_TABLE n t => Some (n, t) | CREATE_INDEX _ _ => None end)
    EnsureTableExists.statements.
Definition names : list string := ddl_tables.*1.
Definition table (name : string) : Table := default (MkTable [] []) (assoc name ddl_tables).

(** ** What a declaration means *)
Definition has_type (ty : ColType) (v : sqlval) : bool :=
  match ty, v with
  | T_UUID, VUuid _ | T_TEXT, VText _ | T_BOOLEAN, VBool _ | T_TIMESTAMPTZ, VTs _ => true
  | _, _ => false
  end.
(** The columns in order, each with a value of its type, none of them NULL. *)
Fixpoint row_typed (cs : list Column) (r : record) : bool :=
  match cs, r with
  | [], [] => true
  | c :: cs, (k, v) :: r =>
      bool_decide (k = col_name c) && has_type (col_type c) v && row_typed cs r
  | _, _ => false
  end.
Definition cells (cols : list string) (r : record) : list (option sqlval) := (λ k, assoc k r) <$> cols.
(** A row of [rows] holds in [ref] what [r] holds in [k]. *)
Definition found (rows : list record) (ref k : string) (r : record) : Prop :=
  Exists (λ r', assoc ref r' = assoc k r) rows.
Definition satisfied (img : Image) (rows : list record) (c : TableConstraint) : Prop :=
  match c with
  | PRIMARY_KEY _ cols | UNIQUE _ cols => NoDup (cells cols <$> rows)
  | FOREIGN_KEY _ k table ref _ => Forall (found (img table) ref k) rows
  end.
Definition table_conforms (img : Image) (name : string) (t : Table) : Prop :=
  Forall (λ r, row_typed (tb_cols t) r = true) (img name) ∧
  Forall (satisfied img (img name)) (tb_constraints t).
Definition conforms (img : Image) : Prop :=
  Forall (λ nt : string * Table, table_conforms img nt.1 nt.2) ddl_tables.

(** ** What the server does with a row *)
Definition broken (img : Image) (name : string) (r : record) (c : TableConstraint) : option PgError :=
  match c with
  | PRIMARY_KEY c cols | UNIQUE c cols =>
      if bool_decide (Exists (λ r', cells cols r' = cells cols r) (img name))
      then Some (Pg_UniqueViolation name (Constraint_value c)) else None
  | FOREIGN_KEY c k table ref _ =>
      if bool_decide (found (img table) ref k r)
      then None else Some (Pg_ForeignKeyViolation name (Constraint_value c))
  end.
(** NULLs first, then the constraints in the order of their declaration. *)
Definition violation (img : Image) (name : string) (r : record) : option PgError :=
  match assoc name ddl_tables with
  | None => Some Pg_OtherPostgresError
  | Some t =>
      if existsb (λ kv : string * sqlval, bool_decide (kv.2 = VNull)) r
      then Some (Pg_NotNullViolation name)
      else if row_typed (tb_cols t) r then first_some (broken img name r) (tb_constraints t)
      else Some Pg_DataError
  end.
Definition ddl_insert (name : string) (r : record) (img : Image) : PgError + Image :=
  match violation img name r with
  | Some e => inl e
  | None => inr (λ n, if decide (n = name) then r :: img n else img n)
  end.

(** The rows [gone] of [name] are deleted: a row that refers to one of them
    through a foreign key goes too, or loses a value that may not be NULL. *)
Definition refers (d : OnDelete) (name : string) (gone : list record) (t : Table) (r : record) : Prop :=
  Exists (λ c, match c with
               | FOREIGN_KEY _ k table ref d' => table = name ∧ d' = d ∧ found gone ref k r
               | _ => False end) (tb_constraints t).
#[export] Instance refers_dec d name gone t r : Decision (refers d name gone t r).
Proof. unfold refers. apply Exists_dec. intros [?|?|?????]; unfold found; apply _. Defined.
Definition ddl_delete (name col : string) (v : sqlval) (img : Image) : PgError + Image :=
  let gone := filter (λ r, assoc col r = Some v) (img name) in
  match first_some (λ n,
          if bool_decide (Exists (refers SET_NULL name gone (table n)) (img n))
          then Some (Pg_NotNullViolation n) else None) names with
  | Some e => inl e
  | None => inr (λ n, filter (λ r, ¬ ((n = name ∧ assoc col r = Some v) ∨
                                      refers CASCADE name gone (table n) r)) (img n))
  end.

(** The same outcome: the same error, or tables with the same rows. *)
Definition same_tables (img img' : Image) : Prop := Forall (λ n, img n ≡ₚ img' n) names.
Definition agrees (r : PgError + Database) (s : PgError + Image) : Prop :=
  match r, s with
  | inl e, inl e' => e = e'
  | inr db, inr img => same_tables (image db) img
  | _, _ => False
  end.

(** Every row is stored under its primary key. *)
Record keyed (db : Database) : Prop := {
  key_users : map_Forall (λ k u, user_id u = k) (users db);
  key_friendships : map_Forall (λ k f, (requester_id f, addressee_id f) = k) (friendships db);
  key_access_tokens : map_Forall (λ k t, at_token_hash t = k) (access_tokens db);
  key_refresh_tokens : map_Forall (λ k t, rt_token_hash t = k) (refresh_tokens db);
  key_groups : map_Forall (λ k g, group_id g = k) (groups db);
  key_memberships : map_Forall (λ k m, mb_pk m = k) (memberships db);
  key_direct_messages : map_Forall (λ k m, dm_message_id m = k) (direct_messages db);
  key_group_messages : map_Forall (λ k m, gm_message_id m = k) (group_messages db);
}.

(** ** Rows and records *)
Section rows.
Context `{Countable K} {A : Type}.
Implicit Types (t : gmap K A) (rec : A → record).

Lemma elem_of_rows t x : x ∈ table_rows t ↔ ∃ k, t !! k = Some x.
Proof.
  unfold table_rows. rewrite list_elem_of_fmap. split.
  - intros ([k y] & -> & Hk%elem_of_map_to_list). by exists k.
  - intros [k Hk]. exists (k, x). by rewrite elem_of_map_to_list.
Qed.
Lemma forall_rows t rec (Q : record → Prop) :
  Forall Q (rec <$> table_rows t) ↔ map_Forall (λ _ x, Q (rec x)) t.
Proof.
  rewrite Forall_fmap, Forall_forall. setoid_rewrite elem_of_rows. split.
  - intros HQ k x Hx. apply HQ. by exists k.
  - intros HQ x [k Hx]. by eapply HQ.
Qed.
Lemma nodup_rows {B} t (f : A → B) :
  NoDup (f <$> table_rows t) ↔
  ∀ k1 k2 x1 x2, t !! k1 = Some x1 → t !! k2 = Some x2 → f x1 = f x2 → k1 = k2.
Proof.
  unfold table_rows. rewrite <-list_fmap_compose. split.
  - intros Hnd k1 k2 x1 x2 H1%elem_of_map_to_list H2%elem_of_map_to_list Hf.
    apply list_elem_of_lookup in H1 as [i1 H1], H2 as [i2 H2].
    assert (i1 = i2) as ->.
    { eapply NoDup_lookup; [exact Hnd| |]; rewrite list_lookup_fmap; [by rewrite H1|].
      rewrite H2. cbn. by rewrite Hf. }
    congruence.
  - intros Hinj. apply NoDup_fmap_2_strong, NoDup_map_to_list.
    intros [k1 x1] [k2 x2] H1%elem_of_map_to_list H2%elem_of_map_to_list Hf.
    assert (k1 = k2) as -> by by eapply Hinj. congruence.
Qed.
Lemma nodup_cells t rec cols :
  NoDup (cells cols <$> (rec <$> table_rows t)) ↔
  ∀ k1 k2 x1 x2, t !! k1 = Some x1 → t !! k2 = Some x2 →
    cells cols (rec x1) = cells cols (rec x2) → k1 = k2.
Proof. rewrite <-list_fmap_compose. apply nodup_rows. Qed.

(** A row that is found by its primary key. *)
Lemma exists_row t (pk : A → K) rec (Q : record → Prop) `{∀ r, Decision (Q r)} k :
  map_Forall (λ k x, pk x = k) t → (∀ x, Q (rec x) ↔ pk x = k) →
  bool_decide (Exists Q (rec <$> table_rows t)) = taken (t !! k).
Proof.
  intros Hkey HQ. apply eq_bool_prop_intro. rewrite bool_decide_spec, Exists_fmap, Exists_exists.
  setoid_rewrite elem_of_rows. split.
  - intros (x & [k' Hx] & Hq%HQ). rewrite (Hkey _ _ Hx) in Hq. subst. by rewrite Hx.
  - destruct (t !! k) as [x|] eqn:Hx; [intros _|done]. exists x. split; [by exists k|].
    by apply HQ, Hkey.
Qed.
Lemma any_exists t rec (Q : A → Prop) (R : record → Prop) `{∀ x, Decision (Q x)} `{∀ r, Decision (R r)} :
  (∀ x, Q x ↔ R (rec x)) → any_row Q t = bool_decide (Exists R (rec <$> table_rows t)).
Proof.
  intros HQR. unfold any_row. apply bool_decide_ext. rewrite Exists_fmap, !Exists_exists.
  by setoid_rewrite HQR.
Qed.
Lemma rows_insert t rec k x :
  t !! k = None → rec <$> table_rows (<[k := x]> t) ≡ₚ rec x :: (rec <$> table_rows t).
Proof. intros Hk. unfold table_rows. by rewrite map_to_list_insert. Qed.
Lemma rows_filter t rec (Q : A → Prop) (R : record → Prop)
    `{∀ kv : K * A, Decision (Q kv.2)} `{∀ r, Decision (R r)} :
  (∀ x, Q x ↔ R (rec x)) →
  rec <$> table_rows (filter (λ kv, Q kv.2) t) ≡ₚ filter R (rec <$> table_rows t).
Proof.
  intros HQR. unfold table_rows.
  assert (map_to_list (filter (λ kv, Q kv.2) t) ≡ₚ filter (λ kv, Q kv.2) (map_to_list t)) as ->.
  { apply NoDup_Permutation; [apply NoDup_map_to_list|apply NoDup_filter, NoDup_map_to_list|].
    intros [k x]. rewrite list_elem_of_filter, !elem_of_map_to_list, map_lookup_filter_Some. tauto. }
  induction (map_to_list t) as [|[k x] l IH]; [done|]. specialize (HQR x).
  rewrite (fmap_cons snd), (fmap_cons rec). destruct (decide (Q (k, x).2)) as [HQ|HQ]; cbn in HQ.
  - rewrite !filter_cons_True by tauto. rewrite !fmap_cons. by f_equiv.
  - by rewrite !filter_cons_False by tauto.
Qed.
End rows.

Section keyed.
Context (db : Database) (Hkey : keyed db).

Lemma found_user k r u :
  assoc k r = Some (VUuid u) →
  bool_decide (found (image db "users") "user_id" k r) = taken (users db !! u).
Proof.
  intros Hr. unfold found. apply (exists_row _ user_id); [apply Hkey|]. intros x.
  change (assoc "user_id" (record_of users_cols x)) with (Some (VUuid (user_id x))).
  rewrite Hr. split; congruence.
Qed.
Lemma found_group k r g :
  assoc k r = Some (VUuid g) →
  bool_decide (found (image db "groups") "group_id" k r) = taken (groups db !! g).
Proof.
  intros Hr. unfold found. apply (exists_row _ group_id); [apply Hkey|]. intros x.
  change (assoc "group_id" (record_of groups_cols x)) with (Some (VUuid (group_id x))).
  rewrite Hr. split; congruence.
Qed.
End keyed.

(** ** Stored rows *)
Lemma wf_keyed db : wf_db db → keyed db.
Proof.
  intros Hwf. split; intros k x Hx; [by apply Hwf|symmetry; by eapply wf_friendships
    |by eapply wf_access_tokens|by eapply wf_refresh_tokens|by eapply wf_groups
    |symmetry; by eapply wf_memberships|by eapply wf_direct_messages|by eapply wf_group_messages].
Qed.

Lemma taken_some {A} (o : option A) : taken o = true ↔ is_Some o.
Proof. destruct o; cbn; split; first [done|by eexists|by intros [? ?]]. Qed.
Lemma map_Forall_iff {K A} `{Countable K} (Q R : A → Prop) (t : gmap K A) :
  (∀ x, Q x ↔ R x) → map_Forall (λ _ x, Q x) t ↔ map_Forall (λ _ x, R x) t.
Proof. intros HQR. split; intros Ht k x Hx; by eapply HQR, Ht. Qed.

Section conformance.
Context (db : Database) (Hkey : keyed db).
Context {K A : Type} `{Countable K} (t : gmap K A) (rec : A → record) (k : string) (fk : A → UUID).
Hypothesis (Hfk : ∀ x, assoc k (rec x) = Some (VUuid (fk x))).

Lemma all_found_users :
  Forall (found (image db "users") "user_id" k) (rec <$> table_rows t) ↔
  map_Forall (λ _ x, has_user db (fk x)) t.
Proof.
  rewrite forall_rows. apply map_Forall_iff. intros x.
  by rewrite <-(bool_decide_eq_true (found _ _ _ _)), (found_user db Hkey _ _ _ (Hfk x)), taken_some.
Qed.
Lemma all_found_groups :
  Forall (found (image db "groups") "group_id" k) (rec <$> table_rows t) ↔
  map_Forall (λ _ x, has_group db (fk x)) t.
Proof.
  rewrite forall_rows. apply map_Forall_iff. intros x.
  by rewrite <-(bool_decide_eq_true (found _ _ _ _)), (found_group db Hkey _ _ _ (Hfk x)), taken_some.
Qed.
End conformance.

(** *** Each table, given that rows are stored under their keys *)
Lemma primary_key {K A} `{Countable K} (t : gmap K A) (rec : A → record) cols (pk : A → K) :
  map_Forall (λ k x, pk x = k) t →
  (∀ x y, cells cols (rec x) = cells cols (rec y) → pk x = pk y) →
  NoDup (cells cols <$> (rec <$> table_rows t)) ↔ True.
Proof.
  intros Hkey Hinj. split; [done|intros _]. apply nodup_cells. intros k1 k2 x1 x2 H1 H2 Heq%Hinj.
  by rewrite (Hkey _ _ H1), (Hkey _ _ H2) in Heq.
Qed.
Lemma rows_typed {K A} `{Countable K} (t : gmap K A) (rec : A → record) cs :
  (∀ x, row_typed cs (rec x) = true) →
  Forall (λ r, row_typed cs r = true) (rec <$> table_rows t) ↔ True.
Proof. intros Ht. split; [done|intros _]. apply forall_rows. by intros k x _. Qed.

Lemma tables_named : ddl_tables = (λ n, (n, table n)) <$> names.
Proof. by vm_compute. Qed.
Lemma conforms_tables img :
  conforms img ↔ Forall (λ n, table_conforms img n (table n)) names.
Proof. unfold conforms. by rewrite tables_named, Forall_fmap. Qed.

(** The declaration of a table, its columns and then its constraints. *)
Ltac open_table rows :=
  lazymatch goal with |- table_conforms (image ?db) ?name _ ↔ ?G =>
    let t := eval vm_compute in (table name) in
    change (table_conforms (image db) name t ↔ G); unfold table_conforms;
    cbn [tb_cols tb_constraints]; rewrite !Forall_cons, Forall_nil; cbn [satisfied];
    change (image db name) with rows
  end.
Ltac columns := intros; reflexivity.
Ltac key_columns Hkey :=
  rewrite primary_key; [|by apply Hkey|intros [] [] [=]; unfold mb_pk; cbn; congruence].
Ltac fk_users Hkey fk := rewrite (all_found_users _ Hkey _ _ _ fk) by columns.
Ltac fk_groups Hkey fk := rewrite (all_found_groups _ Hkey _ _ _ fk) by columns.

Section each.
Context (db : Database) (Hkey : keyed db).
Notation conform name := (table_conforms (image db) name (table name)).

Lemma users_conform :
  conform "users" ↔ ∀ k1 k2 u1 u2, users db !! k1 = Some u1 → users db !! k2 = Some u2 →
    username u1 = username u2 → k1 = k2.
Proof.
  open_table (record_of users_cols <$> table_rows (users db)).
  rewrite rows_typed by columns. key_columns Hkey. rewrite nodup_cells. split.
  - intros (_ & _ & Hu & _) k1 k2 u1 u2 H1 H2 Hn. apply (Hu k1 k2 u1 u2 H1 H2).
    change ([Some (VText (username u1))] = [Some (VText (username u2))]). congruence.
  - intros Hu. split_and!; [done..| |done]. intros k1 k2 u1 u2 H1 H2 [= Hn]. by eapply Hu.
Qed.
Lemma friendships_conform :
  conform "friendships" ↔
  map_Forall (λ _ x, has_user db (requester_id x)) (friendships db) ∧
  map_Forall (λ _ x, has_user db (addressee_id x)) (friendships db).
Proof.
  open_table (record_of friendships_cols <$> table_rows (friendships db)).
  rewrite rows_typed by columns. key_columns Hkey.
  fk_users Hkey requester_id. fk_users Hkey addressee_id. tauto.
Qed.
Lemma access_tokens_conform :
  conform "access_tokens" ↔ map_Forall (λ _ x, has_user db (at_user_id x)) (access_tokens db).
Proof.
  open_table (record_of access_tokens_cols <$> table_rows (access_tokens db)).
  rewrite rows_typed by columns. key_columns Hkey. fk_users Hkey at_user_id. tauto.
Qed.
Lemma refresh_tokens_conform :
  conform "refresh_tokens" ↔ map_Forall (λ _ x, has_user db (rt_user_id x)) (refresh_tokens db).
Proof.
  open_table (record_of refresh_tokens_cols <$> table_rows (refresh_tokens db)).
  rewrite rows_typed by columns. key_columns Hkey. fk_users Hkey rt_user_id. tauto.
Qed.
Lemma memberships_conform :
  conform "memberships" ↔
  map_Forall (λ _ x, has_group db (mb_group_id x)) (memberships db) ∧
  map_Forall (λ _ x, has_user db (mb_user_id x)) (memberships db).
Proof.
  open_table (record_of memberships_cols <$> table_rows (memberships db)).
  rewrite rows_typed by columns. key_columns Hkey.
  fk_groups Hkey mb_group_id. fk_users Hkey mb_user_id. tauto.
Qed.
Lemma direct_messages_conform :
  conform "direct_messages" ↔
  map_Forall (λ _ x, has_user db (dm_sender_id x)) (direct_messages db) ∧
  map_Forall (λ _ x, has_user db (dm_recipient_id x)) (direct_messages db).
Proof.
  open_table (record_of direct_messages_cols <$> table_rows (direct_messages db)).
  rewrite rows_typed by columns. key_columns Hkey.
  fk_users Hkey dm_sender_id. fk_users Hkey dm_recipient_id. tauto.
Qed.
Lemma group_messages_conform :
  conform "group_messages" ↔
  map_Forall (λ _ x, has_group db (gm_group_id x)) (group_messages db) ∧
  map_Forall (λ _ x, has_user db (gm_sender_id x)) (group_messages db).
Proof.
  open_table (record_of group_messages_cols <$> table_rows (group_messages db)).
  rewrite rows_typed by columns. key_columns Hkey.
  fk_groups Hkey gm_group_id. fk_users Hkey gm_sender_id. tauto.
Qed.
(** The creator is the one column that can hold a NULL in [Models]. *)
Lemma groups_conform :
  conform "groups" ↔ map_Forall (λ _ x, ∃ c, created_by x = Some c ∧ has_user db c) (groups db).
Proof.
  open_table (record_of groups_cols <$> table_rows (groups db)). key_columns Hkey.
  rewrite !forall_rows. split.
  - intros (Ht & _ & Hf & _) k x Hx. specialize (Ht k x Hx). specialize (Hf k x Hx).
    destruct x as [g n [c|] t]; [|discriminate Ht]. exists c. split; [done|].
    rewrite <-(bool_decide_eq_true (found _ _ _ _)), (found_user db Hkey "created_by" _ c) in Hf by columns.
    by apply taken_some.
  - intros Hg. split_and!; [|done| |done]; intros k x Hx; destruct (Hg k x Hx) as (c & Hc & Hu);
      destruct x as [g n c' t]; cbn in Hc; subst c'; [done|].
    rewrite <-(bool_decide_eq_true (found _ _ _ _)), (found_user db Hkey "created_by" _ c) by columns.
    by apply taken_some.
Qed.
End each.

Lemma names_eq :
  names = ["users"; "friendships"; "access_tokens"; "refresh_tokens"; "groups"; "memberships";
           "direct_messages"; "group_messages"].
Proof. by vm_compute. Qed.
Lemma conforms_all db :
  keyed db →
  conforms (image db) ↔
  (∀ k1 k2 u1 u2, users db !! k1 = Some u1 → users db !! k2 = Some u2 →
     username u1 = username u2 → k1 = k2) ∧
  (map_Forall (λ _ x, has_user db (requester_id x)) (friendships db) ∧
   map_Forall (λ _ x, has_user db (addressee_id x)) (friendships db)) ∧
  map_Forall (λ _ x, has_user db (at_user_id x)) (access_tokens db) ∧
  map_Forall (λ _ x, has_user db (rt_user_id x)) (refresh_tokens db) ∧
  map_Forall (λ _ x, ∃ c, created_by x = Some c ∧ has_user db c) (groups db) ∧
  (map_Forall (λ _ x, has_group db (mb_group_id x)) (memberships db) ∧
   map_Forall (λ _ x, has_user db (mb_user_id x)) (memberships db)) ∧
  (map_Forall (λ _ x, has_user db (dm_sender_id x)) (direct_messages db) ∧
   map_Forall (λ _ x, has_user db (dm_recipient_id x)) (direct_messages db)) ∧
  (map_Forall (λ _ x, has_group db (gm_group_id x)) (group_messages db) ∧
   map_Forall (λ _ x, has_user db (gm_sender_id x)) (group_messages db)).
Proof.
  intros Hkey. rewrite conforms_tables, names_eq, !Forall_cons, Forall_nil.
  rewrite users_conform, friendships_conform, access_tokens_conform, refresh_tokens_conform,
    groups_conform, memberships_conform, direct_messages_conform, group_messages_conform by done.
  tauto.
Qed.

(** C10: the stored rows are typed by the schema: the soundness of the tables is
    exactly what the DDL statements declare (rows under their primary keys
    provided): every row has the columns of its table in their order, each with
    a value of the column's type and no NULL, no two rows agree on the columns
    of a key, and every foreign key finds its row. So every database the
    services can reach conforms to the schema they set up. *)
Theorem stored_rows_typed db : wf_db db ↔ keyed db ∧ conforms (image db).
Proof.
  split.
  - intros Hwf. pose proof (wf_keyed _ Hwf) as Hkey. split; [done|].
    apply conforms_all; [done|]. split_and!; try (intros k x Hx).
    + apply Hwf.
    + by eapply wf_friendships in Hx as (_ & ? & ?).
    + by eapply wf_friendships in Hx as (_ & ? & ?).
    + by eapply wf_access_tokens in Hx as (_ & ?).
    + by eapply wf_refresh_tokens in Hx as (_ & ?).
    + by eapply wf_groups in Hx as (_ & ?).
    + by eapply wf_memberships in Hx as (_ & ? & ?).
    + by eapply wf_memberships in Hx as (_ & ? & ?).
    + by eapply wf_direct_messages in Hx as (_ & ? & ?).
    + by eapply wf_direct_messages in Hx as (_ & ? & ?).
    + by eapply wf_group_messages in Hx as (_ & ? & ?).
    + by eapply wf_group_messages in Hx as (_ & ? & ?).
  - intros [Hkey (Hu & [Hf1 Hf2] & Ha & Hr & Hg & [Hm1 Hm2] & [Hd1 Hd2] & [Hgm1 Hgm2])%conforms_all]; [|done].
    destruct Hkey. split; try done; intros k x Hx; split_and!; eauto using eq_sym.
Qed.

(** ** Insertions *)

Ltac open_insert db rows :=
  unfold ddl_insert;
  lazymatch goal with |- context [violation ?img ?name ?r] =>
    let cs := eval vm_compute in (tb_constraints (table name)) in
    change (violation img name r) with (first_some (broken img name r) cs);
    cbn [first_some broken]; change (img name) with rows
  end.

(** Rows found by a key, by the name, and by a foreign key. *)
Ltac same_columns :=
  intros x; split; [intros [=]|destruct x; cbn; intros ?]; unfold mb_pk in *; cbn in *; simplify_eq;
  try reflexivity; congruence.
Ltac by_key Hkey tbl pk rec k :=
  rewrite (exists_row tbl pk rec _ k); [|by apply Hkey|same_columns].
Ltac by_user Hkey u := rewrite (found_user _ Hkey _ _ u) by columns.
Ltac by_group Hkey g := rewrite (found_group _ Hkey _ _ g) by columns.
(** The row is in, and nothing else changed. *)
Ltac same_rows :=
  lazy beta iota; unfold agrees, same_tables; rewrite names_eq; repeat apply Forall_cons_2; [..|by constructor];
  first [reflexivity|by apply rows_insert, taken_None].

Section inserts.
Context (db : Database) (Hkey : keyed db).
Lemma insert_user_agrees u :
  agrees (insert_user_row u db) (ddl_insert "users" (record_of users_cols u) (image db)).
Proof.
  open_insert db (record_of users_cols <$> table_rows (users db)).
  by_key Hkey (users db) user_id (record_of (M := User) users_cols) (user_id u).
  unfold insert_user_row, unique. destruct (taken _) eqn:Ht; [done|].
  rewrite (any_exists _ (record_of users_cols) _
    (λ r', cells ["username"] r' = cells ["username"] (record_of users_cols u)))
    by (intros x; symmetry; revert x; same_columns).
  destruct (bool_decide _); [done|]. same_rows.
Qed.
Lemma insert_friendship_agrees f :
  agrees (insert_friendship_row f db) (ddl_insert "friendships" (record_of friendships_cols f) (image db)).
Proof.
  open_insert db (record_of friendships_cols <$> table_rows (friendships db)).
  by_key Hkey (friendships db) (λ f, (requester_id f, addressee_id f)) (record_of (M := Friendship) friendships_cols)
    (requester_id f, addressee_id f).
  by_user Hkey (requester_id f). by_user Hkey (addressee_id f).
  unfold insert_friendship_row, unique, references.
  destruct (taken (friendships _ !! _)) eqn:?; [done|].
  do 2 (destruct (users db !! _); cbn [taken]; [|done]). same_rows.
Qed.
Lemma insert_access_token_agrees t :
  agrees (insert_access_token_row t db) (ddl_insert "access_tokens" (record_of access_tokens_cols t) (image db)).
Proof.
  open_insert db (record_of access_tokens_cols <$> table_rows (access_tokens db)).
  by_key Hkey (access_tokens db) at_token_hash (record_of (M := AccessToken) access_tokens_cols) (at_token_hash t).
  by_user Hkey (at_user_id t).
  unfold insert_access_token_row, unique, references. destruct (taken (access_tokens _ !! _)) eqn:?; [done|].
  destruct (users db !! at_user_id t); cbn [taken]; [|done].
  same_rows.
Qed.
Lemma insert_refresh_token_agrees t :
  agrees (insert_refresh_token_row t db) (ddl_insert "refresh_tokens" (record_of refresh_tokens_cols t) (image db)).
Proof.
  open_insert db (record_of refresh_tokens_cols <$> table_rows (refresh_tokens db)).
  by_key Hkey (refresh_tokens db) rt_token_hash (record_of (M := RefreshToken) refresh_tokens_cols) (rt_token_hash t).
  by_user Hkey (rt_user_id t).
  unfold insert_refresh_token_row, unique, references. destruct (taken (refresh_tokens _ !! _)) eqn:?; [done|].
  destruct (users db !! rt_user_id t); cbn [taken]; [|done].
  same_rows.
Qed.
Lemma insert_group_agrees g :
  agrees (insert_group_row g db) (ddl_insert "groups" (record_of groups_cols g) (image db)).
Proof.
  unfold insert_group_row. destruct g as [gid n [c|] t]; [|done]. cbn [created_by].
  open_insert db (record_of groups_cols <$> table_rows (groups db)).
  by_key Hkey (groups db) group_id (record_of (M := Group) groups_cols) gid.
  by_user Hkey c. unfold unique, references. cbn [group_id].
  destruct (taken (groups _ !! _)) eqn:?; [done|].
  destruct (users db !! c); cbn [taken]; [|done]. same_rows.
Qed.
Lemma insert_membership_agrees m :
  agrees (insert_membership_row m db) (ddl_insert "memberships" (record_of memberships_cols m) (image db)).
Proof.
  open_insert db (record_of memberships_cols <$> table_rows (memberships db)).
  by_key Hkey (memberships db) mb_pk (record_of (M := Membership) memberships_cols) (mb_pk m).
  by_group Hkey (mb_group_id m). by_user Hkey (mb_user_id m).
  unfold insert_membership_row, unique, references. destruct (taken (memberships _ !! _)) eqn:?; [done|].
  destruct (groups db !! mb_group_id m); cbn [taken]; [|done].
  destruct (users db !! mb_user_id m); cbn [taken]; [|done].
  same_rows.
Qed.
Lemma insert_direct_message_agrees m :
  agrees (insert_direct_message_row m db) (ddl_insert "direct_messages" (record_of direct_messages_cols m) (image db)).
Proof.
  open_insert db (record_of direct_messages_cols <$> table_rows (direct_messages db)).
  by_key Hkey (direct_messages db) dm_message_id (record_of (M := DirectMessage) direct_messages_cols) (dm_message_id m).
  by_user Hkey (dm_sender_id m). by_user Hkey (dm_recipient_id m).
  unfold insert_direct_message_row, unique, references. destruct (taken (direct_messages _ !! _)) eqn:?; [done|].
  destruct (users db !! dm_sender_id m); cbn [taken]; [|done].
  destruct (users db !! dm_recipient_id m); cbn [taken]; [|done].
  same_rows.
Qed.
Lemma insert_group_message_agrees m :
  agrees (insert_group_message_row m db) (ddl_insert "group_messages" (record_of group_messages_cols m) (image db)).
Proof.
  open_insert db (record_of group_messages_cols <$> table_rows (group_messages db)).
  by_key Hkey (group_messages db) gm_message_id (record_of (M := GroupMessage) group_messages_cols) (gm_message_id m).
  by_group Hkey (gm_group_id m). by_user Hkey (gm_sender_id m).
  unfold insert_group_message_row, unique, references. destruct (taken (group_messages _ !! _)) eqn:?; [done|].
  destruct (groups db !! gm_group_id m); cbn [taken]; [|done].
  destruct (users db !! gm_sender_id m); cbn [taken]; [|done].
  same_rows.
Qed.
End inserts.

(** ** Deletions *)
Definition fk_to (d : OnDelete) (name : string) (t : Table) : bool :=
  existsb (λ c, match c with
                | FOREIGN_KEY _ _ table _ d' => bool_decide (table = name) && bool_decide (d' = d)
                | _ => false end) (tb_constraints t).
Lemma refers_fk d name gone t r : refers d name gone t r → fk_to d name t = true.
Proof.
  unfold refers, fk_to. rewrite Exists_exists, existsb_exists. intros (c & Hc & Hr).
  exists c. split; [by apply list_elem_of_In|]. destruct c; try done.
  destruct Hr as (-> & -> & _). by rewrite !bool_decide_true.
Qed.
Lemma set_null_none name gone img ns :
  Forall (λ n, fk_to SET_NULL name (table n) = false) ns →
  first_some (λ n, if bool_decide (Exists (refers SET_NULL name gone (table n)) (img n))
                   then Some (Pg_NotNullViolation n) else None) ns = None.
Proof.
  induction 1 as [|n ns Hn _ IH]; [done|]. cbn [first_some]. rewrite bool_decide_false; [done|].
  intros (r & _ & Hr%refers_fk)%Exists_exists. congruence.
Qed.

Section gone.
Context (rows : list record) (col : string) (v : sqlval).
Notation gone := (filter (λ r, assoc col r = Some v) rows).
Lemma found_gone k r w :
  Exists (λ r', assoc col r' = Some v) rows → assoc k r = Some w → found gone col k r ↔ w = v.
Proof.
  intros (r0 & Hr0 & Hc)%Exists_exists Hr. unfold found. rewrite Exists_exists, Hr. split.
  - intros (r' & [Hv _]%list_elem_of_filter & Heq). congruence.
  - intros ->. exists r0. by rewrite list_elem_of_filter.
Qed.
End gone.

(** What the foreign keys of a table make of a deletion, constraint by constraint. *)
Ltac open_refers :=
  unfold refers;
  repeat match goal with |- context [tb_constraints (table ?n)] =>
    let cs := eval vm_compute in (tb_constraints (table n)) in
    change (tb_constraints (table n)) with cs
  end; rewrite !Exists_cons, ?Exists_nil.

Lemma delete_filter {K A} `{Countable K} (t : gmap K A) (pk : A → K) k :
  map_Forall (λ k x, pk x = k) t → delete k t = filter (λ kv, pk kv.2 ≠ k) t.
Proof.
  intros Hkey. apply map_eq. intros k'. rewrite lookup_delete, map_lookup_filter.
  destruct (t !! k') as [x|] eqn:Hx; [|by destruct (decide _)]. specialize (Hkey _ _ Hx).
  destruct (decide (k = k')) as [->|]; cbn; [by rewrite option_guard_False by tauto|].
  by rewrite option_guard_True by congruence.
Qed.
Lemma set_null_only name gone img pre n post ns :
  ns = pre ++ n :: post → Forall (λ n, fk_to SET_NULL name (table n) = false) (pre ++ post) →
  first_some (λ n, if bool_decide (Exists (refers SET_NULL name gone (table n)) (img n))
                   then Some (Pg_NotNullViolation n) else None) ns =
  if bool_decide (Exists (refers SET_NULL name gone (table n)) (img n))
  then Some (Pg_NotNullViolation n) else None.
Proof.
  intros -> [Hpre Hpost]%Forall_app. pose proof (set_null_none name gone img pre Hpre) as Hnone.
  induction pre as [|m pre IH]; cbn [app first_some] in *.
  - destruct (bool_decide _); [done|]. by apply set_null_none.
  - apply Forall_cons in Hpre as [_ Hpre]. destruct (bool_decide _) eqn:Hm in Hnone; [done|].
    rewrite Hm. by apply IH.
Qed.

(** The rows of a table that stay. *)
Ltac others_stay :=
  intros ?; let Hr := fresh in
  intros [[Hr _]|Hr%refers_fk]; [discriminate Hr|]; vm_compute in Hr; discriminate Hr.
Ltac unchanged := rewrite filter_all; [reflexivity|apply Forall_true; others_stay].
Ltac as_rows tbl rec :=
  lazymatch goal with |- _ ≡ₚ filter _ ?i => change i with (rec <$> table_rows tbl) end.
Ltac deleted tbl rec Q :=
  as_rows tbl rec; apply (rows_filter tbl rec Q); intros y; split;
  [intros Hne [[_ [= Hy]]|Hr%refers_fk]; [by apply Hne|vm_compute in Hr; discriminate Hr]
  |intros Hno Heq; apply Hno; left; split; [done|by rewrite <-Heq]].
Ltac filtered tbl rec Q lem :=
  as_rows tbl rec; apply (rows_filter tbl rec Q); intros ?; rewrite lem; naive_solver.

Section delete_user.
Context (db : Database) (Hwf : wf_db db) (u : UUID) (x : User) (Hx : users db !! u = Some x).
Notation gone := (filter (λ r, assoc "user_id" r = Some (VUuid u)) (image db "users")).

Lemma user_gone k r w : assoc k r = Some w → found gone "user_id" k r ↔ w = VUuid u.
Proof.
  apply found_gone. apply (bool_decide_eq_true (Exists _ _)).
  change (image db "users") with (record_of users_cols <$> table_rows (users db)).
  rewrite (exists_row _ user_id (record_of users_cols) _ u); [by rewrite Hx|by apply wf_keyed|].
  intros y. change (assoc "user_id" (record_of users_cols y)) with (Some (VUuid (user_id y))).
  split; congruence.
Qed.
Notation cascades name M cols y :=
  (refers CASCADE "users" gone (table name) (record_of (M := M) cols y)).
Ltac refers_user := open_refers; rewrite !user_gone by columns; cbn; naive_solver congruence.

Lemma friendships_of_user y :
  cascades "friendships" Friendship friendships_cols y ↔ requester_id y = u ∨ addressee_id y = u.
Proof. refers_user. Qed.
Lemma access_tokens_of_user y : cascades "access_tokens" AccessToken access_tokens_cols y ↔ at_user_id y = u.
Proof. refers_user. Qed.
Lemma refresh_tokens_of_user y : cascades "refresh_tokens" RefreshToken refresh_tokens_cols y ↔ rt_user_id y = u.
Proof. refers_user. Qed.
Lemma memberships_of_user y : cascades "memberships" Membership memberships_cols y ↔ mb_user_id y = u.
Proof. refers_user. Qed.
Lemma direct_messages_of_user y :
  cascades "direct_messages" DirectMessage direct_messages_cols y ↔ dm_sender_id y = u ∨ dm_recipient_id y = u.
Proof. refers_user. Qed.
Lemma group_messages_of_user y :
  cascades "group_messages" GroupMessage group_messages_cols y ↔ gm_sender_id y = u.
Proof. refers_user. Qed.
Lemma groups_of_user y :
  refers SET_NULL "users" gone (table "groups") (record_of groups_cols y) ↔ created_by y = Some u.
Proof.
  open_refers. destruct y as [g n c t]. rewrite (user_gone _ _ (v_opt_uuid c)) by columns.
  destruct c; cbn; naive_solver congruence.
Qed.

Lemma delete_user_agrees :
  agrees (delete_user_row u db) (ddl_delete "users" "user_id" (VUuid u) (image db)).
Proof.
  unfold ddl_delete, delete_user_row. cbv zeta.
  rewrite (set_null_only _ _ _ ["users"; "friendships"; "access_tokens"; "refresh_tokens"] "groups" _ _ names_eq)
    by (repeat constructor; by vm_compute).
  rewrite (any_exists _ (record_of groups_cols) _ (refers SET_NULL "users" gone (table "groups")))
    by (intros y; by rewrite groups_of_user).
  change (record_of groups_cols <$> table_rows (groups db)) with (image db "groups").
  destruct (bool_decide _); [done|].
  unfold agrees, same_tables. rewrite names_eq. repeat apply Forall_cons_2; [..|by constructor].
  - lazymatch goal with |- ?l ≡ₚ _ => change l with (record_of users_cols <$> table_rows (delete u (users db))) end.
    rewrite (delete_filter _ user_id) by by apply wf_keyed.
    deleted (users db) (record_of (M := User) users_cols) (λ y, user_id y ≠ u).
  - filtered (friendships db) (record_of (M := Friendship) friendships_cols)
      (λ y, requester_id y ≠ u ∧ addressee_id y ≠ u) friendships_of_user.
  - filtered (access_tokens db) (record_of (M := AccessToken) access_tokens_cols)
      (λ y, at_user_id y ≠ u) access_tokens_of_user.
  - filtered (refresh_tokens db) (record_of (M := RefreshToken) refresh_tokens_cols)
      (λ y, rt_user_id y ≠ u) refresh_tokens_of_user.
  - unchanged.
  - filtered (memberships db) (record_of (M := Membership) memberships_cols)
      (λ y, mb_user_id y ≠ u) memberships_of_user.
  - filtered (direct_messages db) (record_of (M := DirectMessage) direct_messages_cols)
      (λ y, dm_sender_id y ≠ u ∧ dm_recipient_id y ≠ u) direct_messages_of_user.
  - filtered (group_messages db) (record_of (M := GroupMessage) group_messages_cols)
      (λ y, gm_sender_id y ≠ u) group_messages_of_user.
Qed.
End delete_user.

Section delete_group.
Context (db : Database) (Hwf : wf_db db) (g : UUID) (x : Group) (Hx : groups db !! g = Some x).
Notation gone := (filter (λ r, assoc "group_id" r = Some (VUuid g)) (image db "groups")).

Lemma group_gone k r w : assoc k r = Some w → found gone "group_id" k r ↔ w = VUuid g.
Proof.
  apply found_gone. apply (bool_decide_eq_true (Exists _ _)).
  change (image db "groups") with (record_of groups_cols <$> table_rows (groups db)).
  rewrite (exists_row _ group_id (record_of groups_cols) _ g); [by rewrite Hx|by apply wf_keyed|].
  intros y. change (assoc "group_id" (record_of groups_cols y)) with (Some (VUuid (group_id y))).
  split; congruence.
Qed.
Notation cascades name M cols y :=
  (refers CASCADE "groups" gone (table name) (record_of (M := M) cols y)).
Ltac refers_group := open_refers; rewrite !group_gone by columns; cbn; naive_solver congruence.
Lemma memberships_of_group y : cascades "memberships" Membership memberships_cols y ↔ mb_group_id y = g.
Proof. refers_group. Qed.
Lemma group_messages_of_group y :
  cascades "group_messages" GroupMessage group_messages_cols y ↔ gm_group_id y = g.
Proof. refers_group. Qed.

Lemma delete_group_agrees :
  agrees (inr (delete_group_row g db)) (ddl_delete "groups" "group_id" (VUuid g) (image db)).
Proof.
  unfold ddl_delete. cbv zeta.
  rewrite set_null_none by (rewrite names_eq; repeat constructor; by vm_compute).
  unfold agrees, same_tables. rewrite names_eq. repeat apply Forall_cons_2; [..|by constructor];
    try unchanged.
  - lazymatch goal with |- ?l ≡ₚ _ => change l with (record_of groups_cols <$> table_rows (delete g (groups db))) end.
    rewrite (delete_filter _ group_id) by by apply wf_keyed.
    deleted (groups db) (record_of (M := Group) groups_cols) (λ y, group_id y ≠ g).
  - filtered (memberships db) (record_of (M := Membership) memberships_cols)
      (λ y, mb_group_id y ≠ g) memberships_of_group.
  - filtered (group_messages db) (record_of (M := GroupMessage) group_messages_cols)
      (λ y, gm_group_id y ≠ g) group_messages_of_group.
Qed.
End delete_group.

(** C9: what the tables accept is what the schema declares. For each of the
    eight tables an insertion fails exactly when the server must refuse the row
    by the DDL, with the error and the constraint that the declaration order
    picks, and otherwise adds that row only; the deletion of an account or of a
    group removes the rows the ON DELETE clauses name and no others, and fails
    exactly when a SET NULL would write NULL to a NOT NULL column. *)
Theorem rows_follow_schema db :
  wf_db db →
  ((∀ u, agrees (insert_user_row u db) (ddl_insert "users" (record_of users_cols u) (image db))) ∧
   (∀ f, agrees (insert_friendship_row f db)
      (ddl_insert "friendships" (record_of friendships_cols f) (image db))) ∧
   (∀ t, agrees (insert_access_token_row t db)
      (ddl_insert "access_tokens" (record_of access_tokens_cols t) (image db))) ∧
   (∀ t, agrees (insert_refresh_token_row t db)
      (ddl_insert "refresh_tokens" (record_of refresh_tokens_cols t) (image db))) ∧
   (∀ g, agrees (insert_group_row g db) (ddl_insert "groups" (record_of groups_cols g) (image db))) ∧
   (∀ m, agrees (insert_membership_row m db)
      (ddl_insert "memberships" (record_of memberships_cols m) (image db))) ∧
   (∀ m, agrees (insert_direct_message_row m db)
      (ddl_insert "direct_messages" (record_of direct_messages_cols m) (image db))) ∧
   (∀ m, agrees (insert_group_message_row m db)
      (ddl_insert "group_messages" (record_of group_messages_cols m) (image db)))) ∧
  (∀ u, has_user db u →
     agrees (delete_user_row u db) (ddl_delete "users" "user_id" (VUuid u) (image db))) ∧
  (∀ g, has_group db g →
     agrees (inr (delete_group_row g db)) (ddl_delete "groups" "group_id" (VUuid g) (image db))).
Proof.
  intros Hwf. pose proof (wf_keyed _ Hwf) as Hkey. split; [split_and!|split].
  - by apply insert_user_agrees.
  - by apply insert_friendship_agrees.
  - by apply insert_access_token_agrees.
  - by apply insert_refresh_token_agrees.
  - by apply insert_group_agrees.
  - by apply insert_membership_agrees.
  - by apply insert_direct_message_agrees.
  - by apply insert_group_message_agrees.
  - intros u [x Hx]. by eapply delete_user_agrees.
  - intros g [x Hx]. by eapply delete_group_agrees.
Qed.

(** On the sample tables: a name taken, an account that created a group, and a
    group that goes with its members and messages. *)
Lemma agrees_inl r s e : r = inl e → agrees r s → s = inl e.
Proof. intros ->. destruct s; cbn; [by intros ->|done]. Qed.
Lemma rows_follow_schema_witness :
  ddl_insert "users" (record_of users_cols (MkUser (uuid_of 9) "bob" "h" false 0)) (image sample_db) =
    inl (Pg_UniqueViolation "users" "uq_users_username") ∧
  ddl_delete "users" "user_id" (VUuid alice_id) (image sample_db) = inl (Pg_NotNullViolation "groups") ∧
  agrees (inr (delete_group_row team_id sample_db))
    (ddl_delete "groups" "group_id" (VUuid team_id) (image sample_db)).
Proof.
  destruct (rows_follow_schema sample_db wf_sample) as ((Hu & _) & Hd & Hg).
  split; [|split].
  - apply (agrees_inl (insert_user_row (MkUser (uuid_of 9) "bob" "h" false 0) sample_db));
      [vm_compute; reflexivity|apply Hu].
  - apply (agrees_inl (delete_user_row alice_id sample_db)); [vm_compute; reflexivity|apply Hd].
    eexists. vm_compute. reflexivity.
  - apply Hg. eexists. vm_compute. reflexivity.
Defined.
