(* ===== verification/Transactions.v ===== *)
(** * Transactions side by side

    The sessions of all workers against one PostgreSQL server at READ COMMITTED,
    the isolation level [transaction] opens them with: a statement sees what is
    committed when it runs, under the session's own row changes; it waits while
    another session holds a row it needs in a conflicting mode; a commit
    publishes the changed rows and frees the locks, an exception drops them. A
    schedule is a list of events, so a run can be computed. *)

From S2P Require Export Tx.

(** ** Row changes

    What a statement did to a table, as the difference of the table before and
    after, laid over another state of the same table. *)
Section table.
Context `{Countable K} {A : Type} `{EqDecision A}.
Implicit Types b a t : gmap K A.

Definition patch_table b a t : gmap K A :=
  filter (λ kv, b !! kv.1 ≠ Some kv.2) a ∪ filter (λ kv, b !! kv.1 = a !! kv.1) t.

Lemma patch_table_lookup b a t k :
  patch_table b a t !! k = if decide (b !! k = a !! k) then t !! k else a !! k.
Proof.
  unfold patch_table. rewrite lookup_union, !map_lookup_filter.
  destruct (a !! k) as [x|] eqn:Ha, (t !! k) as [y|] eqn:Ht, (b !! k) as [z|] eqn:Hb;
    simplify_option_eq; congruence.
Qed.
End table.

Definition patch_db (b a d : Database) : Database := MkDb
  (patch_table (users b) (users a) (users d))
  (patch_table (friendships b) (friendships a) (friendships d))
  (patch_table (access_tokens b) (access_tokens a) (access_tokens d))
  (patch_table (refresh_tokens b) (refresh_tokens a) (refresh_tokens d))
  (patch_table (groups b) (groups a) (groups d))
  (patch_table (memberships b) (memberships a) (memberships d))
  (patch_table (direct_messages b) (direct_messages a) (direct_messages d))
  (patch_table (group_messages b) (group_messages a) (group_messages d)).

(** What a session sees of one row, [get], when its changes [ws] are laid over
    the committed row [r]. *)
Section overlay.
Context {X : Type} `{EqDecision X} (get : Database → X).
Implicit Types ws : list (Database * Database).

Definition overlay ws (r : X) : X :=
  foldl (λ r w, if decide (get w.1 = get w.2) then r else get w.2) r ws.
Lemma overlay_snoc ws b a r :
  overlay (ws ++ [(b, a)]) r = if decide (get b = get a) then overlay ws r else get a.
Proof. unfold overlay. by rewrite foldl_app. Qed.
Lemma overlay_view db ws :
  (∀ b a d, get (patch_db b a d) = if decide (get b = get a) then get d else get a) →
  get (foldl (λ d w, patch_db w.1 w.2 d) db ws) = overlay ws (get db).
Proof.
  intros Hget. revert db. unfold overlay.
  induction ws as [|[b a] ws IH]; intros db; [done|]. cbn. by rewrite IH, Hget.
Qed.
End overlay.

(** ** Locks *)
Definition compatible (k k' : Lock) : Prop := k.2 = k'.2 → conflicts k.1 k'.1 = false.
#[export] Instance compatible_dec : RelDecision compatible.
Proof. intros k k'. unfold compatible. apply _. Defined.

(** The row is locked for writing, or for deletion or insertion. *)
Definition write_locked (ks : list Lock) (k : RowKey) : Prop :=
  Exists (λ l, l.2 = k ∧ l.1 ≠ KeyShare) ks.
Definition owned (ks : list Lock) (k : RowKey) : Prop := (ForUpdate, k) ∈ ks.
#[export] Instance write_locked_dec ks k : Decision (write_locked ks k).
Proof. unfold write_locked. apply _. Defined.

Lemma conflicts_sym m m' : conflicts m m' = conflicts m' m.
Proof. by destruct m, m'. Qed.
Lemma write_locked_app ks ks' k :
  write_locked (ks ++ ks') k ↔ write_locked ks k ∨ write_locked ks' k.
Proof. apply Exists_app. Qed.
Lemma owned_write_locked ks k : owned ks k → write_locked ks k.
Proof. intros Hk. apply Exists_exists. by exists (ForUpdate, k). Qed.
Lemma write_locked_elem m k ks : (m, k) ∈ ks → m ≠ KeyShare → write_locked ks k.
Proof. intros Hk Hm. apply Exists_exists. by exists (m, k). Qed.

(** Two sets of locks that two sessions can hold at the same time. *)
Definition apart (ks ks' : list Lock) : Prop := ∀ l l', l ∈ ks → l' ∈ ks' → compatible l l'.
Lemma apart_sym ks ks' : apart ks ks' → apart ks' ks.
Proof. intros H l l' Hl Hl' Heq. rewrite conflicts_sym. by apply (H l' l). Qed.
Lemma apart_write ks ks' k : apart ks ks' → write_locked ks k → write_locked ks' k → False.
Proof.
  unfold write_locked. rewrite !Exists_exists.
  intros H ([m k1] & Hl & <- & Hm) ([m' k2] & Hl' & Heq & Hm'). cbn in *.
  specialize (H _ _ Hl Hl' (eq_sym Heq)). by destruct m, m'.
Qed.
Lemma apart_owned ks ks' m k : apart ks ks' → owned ks k → (m, k) ∈ ks' → False.
Proof. intros H Ho Hk. by discriminate (H _ _ Ho Hk eq_refl). Qed.

(** ** Sessions and the server *)

(** [ss_now] is what [NOW()] reads; [ss_writes] the states around each of the
    session's statements; [ss_locks] what the session holds. *)
Record Session (A : Type) := MkSession {
  ss_now : timestamp; ss_prog : txprog A;
  ss_writes : list (Database * Database); ss_locks : list Lock
}.
Arguments MkSession {A}.
Arguments ss_now {A}.
Arguments ss_prog {A}.
Arguments ss_writes {A}.
Arguments ss_locks {A}.
Inductive Slot (A : Type) := Running (s : Session A) | Ended (r : outcome' A).
Arguments Running {A}.
Arguments Ended {A}.
Record Server (A : Type) := MkServer { committed : Database; slots : list (Slot A) }.
Arguments MkServer {A}.
Arguments committed {A}.
Arguments slots {A}.

Section server.
Context `{Entropy} {A : Type}.
Implicit Types (s : Session A) (sl : Slot A) (l : list (Slot A)) (σ : Server A).

Definition view (db : Database) s : Database :=
  foldl (λ d w, patch_db w.1 w.2 d) db (ss_writes s).
Definition held sl : list Lock := match sl with Running s => ss_locks s | Ended _ => [] end.
(** What the sessions other than the [i]th hold. *)
Definition others (i : nat) l : list Lock :=
  mjoin (imap (λ j sl, if decide (j = i) then [] else held sl) l).
Definition granted (i : nat) (ks : list Lock) l : bool :=
  bool_decide (Forall (λ k, Forall (compatible k) (others i l)) ks).

Definition continue (p : txprog A) s : Session A :=
  MkSession (ss_now s) p (ss_writes s) (ss_locks s).

(** The next step of the [i]th session; [None] while it waits for a lock. *)
Definition session_next (db : Database) l (i n : nat) s : option (Database * Slot A) :=
  match ss_prog s with
  | TxRet a => Some (view db s, Ended (Ok a))
  | TxRaise e => Some (db, Ended (Raise e))
  | TxDraw d k => Some (db, Running (continue (k (sample d n)) s))
  | TxSql st k =>
      let v := view db s in
      let ks := stmt_locks st (ss_now s) v in
      if granted i ks l then
        let '(r, v') := stmt_exec st (ss_now s) v in
        Some (db, Running (MkSession (ss_now s) (k r) (ss_writes s ++ [(v, v')])
                             (ks ++ ss_locks s)))
      else None
  end.

(** [Begin]: a worker opens a transaction; [Next]: a session moves; [Fault]: its
    statement fails in the driver (a timeout, a deadlock); [Lost]: the session
    ends with its connection, at any point up to its commit; [Unacknowledged]:
    it ends so after a commit that the server carried out. *)
Inductive Event :=
| Begin (now : timestamp) (p : txprog A)
| Next (i n : nat)
| Fault (i : nat) (e : PgError)
| Lost (i : nat) (e : Exn)
| Unacknowledged (i : nat) (e : Exn).

Definition server_do (ev : Event) σ : option (Server A) :=
  match ev with
  | Begin now p => Some (MkServer (committed σ) (slots σ ++ [Running (MkSession now p [] [])]))
  | Next i n =>
      match slots σ !! i with
      | Some (Running s) =>
          '(db, sl) ← session_next (committed σ) (slots σ) i n s;
          Some (MkServer db (<[i := sl]> (slots σ)))
      | _ => None
      end
  | Fault i e =>
      match slots σ !! i with
      | Some (Running s) =>
          match ss_prog s with
          | TxSql _ k =>
              Some (MkServer (committed σ) (<[i := Running (continue (k (inl e)) s)]> (slots σ)))
          | _ => None
          end
      | _ => None
      end
  | Lost i e =>
      match slots σ !! i with
      | Some (Running _) => Some (MkServer (committed σ) (<[i := Ended (Raise e)]> (slots σ)))
      | _ => None
      end
  | Unacknowledged i e =>
      match slots σ !! i with
      | Some (Running s) =>
          match ss_prog s with
          | TxRet _ => Some (MkServer (view (committed σ) s) (<[i := Ended (Raise e)]> (slots σ)))
          | _ => None
          end
      | _ => None
      end
  end.

(** One step of a server whose sessions run programs of [C]. *)
Definition server_step (C : txprog A → Prop) σ σ' : Prop :=
  ∃ ev, (∀ now p, ev = Begin now p → C p) ∧ server_do ev σ = Some σ'.
Definition run_schedule (evs : list Event) σ : option (Server A) :=
  fold_left (λ o ev, o ≫= server_do ev) evs (Some σ).

(** ** The steps, case by case *)
Inductive advance (db : Database) l (i : nat) s : Database → Slot A → Prop :=
| adv_commit a r :
    ss_prog s = TxRet a → (r = Ok a ∨ ∃ e, r = Raise e) → advance db l i s (view db s) (Ended r)
| adv_rollback e : advance db l i s db (Ended (Raise e))
| adv_stmt st k r v' :
    ss_prog s = TxSql st k →
    Forall (λ k, Forall (compatible k) (others i l)) (stmt_locks st (ss_now s) (view db s)) →
    stmt_exec st (ss_now s) (view db s) = (r, v') →
    advance db l i s db (Running (MkSession (ss_now s) (k r) (ss_writes s ++ [(view db s, v')])
      (stmt_locks st (ss_now s) (view db s) ++ ss_locks s)))
| adv_fault st k e :
    ss_prog s = TxSql st k → advance db l i s db (Running (continue (k (inl e)) s))
| adv_draw d k x :
    ss_prog s = TxDraw d k → advance db l i s db (Running (continue (k x) s)).

Lemma session_next_advance db l i n s db' sl :
  session_next db l i n s = Some (db', sl) → advance db l i s db' sl.
Proof.
  unfold session_next. destruct (ss_prog s) as [a|e|st k|d k] eqn:Hp.
  - intros [= <- <-]. econstructor; eauto.
  - intros [= <- <-]. constructor.
  - unfold granted. case_bool_decide as Hg; [|discriminate].
    destruct (stmt_exec st (ss_now s) (view db s)) as [r v'] eqn:Hx.
    intros [= <- <-]. by econstructor.
  - intros [= <- <-]. by econstructor.
Qed.

Lemma server_step_cases C σ σ' :
  server_step C σ σ' →
  (∃ now p, C p ∧
     σ' = MkServer (committed σ) (slots σ ++ [Running (MkSession now p [] [])])) ∨
  (∃ i s db sl, slots σ !! i = Some (Running s) ∧
     advance (committed σ) (slots σ) i s db sl ∧ σ' = MkServer db (<[i := sl]> (slots σ))).
Proof.
  intros (ev & HC & Hdo). destruct ev as [now p|i n|i e|i e|i e]; cbn in Hdo.
  - left. injection Hdo as <-. eauto.
  - right. destruct (slots σ !! i) as [[s|]|] eqn:Hi; [|done..].
    destruct (session_next _ _ _ _ _) as [[db sl]|] eqn:Hn; [|done]. injection Hdo as <-.
    exists i, s, db, sl. split; [done|]. split; [|done]. by eapply session_next_advance.
  - right. destruct (slots σ !! i) as [[s|]|] eqn:Hi; [|done..].
    destruct (ss_prog s) as [| |st k|] eqn:Hp; try done. injection Hdo as <-.
    do 4 eexists. split; [done|]. split; [by econstructor|done].
  - right. destruct (slots σ !! i) as [[s|]|] eqn:Hi; [|done..]. injection Hdo as <-.
    do 4 eexists. split; [done|]. split; [apply adv_rollback|done].
  - right. destruct (slots σ !! i) as [[s|]|] eqn:Hi; [|done..].
    destruct (ss_prog s) as [a| | |] eqn:Hp; try done. injection Hdo as <-.
    do 4 eexists. split; [done|]. split; [by eapply adv_commit; eauto|done].
Qed.

(** ** Exclusion: no two sessions hold conflicting locks *)

Definition exclusive l : Prop :=
  ∀ i j sl sl', l !! i = Some sl → l !! j = Some sl' → i ≠ j → apart (held sl) (held sl').

Lemma elem_of_others i l k : k ∈ others i l ↔ ∃ j sl, j ≠ i ∧ l !! j = Some sl ∧ k ∈ held sl.
Proof.
  unfold others. rewrite list_elem_of_join. split.
  - intros (ks & Hk & Hin). apply elem_of_lookup_imap in Hin as (j & sl & -> & Hj).
    case_decide; [by apply elem_of_nil in Hk|]. eauto.
  - intros (j & sl & Hne & Hj & Hk). exists (held sl). split; [done|].
    apply elem_of_lookup_imap. exists j, sl. by rewrite decide_False.
Qed.

Lemma exclusive_insert l i sl sl' :
  l !! i = Some sl → exclusive l →
  (∀ k, k ∈ held sl' → k ∈ held sl ∨ Forall (compatible k) (others i l)) →
  exclusive (<[i := sl']> l).
Proof.
  intros Hi Hex Hnew.
  assert (∀ j b, l !! j = Some b → i ≠ j → apart (held sl') (held b)) as Hclash.
  { intros j b Hj Hne k k' Hk Hb. destruct (Hnew k Hk) as [Hold|Hno].
    - by apply (Hex i j sl b).
    - rewrite Forall_forall in Hno. apply Hno, elem_of_others. eauto. }
  intros j1 j2 a b. rewrite !list_lookup_insert_Some.
  intros [(<- & <- & _)|[Hne1 H1]] [(<- & <- & _)|[Hne2 H2]] Hne; [done| | |by eapply Hex].
  - by apply (Hclash j2).
  - by apply apart_sym, (Hclash j1).
Qed.

Lemma advance_held db l i s db' sl k :
  advance db l i s db' sl → k ∈ held sl → k ∈ ss_locks s ∨ Forall (compatible k) (others i l).
Proof.
  destruct 1 as [a r Hp Hr|e|st k' r v' Hp Hg Hx|st k' e Hp|d k' x Hp]; cbn;
    [by intros ?%elem_of_nil..| | |]; [|by left..].
  rewrite elem_of_app. intros [Hk|Hk]; [right|by left].
  rewrite Forall_forall in Hg. by apply Hg.
Qed.

Lemma apart_nil ks : apart [] ks.
Proof. by intros l l' ?%elem_of_nil. Qed.
Lemma exclusive_begin l now p : exclusive l → exclusive (l ++ [Running (MkSession now p [] [])]).
Proof.
  intros Hex j1 j2 a b. rewrite !lookup_app_Some, !list_lookup_singleton_Some.
  intros [H1|(_ & _ & <-)] [H2|(_ & _ & <-)] Hne;
    [by eapply Hex|apply apart_sym, apart_nil|apply apart_nil..].
Qed.

Lemma exclusive_step C σ σ' : server_step C σ σ' → exclusive (slots σ) → exclusive (slots σ').
Proof.
  intros [(now & p & _ & ->)|(i & s & db & sl & Hi & Hadv & ->)]%server_step_cases Hex; cbn.
  - by apply exclusive_begin.
  - eapply exclusive_insert; [done..|]. intros k. by eapply advance_held.
Qed.

Lemma exclusive_steps C σ σ' :
  rtc (server_step C) σ σ' → exclusive (slots σ) → exclusive (slots σ').
Proof.
  induction 1 as [σ|σ1 σ2 σ3 Hs _ IH]; [done|]. intros Hex. apply IH. by eapply exclusive_step.
Qed.

End server.
Arguments Event : clear implicits.
