(* ===== verification/Concurrency.v ===== *)
(** * Concurrent use of a refresh token

    The sessions of any number of [refresh] calls that present the same token,
    among any other sessions of the services, interleaved statement by
    statement: the row lock of [get_refresh_token(..., for_update=True)] makes
    the exchange happen at most once. *)

From S2P Require Export Transactions System.

(** What a session that presents the token ends with, [None] for the others. *)
Notation exchange_result := (option (bool * UUID)).

(** ** Programs whose statements and results are known *)
Inductive ends {A} (P : stmt → Prop) (Q : A → Prop) : txprog A → Prop :=
| ends_ret a : Q a → ends P Q (TxRet a)
| ends_raise e : ends P Q (TxRaise e)
| ends_sql s k : P s → (∀ r, ends P Q (k r)) → ends P Q (TxSql s k)
| ends_draw d k : (∀ x, ends P Q (k x)) → ends P Q (TxDraw d k).

Lemma ends_stmts_bind {A B} P (Q : B → Prop) (p : txprog A) (f : A → txprog B) :
  stmts_ok P p → (∀ a, ends P Q (f a)) → ends P Q (p ≫= f).
Proof. intros Hp Hf. induction Hp; cbn; try constructor; auto. Qed.
Lemma ends_bind {A B} P (Q : A → Prop) (R : B → Prop) (p : txprog A) (f : A → txprog B) :
  ends P Q p → (∀ a, Q a → ends P R (f a)) → ends P R (p ≫= f).
Proof. intros Hp Hf. induction Hp; cbn; try constructor; auto. Qed.
Lemma fails_ends {A} P (Q : A → Prop) p : fails p → ends P Q p.
Proof. induction 1; constructor; auto. Qed.
Lemma ends_weaken {A} P (Q R : A → Prop) p : (∀ a, Q a → R a) → ends P Q p → ends P R p.
Proof. intros HQR. induction 1; constructor; auto. Qed.

Section token.
Context {P : Platform} (h : string) (owner : UUID).

(** The services' statements that leave the account of [owner] in place. *)
Definition sparing_scope : Scope := MkScope (λ u, u ≠ owner) True.
Notation allowed := (service_stmt sparing_scope).

Definition refresh_client (tp : TokenPair) : txprog exchange_result :=
  r ← refresh_tx h tp; mret (Some r).
(** Whoever shares the server: the transactions that present the token, and any
    session made of the services' statements. *)
Inductive client : txprog exchange_result → Prop :=
| client_refresh tp : client (refresh_client tp)
| client_other {B} (p : txprog B) : stmts_ok allowed p → client (_ ← p; mret None).

Definition exchanged (o : exchange_result) : Prop := ∃ u, o = Some (false, u).
Definition won (σ : Server exchange_result) (i : nat) : Prop :=
  ∃ o, slots σ !! i = Some (Ended (Ok o)) ∧ exchanged o.

(** ** The row of the token under a statement *)
Definition token_row (db : Database) : option RefreshToken := refresh_tokens db !! h.
Definition is_token (c : RefreshToken) : Prop := rt_token_hash c = h ∧ rt_user_id c = owner.
(** [r] is the row [c], or [c] revoked. *)
Definition kept (c : RefreshToken) (r : option RefreshToken) : Prop :=
  r = Some c ∨ r = Some (Write.revoke_rt c).

Lemma elem_of_revoked_rows db c :
  token_row db = Some c → is_token c →
  write_locked ((λ t, (NoKeyUpdate, RRefreshToken (rt_token_hash t))) <$>
    filter (λ t, rt_user_id t = owner) (table_rows (refresh_tokens db))) (RRefreshToken h).
Proof.
  intros Hc [Hh Hu]. apply (write_locked_elem NoKeyUpdate); [|done]. apply list_elem_of_fmap. exists c. split; [by rewrite Hh|].
  apply list_elem_of_filter. split; [done|]. apply list_elem_of_fmap. exists (h, c).
  split; [done|]. by apply elem_of_map_to_list.
Qed.

(** A statement of the services leaves the row alone, or is one of the two that
    revoke it. *)
Lemma token_stmt_cases s c :
  allowed s → is_token c →
  preserves (λ db, token_row db = Some c) s ∨
  s = Write.REVOKE_REFRESH_TOKEN h ∨ s = Write.REVOKE_ALL_USER_REFRESH_TOKENS owner.
Proof.
  intros Hs [Hh Hu]. unfold token_row. destruct Hs;
    lazymatch goal with
    | |- preserves _ (Write.REVOKE_REFRESH_TOKEN ?k) ∨ _ =>
        destruct (decide (k = h)) as [->|Hne]; [by right; left|left]
    | |- preserves _ (Write.REVOKE_ALL_USER_REFRESH_TOKENS ?u) ∨ _ =>
        destruct (decide (u = owner)) as [->|Hne]; [by right; right|left]
    | |- _ => left
    end; service_case; try conditional_write.
  - revert Hdel. unfold delete_user_row. destruct (any_row _ _); [discriminate|]. intros [= <-].
    cbn. apply map_lookup_filter_Some. split; [done|]. cbn. congruence.
  - cbn. rewrite lookup_insert_ne; [done|]. intros Heq. rewrite Heq, HI in Heqb. discriminate.
  - by rewrite lookup_alter_ne.
  - rewrite lookup_fmap, HI. cbn. unfold Write.revoke_rt_of. rewrite decide_False; congruence.
Qed.

Lemma token_stmt s now db c :
  allowed s → token_row db = Some c → is_token c →
  let r := token_row (stmt_exec s now db).2 in
  r = Some c ∨ (r = Some (Write.revoke_rt c) ∧ write_locked (stmt_locks s now db) (RRefreshToken h)).
Proof.
  intros Hs Hc Htok. destruct (token_stmt_cases s c Hs Htok) as [Hk|[->| ->]].
  - left. by apply Hk.
  - right. unfold token_row in *. cbn. rewrite lookup_alter_eq, Hc. cbn. split; [done|].
    by apply (write_locked_elem NoKeyUpdate); [left|].
  - right. split; [|by eapply elem_of_revoked_rows]. destruct Htok as [Hh Hu].
    unfold token_row in *. cbn. rewrite lookup_fmap, Hc. cbn. unfold Write.revoke_rt_of.
    by rewrite decide_True.
Qed.

(** ** The row a session sees

    [session_row ws r]: the committed row [r] under the session's changes. *)
Definition session_row : list (Database * Database) → option RefreshToken → option RefreshToken :=
  overlay token_row.
Lemma view_row {A} db (s : Session A) :
  token_row (view db s) = session_row (ss_writes s) (token_row db).
Proof. apply overlay_view. intros b a d. apply patch_table_lookup. Qed.
Lemma session_row_snoc ws b a r :
  session_row (ws ++ [(b, a)]) r =
  if decide (token_row b = token_row a) then session_row ws r else token_row a.
Proof. apply overlay_snoc. Qed.

(** ** The phases of a session

    [revokes_first p]: a continuation of [refresh_tx] that holds a live token:
    its next statement, if any, revokes the row. *)
Inductive revokes_first : txprog exchange_result → Prop :=
| revokes_raise e : revokes_first (TxRaise e)
| revokes_draw d k : (∀ x, revokes_first (k x)) → revokes_first (TxDraw d k)
| revokes_sql k :
    (∀ e, fails (k (inl e))) → (∀ r, ends allowed (λ _, True) (k (inr r))) →
    revokes_first (TxSql (Write.REVOKE_REFRESH_TOKEN h) k).
(** Whatever happens, it does not exchange the token. *)
Definition harmless : txprog exchange_result → Prop := ends allowed (λ o, ¬ exchanged o).

Definition locked {A} (s : Session A) : Prop := write_locked (ss_locks s) (RRefreshToken h).

Inductive phase (c : RefreshToken) (s : Session exchange_result) : Prop :=
| ph_fresh tp :
    ss_prog s = refresh_client tp → ss_writes s = [] → phase c s
| ph_harmless : harmless (ss_prog s) → phase c s
| ph_exchanging :
    locked s → rt_is_revoked c = false → session_row (ss_writes s) (Some c) = Some c →
    revokes_first (ss_prog s) → phase c s
| ph_exchanged :
    locked s → rt_is_revoked c = false →
    session_row (ss_writes s) (Some c) = Some (Write.revoke_rt c) →
    ends allowed (λ _, True) (ss_prog s) → phase c s.

Record session_ok (c : RefreshToken) (s : Session exchange_result) : Prop := {
  so_quiet : ¬ locked s → ∀ r, session_row (ss_writes s) r = r;
  so_row : kept c (session_row (ss_writes s) (Some c));
  so_phase : phase c s;
}.

Lemma fails_harmless p : fails p → harmless p.
Proof. apply fails_ends. Qed.

(** The shape of the program: the locking read, then one of two ends. *)
Lemma refresh_client_shape tp :
  ∃ k, refresh_client tp = TxSql (with_lock (Fetch.REFRESH_TOKEN h) true) k ∧
    (∀ e, fails (k (inl e))) ∧
    ∀ c tag, is_token c →
      let p := k (inr (MkResult [record_of refresh_tokens_cols c] tag)) in
      if rt_is_revoked c then harmless p else revokes_first p.
Proof.
  eexists. split; [reflexivity|]. split; [intros e; constructor|].
  intros c tag [Hh Hu]. cbn -[from_record record_of]. unfold model_from_record.
  rewrite from_record_of by (intros k Hk; set_solver). cbn -[revoke_all_user_access_tokens].
  destruct (rt_is_revoked c).
  - lazymatch goal with |- harmless (?f ?p) =>
      change (harmless (p ≫= λ r : bool * UUID, mret (Some r))) end.
    apply ends_bind with (λ r, r.1 = true).
    + do 2 (apply ends_stmts_bind; [tx_ok|intros _]). by constructor.
    + intros [b u] ?; cbn in *; subst. constructor. by intros [u' ?].
  - constructor. intros now. cbn. destruct (rt_is_expired now c); [constructor|].
    cbn. constructor; [intros e; constructor|].
    intros r. lazymatch goal with |- ends _ _ (?f ?p) => 
      change (ends allowed (λ _, True) (p ≫= λ r : bool * UUID, mret (Some r))) end.
    apply ends_stmts_bind; [|intros ?; by constructor].
    cbn -[issue_token_pair]. case_decide; [constructor|]. cbn -[issue_token_pair]. tx_ok.
Qed.

(** ** One step of one session *)

Lemma ends_inv {A} P' (Q : A → Prop) p :
  ends P' Q p →
  match p with
  | TxRet a => Q a
  | TxRaise _ => True
  | TxSql s k => P' s ∧ ∀ r, ends P' Q (k r)
  | TxDraw d k => ∀ x, ends P' Q (k x)
  end.
Proof. by destruct 1. Qed.
Lemma revokes_first_inv p :
  revokes_first p →
  match p with
  | TxRet a => False
  | TxRaise _ => True
  | TxSql s k => s = Write.REVOKE_REFRESH_TOKEN h ∧ (∀ e, fails (k (inl e))) ∧
      ∀ r, ends allowed (λ _, True) (k (inr r))
  | TxDraw d k => ∀ x, revokes_first (k x)
  end.
Proof. by destruct 1. Qed.

Lemma phase_allowed c s st k : phase c s → ss_prog s = TxSql st k → allowed st.
Proof.
  intros [tp Hp _|He|_ _ _ He|_ _ _ He] Hs; rewrite Hs in *.
  - destruct (refresh_client_shape tp) as (k' & Hk' & _). rewrite Hk' in Hp.
    injection Hp as -> _. constructor.
  - by apply ends_inv in He as [? _].
  - apply revokes_first_inv in He as [-> _]. constructor.
  - by apply ends_inv in He as [? _].
Qed.

(** A draw, or a driver error. *)
Lemma phase_continue c s p :
  (∃ d k x, ss_prog s = TxDraw d k ∧ p = k x) ∨ (∃ st k e, ss_prog s = TxSql st k ∧ p = k (inl e)) →
  phase c s → phase c (continue p s).
Proof.
  intros Hcase Hph.
  destruct Hph as [tp Hp Hw|He|Hl Hr Hrow He|Hl Hr Hrow He].
  - destruct (refresh_client_shape tp) as (k' & Hk' & Hf & _). rewrite Hk' in Hp.
    destruct Hcase as [(d & k & x & Hs & _)|(st & k & e & Hs & ->)]; [congruence|].
    rewrite Hp in Hs. injection Hs as _ <-. apply ph_harmless, fails_harmless, Hf.
  - apply ph_harmless. apply ends_inv in He.
    destruct Hcase as [(d & k & x & Hs & ->)|(st & k & e & Hs & ->)]; rewrite Hs in He;
      [apply He|destruct He as [_ He]; apply He].
  - apply revokes_first_inv in He.
    destruct Hcase as [(d & k & x & Hs & ->)|(st & k & e & Hs & ->)]; rewrite Hs in He.
    + apply ph_exchanging; [done..|apply He].
    + apply ph_harmless, fails_harmless, He.
  - apply ph_exchanged; [done..|]. apply ends_inv in He.
    destruct Hcase as [(d & k & x & Hs & ->)|(st & k & e & Hs & ->)]; rewrite Hs in He;
      [apply He|destruct He as [_ He]; apply He].
Qed.

Lemma session_ok_continue c s p :
  phase c (continue p s) → session_ok c s → session_ok c (continue p s).
Proof. by intros Hph [Hq Hr _]. Qed.

(** The session's own row after one of its statements. *)
Lemma session_row_stmt c db st s k r v' :
  token_row db = Some c → is_token c → session_ok c s → ss_prog s = TxSql st k →
  stmt_exec st (ss_now s) (view db s) = (r, v') →
  let locks := stmt_locks st (ss_now s) (view db s) in
  token_row (view db s) = session_row (ss_writes s) (Some c) ∧
  session_row (ss_writes s ++ [(view db s, v')]) (Some c) = token_row v' ∧
  kept c (token_row v') ∧
  (¬ write_locked locks (RRefreshToken h) → token_row (view db s) = token_row v').
Proof.
  intros Hc Htok [_ Hrow Hph] Hp Hx locks.
  pose proof (view_row db s) as Hv. rewrite Hc in Hv.
  assert (∃ t, token_row (view db s) = Some t ∧ is_token t ∧ (t = c ∨ t = Write.revoke_rt c))
    as (t & Ht & Htt & Htc).
  { rewrite Hv. destruct Hrow as [-> | ->]; eauto 6. }
  pose proof (token_stmt st (ss_now s) (view db s) t (phase_allowed _ _ _ _ Hph Hp) Ht Htt) as Hst.
  rewrite Hx in Hst. cbn in Hst. split; [done|]. split; [|split].
  - rewrite session_row_snoc, <-Hv. by case_decide.
  - unfold kept. destruct Hst as [->|[-> _]], Htc as [->| ->]; auto.
  - intros Hno. destruct Hst as [->|[_ Hin]]; [done|]. by destruct Hno.
Qed.

Lemma session_ok_stmt c db st s k r v' :
  token_row db = Some c → is_token c → session_ok c s → ss_prog s = TxSql st k →
  stmt_exec st (ss_now s) (view db s) = (r, v') →
  session_ok c (MkSession (ss_now s) (k r) (ss_writes s ++ [(view db s, v')])
    (stmt_locks st (ss_now s) (view db s) ++ ss_locks s)).
Proof.
  intros Hc Htok Hok Hp Hx.
  destruct (session_row_stmt c db st s k r v' Hc Htok Hok Hp Hx) as (Hv & Hrow' & Hkept & Hno).
  destruct Hok as [Hq Hrow Hph]. split; cbn -[kept session_row].
  - unfold locked. cbn -[session_row]. rewrite write_locked_app. intros Hn r0.
    rewrite session_row_snoc, decide_True by tauto. apply Hq. unfold locked. tauto.
  - by rewrite Hrow'.
  - destruct Hph as [tp Hp' Hw|He|Hl Hr Hrow1 He|Hl Hr Hrow1 He]; rewrite ?Hp in *.
    + destruct (refresh_client_shape tp) as (k' & Hk' & _ & Hk). rewrite Hk' in Hp'.
      injection Hp' as -> ->. rewrite Hw in Hv. cbn in Hv. unfold token_row in Hv.
      cbn -[view record_of] in Hx. rewrite Hv in Hx. injection Hx as <- <-.
      specialize (Hk c (TagSelect 1) Htok). cbn -[record_of] in Hk.
      assert (rt_is_revoked c = true ∨ rt_is_revoked c = false) as [Hrev|Hrev]
        by (destruct (rt_is_revoked c); auto); rewrite Hrev in Hk; [by apply ph_harmless|].
      apply ph_exchanging; [|done|by etrans; [exact Hrow'|exact Hv]|done].
      unfold locked. cbn -[view]. rewrite Hv.
      by apply (write_locked_elem ForUpdate); [left|].
    + apply ph_harmless. apply ends_inv in He as [_ He]. apply He.
    + apply revokes_first_inv in He as (-> & _ & He). cbn -[view] in Hx. injection Hx as <- <-.
      apply ph_exchanged; [by apply write_locked_app; right|done| |apply He].
      cbn -[session_row]. rewrite Hrow'. unfold token_row in *. cbn -[view].
      by rewrite lookup_alter_eq, Hv, Hrow1.
    + apply ends_inv in He as [Hst He].
      apply ph_exchanged; [by apply write_locked_app; right|done| |apply He].
      cbn -[session_row]. rewrite Hrow'. rewrite Hrow1 in Hv.
      pose proof (token_stmt st (ss_now s) (view db s) (Write.revoke_rt c) Hst Hv Htok) as Hr'.
      rewrite Hx in Hr'. by destruct Hr' as [Hr'|[Hr' _]].
Qed.

(** ** The invariant of the server *)

Record token_inv (σ : Server exchange_result) (c : RefreshToken) : Prop := {
  ti_exclusive : exclusive (slots σ);
  ti_row : token_row (committed σ) = Some c;
  ti_token : is_token c;
  ti_sessions : ∀ i s, slots σ !! i = Some (Running s) → session_ok c s;
  ti_spent : ∀ i, won σ i → rt_is_revoked c = true;
  ti_once : ∀ i j, won σ i → won σ j → i = j;
}.

(** Another session's invariant survives the change of the row by its holder. *)
Lemma session_ok_unlocked c c' s :
  kept c (Some c') → ¬ locked s → session_ok c s → session_ok c' s.
Proof.
  intros Hk Hl [Hq Hrow Hph]. split; [done|left; by apply Hq|].
  destruct Hph as [tp Hp Hw|Hp|? ? ? ?|? ? ? ?]; [by eapply ph_fresh|by apply ph_harmless|done..].
Qed.

Lemma won_insert σ db i sl j :
  won (MkServer db (<[i := sl]> (slots σ))) j →
  (j = i ∧ ∃ o, sl = Ended (Ok o) ∧ exchanged o) ∨ (j ≠ i ∧ won σ j).
Proof.
  intros (o & Ho & Hx). cbn in Ho. apply list_lookup_insert_Some in Ho as [(<- & -> & _)|[Hne Ho]].
  - left. eauto.
  - right. split; [done|]. by exists o.
Qed.

(** A session that begins. *)
Lemma client_session_ok c now p : client p → session_ok c (MkSession now p [] []).
Proof.
  intros Hc. split; [done|by left|]. destruct Hc as [tp|B p Hp].
  - by eapply ph_fresh.
  - apply ph_harmless. apply ends_stmts_bind; [done|]. intros b. constructor. by intros [u ?].
Qed.
Lemma token_inv_begin σ now p c :
  client p → token_inv σ c →
  token_inv (MkServer (committed σ) (slots σ ++ [Running (MkSession now p [] [])])) c.
Proof.
  intros Hc [Hex Hrow Htok Hss Hspent Honce].
  assert (∀ i, won (MkServer (committed σ) (slots σ ++ [Running (MkSession now p [] [])])) i →
    won σ i) as Hwon.
  { intros i (o & Ho & Hx). cbn in Ho.
    apply lookup_app_Some in Ho as [Ho|[_ Ho]]; [by exists o|].
    by apply list_lookup_singleton_Some in Ho as [_ Ho]. }
  split; cbn; auto.
  - by apply exclusive_begin.
  - intros i s Hi. apply lookup_app_Some in Hi as [Hi|[_ Hi]]; [by eapply Hss|].
    apply list_lookup_singleton_Some in Hi as [_ [= <-]]. by apply client_session_ok.
  - intros i Hi. by eapply Hspent, Hwon.
Qed.

(** A session that goes on, or ends without a commit. *)
Lemma session_ok_advance c db l i s db' s' :
  token_row db = Some c → is_token c → session_ok c s →
  advance db l i s db' (Running s') → session_ok c s'.
Proof.
  intros Hc Htok Hok Hadv.
  inversion Hadv as [|e|st k r v' Hp Hg Hx|st k e Hp|d k x Hp]; subst.
  - by eapply session_ok_stmt.
  - apply session_ok_continue; [|done]. eapply phase_continue; [|apply Hok]. right. eauto 6.
  - apply session_ok_continue; [|done]. eapply phase_continue; [|apply Hok]. left. eauto 6.
Qed.

(** A session that commits an exchange has revoked a row that was live. *)
Lemma session_commit c s a :
  session_ok c s → ss_prog s = TxRet a → exchanged a →
  rt_is_revoked c = false ∧ session_row (ss_writes s) (Some c) = Some (Write.revoke_rt c).
Proof.
  intros [_ _ [tp Hp _|He|_ _ _ He|_ Hr Hrow _]] Ha Hx; rewrite ?Ha in *; [| | |done].
  - destruct (refresh_client_shape tp) as (k & Hk & _). by rewrite Hk in Hp.
  - by apply ends_inv in He.
  - by apply revokes_first_inv in He.
Qed.

Lemma token_inv_commit σ c i s a r :
  token_inv σ c → slots σ !! i = Some (Running s) → ss_prog s = TxRet a →
  (r = Ok a ∨ ∃ e, r = Raise e) → exclusive (<[i := Ended r]> (slots σ)) →
  ∃ c', token_inv (MkServer (view (committed σ) s) (<[i := Ended r]> (slots σ))) c'.
Proof.
  intros [Hex Hrow Htok Hss Hspent Honce] Hi Ha Hres Hex'. pose proof (Hss i s Hi) as Hok.
  assert (∀ o, Ended r = Ended (Ok o) → o = a) as Hoa
    by (intros o [= ->]; by destruct Hres as [[= ->]|[? ?]]).
  pose proof (view_row (committed σ) s) as Hview. rewrite Hrow in Hview.
  assert (∃ c', session_row (ss_writes s) (Some c) = Some c' ∧ kept c (Some c'))
    as (c' & Hc' & Hk) by (pose proof (so_row _ _ Hok) as [->| ->]; unfold kept; eauto).
  rewrite Hc' in Hview.
  assert (rt_is_revoked c = true → rt_is_revoked c' = true) as Hmono
    by (destruct Hk as [[= ->]|[= ->]]; auto).
  exists c'. split; cbn; [done|done| | | |].
  - by destruct Hk as [[= ->]|[= ->]].
  - intros j t Hj. apply list_lookup_insert_Some in Hj as [(_ & ? & _)|[Hne Hj]]; [done|].
    destruct (decide (locked s)) as [Hl|Hl].
    + apply session_ok_unlocked with c; [done| |by eapply Hss].
      intros Ht. exact (apart_write _ _ _ (Hex i j (Running s) (Running t) Hi Hj Hne) Hl Ht).
    + rewrite (so_quiet _ _ Hok Hl) in Hc'. injection Hc' as <-. by eapply Hss.
  - intros j [(-> & o & ->%Hoa & Hx)|[_ Hj]]%won_insert; [|by eapply Hmono, Hspent].
    destruct (session_commit c s a Hok Ha Hx) as [_ Hr]. rewrite Hr in Hc'. by injection Hc' as <-.
  - assert (∀ j, exchanged a → won σ j → False) as Hfirst.
    { intros j Hx Hj. destruct (session_commit c s a Hok Ha Hx) as [Hr _].
      by rewrite (Hspent j Hj) in Hr. }
    intros j1 j2 [(-> & o1 & ->%Hoa & Hx1)|[_ H1]]%won_insert
      [(-> & o2 & ->%Hoa & Hx2)|[_ H2]]%won_insert; [done|by destruct (Hfirst j2)|
      by destruct (Hfirst j1)|by apply Honce].
Qed.

(** A session that goes on, or is rolled back. *)
Lemma token_inv_move σ c i sl :
  token_inv σ c → (∀ o, sl ≠ Ended (Ok o)) → (∀ s, sl = Running s → session_ok c s) →
  exclusive (<[i := sl]> (slots σ)) →
  token_inv (MkServer (committed σ) (<[i := sl]> (slots σ))) c.
Proof.
  intros [Hex Hrow Htok Hss Hspent Honce] Hno Hrun Hex'.
  assert (∀ j, won (MkServer (committed σ) (<[i := sl]> (slots σ))) j → won σ j) as Hwon.
  { intros j [(_ & o & -> & _)|[_ Hj]]%won_insert; [by destruct (Hno o)|done]. }
  split; cbn; [done..| | |]; [|by eauto|by auto].
  intros j s Hj. apply list_lookup_insert_Some in Hj as [(_ & -> & _)|[_ Hj]]; eauto.
Qed.

Lemma token_inv_step σ σ' c :
  server_step client σ σ' → token_inv σ c → ∃ c', token_inv σ' c'.
Proof.
  intros Hstep Hinv.
  pose proof (exclusive_step _ _ _ Hstep (ti_exclusive _ _ Hinv)) as Hex'.
  apply server_step_cases in Hstep as [(now & p & Hc & ->)|(i & s & db & sl & Hi & Hadv & ->)].
  { exists c. by apply token_inv_begin. }
  inversion Hadv as [a r Ha Hr| | | |]; subst; [by eapply token_inv_commit| | | |]; exists c;
    (apply token_inv_move; [done..| |done]); intros t [= <-];
    (eapply session_ok_advance; [apply Hinv..| |done]); by eapply ti_sessions.
Qed.

Lemma token_inv_steps σ σ' c :
  rtc (server_step client) σ σ' → token_inv σ c → ∃ c', token_inv σ' c'.
Proof.
  intros Hr. revert c. induction Hr as [σ|σ1 σ2 σ3 Hs _ IH]; intros c Hinv; [by exists c|].
  destruct (token_inv_step _ _ _ Hs Hinv) as [c' Hc']. by eapply IH.
Qed.

(** C4: a refresh token is exchanged at most once, however many calls present
    it at the same time and whatever other sessions of the services share the
    server (the deletion of the account apart): in every interleaving of their
    statements, with driver errors and lost connections anywhere, at most one
    session commits an exchange, and then the committed row is revoked. *)
Theorem exchange_once db c σ :
  refresh_tokens db !! h = Some c → rt_token_hash c = h → rt_user_id c = owner →
  rtc (server_step client) (MkServer db []) σ →
  (∀ i j, won σ i → won σ j → i = j) ∧
  ∃ c', refresh_tokens (committed σ) !! h = Some c' ∧
    (∀ i, won σ i → rt_is_revoked c' = true).
Proof.
  intros Hc Hh Hu Hr.
  assert (token_inv (MkServer db []) c) as H0.
  { split; cbn; try done; by intros ? (? & ? & ?) || intros ? ? (? & ? & ?). }
  apply token_inv_steps with (c := c) in Hr as [c' Hinv]; [|done].
  split; [apply Hinv|]. exists c'. split; apply Hinv.
Qed.

End token.

(** ** Two calls at once, on the sample tables *)
Lemma run_schedule_steps `{Entropy} {A} (C : txprog A → Prop) evs σ σ' :
  Forall (λ ev, ∀ now p, ev = Begin now p → C p) evs →
  run_schedule evs σ = Some σ' → rtc (server_step C) σ σ'.
Proof.
  intros Hevs. revert σ. unfold run_schedule.
  induction Hevs as [|ev evs Hev _ IH]; intros σ; cbn; [by intros [= ->]|].
  destruct (server_do ev σ) as [σ1|] eqn:Hdo.
  - intros Hrun. eapply rtc_l; [by exists ev|]. by apply IH.
  - intros Hrun. exfalso. clear -Hrun. induction evs as [|ev' evs IH]; [done|]. by apply IH.
Qed.

Definition rival (k : nat) : Event exchange_result :=
  Begin 0 (refresh_client (hash_token "rt-alice") (pair_at (P := ref_platform) cfg k)).
(** The first call reads the row, the second waits until the first committed. *)
Definition race : list (Event exchange_result) :=
  [rival 0; rival 20] ++ [Next 0 1] ++ [Next 0 2; Next 0 2; Next 0 2; Next 0 2; Next 0 2] ++
  [Next 1 3; Next 1 3; Next 1 3; Next 1 3].

Lemma second_call_waits :
  run_schedule (H := plat_entropy (Platform := ref_platform)) [rival 0; rival 20; Next 0 1; Next 1 1]
    (MkServer sample_db []) = None.
Proof. vm_compute. reflexivity. Qed.

Lemma race_outcome :
  slots <$> run_schedule (H := plat_entropy (Platform := ref_platform)) race (MkServer sample_db []) =
  Some [Ended (Ok (Some (false, alice_id))); Ended (Ok (Some (true, alice_id)))].
Proof. vm_compute. reflexivity. Qed.
Lemma race_clients :
  Forall (λ ev, ∀ now p, ev = Begin now p → client (P := ref_platform)
    (hash_token "rt-alice") alice_id p) race.
Proof. repeat constructor; try done; intros now p [= <- <-]; constructor. Qed.

(** Rotation and reuse detection at once: [refresh] of the live token has stored
    its new pair but not committed when a replay of the used one is detected.
    The mass revocation cannot see the new access token, and the new pair is
    committed after it: the account keeps a live access token. *)
Definition replay_race : list (Event exchange_result) :=
  [rival 0; Begin 0 (refresh_client (hash_token "rt-used") (pair_at (P := ref_platform) cfg 20))] ++
  [Next 0 1; Next 0 2; Next 0 2; Next 0 2; Next 0 2] ++ [Next 1 3; Next 1 3] ++
  [Next 0 2] ++ [Next 1 3; Next 1 3].
Definition live_access (u : UUID) (db : Database) : bool :=
  any_row (λ t, at_user_id t = u ∧ at_is_revoked t = false) (access_tokens db).
Lemma replay_race_leaves_access :
  (λ σ : Server exchange_result, (slots σ, live_access alice_id (committed σ))) <$>
    run_schedule (H := plat_entropy (Platform := ref_platform)) replay_race (MkServer sample_db []) =
  Some ([Ended (Ok (Some (false, alice_id))); Ended (Ok (Some (true, alice_id)))], true).
Proof. vm_compute. reflexivity. Qed.

Lemma exchange_once_witness :
  ∃ σ c', slots σ = [Ended (Ok (Some (false, alice_id))); Ended (Ok (Some (true, alice_id)))] ∧
    refresh_tokens (committed σ) !! hash_token "rt-alice" = Some c' ∧ rt_is_revoked c' = true ∧
    ∀ i, won σ i → i = 0.
Proof.
  pose proof race_outcome as Hout.
  destruct (run_schedule race (MkServer sample_db [])) as [σ|] eqn:Hrun; [|discriminate Hout].
  injection Hout as Hσ. apply (run_schedule_steps _ _ _ _ race_clients) in Hrun.
  destruct (exchange_once (P := ref_platform) (hash_token "rt-alice") alice_id sample_db (rt_row "rt-alice" alice_id false)
    σ ltac:(eval_hyp) ltac:(eval_hyp) eq_refl Hrun) as [Honce (c' & Hc' & Hrev)].
  assert (won σ 0) as H0
    by (exists (Some (false, alice_id)); split; [by rewrite Hσ|by exists alice_id]).
  exists σ, c'. split; [done|]. split; [done|]. split; [by apply (Hrev 0)|].
  intros i Hi. by apply Honce.
Defined.
