(* ===== verification/StreamListener.v ===== *)
(** * The stream listener (redis/stream.py, listen_to_stream)

    The loop as a function of the replies of XREAD, over any handler state. The
    server's side is a history of entries with growing identifiers, of which a
    trimmed window is visible; what XREAD answers is a hypothesis on the replies,
    in the words of its documentation. *)

From S2P Require Export Redis JsonProofs.

(** The cursor: the string ["$"], or the identifier of the last entry read. *)
Inductive Cursor := Latest | After (i : N).

(** What [client.xread] comes back with: a list of streams, each with a list of
    messages or something else; no list (the timeout of 2000 ms); an exception;
    or the cancellation of the task. *)
Inductive XreadReply :=
| Streams (streams : list (string * option (list stream_entry)))
| NotAList
| ReadFailed
| Cancelled.

Section listener.
Context {St : Type} (message_handler : json → St → outcome' unit * St).

Record Listener := MkListener { last_id : Cursor; lstate : St }.

(** One message: an empty payload is skipped; what fails is logged. *)
Definition process_message (e : stream_entry) (st : St) : St :=
  if bool_decide (e.2 = EmptyString) then st
  else match loads e.2 with
       | Some event_dict => (message_handler event_dict st).2
       | None => st
       end.
Definition on_entry (l : Listener) (e : stream_entry) : Listener :=
  MkListener (After e.1) (process_message e (lstate l)).
Definition on_stream (l : Listener) (s : string * option (list stream_entry)) : Listener :=
  match s.2 with Some messages => foldl on_entry l messages | None => l end.

(** One turn of the loop; [false] when it breaks. *)
Definition listen_once (r : XreadReply) (l : Listener) : Listener * bool :=
  match r with
  | Streams streams => (foldl on_stream l streams, true)
  | NotAList => (l, true)
  | ReadFailed => (l, true)
  | Cancelled => (l, false)
  end.
Fixpoint listen_loop (rs : list XreadReply) (l : Listener) : Listener :=
  match rs with
  | [] => l
  | r :: rs => let '(l', go) := listen_once r l in if go then listen_loop rs l' else l'
  end.
Definition listen_to_stream (st : St) (rs : list XreadReply) : Listener :=
  listen_loop rs (MkListener Latest st).

(** Where the task can be suspended: not started, in [xread], in the handler, or
    in the [sleep] after a read that failed. The [try] has a clause for the
    cancellation, which breaks the loop; the [sleep] is outside it, in a sibling
    clause, so that a cancellation there leaves the coroutine. *)
Inductive StreamAwait := NotStarted | Reading | Handling | Sleeping.
Inductive StreamEnd := StreamReturns | StreamCancelled.
Definition cancel_stream (a : StreamAwait) : StreamEnd :=
  match a with
  | Reading | Handling => StreamReturns
  | NotStarted | Sleeping => StreamCancelled
  end.

Lemma foldl_on_entry l es :
  foldl on_entry l es =
  MkListener (default (last_id l) (After ∘ fst <$> last es)) (foldl (flip process_message) (lstate l) es).
Proof.
  revert l. induction es as [|e es IH]; intros l; [by destruct l|].
  cbn [foldl]. rewrite IH. cbn [last_id lstate on_entry]. f_equal.
  destruct es as [|e' es]; [done|]. by rewrite last_cons_cons; destruct (last (e' :: es)) eqn:Hl;
    [|apply last_None in Hl].
Qed.


(** ** The server's side *)

(** [hist] is everything ever added; a read is issued when [p_call] entries had
    been added and answered when [p_reply] had; [p_trimmed] are gone by then. *)
Record Poll := MkPoll { p_call : nat; p_reply : nat; p_trimmed : nat; p_answer : XreadReply }.

Section history.
Context (hist : list stream_entry).

(** Identifiers are positive and grow. *)
Definition ids_grow : Prop :=
  (∀ j e, hist !! j = Some e → (0 < e.1)%N) ∧
  (∀ j j' e e', hist !! j = Some e → hist !! j' = Some e' → (j < j')%nat → (e.1 < e'.1)%N).
Definition visible (p : Poll) : list stream_entry := drop (p_trimmed p) (take (p_reply p) hist).

(** ["$"] stands for the newest identifier when the read is issued. *)
Definition cursor_id (c : Cursor) (p : Poll) : N :=
  match c with After i => i | Latest => default 0%N (fst <$> last (take (p_call p) hist)) end.

(** XREAD without COUNT answers with all visible entries past the cursor, as
    soon as there is one; without one it comes back empty-handed. *)
Definition xread_documented (c : Cursor) (p : Poll) : Prop :=
  let new := filter (λ e : stream_entry, (cursor_id c p < e.1)%N) (visible p) in
  (p_call p ≤ p_reply p)%nat ∧
  match p_answer p with
  | Streams streams => streams = [(SYSTEM_STREAM_KEY, Some new)] ∧ new ≠ []
  | NotAList => new = []
  | _ => True
  end.
(** Nothing past the cursor was trimmed. *)
Definition unread_kept (c : Cursor) (p : Poll) : Prop :=
  ∀ j e, hist !! j = Some e → (j < p_trimmed p)%nat → (e.1 ≤ cursor_id c p)%N.

Fixpoint conforms (ps : list Poll) (l : Listener) : Prop :=
  match ps with
  | [] => True
  | p :: ps =>
      xread_documented (last_id l) p ∧ unread_kept (last_id l) p ∧
      conforms ps (listen_once (p_answer p) l).1
  end.

(** ** Positions in the history *)

(** The cursor sits after the first [k] entries. *)
Definition at_position (i : N) (k : nat) : Prop :=
  ∀ j e, hist !! j = Some e → (e.1 <= i)%N ↔ (j < k)%nat.

(** What XREAD hands out at a position: the window from there on. *)
Lemma new_entries i k n m :
  at_position i k → (∀ j e, hist !! j = Some e → (j < n)%nat → (e.1 <= i)%N) →
  filter (λ e : stream_entry, (i < e.1)%N) (drop n (take m hist)) = drop k (take m hist).
Proof.
  intros Hpos Htrim. set (w := take m hist).
  assert (∀ j e, w !! j = Some e → hist !! j = Some e) as Hw
    by (intros j e [Hj _]%lookup_take_Some; done).
  rewrite <-(take_drop k w) at 1. rewrite drop_app, filter_app, length_take.
  rewrite filter_none, filter_all.
  - destruct (decide (drop k w = [])) as [->|Hne]; [by rewrite drop_nil|].
    assert (k < length w)%nat by (apply not_ge; intros ?; by apply Hne, drop_ge).
    assert (n ≤ k)%nat as Hnk; [|by replace (n - _)%nat with 0%nat by lia].
    apply not_gt. intros Hgt. destruct (lookup_lt_is_Some_2 w k) as [e He]; [done|].
    apply Hw in He. pose proof (Htrim k e He Hgt) as Hle. apply (Hpos k e He) in Hle. lia.
  - apply Forall_lookup. intros j e. rewrite !lookup_drop. intros He%Hw.
    apply N.nle_gt. rewrite (Hpos _ _ He). lia.
  - apply Forall_lookup. intros j e. rewrite lookup_drop. intros [He Hj]%lookup_take_Some.
    apply N.nlt_ge. apply (Hpos _ _ (Hw _ _ He)). lia.
Qed.

Lemma position_of_last m e :
  ids_grow → last (take m hist) = Some e → at_position e.1 m.
Proof.
  intros [_ Hgrow] Hl. rewrite last_lookup in Hl. apply lookup_take_Some in Hl as [He Hm].
  rewrite length_take in *. intros j e' Hj. apply lookup_lt_Some in Hj as Hlen. split.
  - intros Hle. apply not_ge. intros Hge.
    pose proof (Hgrow _ _ _ _ He Hj ltac:(lia)) as Hlt. lia.
  - intros Hlt. destruct (decide (j = pred (m `min` length hist))) as [->|Hne].
    + rewrite He in Hj. injection Hj as <-. done.
    + pose proof (Hgrow _ _ _ _ Hj He ltac:(lia)) as Hlt'. lia.
Qed.
Lemma latest_position p : ids_grow → at_position (cursor_id Latest p) (p_call p).
Proof.
  intros Hg. cbn. destruct (last (take (p_call p) hist)) as [e|] eqn:Hl; cbn.
  - by apply position_of_last.
  - apply last_None in Hl. intros j e Hj. destruct Hg as [Hpos _]. specialize (Hpos j e Hj).
    split; [lia|]. intros Hlt. exfalso. assert (take (p_call p) hist !! j = Some e) as He
      by (by apply lookup_take_Some). by rewrite Hl in He.
Qed.

Lemma window_app {A} (l : list A) a b c :
  (a ≤ b)%nat → (b ≤ c)%nat → drop a (take b l) ++ drop b (take c l) = drop a (take c l).
Proof.
  intros Hab Hbc. rewrite <-(take_drop b (take c l)) at 2. rewrite take_take.
  replace (b `min` c)%nat with b by lia. rewrite drop_app, length_take.
  destruct (decide (b ≤ length l)%nat).
  - by replace (a - b `min` length l)%nat with 0%nat by lia.
  - rewrite (drop_ge (take c l) b) by (rewrite length_take; lia). by rewrite drop_nil.
Qed.

(** One answered read, from a position. *)
Lemma poll_answered l p k streams :
  ids_grow → at_position (cursor_id (last_id l) p) k →
  xread_documented (last_id l) p → unread_kept (last_id l) p → p_answer p = Streams streams →
  ∃ e, last (take (p_reply p) hist) = Some e ∧ (k < p_reply p `min` length hist)%nat ∧
    listen_once (p_answer p) l =
    (MkListener (After e.1)
       (foldl (flip process_message) (lstate l) (drop k (take (p_reply p) hist))), true).
Proof.
  intros Hg Hpos [_ Hdoc] Hkept Ha. rewrite Ha in *. destruct Hdoc as [-> Hne]. unfold visible in *.
  rewrite (new_entries _ k) in * by done.
  cbn [listen_once foldl on_stream snd]. rewrite foldl_on_entry.
  assert (k < length (take (p_reply p) hist))%nat as Hk
    by (apply not_ge; intros ?; by apply Hne, drop_ge).
  destruct (last (take (p_reply p) hist)) as [e|] eqn:Hl.
  - exists e. split; [done|]. rewrite length_take in Hk. split; [lia|]. do 2 f_equal.
    rewrite last_lookup, length_drop, lookup_drop.
    replace (k + pred (length (take (p_reply p) hist) - k))%nat
      with (pred (length (take (p_reply p) hist))) by (rewrite length_take; lia).
    by rewrite <-last_lookup, Hl.
  - apply last_None in Hl. rewrite Hl in Hk. cbn in Hk. lia.
Qed.

(** [read_up_to m p]: a read that came back saw the first entries, up to [m]. *)
Definition read_up_to (m : nat) (p : Poll) : Prop :=
  match p_answer p with
  | Streams _ | NotAList => (p_reply p `min` length hist ≤ m)%nat
  | _ => True
  end.

(** The loop from a position. *)
Lemma listen_from_position ps l i k :
  ids_grow → last_id l = After i → at_position i k → conforms ps l →
  Cancelled ∉ p_answer <$> ps →
  let l' := listen_loop (p_answer <$> ps) l in
  ∃ i' k', last_id l' = After i' ∧ at_position i' k' ∧ (k ≤ k')%nat ∧
    lstate l' = foldl (flip process_message) (lstate l) (drop k (take k' hist)) ∧
    Forall (read_up_to k') ps.
Proof.
  intros Hg. revert l i k. induction ps as [|p ps IH]; intros l i k Hi Hpos Hc Hno; cbn [fmap list_fmap listen_loop].
  { exists i, k. split_and!; [done..| |constructor].
    by rewrite drop_ge by (rewrite length_take; lia). }
  destruct Hc as (Hdoc & Hkept & Hc). cbn in Hno. apply not_elem_of_cons in Hno as [Hnc Hno].
  assert (cursor_id (last_id l) p = i) as Hcur by (by rewrite Hi).
  destruct (p_answer p) as [ss| | |] eqn:Ha; [| | |by destruct Hnc].
  - destruct (poll_answered l p k ss) as (e & Hl & Hk & Hrun); [by rewrite ?Hcur..|].
    rewrite Ha in Hrun. rewrite Hrun in Hc |- *. cbn [fst] in Hc. cbv beta iota zeta. pose proof (position_of_last _ _ Hg Hl) as Hpos1.
    destruct ((λ Hi1, IH _ e.1 (p_reply p) Hi1 Hpos1 Hc Hno) eq_refl) as (i' & k' & Hi' & Hpos' & Hle & Hst & Hread).
    exists i', k'. split_and!; [done..|lia| |constructor; [unfold read_up_to; rewrite Ha; lia|done]].
    rewrite Hst. cbn [lstate]. rewrite <-foldl_app, window_app by lia. done.
  - destruct (IH _ _ _ Hi Hpos Hc Hno) as (i' & k' & Hi' & Hpos' & Hle & Hst & Hread).
    exists i', k'. split_and!; [done..|]. constructor; [|done]. unfold read_up_to. rewrite Ha.
    destruct Hdoc as [_ Hdoc]. rewrite Ha, Hcur in Hdoc. unfold visible in Hdoc.
    rewrite (new_entries _ k) in Hdoc by (done || rewrite <-Hcur; done).
    apply (f_equal length) in Hdoc. rewrite length_drop, length_take in Hdoc. cbn in Hdoc. lia.
  - destruct (IH _ _ _ Hi Hpos Hc Hno) as (i' & k' & Hi' & Hpos' & Hle & Hst & Hread).
    exists i', k'. split_and!; [done..|]. constructor; [|done]. unfold read_up_to. by rewrite Ha.
Qed.

(** C16: once the listener has a position in the stream it handles every later
    entry exactly once and in order: through timeouts, dropped connections and
    malformed payloads, its state is the fold of the handler over exactly the
    entries between the two positions, and no entry that was in the stream when
    a read came back is left behind, as long as nothing unread is trimmed. *)
Theorem stream_exactly_once ps l i k :
  ids_grow → last_id l = After i → at_position i k → conforms ps l →
  Cancelled ∉ p_answer <$> ps →
  let l' := listen_loop (p_answer <$> ps) l in
  ∃ i' k', last_id l' = After i' ∧ at_position i' k' ∧ (k ≤ k')%nat ∧
    lstate l' = foldl (flip process_message) (lstate l) (drop k (take k' hist)) ∧
    Forall (read_up_to k') ps.
Proof. intros Hg Hi Hpos Hc Hno. by apply listen_from_position with i. Qed.

(** Until its first event the listener has no position: each blocking read
    starts from whatever the stream holds when it is issued. What was added
    before the first answered read was issued, the gaps between the earlier
    reads included, is never handed to the handler; what came after it is. *)
Lemma startup_window st ps p qs streams :
  ids_grow → conforms (ps ++ p :: qs) (MkListener Latest st) →
  Forall (λ q, p_answer q = NotAList ∨ p_answer q = ReadFailed) ps →
  p_answer p = Streams streams → Cancelled ∉ p_answer <$> qs →
  ∃ k', (p_reply p `min` length hist ≤ k')%nat ∧
    lstate (listen_to_stream st (p_answer <$> ps ++ p :: qs)) =
    foldl (flip process_message) st (drop (p_call p) (take k' hist)).
Proof.
  intros Hg Hc Hps Hp Hqs. unfold listen_to_stream.
  induction Hps as [|q ps Hq _ IH]; cbn [fmap list_fmap listen_loop app] in *.
  - destruct Hc as (Hdoc & Hkept & Hc).
    destruct (poll_answered (MkListener Latest st) p (p_call p) streams) as (e & Hl & Hk & Hrun);
      [done|by apply latest_position|done..|].
    rewrite Hrun in Hc |- *. cbn [fst] in Hc. cbv beta iota zeta.
    destruct ((λ Hi, listen_from_position qs _ e.1 (p_reply p) Hg Hi (position_of_last _ _ Hg Hl) Hc Hqs)
                eq_refl)
      as (i' & k' & _ & _ & Hle & Hst & _).
    exists k'. split; [lia|]. rewrite Hst. cbn [lstate]. by rewrite <-foldl_app, window_app by lia.
  - destruct Hc as (_ & _ & Hc). destruct Hq as [Hq|Hq]; rewrite Hq in Hc |- *; by apply IH.
Qed.

End history.
End listener.

(** ** Runs: a handler that records what it is given *)
Definition record_events (d : json) (st : list json) : outcome' unit * list json :=
  (Ok tt, st ++ [d]).
Definition sample_hist : list stream_entry :=
  [(1%N, "true"); (2%N, "{oops"); (3%N, "null"); (4%N, "[]")].
Lemma sample_hist_grows : ids_grow sample_hist.
Proof.
  split.
  - intros j e Hj. repeat (destruct j as [|j]; [by injection Hj as <-|]). discriminate.
  - intros j j' e e' Hj Hj' Hlt.
    repeat (destruct j as [|j]; [injection Hj as <-;
      repeat (destruct j' as [|j']; [(injection Hj' as <-; done) || lia|]); discriminate|]).
    discriminate.
Qed.
(** From identifier 1: a read of two entries, a dropped connection, a read of
    the last entry after one entry was trimmed, a timeout. *)
Definition sample_polls : list Poll :=
  [MkPoll 2 3 0 (Streams [(SYSTEM_STREAM_KEY, Some [(2%N, "{oops"); (3%N, "null")])]);
   MkPoll 3 3 0 ReadFailed;
   MkPoll 3 4 1 (Streams [(SYSTEM_STREAM_KEY, Some [(4%N, "[]")])]);
   MkPoll 4 4 1 NotAList].

Ltac poll_kept :=
  intros j e Hj Hlt; cbn in Hlt; repeat (destruct j as [|j]; [injection Hj as <-; cbn; lia|]); lia.
Ltac poll_ok :=
  split; [split; cbn -[N.lt]; [lia|try (split; [reflexivity|discriminate]); try reflexivity; try exact I]
         |split; [poll_kept|]].

Lemma stream_exactly_once_witness :
  conforms record_events sample_hist sample_polls (MkListener (After 1) [JBool true]) ∧
  ∃ k', lstate (listen_loop record_events (p_answer <$> sample_polls)
      (MkListener (After 1) [JBool true])) =
    foldl (flip (process_message record_events)) [JBool true] (drop 1 (take k' sample_hist)) ∧
    lstate (listen_loop record_events (p_answer <$> sample_polls)
      (MkListener (After 1) [JBool true])) = [JBool true; JNull; JArr []].
Proof.
  assert (conforms record_events sample_hist sample_polls (MkListener (After 1) [JBool true])) as Hc
    by (do 4 poll_ok; exact I).
  split; [exact Hc|].
  assert (at_position sample_hist 1 1) as Hpos.
  { intros j e Hj.
    repeat (destruct j as [|j]; [injection Hj as <-; cbn; lia|]). discriminate. }
  destruct (stream_exactly_once record_events sample_hist sample_polls
    (MkListener (After 1) [JBool true]) 1 1 sample_hist_grows eq_refl Hpos Hc) as
    (i' & k' & _ & _ & _ & Hst & _).
  - cbn. rewrite !elem_of_cons, elem_of_nil. intros [?|[?|[?|[?|[]]]]]; discriminate.
  - exists k'. split; [exact Hst|]. vm_compute. reflexivity.
Defined.

(** The listener starts on a stream of one entry; two more arrive while no read
    is blocked; the read that follows gets the fourth only. *)
Definition gap_polls : list Poll :=
  [MkPoll 1 1 0 NotAList;
   MkPoll 3 4 0 (Streams [(SYSTEM_STREAM_KEY, Some [(4%N, "[]")])])].
Lemma startup_window_witness :
  ∃ k', (4 ≤ k')%nat ∧
    lstate (listen_to_stream record_events [] (p_answer <$> gap_polls)) =
      foldl (flip (process_message record_events)) [] (drop 3 (take k' sample_hist)) ∧
    lstate (listen_to_stream record_events [] (p_answer <$> gap_polls)) = [JArr []].
Proof.
  assert (conforms record_events sample_hist gap_polls (MkListener Latest [])) as Hc
    by (do 2 poll_ok; exact I).
  destruct (startup_window record_events sample_hist [] [MkPoll 1 1 0 NotAList]
    (MkPoll 3 4 0 (Streams [(SYSTEM_STREAM_KEY, Some [(4%N, "[]")])])) []
    [(SYSTEM_STREAM_KEY, Some [(4%N, "[]")])] sample_hist_grows Hc) as (k' & Hk & Hst).
  - apply Forall_singleton. by left.
  - reflexivity.
  - by intros ?%elem_of_nil.
  - exists k'. split; [exact Hk|]. split; [exact Hst|]. vm_compute. reflexivity.
Defined.
