(* ===== verification/Listeners.v ===== *)
(** * Revocation across workers (redis/stream.py with services/auth.py)

    The stream listener of a worker with [TokenCache.handle_invalidation_event]
    as its handler, composed with the service operations of another worker and
    with request authentication. *)

From S2P Require Export StreamListener Delivery Authentication AuthTheorems.

Section listeners.
Context {P : Platform} {PL : PlatformLaws}.
Implicit Types (w : World) (l : Listener (St := World)) (p : Poll).

(** The coroutine the listener awaits for each event. *)
Definition invalidate (event_dict : json) : M unit :=
  with_cache (λ t c, (tt, TokenCache.handle_invalidation_event t event_dict c)).
Abbreviation process := (process_message invalidate).
Abbreviation poll_once := (listen_once invalidate).

Lemma dumps_nonempty j : json_ok j → dumps j ≠ EmptyString.
Proof. intros Hj Hd. pose proof (loads_dumps j Hj) as Hl. by rewrite Hd in Hl. Qed.

Lemma process_event i ev w : process (i, dumps (to_dict ev)) w = (invalidate (to_dict ev) w).2.
Proof.
  unfold process_message. cbn [snd].
  rewrite bool_decide_eq_false_2 by apply dumps_nonempty, to_dict_ok.
  by rewrite loads_dumps by apply to_dict_ok.
Qed.

(** Handling events touches the cache and the clock only. *)
Definition cache_only w w' : Prop :=
  w_db w' = w_db w ∧ w_pool w' = w_pool w ∧ w_faults w' = w_faults w ∧ w_redis w' = w_redis w ∧
  w_tasks w' = w_tasks w ∧ (w_tick w ≤ w_tick w')%nat.
Lemma process_cache_only e w : cache_only w (process e w).
Proof.
  unfold process_message. destruct (bool_decide _); [by split_and!|].
  destruct (loads e.2); [|by split_and!]. split_and!; cbn; (done || lia).
Qed.
Lemma fold_cache_only es w : cache_only w (foldl (flip process) w es).
Proof.
  revert w. induction es as [|e es IH]; intros w; [by split_and!|]. cbn.
  destruct (process_cache_only e w) as (? & ? & ? & ? & ? & ?).
  destruct (IH (process e w)) as (? & ? & ? & ? & ? & ?).
  split_and!; (congruence || (etrans; done)).
Qed.

Lemma invalidate_evicts h t w :
  h ≠ EmptyString → (ent_mono (w_tick w) ≤ t)%Z →
  TokenCache.get t h (w_cache (invalidate (to_dict (TokenRevokedEvent h)) w).2) = None.
Proof.
  intros Hh Ht. unfold invalidate, with_cache. cbn [snd fst w_cache set_cache].
  rewrite TokenCache.handle_token_revoked by done. by apply cache_get_pop_eq.
Qed.

(** A batch that ends with the event of [h] leaves [h] uncached. *)
Lemma fold_evicts es i h t w :
  h ≠ EmptyString → (∀ a b, (a ≤ b)%nat → (ent_mono a ≤ ent_mono b)%Z) →
  (ent_mono (w_tick (foldl (flip process) w (es ++ [(i, dumps (to_dict (TokenRevokedEvent h)))]))) ≤ t)%Z →
  TokenCache.get t h
    (w_cache (foldl (flip process) w (es ++ [(i, dumps (to_dict (TokenRevokedEvent h)))]))) = None.
Proof.
  intros Hh Hmono. rewrite foldl_app. cbn [foldl]. unfold flip at 1 3. rewrite process_event.
  generalize (foldl (flip process) w es). intros w1 Ht. apply invalidate_evicts; [done|].
  etrans; [|exact Ht]. apply Hmono. unfold invalidate, with_cache. cbn. lia.
Qed.

(** What an event is to do to the entry of a token hash. *)
Definition meant (ev : RedisEvent) (h : string) (cached : option User) : option User :=
  match ev with
  | TokenRevokedEvent h' => if decide (h = h') then None else cached
  | UserInvalidatedEvent u =>
      v ← cached; if decide (user_id v = u) then None else Some v
  | _ => cached
  end.
Lemma event_meant ev t t' h c :
  ev ≠ TokenRevokedEvent EmptyString → (t ≤ t')%Z →
  TokenCache.get t' h (TokenCache.handle_invalidation_event t (to_dict ev) c) =
  meant ev h (TokenCache.get t' h c).
Proof.
  intros Hne Ht. destruct ev as [m s r x d|m g s x d|act u g|g|u|h']; try done; cbn [meant].
  - rewrite TokenCache.handle_user_invalidated, TokenCache.get_evict_user by done.
    destruct (TokenCache.get t' h c) as [v|]; [|done]. cbn. by repeat case_decide || case_bool_decide.
  - rewrite TokenCache.handle_token_revoked by congruence. case_decide; subst.
    + by apply cache_get_pop_eq.
    + by apply cache_get_pop_ne.
Qed.

(** C15: an event published on the stream is understood as it was meant: the entry
    that a successful [publish_stream_event] appends, once a worker reads it,
    drops from that worker's token cache exactly the revoked hash (unless that is
    the empty string), or exactly the hashes of the invalidated user, leaves every other cached session in place
    (an event of another kind drops none), and touches nothing but the cache and
    the clock. *)
Theorem invalidation_roundtrip ev rd rd' :
  ev ≠ TokenRevokedEvent EmptyString → publish_stream_event ev rd = (Ok tt, rd') →
  ∃ e, last (stream_of rd' SYSTEM_STREAM_KEY) = Some e ∧
    ∀ w, cache_only w (process e w) ∧
      ∀ t h, (ent_mono (w_tick w) ≤ t)%Z →
        TokenCache.get t h (w_cache (process e w)) = meant ev h (TokenCache.get t h (w_cache w)).
Proof.
  intros Hne Hp. apply publish_stream_event_ok in Hp as [(i & Hl & _) _].
  eexists. split; [exact Hl|]. intros w. split; [apply process_cache_only|]. intros t h Ht.
  rewrite process_event. unfold invalidate, with_cache. cbn [fst snd w_cache set_cache].
  by apply event_meant.
Qed.

Lemma publish_twice ev1 ev2 rd rd1 rd2 :
  publish_stream_event ev1 rd = (Ok tt, rd1) → publish_stream_event ev2 rd1 = (Ok tt, rd2) →
  ∃ i, last (stream_of rd2 SYSTEM_STREAM_KEY) = Some (i, dumps (to_dict ev2)) ∧
    ∀ e, e ∈ stream_of rd1 SYSTEM_STREAM_KEY → (e.1 < i)%N.
Proof.
  intros _ H2. apply publish_stream_event_ok in H2 as [(i & Hl & Hlt) _].
  exists i. split; [done|]. by apply Forall_forall.
Qed.

Lemma logout_published raw acc tok atok w w' :
  healthy w → acc ≠ EmptyString →
  refresh_tokens (w_db w) !! hash_token raw = Some tok →
  access_tokens (w_db w) !! hash_token acc = Some atok →
  logout raw (Some acc) w = (Ok tt, w') →
  access_tokens (w_db w') !! hash_token acc = Some (Write.revoke_at atok) ∧
  ∃ rd1 i, publish_stream_event (TokenRevokedEvent (hash_token raw)) (w_redis w) = (Ok tt, rd1) ∧
    last (stream_of (w_redis w') SYSTEM_STREAM_KEY) =
      Some (i, dumps (to_dict (TokenRevokedEvent (hash_token acc)))) ∧
    ∀ e, e ∈ stream_of rd1 SYSTEM_STREAM_KEY → (e.1 < i)%N.
Proof.
  intros Hw Hacc Htok Hatok. rewrite logout_run by done.
  unfold logout_table, access_hash_of. rewrite bool_decide_eq_false_2 by done.
  rewrite Htok. cbn. rewrite Hatok. cbn.
  destruct (publish_stream_event (TokenRevokedEvent (hash_token raw)) (w_redis w))
    as [[[]|e1] rd1] eqn:H1; [|discriminate]. cbn.
  destruct (publish_stream_event (TokenRevokedEvent (hash_token acc)) rd1)
    as [[[]|e2] rd2] eqn:H2; [|discriminate]. cbn.
  intros [= <-]. cbn. split; [apply lookup_insert_eq|].
  destruct (publish_twice _ _ _ _ _ H1 H2) as (i & Hl & Hlt). exists rd1, i. by split_and!.
Qed.

Lemma logout_unknown raw acc w w' :
  healthy w → acc ≠ EmptyString →
  refresh_tokens (w_db w) !! hash_token raw = None ∨ access_tokens (w_db w) !! hash_token acc = None →
  logout raw (Some acc) w = (Ok tt, w') →
  w_db w' = w_db w ∧ w_redis w' = w_redis w ∧ w_cache w' = w_cache w.
Proof.
  intros Hw Hacc Hno. rewrite logout_run by done.
  unfold logout_table, access_hash_of. rewrite bool_decide_eq_false_2 by done.
  destruct (refresh_tokens (w_db w) !! hash_token raw), (access_tokens (w_db w) !! hash_token acc);
    cbn; destruct Hno as [?|?]; try done; by intros [= <-].
Qed.

(** A worker that had read the stream up to [j] reads it once more, with what
    [wA] added to it, and then answers from the tables as [wA] left them. *)
Definition after_reading p wA l : World :=
  set_db (w_db wA) (lstate (poll_once (p_answer p) l).1).
Definition reads_after hist j p wA l : Prop :=
  healthy (lstate l) ∧ last_id l = After j ∧
  (* [j] is older than the newest entry *)
  (∀ e, last (stream_of (w_redis wA) SYSTEM_STREAM_KEY) = Some e → (j < e.1)%N) ∧
  visible hist p = stream_of (w_redis wA) SYSTEM_STREAM_KEY ∧
  xread_documented hist (After j) p ∧ ∃ ss, p_answer p = Streams ss.

(** C14: what a logout of both tokens that reports success is worth. If both are in the
    tables it takes effect on every other worker: once that worker has read the
    stream after it (from a position it had before), its next authentication of
    the access token fails against the shared tables, whatever its cache held
    before. If either token is unknown it has changed nothing, neither tables
    nor stream nor cache. *)
Theorem logout_reaches_workers raw acc wA wA' :
  healthy wA → acc ≠ EmptyString → hash_token acc ≠ EmptyString →
  (∀ a b, (a ≤ b)%nat → (ent_mono a ≤ ent_mono b)%Z) →
  logout raw (Some acc) wA = (Ok tt, wA') →
  match refresh_tokens (w_db wA) !! hash_token raw, access_tokens (w_db wA) !! hash_token acc with
  | Some _, Some _ =>
      ∀ allow hist j p l, reads_after hist j p wA' l →
      (authenticate_token acc allow (after_reading p wA' l)).1 =
        Raise (unauthorized "Access token has been revoked.")
  | _, _ => w_db wA' = w_db wA ∧ w_redis wA' = w_redis wA ∧ w_cache wA' = w_cache wA
  end.
Proof.
  intros HA Hacc Hne Hmono Hlogout.
  destruct (refresh_tokens (w_db wA) !! hash_token raw) as [tok|] eqn:Htok;
    [|apply (logout_unknown raw acc); auto].
  destruct (access_tokens (w_db wA) !! hash_token acc) as [atok|] eqn:Hatok;
    [|apply (logout_unknown raw acc); auto].
  intros allow hist j p l (HB & Hj & Hnew & Hvis & [_ Hdoc] & [ss Hss]).
  destruct (logout_published _ _ _ _ _ _ HA Hacc Htok Hatok Hlogout) as [Hrow (rd1 & i & _ & Hlast & _)].
  rewrite Hss in Hdoc. destruct Hdoc as [-> _]. cbn [cursor_id] in Hss.
  specialize (Hnew _ Hlast). apply last_Some in Hlast as [es Hes]. cbn [fst] in Hnew.
  assert (filter (λ e : stream_entry, (j < e.1)%N) (stream_of (w_redis wA') SYSTEM_STREAM_KEY) =
    filter (λ e : stream_entry, (j < e.1)%N) es ++
      [(i, dumps (to_dict (TokenRevokedEvent (hash_token acc))))]) as Hbatch.
  { rewrite Hes, filter_app. f_equal. by rewrite filter_cons_True. }
  rewrite Hvis in Hss. unfold after_reading. rewrite Hss, Hbatch.
  cbn [listen_once foldl on_stream snd fst]. rewrite foldl_on_entry.
  cbn [lstate]. set (w1 := foldl _ _ _).
  destruct (fold_cache_only (filter (λ e : stream_entry, (j < e.1)%N) es ++
    [(i, dumps (to_dict (TokenRevokedEvent (hash_token acc))))]) (lstate l))
    as (_ & Hp & Hf & _). fold w1 in Hp, Hf.
  rewrite authenticate_miss.
  - unfold auth_decision. cbn [w_db set_db]. by rewrite Hrow.
  - destruct HB as [HB1 HB2]. split; cbn; congruence.
  - cbn [w_tick set_db w_cache]. by eapply fold_evicts.
Qed.

End listeners.

(** ** Runs on the sample tables *)

Lemma ref_mono_grows a b :
  (a ≤ b)%nat → (@ent_mono (plat_entropy (Platform := ref_platform)) a ≤
                 @ent_mono (plat_entropy (Platform := ref_platform)) b)%Z.
Proof. cbn. unfold seconds. lia. Qed.

(** The two entries of alice's logout. *)
Definition logout_entries : list stream_entry :=
  [(1%N, dumps (to_dict (TokenRevokedEvent (hash_token "rt-alice"))));
   (2%N, dumps (to_dict (TokenRevokedEvent (hash_token "at-alice"))))].
Definition logout_poll : Poll := MkPoll 0 2 0 (Streams [(SYSTEM_STREAM_KEY, Some logout_entries)]).

Lemma logout_sample :
  (logout (P := ref_platform) "rt-alice" (Some "at-alice") sample_world).1 = Ok tt ∧
  stream_of (w_redis (logout (P := ref_platform) "rt-alice" (Some "at-alice") sample_world).2)
    SYSTEM_STREAM_KEY = logout_entries.
Proof. split; vm_compute; reflexivity. Qed.
Lemma logout_poll_documented : xread_documented logout_entries (After 0) logout_poll.
Proof. split; [cbn; lia|]. split; [reflexivity|discriminate]. Qed.

(** A worker with alice's session cached: it accepts the session although the
    logout is in the tables, until it reads the stream. *)
Lemma logout_reaches_workers_witness :
  (let db' := w_db (logout (P := ref_platform) "rt-alice" (Some "at-alice") sample_world).2 in
   let l := MkListener (After 0) warm_world in
   (authenticate_token (P := ref_platform) "at-alice" false (set_db db' (lstate l))).1 = Ok alice ∧
   (authenticate_token (P := ref_platform) "at-alice" false
      (set_db db' (lstate (listen_once (invalidate (P := ref_platform))
         (p_answer logout_poll) l).1))).1 =
     Raise (unauthorized "Access token has been revoked.")) ∧
  w_db (logout (P := ref_platform) "no such token" (Some "at-alice") sample_world).2 = sample_db.
Proof.
  split; [split; [vm_compute; reflexivity|]|].
  - destruct logout_sample as [Hok Hst].
    destruct (logout (P := ref_platform) "rt-alice" (Some "at-alice") sample_world) as [r wA'] eqn:Hl.
    cbn [fst snd] in Hok, Hst |- *. subst r.
    assert (refresh_tokens (w_db sample_world) !! hash_token "rt-alice" =
      Some (rt_row "rt-alice" alice_id false)) as Hr by eval_hyp.
    assert (access_tokens (w_db sample_world) !! hash_token "at-alice" =
      Some (MkAccessToken (hash_token "at-alice") alice_id false (seconds 900))) as Ha by eval_hyp.
    pose proof (logout_reaches_workers (PL := ref_platform_laws) "rt-alice" "at-alice" sample_world wA'
      sample_healthy ltac:(discriminate) ltac:(eval_hyp) ref_mono_grows Hl) as Hmain.
    rewrite Hr, Ha in Hmain.
    apply (Hmain false logout_entries 0%N logout_poll (MkListener (After 0) warm_world)).
    split; [eval_hyp|]. split; [reflexivity|]. rewrite Hst.
    split; [by intros e [= <-]|]. split; [reflexivity|].
    split; [exact logout_poll_documented|exact (ex_intro _ _ eq_refl)].
  - assert ((logout (P := ref_platform) "no such token" (Some "at-alice") sample_world).1 = Ok tt)
      as Hok by (vm_compute; reflexivity).
    destruct (logout (P := ref_platform) "no such token" (Some "at-alice") sample_world) as [r wA'] eqn:Hl.
    cbn [fst snd] in Hok |- *. subst r.
    assert (refresh_tokens (w_db sample_world) !! hash_token "no such token" = None) as Hr by eval_hyp.
    pose proof (logout_reaches_workers (PL := ref_platform_laws) "no such token" "at-alice"
      sample_world wA' sample_healthy ltac:(discriminate) ltac:(eval_hyp) ref_mono_grows Hl) as Hmain.
    rewrite Hr in Hmain. exact (proj1 Hmain).
Defined.

Lemma invalidation_roundtrip_witness :
  let t := @ent_mono (plat_entropy (Platform := ref_platform)) (w_tick warm_world) in
  ∃ e, last (@stream_of ref_redis (redis_after [UserInvalidatedEvent alice_id]) SYSTEM_STREAM_KEY) = Some e ∧
    TokenCache.get t (hash_token "at-alice") (w_cache warm_world) = Some alice ∧
    TokenCache.get t (hash_token "at-alice")
      (w_cache (process_message (invalidate (P := ref_platform)) e warm_world)) = None.
Proof.
  intros t.
  destruct (invalidation_roundtrip (PL := ref_platform_laws) (UserInvalidatedEvent alice_id)
    ref_redis_empty (redis_after [UserInvalidatedEvent alice_id])) as (e & He & Hrun);
    [discriminate|eval_hyp|].
  assert (TokenCache.get t (hash_token "at-alice") (w_cache warm_world) = Some alice) as Hg
    by (vm_compute; reflexivity).
  exists e. split; [exact He|]. split; [exact Hg|].
  rewrite (proj2 (Hrun warm_world) t (hash_token "at-alice") (Z.le_refl _)), Hg. reflexivity.
Defined.
