(* ===== verification/PubSub.v ===== *)
(** * The Pub/Sub listener (redis/pubsub.py, listen_and_dispatch_message)

    The loop as a state machine over what the Redis client does: subscriptions
    that succeed or fail, messages, dropped connections, cancellation. Each
    well-formed message becomes one background task. *)

From S2P Require Export Delivery.

(** [msg["data"]]: text, or bytes that may not decode. *)
Inductive RawData := RText (s : string) | RBytes (decoded : option string).
(** What [json.loads] is handed: nothing when [decode] raises, an exception that
    is not a [JSONDecodeError]. *)
Definition decoded (d : RawData) : option string :=
  match d with RText s => Some s | RBytes o => o end.

(** What the loop awaits can do. [unsubscribed] tells whether the [finally]
    block, [unsubscribe] and [aclose], goes through. *)
Inductive PubSubEvent :=
| Subscribed                              (* client.pubsub(), subscribe *)
| SubscribeFailed
| Message (type : string) (data : RawData)
| ListenFailed (unsubscribed : bool)      (* listen() raises *)
| ListenEnded (unsubscribed : bool)       (* listen() is exhausted *)
| TaskCancelled (unsubscribed : bool).

Inductive LoopPhase := Connecting | Listening | Stopped.
#[export] Instance LoopPhase_eq_dec : EqDecision LoopPhase.
Proof. solve_decision. Defined.

(** [pl_open] counts the PubSub objects that were subscribed and not closed. *)
Record PubSubLoop := MkLoop {
  pl_phase : LoopPhase;
  pl_spawned : list json;       (* payloads handed to [spawn_task], oldest first *)
  pl_open : nat;
  pl_client_closed : bool;
}.
Definition start_loop : PubSubLoop := MkLoop Connecting [] 0 false.

Section loop.
Context (close_client_on_exit : bool).

(** [finally: await pubsub.unsubscribe(channel); await pubsub.aclose()] *)
Definition leave (unsubscribed : bool) (open : nat) : nat :=
  if unsubscribed then pred open else open.
(** The outer [finally]. *)
Definition stop (spawned : list json) (open : nat) : PubSubLoop :=
  MkLoop Stopped spawned open close_client_on_exit.

Definition on_event (ev : PubSubEvent) (l : PubSubLoop) : PubSubLoop :=
  let '(MkLoop ph spawned open closed) := l in
  match ph, ev with
  | Connecting, Subscribed => MkLoop Listening spawned (S open) closed
  | Connecting, SubscribeFailed => l
  | Connecting, TaskCancelled _ => stop spawned open
  | Listening, Message type data =>
      if bool_decide (type = "message") then
        match decoded data with
        | None => MkLoop Connecting spawned (leave true open) closed
        | Some text =>
            match loads text with
            | Some payload => MkLoop Listening (spawned ++ [payload]) open closed
            | None => l
            end
        end
      else l
  | Listening, (ListenFailed ok | ListenEnded ok) => MkLoop Connecting spawned (leave ok open) closed
  (* an exception of [unsubscribe] replaces the [CancelledError] *)
  | Listening, TaskCancelled ok =>
      if ok then stop spawned (leave ok open)
      else MkLoop Connecting spawned open closed
  | _, _ => l
  end.
Definition listen_and_dispatch_message (evs : list PubSubEvent) : PubSubLoop :=
  foldl (λ l ev, on_event ev l) start_loop evs.

(** The payload a message on the channel stands for. *)
Definition payload_of (ev : PubSubEvent) : option json :=
  match ev with
  | Message type data => if bool_decide (type = "message") then decoded data ≫= loads else None
  | _ => None
  end.
(** The messages that arrive while the loop is subscribed. *)
Fixpoint heard (listening : bool) (evs : list PubSubEvent) : list PubSubEvent :=
  match evs with
  | [] => []
  | Subscribed :: evs => heard true evs
  | Message type data :: evs =>
      if listening then
        Message type data ::
          heard (negb (bool_decide (type = "message") && bool_decide (decoded data = None))) evs
      else heard false evs
  | SubscribeFailed :: evs => heard listening evs
  | _ :: evs => heard false evs
  end.

Definition uncancelled (evs : list PubSubEvent) : Prop :=
  Forall (λ ev, match ev with TaskCancelled _ => False | _ => True end) evs.

(** The loop goes on from where the event left it. *)
Ltac loop_continues IH :=
  match goal with
  | |- pl_phase (foldl _ ?l _) ≠ Stopped ∧ _ => exact (IH l ltac:(discriminate))
  end.

(** The loop as a whole, from any point before its end. *)
Lemma loop_run evs l :
  uncancelled evs → pl_phase l ≠ Stopped →
  let l' := foldl (λ l ev, on_event ev l) l evs in
  pl_phase l' ≠ Stopped ∧ pl_client_closed l' = pl_client_closed l ∧
  pl_spawned l' = pl_spawned l ++ omap payload_of (heard (bool_decide (pl_phase l = Listening)) evs).
Proof.
  intros Hun. revert l.
  induction Hun as [|ev evs Hev _ IH]; intros [ph spawned open closed] Hph; cbn [foldl].
  { split_and!; [done..|]. cbn. by rewrite app_nil_r. }
  destruct ev as [| |type data|ok|ok|ok]; [..|done]; destruct ph; try done;
    cbn [on_event heard pl_phase pl_spawned pl_client_closed];
    try loop_continues IH.
  change (bool_decide (Listening = Listening)) with true. cbv iota.
  cbn [omap list_omap payload_of].
  destruct (bool_decide (type = "message")); cbn [andb negb]; [|loop_continues IH].
  destruct (decoded data) as [text|] eqn:Hd; cbn [mbind option_bind].
  - rewrite (bool_decide_eq_false_2 (Some text = None)) by done. cbn [negb].
    destruct (loads text) as [payload|]; [|loop_continues IH].
    destruct (IH (MkLoop Listening (spawned ++ [payload]) open closed)) as (H1 & H2 & H3); [done|].
    split_and!; [done..|]. rewrite H3. cbn [pl_spawned pl_phase].
    by rewrite (bool_decide_eq_true_2 (Listening = Listening)), <-app_assoc by done.
  - rewrite (bool_decide_eq_true_2 (None = None)) by done. cbn [negb].
    loop_continues IH.
Qed.

(** The subscriptions that a failing [finally] block left open. *)
Fixpoint unclosed (l : PubSubLoop) (evs : list PubSubEvent) : nat :=
  match evs with
  | [] => 0
  | ev :: evs =>
      match pl_phase l, ev with
      | Listening, (ListenFailed false | ListenEnded false) => S (unclosed (on_event ev l) evs)
      | _, _ => unclosed (on_event ev l) evs
      end
  end.
Definition current (l : PubSubLoop) : nat := if bool_decide (pl_phase l = Listening) then 1 else 0.
Lemma loop_open evs l n :
  uncancelled evs → pl_phase l ≠ Stopped → pl_open l = current l + n →
  let l' := foldl (λ l ev, on_event ev l) l evs in
  pl_open l' = current l' + (n + unclosed l evs).
Proof.
  intros Hun. revert l n. induction Hun as [|ev evs Hev _ IH]; intros l n Hph Ho; cbn [foldl unclosed].
  { cbn. lia. }
  assert (pl_phase (on_event ev l) ≠ Stopped) as Hph'.
  { destruct l as [ph ? ? ?], ev as [| |type data|ok|ok|ok], ph; try done. cbn.
    by repeat case_match. }
  assert (∀ k, pl_open (on_event ev l) = current (on_event ev l) + k →
    pl_open (foldl (λ l ev, on_event ev l) (on_event ev l) evs) =
    current (foldl (λ l ev, on_event ev l) (on_event ev l) evs) + (k + unclosed (on_event ev l) evs))
    as Hgo by (intros k; by apply IH).
  destruct l as [ph spawned open closed]. cbn [pl_phase pl_open] in *. unfold current in Ho. cbn in Ho.
  destruct ph, ev as [| |type data|[]|[]|ok]; try done; cbn [Nat.add];
    try (apply Hgo; subst open; by cbn).
  - apply Hgo. cbn. repeat case_match; subst open; by cbn.
  - rewrite <-Nat.add_succ_comm. apply Hgo. by subst open.
  - rewrite <-Nat.add_succ_comm. apply Hgo. by subst open.
Qed.

(** C30: the loop survives everything but its cancellation: whatever happens to
    the connection and whatever the messages hold, it keeps running, and the
    tasks it has spawned are exactly the well-formed messages that arrived
    while it was subscribed, each once and in order; malformed JSON costs
    nothing but itself. *)
Theorem pubsub_dispatches evs :
  uncancelled evs →
  pl_phase (listen_and_dispatch_message evs) ≠ Stopped ∧
  pl_spawned (listen_and_dispatch_message evs) = omap payload_of (heard false evs).
Proof.
  intros Hun. destruct (loop_run evs start_loop Hun) as (H1 & _ & H3); [done|]. by split.
Qed.

(** C31: a cancellation ends the loop for good, with the current subscription
    closed and the client closed exactly if asked for, when the loop was between
    connections or the [finally] block goes through; only what earlier [finally]
    blocks failed to close stays open. Otherwise the connection error takes the
    place of the cancellation, the subscription stays open, and the loop goes on:
    without another cancellation it never ends. *)
Theorem pubsub_cancellation evs ok :
  uncancelled evs →
  let l := listen_and_dispatch_message evs in
  let l' := listen_and_dispatch_message (evs ++ [TaskCancelled ok]) in
  pl_spawned l' = pl_spawned l ∧
  if bool_decide (pl_phase l = Connecting) || ok
  then pl_phase l' = Stopped ∧ pl_client_closed l' = close_client_on_exit ∧
    pl_open l' = unclosed start_loop evs ∧
    (∀ more, foldl (λ l ev, on_event ev l) l' more = l')
  else pl_phase l' = Connecting ∧ pl_client_closed l' = false ∧
    pl_open l' = S (unclosed start_loop evs) ∧
    (∀ more, uncancelled more → pl_phase (foldl (λ l ev, on_event ev l) l' more) ≠ Stopped).
Proof.
  intros Hun. destruct (loop_run evs start_loop Hun) as (Hrun & Hcl & _); [done|].
  pose proof (loop_open evs start_loop 0 Hun ltac:(done) eq_refl) as Hopen.
  cbv zeta in *. unfold listen_and_dispatch_message, current in *. rewrite foldl_app. cbn [foldl].
  destruct (foldl _ start_loop evs) as [[] spawned open closed]; cbn -[unclosed] in *; subst; [| |done].
  - rewrite bool_decide_eq_true_2 by done. cbn -[unclosed]. split_and!; try done.
    intros more. by induction more as [|[] more IH].
  - rewrite (bool_decide_eq_false_2 (Listening = Connecting)) by done. destruct ok; cbn -[unclosed]; split_and!; try done.
    + intros more. by induction more as [|[] more IH].
    + intros more Hmore. by apply (loop_run more).
Qed.
End loop.

(** ** [WebSocketManager.start_pubsub_listener]: whether the listener owns its
    client. An empty URL counts as none. *)
Definition close_client_of (redis_url : option string) : bool :=
  match redis_url with Some u => negb (bool_decide (u = EmptyString)) | None => false end.
Definition start_pubsub_listener (redis_url : option string) : list PubSubEvent → PubSubLoop :=
  listen_and_dispatch_message (close_client_of redis_url).

(** ** Runs *)
Definition sample_events : list PubSubEvent :=
  [SubscribeFailed; Subscribed; Message "subscribe" (RText "1"); Message "message" (RText "true");
   Message "message" (RText "{oops"); Message "message" (RBytes (Some "null"));
   ListenFailed true; Message "message" (RText "[]"); Subscribed].
Lemma pubsub_dispatches_witness :
  pl_spawned (start_pubsub_listener None sample_events) = [JBool true; JNull].
Proof.
  unfold start_pubsub_listener. change (close_client_of None) with false.
  rewrite (proj2 (pubsub_dispatches false sample_events ltac:(repeat constructor))).
  vm_compute. reflexivity.
Defined.
Lemma pubsub_cancellation_witness :
  let ended := start_pubsub_listener None (sample_events ++ [TaskCancelled true]) in
  let robbed := start_pubsub_listener None (sample_events ++ [TaskCancelled false]) in
  (pl_phase ended = Stopped ∧ pl_open ended = 0) ∧
  (pl_phase robbed = Connecting ∧ pl_open robbed = 1).
Proof.
  split.
  - destruct (pubsub_cancellation false sample_events true ltac:(repeat constructor))
      as (_ & Hs & _ & Ho & _).
    exact (conj Hs Ho).
  - destruct (pubsub_cancellation false sample_events false ltac:(repeat constructor))
      as (_ & Hs & _ & Ho & _).
    exact (conj Hs Ho).
Defined.
