(* ===== verification/Lifecycle.v ===== *)
(** * Start-up and shut-down (database/connection.py, redis/connection.py,
    utils/tasks.py, main.py)

    The two connection managers, the background tasks and [lifespan], over what
    the drivers answer. The schema set-up is that of [Ddl.v], the listeners those
    of [PubSub.v] and [StreamListener.v]. *)

From S2P Require Export World Ddl PubSub StreamListener Settings.

(** ** DatabaseManager *)
Module DatabaseManager.

Record t := Mk {
  dsn : string; min_size : Z; max_size : Z; timeout : Z; command_timeout : Z;
  pool : bool                              (* [_pool is not None] *)
}.
(** Times in seconds. *)
Definition init (dsn : string) (min_size max_size : Z) : t := Mk dsn min_size max_size 10 15 false.

(** What [asyncpg.create_pool] raises; what the caller of [connect] sees:
    tenacity's own exception when it gives up. *)
Inductive PoolError := OsError | OtherError (e : Exn).
Inductive ConnectError := PoolFailed (e : PoolError) | RetryError.

(** [stop_after_attempt(10)], [retry_if_exception_type(OSError)]: [create k] is
    the outcome of the [k]th call; the number of calls comes back too. *)
Definition MAX_ATTEMPTS : nat := 10.
Fixpoint attempts (create : nat → outcome PoolError unit) (rest k : nat)
    : outcome ConnectError unit * nat :=
  match rest with
  | 0 => (Raise RetryError, k)
  | S rest =>
      match create k with
      | Ok _ => (Ok tt, S k)
      | Raise OsError => attempts create rest (S k)
      | Raise e => (Raise (PoolFailed e), S k)
      end
  end.
Definition connect (create : nat → outcome PoolError unit) (m : t)
    : outcome ConnectError unit * t :=
  if pool m then (Ok tt, m)
  else match attempts create MAX_ATTEMPTS 0 with
       | (Ok _, _) => (Ok tt, Mk (dsn m) (min_size m) (max_size m) (timeout m) (command_timeout m) true)
       | (Raise e, _) => (Raise e, m)
       end.
(** [close] is the outcome of closing the pool. *)
Definition disconnect (close : outcome' unit) (m : t) : outcome' unit * t :=
  if pool m then
    match close with
    | Ok _ => (Ok tt, Mk (dsn m) (min_size m) (max_size m) (timeout m) (command_timeout m) false)
    | Raise e => (Raise e, m)
    end
  else (Ok tt, m).
Definition get_pool (m : t) : outcome' unit :=
  if pool m then Ok tt else Raise (ExDb ConnectionPoolNotInitializedError).

(** The [j]th call settles it: those before failed with an OSError. *)
Definition settled_at (create : nat → outcome PoolError unit) (j : nat) (r : outcome PoolError unit) : Prop :=
  create j = r ∧ r ≠ Raise OsError ∧ ∀ i, (i < j)%nat → create i = Raise OsError.

Lemma attempts_spec create rest k :
  (∀ i, (i < k)%nat → create i = Raise OsError) →
  let '(r, n) := attempts create rest k in
  (n ≤ k + rest)%nat ∧
  match r with
  | Ok _ => ∃ j, n = S j ∧ settled_at create j (Ok tt)
  | Raise (PoolFailed e) => ∃ j, n = S j ∧ settled_at create j (Raise e)
  | Raise RetryError => n = (k + rest)%nat ∧ ∀ i, (i < k + rest)%nat → create i = Raise OsError
  end.
Proof.
  revert k. induction rest as [|rest IH]; intros k Hbefore; cbn [attempts].
  { split; [lia|]. split; [lia|]. intros i Hi. apply Hbefore. lia. }
  destruct (create k) as [[]|[|e]] eqn:Hk.
  - split; [lia|]. exists k. by split.
  - replace (k + S rest)%nat with (S k + rest)%nat by lia. apply IH.
    intros i Hi. destruct (decide (i = k)) as [->|]; [done|]. apply Hbefore. lia.
  - split; [lia|]. exists k. by split.
Qed.

Lemma settled_once create i j r r' : settled_at create i r → settled_at create j r' → i = j ∧ r = r'.
Proof.
  intros (Hi & Hri & Hbi) (Hj & Hrj & Hbj). assert (i = j) as ->.
  { destruct (lt_eq_lt_dec i j) as [[Hlt|]|Hlt]; [|done|].
    - by rewrite (Hbj i Hlt) in Hi.
    - by rewrite (Hbi j Hlt) in Hj. }
  split; congruence.
Qed.

(** [connect] without a pool. *)
Lemma connect_spec create m :
  pool m = false →
  let '(r, m') := connect create m in
  pool m' = is_ok r ∧ command_timeout m' = command_timeout m ∧
  match r with
  | Ok _ => ∃ j, j < 10 ∧ settled_at create j (Ok tt)
  | Raise (PoolFailed e) => ∃ j, j < 10 ∧ settled_at create j (Raise e)
  | Raise RetryError => ∀ i, i < 10 → create i = Raise OsError
  end.
Proof.
  intros Hp. unfold connect, MAX_ATTEMPTS. rewrite Hp.
  pose proof (attempts_spec create 10 0) as Hspec.
  destruct (attempts create 10 0) as [[u|[e|]] n];
    destruct Hspec as [Hn Hr]; try lia; (split_and!; [done..|]).
  - destruct Hr as (j & -> & Hj). exists j. split; [lia|done].
  - destruct Hr as (j & -> & Hj). exists j. split; [lia|done].
  - destruct Hr as [_ Hall]. intros i Hi. apply Hall. lia.
Qed.
Lemma connect_ok_iff create m :
  pool m = false →
  (connect create m).1 = Ok tt ↔ ∃ j, j < 10 ∧ settled_at create j (Ok tt).
Proof.
  intros Hp. pose proof (connect_spec create m Hp) as Hspec.
  destruct (connect create m) as [[[]|[e|]] m']; destruct Hspec as (_ & _ & Hr); cbn; [done|..];
    (split; [done|]); intros (j & Hj & Hset).
  - destruct Hr as (j' & _ & Hset'). by destruct (settled_once _ _ _ _ _ Hset Hset').
  - destruct Hset as [Hok _]. by rewrite (Hr j Hj) in Hok.
Qed.
End DatabaseManager.

(** [connect] on a manager without a pool calls the driver at most ten times
    and ends as the first call that does not fail with an OSError does, in a
    RetryError if all ten fail so; there is a pool afterwards exactly when it
    succeeded. With a pool it does nothing. *)
Lemma connect_retries create m :
  let '(r, m') := DatabaseManager.connect create m in
  DatabaseManager.pool m' = is_ok r ∧
  if DatabaseManager.pool m then r = Ok tt ∧ m' = m
  else match r with
       | Ok _ => ∃ j, j < 10 ∧ DatabaseManager.settled_at create j (Ok tt)
       | Raise (DatabaseManager.PoolFailed e) =>
           ∃ j, j < 10 ∧ DatabaseManager.settled_at create j (Raise e)
       | Raise DatabaseManager.RetryError => ∀ i, i < 10 → create i = Raise DatabaseManager.OsError
       end.
Proof.
  destruct (DatabaseManager.pool m) eqn:Hp.
  - unfold DatabaseManager.connect. by rewrite Hp.
  - pose proof (DatabaseManager.connect_spec create m Hp) as Hspec.
    destruct (DatabaseManager.connect create m) as [r m']. by destruct Hspec as (? & _ & ?).
Qed.

(** ** RedisManager *)
Module RedisManager.

Record t := Mk {
  url : string; max_connections : Z; decode_responses : bool; timeout : Z; socket_timeout : Z;
  pool : bool;                             (* [_pool is not None] *)
  client : bool                            (* [_client is not None] *)
}.
Definition init (url : string) (max_connections : Z) : t := Mk url max_connections true 10 5 false false.
Definition with_connections (pool client : bool) (m : t) : t :=
  Mk (url m) (max_connections m) (decode_responses m) (timeout m) (socket_timeout m) pool client.

(** Under [handle_redis_errors]. The client is kept before the ping that is to
    validate it. *)
Definition connect (ping : outcome' unit) (m : t) : outcome' unit * t :=
  if client m then (Ok tt, m)
  else (translate_redis_error ping, with_connections true true m).
(** Exceptions are logged: [client_close] and [pool_close] are the outcomes of
    the two [aclose]s. *)
Definition disconnect (client_close pool_close : outcome' unit) (m : t) : t :=
  let after_client :=
    if client m then
      match client_close with Ok _ => Some (with_connections (pool m) false m) | Raise _ => None end
    else Some m in
  match after_client with
  | None => m
  | Some m1 =>
      if pool m1 then
        match pool_close with Ok _ => with_connections false (client m1) m1 | Raise _ => m1 end
      else m1
  end.
Definition get_client (m : t) : outcome' unit :=
  if client m then Ok tt else Raise (ExRedis RedisClientNotInitializedError).
Definition pubsub (m : t) : outcome' unit := get_client m.
End RedisManager.

(** A [RedisManager.connect] whose ping fails reports the failure, yet keeps
    the client: the next call takes the manager as connected and succeeds
    without asking the server, and [client] hands the client out. *)
Lemma failed_ping_counts_as_connected e ping2 m :
  RedisManager.client m = false →
  let '(r, m1) := RedisManager.connect (Raise e) m in
  is_ok r = false ∧ RedisManager.connect ping2 m1 = (Ok tt, m1) ∧
  RedisManager.get_client m1 = Ok tt.
Proof.
  intros Hm. unfold RedisManager.connect. rewrite Hm. split; [|done].
  by destruct e as [| | |[]| | | | | |].
Qed.

(** ** Background tasks (utils/tasks.py) *)
Module Tasks.
(** How a task ended. *)
Inductive Completion := Done | Failed (e : Exn) | CancelledTask.
(** [_background_tasks], and the number of completions logged as errors. *)
Record t := Mk { background : gset nat; logged : nat }.
Definition spawn (task : nat) (m : t) : t := Mk ({[task]} ∪ background m) (logged m).
Definition handle_completion (task : nat) (c : Completion) (m : t) : t :=
  Mk (background m ∖ {[task]}) (match c with Failed _ => S (logged m) | _ => logged m end).
(** [asyncio.wait(tasks, timeout)]: [finished] are those that end in time, each
    with its callback run; the others are cancelled. *)
Definition drain_background_tasks (finished : gmap nat Completion) (m : t) : list nat * t :=
  if bool_decide (background m = ∅) then ([], m)
  else
    let completed := filter (λ tc, tc.1 ∈ background m) (map_to_list finished) in
    let m1 := foldl (λ m tc, handle_completion tc.1 tc.2 m) m completed in
    (elements (background m1), m1).

Lemma background_completed (cs : list (nat * Completion)) m :
  background (foldl (λ m tc, handle_completion tc.1 tc.2 m) m cs) =
  background m ∖ list_to_set cs.*1.
Proof.
  revert m. induction cs as [|[k c] cs IH]; intros m; cbn; [set_solver|].
  rewrite IH. cbn. set_solver.
Qed.
(** Draining cancels exactly the tasks that did not finish in time. *)
Lemma drain_cancels finished m task :
  task ∈ (drain_background_tasks finished m).1 ↔
  task ∈ background m ∧ finished !! task = None.
Proof.
  unfold drain_background_tasks. case_bool_decide as Hb; cbn.
  { rewrite Hb. set_solver. }
  rewrite elem_of_elements, background_completed, elem_of_difference, elem_of_list_to_set.
  split.
  - intros [Hin Hno]. split; [done|]. apply eq_None_not_Some. intros [c Hc]. apply Hno.
    apply list_elem_of_fmap. exists (task, c). split; [done|].
    apply list_elem_of_filter. split; [done|]. by apply elem_of_map_to_list.
  - intros [Hin Hno]. split; [done|]. intros ([k c] & -> & Hf)%list_elem_of_fmap.
    apply list_elem_of_filter in Hf as [_ Hf]. apply elem_of_map_to_list in Hf. cbn in Hno. congruence.
Qed.
End Tasks.

(** ** lifespan *)

(** What the start-up meets: the driver's outcomes, in order of use. *)
Record Startup := MkStartup {
  su_create_pool : nat → outcome DatabaseManager.PoolError unit;
  su_acquire : option Exn;            (* the connection and its advisory lock *)
  su_catalog : Catalog;               (* the database's catalogue *)
  su_ddl : list Fate;                 (* what the statements of the set-up meet *)
  su_ping : outcome' unit;
}.
(** [app.state], the catalogue left, and the two listener tasks. *)
Record App := MkApp {
  app_db : DatabaseManager.t; app_redis : RedisManager.t; app_catalog : Catalog;
  app_attached : bool; app_pubsub : bool; app_stream : bool;
}.
Inductive StartError := DbUnavailable (e : DatabaseManager.ConnectError) | StartFailed (e : Exn).

(** [ensure_tables_exist], then [ensure_indexes_exist]. *)
Definition setup_schema (fs : list Fate) (c : Catalog) : option PgError * Catalog :=
  match exec_each fs EnsureTableExists.statements c with
  | (Some e, c1) => (Some e, c1)
  | (None, c1) =>
      exec_each (drop (length EnsureTableExists.statements) fs) EnsureIndexExists.statements c1
  end.

Section lifespan.
Context (settings : AppConfig) (dsn : string).

(** Up to the [yield]; an exception leaves what was opened open. *)
Definition startup (s : Startup) : outcome StartError unit * App :=
  let db0 := DatabaseManager.init dsn (min_pool_size (cfg_database settings))
               (max_pool_size (cfg_database settings)) in
  let redis0 := RedisManager.init (redis_url (cfg_redis settings)) (max_connections (cfg_redis settings)) in
  let app db redis c up := MkApp db redis c up up up in
  match DatabaseManager.connect (su_create_pool s) db0 with
  | (Raise e, db) => (Raise (DbUnavailable e), app db redis0 (su_catalog s) false)
  | (Ok _, db) =>
      match su_acquire s with
      | Some e => (Raise (StartFailed (driver_exn e)), app db redis0 (su_catalog s) false)
      | None =>
          match setup_schema (su_ddl s) (su_catalog s) with
          | (Some e, c) => (Raise (StartFailed (driver_exn (ExPg e))), app db redis0 c false)
          | (None, c) =>
              match RedisManager.connect (su_ping s) redis0 with
              | (Raise e, redis) => (Raise (StartFailed e), app db redis c false)
              | (Ok _, redis) => (Ok tt, app db redis c true)
              end
          end
      end
  end.

(** [await asyncio.gather(pubsub_task, stream_task)] after both were cancelled:
    it raises as soon as one of the tasks ends in its CancelledError, and waits
    for the Pub/Sub listener, which may go on ([PubSub.v]), when the stream
    listener returns. *)
Inductive Gathered := GatherCancelled | GatherHangs.
Definition pubsub_goes_on (l : PubSubLoop) (unsubscribed : bool) : bool :=
  negb (bool_decide (pl_phase (on_event false (TaskCancelled unsubscribed) l) = Stopped)).
Definition gather (l : PubSubLoop) (unsubscribed : bool) (stream : StreamAwait) : Gathered :=
  match pubsub_goes_on l unsubscribed, cancel_stream stream with
  | true, StreamReturns => GatherHangs
  | _, _ => GatherCancelled
  end.

(** After the [yield]: [None] when it never gets past the listeners. *)
Definition shutdown (l : PubSubLoop) (unsubscribed : bool) (stream : StreamAwait)
    (client_close pool_close : outcome' unit) (db_close : outcome' unit) (a : App)
    : option (outcome' unit * App) :=
  match gather l unsubscribed stream with
  | GatherHangs => None
  | GatherCancelled =>
      let redis := RedisManager.disconnect client_close pool_close (app_redis a) in
      let '(r, db) := DatabaseManager.disconnect db_close (app_db a) in
      Some (r, MkApp db redis (app_catalog a) (app_attached a) (pubsub_goes_on l unsubscribed) false)
  end.

Lemma setup_schema_spec fs c :
  part_of c schema → siblings_within schema fs →
  let '(r, c') := setup_schema fs c in
  r = head (omap ft_error (take (length all_statements) fs)) ∧ part_of c' schema ∧ part_of c c' ∧
  (r = None → c' = schema).
Proof.
  intros Hc Hfs. pose proof (setup_fated fs c Hc Hfs) as Hrun.
  unfold all_statements in Hrun. rewrite exec_each_app in Hrun. unfold setup_schema.
  by destruct (exec_each fs EnsureTableExists.statements c) as [[e|] c1].
Qed.

(** The statements of the set-up meet no error. *)
Definition setup_undisturbed (fs : list Fate) : Prop :=
  omap ft_error (take (length all_statements) fs) = [].

(** C33: start-up succeeds exactly when the pool, the connection, each of the
    twenty statements of the schema set-up and the Redis ping do: a database
    holding any part of the schema, and siblings that create the rest of it at
    the same time, are no obstacle unless a statement fails for it. The service
    then has its pool, the whole schema, a Redis client that answered and both
    listeners; otherwise it attaches nothing, starts no listener, and leaves a
    part of the schema from which the next start can go on. The driver's
    command timeout is 15 seconds whatever the settings say. *)
Theorem lifespan_startup (s : Startup) :
  part_of (su_catalog s) schema → siblings_within schema (su_ddl s) →
  let '(r, a) := startup s in
  (r = Ok tt ↔ (∃ j, j < 10 ∧ DatabaseManager.settled_at (su_create_pool s) j (Ok tt)) ∧
     su_acquire s = None ∧ setup_undisturbed (su_ddl s) ∧ su_ping s = Ok tt) ∧
  app_attached a = is_ok r ∧ app_pubsub a = is_ok r ∧ app_stream a = is_ok r ∧
  (r = Ok tt → DatabaseManager.get_pool (app_db a) = Ok tt ∧ app_catalog a = schema ∧
     RedisManager.get_client (app_redis a) = Ok tt) ∧
  part_of (app_catalog a) schema ∧
  DatabaseManager.command_timeout (app_db a) = 15%Z.
Proof.
  intros Hc Hfs. unfold startup, setup_undisturbed.
  pose proof (setup_schema_spec (su_ddl s) (su_catalog s) Hc Hfs) as Hsetup. clear Hfs.
  revert Hc Hsetup. generalize schema (omap ft_error (take (length all_statements) (su_ddl s))).
  intros full errors Hc Hsetup.
  set (db0 := DatabaseManager.init dsn _ _).
  pose proof (DatabaseManager.connect_spec (su_create_pool s) db0 eq_refl) as Hspec.
  pose proof (DatabaseManager.connect_ok_iff (su_create_pool s) db0 eq_refl) as Hiff.
  destruct (DatabaseManager.connect (su_create_pool s) db0) as [[[]|e] db];
    destruct Hspec as (Hpool & Htime & _); cbn in Hpool, Htime, Hiff.
  - assert (DatabaseManager.get_pool db = Ok tt) as Hget
      by (unfold DatabaseManager.get_pool; by rewrite Hpool).
    destruct (su_acquire s) as [e|] eqn:Hacq; [by split_and!; [split; [|intros (_ & ? & _)]|..]|].
    destruct (setup_schema (su_ddl s) (su_catalog s)) as [[e|] c];
      destruct Hsetup as (He & Hc' & _ & Hfull).
    { split_and!; try done. split; [done|]. intros (_ & _ & Hno & _). by rewrite Hno in He. }
    symmetry in He. apply head_None in He. rewrite Hfull in * by done.
    unfold RedisManager.connect. cbn [RedisManager.client RedisManager.init].
    destruct (su_ping s) as [[]|e] eqn:Hping; cbn [translate_redis_error].
    + split_and!; try done. split; [|done]. intros _. split_and!; [by apply Hiff|done..].
    + destruct e as [| | |[]| | | | | |]; cbn; split_and!; try done;
        (split; [done|by intros (_ & _ & _ & ?)]).
  - split_and!; try done. split; [done|]. intros (Hj & _). by apply Hiff in Hj.
Qed.
End lifespan.

Lemma redis_disconnect client_close pool_close m :
  RedisManager.client m = true → RedisManager.pool m = true →
  let m' := RedisManager.disconnect client_close pool_close m in
  (RedisManager.client m' = false ↔ client_close = Ok tt) ∧
  (RedisManager.pool m' = false ↔ client_close = Ok tt ∧ pool_close = Ok tt).
Proof.
  intros Hc Hp. unfold RedisManager.disconnect. rewrite Hc.
  destruct client_close as [[]|e]; cbn; rewrite ?Hc, ?Hp; [|by split; split; intros; destruct_and?].
  destruct pool_close as [[]|e]; cbn; [done|]. rewrite ?Hp. split; split; intros; by destruct_and?.
Qed.
Lemma db_disconnect close m :
  DatabaseManager.pool m = true →
  let '(r, m') := DatabaseManager.disconnect close m in
  r = close ∧ (DatabaseManager.pool m' = false ↔ close = Ok tt).
Proof.
  intros Hp. unfold DatabaseManager.disconnect. rewrite Hp. destruct close as [[]|e]; [done|].
  by rewrite Hp.
Qed.

(** C34: what becomes of a started service at shut-down. It hangs exactly when the
    Pub/Sub listener is subscribed and cannot unsubscribe while the stream
    listener is reading or handling an entry; when the latter is in its sleep
    after a failed read instead, the gathering ends at once, and a Pub/Sub
    listener that cannot unsubscribe is left running. When the shut-down returns,
    the stream listener has ended, the Redis client and pool are closed as far as
    their [aclose]s go through, and the database pool is closed or the error of
    its [close] is raised. *)
Theorem lifespan_shutdown l unsubscribed stream client_close pool_close db_close a :
  pl_phase l ≠ Stopped →
  RedisManager.client (app_redis a) = true → RedisManager.pool (app_redis a) = true →
  DatabaseManager.pool (app_db a) = true →
  let robbed := pl_phase l = Listening ∧ unsubscribed = false in
  match shutdown l unsubscribed stream client_close pool_close db_close a with
  | None => robbed ∧ (stream = Reading ∨ stream = Handling)
  | Some (r, a') =>
      (¬ robbed ∨ stream = Sleeping ∨ stream = NotStarted) ∧
      app_stream a' = false ∧ (app_pubsub a' = true ↔ robbed) ∧
      (RedisManager.client (app_redis a') = false ↔ client_close = Ok tt) ∧
      (RedisManager.pool (app_redis a') = false ↔ client_close = Ok tt ∧ pool_close = Ok tt) ∧
      r = db_close ∧ (DatabaseManager.pool (app_db a') = false ↔ db_close = Ok tt)
  end.
Proof.
  intros Hl Hc Hp Hdb robbed. unfold shutdown.
  destruct (redis_disconnect client_close pool_close _ Hc Hp) as [H1 H2].
  pose proof (db_disconnect db_close _ Hdb) as H3.
  destruct (DatabaseManager.disconnect db_close (app_db a)) as [r db]. destruct H3 as [H3 H4].
  assert (pubsub_goes_on l unsubscribed = true ↔ robbed) as Hon.
  { subst robbed. by destruct l as [[] ? ? ?], unsubscribed; cbn; split; intros; destruct_and?. }
  assert (¬ robbed ∨ pubsub_goes_on l unsubscribed = true) as Hor
    by (destruct (pubsub_goes_on l unsubscribed); [by right|left; by rewrite <-Hon]).
  clearbody robbed. unfold gather.
  destruct (pubsub_goes_on l unsubscribed), stream; cbn;
    first [by split; [apply Hon|auto] | by split_and!; [destruct Hor; auto|..]].
Qed.

(** ** Runs *)
Definition sample_startup : Startup :=
  MkStartup (λ k, if decide (k < 2) then Raise DatabaseManager.OsError else Ok tt) None empty_catalog
    [no_fate; MkFate schema None] (Ok tt).
Lemma lifespan_startup_witness :
  (startup default_AppConfig "postgresql://" sample_startup).1 = Ok tt ∧
  app_pubsub (startup default_AppConfig "postgresql://" sample_startup).2 = true.
Proof.
  assert (part_of (su_catalog sample_startup) schema) as Hc by (split; apply map_empty_subseteq).
  assert (siblings_within schema (su_ddl sample_startup)) as Hf.
  { constructor; [exact Hc|]. constructor; [|constructor]. split; reflexivity. }
  pose proof (lifespan_startup default_AppConfig "postgresql://" sample_startup Hc Hf) as Hl.
  assert ((startup default_AppConfig "postgresql://" sample_startup).1 = Ok tt) as Hok
    by (vm_compute; reflexivity).
  destruct (startup default_AppConfig "postgresql://" sample_startup) as [r a].
  cbn [fst snd] in *. subst r. split; [reflexivity|]. exact (proj1 (proj2 (proj2 Hl))).
Defined.
(** Two workers that start together: the CREATE of one meets the other's. *)
Lemma sibling_race_fails_start :
  let s := MkStartup (λ _, Ok tt) None empty_catalog
    [MkFate schema (Some (Pg_UniqueViolation "pg_type" "pg_type_typname_nsp_index"))] (Ok tt) in
  (startup default_AppConfig "postgresql://" s).1 = Raise (StartFailed (ExDb DatabaseError)).
Proof. vm_compute. reflexivity. Qed.
Lemma failed_ping_counts_as_connected_witness :
  (RedisManager.connect (Raise (ExRedisDriver Rx_ConnectionError)) (RedisManager.init "redis://" 100)).1 =
    Raise (ExRedis RedisConnectionError) ∧
  (RedisManager.connect (Raise (ExRedisDriver Rx_ConnectionError))
    (RedisManager.connect (Raise (ExRedisDriver Rx_ConnectionError))
      (RedisManager.init "redis://" 100)).2).1 = Ok tt.
Proof.
  split; [reflexivity|].
  pose proof (failed_ping_counts_as_connected (ExRedisDriver Rx_ConnectionError)
    (Raise (ExRedisDriver Rx_ConnectionError)) (RedisManager.init "redis://" 100) eq_refl) as H.
  exact (f_equal fst (proj1 (proj2 H))).
Defined.
Lemma lifespan_shutdown_witness :
  let a := (startup default_AppConfig "postgresql://" sample_startup).2 in
  let l := start_pubsub_listener None [Subscribed] in
  shutdown l false Reading (Ok tt) (Ok tt) (Ok tt) a = None ∧
  option_map (λ ra : outcome' unit * App, app_pubsub ra.2)
    (shutdown l false Sleeping (Ok tt) (Ok tt) (Ok tt) a) = Some true ∧
  option_map (λ ra : outcome' unit * App, app_pubsub ra.2)
    (shutdown l true Reading (Ok tt) (Ok tt) (Ok tt) a) = Some false.
Proof.
  intros a l. split; [vm_compute; reflexivity|]. split; [vm_compute; reflexivity|].
  pose proof (lifespan_shutdown l true Reading (Ok tt) (Ok tt) (Ok tt) a ltac:(discriminate)
    ltac:(vm_compute; reflexivity) ltac:(vm_compute; reflexivity) ltac:(vm_compute; reflexivity)) as H.
  destruct (shutdown l true Reading (Ok tt) (Ok tt) (Ok tt) a) as [[r a']|]; cbn.
  - destruct H as (_ & _ & Hp & _). destruct (app_pubsub a'); [|reflexivity].
    destruct (proj1 Hp eq_refl) as [_ Hd]. discriminate Hd.
  - destruct H as [[_ Hd] _]. discriminate Hd.
Defined.
