(* ===== verification/RequestLog.v ===== *)
(** * Request identifiers in the log (config/logging.py, main.py)

    The context variable of the request identifier, the filter and formatters
    that put it into log records, and the middleware that sets it around each
    request. The line itself is the logging library's. *)

From S2P Require Export Api.

(** ** Log records *)

(** The attributes the program reads or sets; [None] for an attribute that is
    not there. *)
Record LogRecord := MkLogRecord {
  levelname : string; logger_name : string; lr_message : string;
  req_tag : option string;
  lr_request_id : option (option string);
  exc_text : option string;             (* [exc_info], formatted *)
}.

(** [if req_id and req_id != "system"] *)
Definition active (req_id : option string) : option string :=
  match req_id with
  | Some i => if bool_decide (i = EmptyString) || bool_decide (i = "system") then None else Some i
  | None => None
  end.

(** [LogContextFilter.filter] *)
Definition context_filter (request_id_var : option string) (r : LogRecord) : LogRecord :=
  let tagged tag id := MkLogRecord (levelname r) (logger_name r) (lr_message r) (Some tag) (Some id) (exc_text r) in
  match active request_id_var with
  | Some i => tagged (" [req:" +:+ i +:+ "]") (Some i)
  | None => tagged EmptyString None
  end.

(** [SafeStandardFormatter.format]: the record the base class formats. *)
Definition safe_standard (r : LogRecord) : LogRecord :=
  MkLogRecord (levelname r) (logger_name r) (lr_message r)
    (Some (default EmptyString (req_tag r))) (lr_request_id r) (exc_text r).

(** [JSONFormatter.format]: the dictionary it dumps; [record.process] is the
    process number [pid]. *)
Definition json_data (pid : Z) (timestamp : string) (request_id_var : option string) (r : LogRecord)
    : list (string * json) :=
  let attribute := match lr_request_id r with Some (Some i) => Some i | _ => None end in
  let req_id := match attribute with
                | Some i => if bool_decide (i = EmptyString) then request_id_var else Some i
                | None => request_id_var end in
  [("timestamp", JStr timestamp); ("level", JStr (levelname r)); ("pid", JInt pid);
   ("logger", JStr (logger_name r)); ("message", JStr (lr_message r))] ++
  (match active req_id with Some i => [("request_id", JStr i)] | None => [] end) ++
  (match exc_text r with Some e => [("exception", JStr e)] | None => [] end).

(** ** The middleware *)
Section middleware.
Context {Resp Err W : Type}.

(** The context variable, the records logged, and the rest of the worker. *)
Record Ctx := MkCtx { request_id_var : option string; log : list LogRecord; worker : W }.
Definition set_request_id (i : option string) (c : Ctx) : Ctx := MkCtx i (log c) (worker c).
(** [logger.info(...)] through the handler's context filter. *)
Definition log_info (line : string) (c : Ctx) : Ctx :=
  MkCtx (request_id_var c)
    (log c ++ [context_filter (request_id_var c) (MkLogRecord "INFO" "src.main" line None None None)])
    (worker c).

(** [request.headers.get("X-Request-ID") or str(uuid_v4())[:8]] *)
Definition request_id (header : option string) (fresh : UUID) : string :=
  match header with
  | Some h => if bool_decide (h = EmptyString) then String.substring 0 8 (str_uuid fresh) else h
  | None => String.substring 0 8 (str_uuid fresh)
  end.

(** The response comes back with its [X-Request-ID] header; [line] is the text
    of the access log. *)
Definition logging_middleware (header : option string) (fresh : UUID) (line : Resp → string)
    (call_next : Ctx → outcome Err Resp * Ctx) (c : Ctx) : outcome Err (Resp * string) * Ctx :=
  let req_id := request_id header fresh in
  let token := request_id_var c in
  match call_next (set_request_id (Some req_id) c) with
  | (Ok response, c1) => (Ok (response, req_id), set_request_id token (log_info (line response) c1))
  | (Raise e, c1) => (Raise e, set_request_id token c1)
  end.

Lemma request_id_nonempty header fresh : request_id header fresh ≠ EmptyString.
Proof.
  assert (String.substring 0 8 (str_uuid fresh) ≠ EmptyString) as Hf.
  { pose proof (TokenCache.str_uuid_nonempty fresh) as Hne. by destruct (str_uuid fresh). }
  unfold request_id. destruct header as [h|]; [|done]. by case_bool_decide.
Qed.

(** The identifier of a request is the client's, or eight characters of a
    fresh UUID; it is in force while the request is processed and the context is
    as before afterwards, however the request ends. A response carries it, and
    its line in the access log is tagged with it unless it is ["system"]. *)
Lemma middleware_correlates header fresh line call_next c :
  let i := request_id header fresh in
  i ≠ EmptyString ∧ (∀ h, header = Some h → h ≠ EmptyString → i = h) ∧
  let '(r, c') := logging_middleware header fresh line call_next c in
  request_id_var c' = request_id_var c ∧
  let '(r1, c1) := call_next (set_request_id (Some i) c) in
  match r1 with
  | Ok response =>
      r = Ok (response, i) ∧
      (request_id_var c1 = Some i → i ≠ "system" →
       log c' = log c1 ++ [MkLogRecord "INFO" "src.main" (line response)
                             (Some (" [req:" +:+ i +:+ "]")) (Some (Some i)) None])
  | Raise e => r = Raise e ∧ log c' = log c1
  end.
Proof.
  intros i. split; [apply request_id_nonempty|]. split.
  { intros h -> Hh. unfold i, request_id. by rewrite bool_decide_eq_false_2. }
  unfold logging_middleware. fold i.
  destruct (call_next (set_request_id (Some i) c)) as [[response|e] c1]; [|by split_and!].
  split_and!; [done|done|]. intros Hv Hs. cbn. rewrite Hv. unfold context_filter, active.
  rewrite bool_decide_eq_false_2 by apply request_id_nonempty.
  by rewrite bool_decide_eq_false_2.
Qed.
End middleware.
