(* ===== verification/Logging.v ===== *)
(** * The logging set-up (config/logging.py)

    [get_logging_config] as data, what the standard library's dictConfig makes
    of it, and how a record logged anywhere in the program becomes a line on the
    standard output: level thresholds, the walk from a logger to its ancestors,
    the context filter and the two formatters. *)

From S2P Require Export RequestLog Settings JsonProofs.
From Stdlib Require Import Ascii.

(** ** The configuration *)
Inductive FormatterCfg := SafeStandardFormatter (format datefmt : string) | JSONFormatter.
Inductive FilterCfg := LogContextFilter.
Record HandlerCfg := MkHandlerCfg { hc_formatter : string; hc_filters : list string }.
Record LoggerCfg := MkLoggerCfg { lc_level : string; lc_handlers : list string; lc_propagate : bool }.
(** The handlers are StreamHandlers on the standard output. *)
Record LogConfig := MkLogConfig {
  lg_filters : list (string * FilterCfg); lg_formatters : list (string * FormatterCfg);
  lg_handlers : list (string * HandlerCfg);
  lg_root : LoggerCfg; lg_loggers : list (string * LoggerCfg);
}.

(** [str.upper]; of the Latin-1 letters without an upper-case one, the sharp s
    becomes two letters and the other two leave the range of the model. *)
Definition upper_ascii (c : ascii) : chars :=
  let n := N_of_ascii c in
  if ((97 <=? n) && (n <=? 122) || (224 <=? n) && (n <=? 254) && negb (n =? 247))%N
  then [ascii_of_N (n - 32)]
  else if (n =? 223)%N then ["S"%char; "S"%char] else [c].
Definition str_upper (s : string) : string := of_chars (mjoin (upper_ascii <$> to_chars s)).

(** [getattr(settings.logging, k, default)]: pydantic keeps the declared fields
    only. *)
Definition getattr_logging (c : LoggingConfig) (k : string) : option string :=
  if bool_decide (k = "level") then Some (level c) else None.
Definition use_json (c : LoggingConfig) : bool :=
  match getattr_logging c "json_format" with
  | Some v => negb (bool_decide (v = EmptyString)) | None => false end.

Definition line_format : string :=
  "%(asctime)s [%(levelname)s] [pid:%(process)d] [%(name)s]%(req_tag)s %(message)s".
Definition date_format : string := "%Y-%m-%d %H:%M:%S".
Definition get_logging_config (settings : AppConfig) : LogConfig :=
  let lvl := str_upper (level (cfg_logging settings)) in
  MkLogConfig
    [("context", LogContextFilter)]
    [("standard", SafeStandardFormatter line_format date_format); ("json", JSONFormatter)]
    [("console", MkHandlerCfg (if use_json (cfg_logging settings) then "json" else "standard") ["context"])]
    (MkLoggerCfg lvl ["console"] false)
    [("uvicorn.access", MkLoggerCfg "WARNING" ["console"] false);
     ("uvicorn.error", MkLoggerCfg lvl ["console"] false)].

(** ** dictConfig *)
Definition level_number (name : string) : option Z :=
  assoc name [("CRITICAL", 50); ("FATAL", 50); ("ERROR", 40); ("WARN", 30); ("WARNING", 30);
              ("INFO", 20); ("DEBUG", 10); ("NOTSET", 0)]%Z.

Record Handler := MkHandler { h_formatter : FormatterCfg; h_filters : list FilterCfg }.
Record Logger := MkLogger { l_level : Z; l_handlers : list Handler; l_propagate : bool }.
(** The loggers that were configured, and the root. *)
Record Logging := MkLogging { l_named : list (string * Logger); l_root : Logger }.

(** Names that are not defined, and levels that are none, are a ValueError. *)
Definition make_handler (cfg : LogConfig) (h : HandlerCfg) : option Handler :=
  f ← assoc (hc_formatter h) (lg_formatters cfg);
  fs ← mapM (λ n, assoc n (lg_filters cfg)) (hc_filters h);
  Some (MkHandler f fs).
Definition make_logger (handlers : list (string * Handler)) (l : LoggerCfg) : option Logger :=
  n ← level_number (lc_level l);
  hs ← mapM (λ n, assoc n handlers) (lc_handlers l);
  Some (MkLogger n hs (lc_propagate l)).
Definition with_name {A B} (f : A → option B) (x : string * A) : option (string * B) :=
  pair x.1 <$> f x.2.
Definition dict_config (cfg : LogConfig) : option Logging :=
  handlers ← mapM (with_name (make_handler cfg)) (lg_handlers cfg);
  named ← mapM (with_name (make_logger handlers)) (lg_loggers cfg);
  root ← make_logger handlers (lg_root cfg);
  Some (MkLogging named root).
(** [setup_logging]: [None] is the ValueError that stops the import of main. *)
Definition setup_logging (settings : AppConfig) : option Logging :=
  dict_config (get_logging_config settings).

(** ** From a record to lines *)

(** The logger's name and the dotted prefixes above it, nearest first. *)
Fixpoint dotted (pre l : chars) : list string :=
  match l with
  | [] => [of_chars pre]
  | c :: r => dotted (pre ++ [c]) r ++ (if bool_decide (c = "."%char) then [of_chars pre] else [])
  end.
Definition ancestors (name : string) : list string := dotted [] (to_chars name).
(** The configured loggers on the way up; the root comes last. *)
Definition chain (st : Logging) (name : string) : list Logger :=
  omap (λ n, assoc n (l_named st)) (ancestors name) ++ [l_root st].
(** [getEffectiveLevel]: the first level that is set. *)
Definition effective_level (ls : list Logger) : Z :=
  default 0%Z (first_some (λ l, if bool_decide (l_level l = 0%Z) then None else Some (l_level l)) ls).
(** [callHandlers]: up to the first logger that does not propagate. *)
Fixpoint reached (ls : list Logger) : list Handler :=
  match ls with
  | [] => []
  | l :: ls => l_handlers l ++ (if l_propagate l then reached ls else [])
  end.

(** %-formatting with a dictionary of texts: a directive is %(key)s or %(key)d,
    or a doubled percent sign; [None] for anything else. *)
Inductive FmtState := Text | Percent | Key (k : chars) | Conv (k : string).
Fixpoint percent_format (env : string → option string) (st : FmtState) (l : chars) : option chars :=
  match l, st with
  | [], Text => Some []
  | [], _ => None
  | c :: l, Text =>
      if bool_decide (c = "%"%char) then percent_format env Percent l
      else cons c <$> percent_format env Text l
  | c :: l, Percent =>
      if bool_decide (c = "("%char) then percent_format env (Key []) l
      else if bool_decide (c = "%"%char) then cons c <$> percent_format env Text l else None
  | c :: l, Key k =>
      if bool_decide (c = ")"%char) then percent_format env (Conv (of_chars k)) l
      else percent_format env (Key (k ++ [c])) l
  | c :: l, Conv k =>
      v ← env k;
      if bool_decide (c = "s"%char) || bool_decide (c = "d"%char)
      then app (to_chars v) <$> percent_format env Text l else None
  end.

Section emission.
(** The process number, and [formatTime] at the time of the record. *)
Context (pid : Z) (asctime : string → string).

Definition record_env (datefmt : string) (r : LogRecord) (k : string) : option string :=
  match assoc k [("asctime", Some (asctime datefmt)); ("levelname", Some (levelname r));
                 ("process", Some (of_chars (dec_Z pid))); ("name", Some (logger_name r));
                 ("req_tag", req_tag r); ("message", Some (lr_message r))] with
  | Some v => v | None => None end.
(** A traceback goes on lines of its own. *)
Definition with_traceback (s : string) (r : LogRecord) : string :=
  match exc_text r with
  | None => s
  | Some EmptyString => s
  | Some e => s +:+ (if bool_decide (last (to_chars s) = Some (ascii_of_N 10)) then EmptyString
                     else of_chars [ascii_of_N 10]) +:+ e
  end.
Definition render (f : FormatterCfg) (request_id_var : option string) (r : LogRecord) : option string :=
  match f with
  | SafeStandardFormatter fmt datefmt =>
      let r := safe_standard r in
      (λ l, with_traceback (of_chars l) r) <$> percent_format (record_env datefmt r) Text (to_chars fmt)
  | JSONFormatter => Some (dumps (JObj (json_data pid (asctime date_format) request_id_var r)))
  end.
Definition apply_filter (request_id_var : option string) (r : LogRecord) (f : FilterCfg) : LogRecord :=
  match f with LogContextFilter => context_filter request_id_var r end.
(** What the program writes for a record, line by line; a formatter that fails
    writes nothing there. *)
Definition emit (st : Logging) (request_id_var : option string) (r : LogRecord) : list string :=
  match level_number (levelname r) with
  | None => []
  | Some n =>
      let ls := chain st (logger_name r) in
      if (effective_level ls <=? n)%Z
      then omap (λ h, render (h_formatter h) request_id_var
                        (foldl (apply_filter request_id_var) r (h_filters h))) (reached ls)
      else []
  end.
End emission.

(** ** What the set-up makes *)
Definition console : Handler := MkHandler (SafeStandardFormatter line_format date_format) [LogContextFilter].
Definition to_console (n : Z) : Logger := MkLogger n [console] false.

Lemma setup_eq settings :
  setup_logging settings =
  (n ← level_number (str_upper (level (cfg_logging settings)));
   Some (MkLogging [("uvicorn.access", to_console 30); ("uvicorn.error", to_console n)] (to_console n))).
Proof.
  unfold setup_logging, dict_config, get_logging_config.
  destruct (cfg_logging settings) as [lvl]. cbn [level]. generalize (str_upper lvl). intros l.
  cbn -[level_number]. unfold make_logger. cbn -[level_number].
  change (level_number "WARNING") with (Some 30%Z). by destruct (level_number l).
Qed.

Lemma dotted_prefix pre l x : x ∈ dotted pre l → to_chars x `prefix_of` pre ++ l.
Proof.
  revert pre. induction l as [|c l IH]; intros pre; cbn [dotted].
  - intros ->%list_elem_of_singleton. rewrite to_of_chars. by rewrite app_nil_r.
  - intros [Hx|Hx]%elem_of_app.
    + apply IH in Hx. by rewrite <-app_assoc in Hx.
    + case_bool_decide; [|by apply elem_of_nil in Hx]. apply list_elem_of_singleton in Hx as ->.
      rewrite to_of_chars. by apply prefix_app_r.
Qed.
(** A logger is not below both configured ones. *)
Lemma one_family name : "uvicorn.access" ∈ ancestors name → "uvicorn.error" ∈ ancestors name → False.
Proof.
  intros Ha%dotted_prefix He%dotted_prefix.
  destruct (prefix_weak_total _ _ _ Ha He) as [Hp|Hp]; revert Hp;
    apply (bool_decide_eq_false (prefix _ _)); by vm_compute.
Qed.

Section console.
Context (n : Z).
Notation st := (MkLogging [("uvicorn.access", to_console 30); ("uvicorn.error", to_console n)] (to_console n)).

(** The level a logger takes effect from. *)
Definition threshold (name : string) : Z :=
  if bool_decide ("uvicorn.access" ∈ ancestors name) then 30 else n.

Lemma configured (l : list string) :
  ∀ x, x ∈ omap (λ m, assoc m (l_named st)) l →
    (x = to_console 30 ∧ "uvicorn.access" ∈ l) ∨ (x = to_console n ∧ "uvicorn.error" ∈ l).
Proof.
  intros x (m & Hm & Hx)%list_elem_of_omap. revert Hx. cbn [l_named]. unfold assoc. cbn [first_some fst snd].
  case_bool_decide as Ha; [intros [= <-]; left; by subst|].
  case_bool_decide as He; [intros [= <-]; right; by subst|done].
Qed.
Lemma configured_access (l : list string) :
  "uvicorn.access" ∈ l → to_console 30 ∈ omap (λ m, assoc m (l_named st)) l.
Proof. intros Hl. apply list_elem_of_omap. by exists "uvicorn.access". Qed.

Lemma chain_reached name : reached (chain st name) = [console].
Proof.
  unfold chain. pose proof (configured (ancestors name)) as Hc.
  destruct (omap _ _) as [|x l]; [done|].
  destruct (Hc x ltac:(by left)) as [[-> _]|[-> _]]; done.
Qed.
Lemma chain_level name : effective_level (chain st name) = threshold name.
Proof.
  unfold chain, threshold, effective_level. pose proof (configured (ancestors name)) as Hc.
  case_bool_decide as Ha.
  - pose proof (configured_access _ Ha) as Hin.
    destruct (omap _ _) as [|x l]; [by apply elem_of_nil in Hin|].
    destruct (Hc x ltac:(by left)) as [[-> _]|[_ He]]; [done|]. by destruct (one_family name).
  - assert (∀ l, (∀ x, x ∈ l → x = to_console n) →
      default 0%Z (first_some (λ l, if bool_decide (l_level l = 0%Z) then None else Some (l_level l))
        (l ++ [to_console n])) = n) as Hall.
    { intros l Hl. induction l as [|x l IH]; cbn.
      - case_bool_decide; cbn; congruence.
      - rewrite (Hl x) by (by left). cbn. case_bool_decide; [|done]. apply IH. intros y Hy. apply Hl. by right. }
    apply Hall. intros x Hx. by destruct (Hc x Hx) as [[_ ?]|[? _]].
Qed.
End console.

(** ** Lines *)
Lemma of_chars_app l l' : of_chars (l ++ l') = of_chars l +:+ of_chars l'.
Proof. induction l as [|c l IH]; [done|]. exact (f_equal (String c) IH). Qed.
Lemma to_chars_app s s' : to_chars (s +:+ s') = to_chars s ++ to_chars s'.
Proof. induction s as [|c s IH]; [done|]. exact (f_equal (cons c) IH). Qed.

Lemma string_app_assoc s1 s2 s3 : (s1 +:+ s2) +:+ s3 = s1 +:+ (s2 +:+ s3).
Proof. induction s1 as [|c s IH]; [done|]. exact (f_equal (String c) IH). Qed.
Lemma string_app_nil s : s +:+ EmptyString = s.
Proof. induction s as [|c s IH]; [done|]. exact (f_equal (String c) IH). Qed.
(** A format string in pieces: literal text, and directives. *)
Inductive Piece := Lit (l : string) | Dir (k : string) (c : ascii).
Definition piece_text (p : Piece) : chars :=
  match p with
  | Lit l => to_chars l
  | Dir k c => "%"%char :: "("%char :: to_chars k ++ [")"%char; c]
  end.
Definition piece_ok (p : Piece) : bool :=
  match p with
  | Lit l => bool_decide ("%"%char ∉ to_chars l)
  | Dir k c => bool_decide (")"%char ∉ to_chars k) && (bool_decide (c = "s"%char) || bool_decide (c = "d"%char))
  end.
Definition piece_value (env : string → option string) (p : Piece) : option string :=
  match p with Lit l => Some l | Dir k _ => env k end.

Lemma percent_literal env l k :
  "%"%char ∉ l → percent_format env Text (l ++ k) = app l <$> percent_format env Text k.
Proof.
  induction l as [|c l IH]; intros Hl; [cbn [app]; by destruct (percent_format env Text k)|].
  apply not_elem_of_cons in Hl as [Hc Hl]. cbn [app percent_format].
  rewrite bool_decide_eq_false_2 by congruence. rewrite IH by done. by destruct (percent_format env Text k).
Qed.
Lemma percent_key env acc key c k :
  ")"%char ∉ key →
  percent_format env (Key acc) (key ++ ")"%char :: c :: k) =
  percent_format env (Conv (of_chars (acc ++ key))) (c :: k).
Proof.
  revert acc. induction key as [|d key IH]; intros acc Hk.
  - cbn [app percent_format]. rewrite bool_decide_eq_true_2 by done. by rewrite app_nil_r.
  - apply not_elem_of_cons in Hk as [Hd Hk]. cbn [app percent_format].
    rewrite bool_decide_eq_false_2 by congruence. rewrite IH by done. by rewrite <-app_assoc.
Qed.
Lemma percent_pieces env ps :
  Forall (λ p, piece_ok p = true) ps →
  of_chars <$> percent_format env Text (mjoin (piece_text <$> ps)) =
  foldr (λ p acc, v ← piece_value env p; rest ← acc; Some (v +:+ rest)) (Some EmptyString) ps.
Proof.
  induction 1 as [|p ps Hp _ IH]; [done|]. cbn [fmap list_fmap mjoin list_join foldr].
  change (mjoin (piece_text p :: (piece_text <$> ps))) with (piece_text p ++ mjoin (piece_text <$> ps)).
  rewrite <-IH. destruct p as [l|k c]; cbn [piece_text piece_ok piece_value] in *.
  - apply bool_decide_eq_true in Hp. rewrite percent_literal by done.
    destruct (percent_format env Text _); cbn; [|done]. by rewrite of_chars_app, of_to_chars.
  - apply andb_prop in Hp as [Hk%bool_decide_eq_true Hc]. rewrite <-!app_comm_cons, <-app_assoc.
    cbn [percent_format]. rewrite (bool_decide_eq_true_2 ("%"%char = "%"%char)) by done.
    cbn [percent_format]. rewrite (bool_decide_eq_true_2 ("("%char = "("%char)) by done.
    cbn [app]. rewrite percent_key by done. cbn [app percent_format]. rewrite of_to_chars.
    destruct (env k) as [v|]; cbn; [|done]. rewrite Hc.
    destruct (percent_format env Text _); cbn; [|done]. by rewrite of_chars_app, of_to_chars.
Qed.
Definition line_pieces : list Piece :=
  [Dir "asctime" "s"; Lit " ["; Dir "levelname" "s"; Lit "] [pid:"; Dir "process" "d"; Lit "] [";
   Dir "name" "s"; Lit "]"; Dir "req_tag" "s"; Lit " "; Dir "message" "s"].

Definition tag_of (request_id_var : option string) : string :=
  match active request_id_var with Some i => " [req:" +:+ i +:+ "]" | None => EmptyString end.
Definition standard_line (pid : Z) (time : string) (request_id_var : option string) (r : LogRecord) : string :=
  time +:+ " [" +:+ levelname r +:+ "] [pid:" +:+ of_chars (dec_Z pid) +:+ "] [" +:+ logger_name r +:+
  "]" +:+ tag_of request_id_var +:+ " " +:+ lr_message r.

Lemma render_standard pid asctime v r :
  render pid asctime (SafeStandardFormatter line_format date_format) v (context_filter v r) =
  Some (with_traceback (standard_line pid (asctime date_format) v r) r).
Proof.
  unfold render. pose proof (percent_pieces (record_env pid asctime date_format
    (safe_standard (context_filter v r))) line_pieces ltac:(by repeat constructor)) as Hp.
  change (mjoin (piece_text <$> line_pieces)) with (to_chars line_format) in Hp.
  destruct (percent_format _ _ _) as [l|]; [|discriminate Hp].
  cbn [fmap option_fmap option_map]. injection Hp as Hp. f_equal.
  assert (of_chars l = standard_line pid (asctime date_format) v r) as ->.
  { rewrite Hp. unfold standard_line, tag_of, context_filter.
    destruct (active v); cbn; by rewrite string_app_nil. }
  unfold with_traceback, context_filter. by destruct (active v).
Qed.

(** C35: how the program logs. The set-up fails, and with it the import of the
    application, exactly for a level that is none, in any case. Otherwise a
    record of any logger at or above the threshold (WARNING under
    uvicorn.access, the configured level elsewhere) is written to the standard
    output exactly once, as one line with time, level, process, logger, the
    identifier of the active request and the message, followed by its traceback;
    one below the threshold is not written at all. *)
Theorem logging_writes settings :
  (is_Some (setup_logging settings) ↔
   is_Some (level_number (str_upper (level (cfg_logging settings))))) ∧
  ∀ st n pid asctime request_id_var r m,
    setup_logging settings = Some st →
    level_number (str_upper (level (cfg_logging settings))) = Some n →
    level_number (levelname r) = Some m →
    emit pid asctime st request_id_var r =
    if (threshold n (logger_name r) <=? m)%Z
    then [with_traceback (standard_line pid (asctime date_format) request_id_var r) r] else [].
Proof.
  rewrite setup_eq. split.
  - destruct (level_number _) as [n|]; cbn; (split; [|]); first [intros _; by eexists|by intros [? ?]].
  - intros st n pid asctime v r m Hst Hn Hm. rewrite Hn in Hst. injection Hst as <-.
    unfold emit. rewrite Hm, chain_level, chain_reached. destruct (_ <=? m)%Z; [|done].
    cbn [omap list_omap foldl console h_formatter h_filters apply_filter].
    by rewrite render_standard.
Qed.

(** The JSON formatter is never used: the settings have no such field. *)
Lemma json_format_unreachable settings st name :
  setup_logging settings = Some st →
  Forall (λ h, h_formatter h ≠ JSONFormatter) (reached (chain st name)).
Proof.
  rewrite setup_eq. destruct (level_number _) as [n|]; [|done]. intros [= <-].
  rewrite chain_reached. by repeat constructor.
Qed.
(** What it would write can be read back. *)
Lemma json_line_reads_back pid asctime v r :
  (λ s, loads s) <$> render pid asctime JSONFormatter v r =
  Some (Some (JObj (json_data pid (asctime date_format) v r))).
Proof.
  cbn [render fmap option_fmap option_map]. do 2 f_equal. apply loads_dumps. constructor.
  - unfold json_data. rewrite !fmap_app.
    destruct (active _), (exc_text r); apply (bool_decide_unpack _); by vm_compute.
  - unfold json_data. repeat (apply Forall_app; split); [repeat constructor|..];
      case_match; repeat constructor.
Qed.

(** On the default settings, where the level is DEBUG. *)
Definition sample_record (name lvl : string) : LogRecord := MkLogRecord lvl name "hello" None None None.
Lemma logging_writes_witness :
  ∃ st, setup_logging default_AppConfig = Some st ∧
    emit 7 (λ _, "NOW") st (Some "r1") (sample_record "src.main" "INFO") =
      ["NOW [INFO] [pid:7] [src.main] [req:r1] hello"] ∧
    emit 7 (λ _, "NOW") st (Some "r1") (sample_record "uvicorn.access" "INFO") = [].
Proof.
  destruct (logging_writes default_AppConfig) as [[_ Hsetup] Hemit].
  destruct Hsetup as [st Hst]; [by eexists|]. exists st. split; [exact Hst|]. split.
  - by rewrite (Hemit st 10%Z 7%Z _ (Some "r1") (sample_record "src.main" "INFO") 20%Z Hst eq_refl eq_refl).
  - by rewrite (Hemit st 10%Z 7%Z _ (Some "r1") (sample_record "uvicorn.access" "INFO") 20%Z Hst eq_refl eq_refl).
Defined.

(** ** The line of the start-up (main.py): the settings as Python prints them *)
Section startup_line.
Context (repr_float : timestamp → string).

Definition quote_of (s : string) : ascii :=
  if bool_decide (ascii_of_N 39 ∈ to_chars s) && negb (bool_decide (ascii_of_N 34 ∈ to_chars s))
  then ascii_of_N 34 else ascii_of_N 39.
Definition repr_char (q c : ascii) : chars :=
  let n := N_of_ascii c in
  if bool_decide (c = q) || (n =? 92)%N then [ascii_of_N 92; c]
  else if (n =? 9)%N then [ascii_of_N 92; "t"%char]
  else if (n =? 10)%N then [ascii_of_N 92; "n"%char]
  else if (n =? 13)%N then [ascii_of_N 92; "r"%char]
  else if ((32 <=? n) && (n <=? 126) || (161 <=? n) && negb (n =? 173))%N then [c]
  else ascii_of_N 92 :: "x"%char :: map hex_digit (nibbles 2 n).
(** [repr] of a str, an int, and a dict of such. *)
Definition repr_str (s : string) : string :=
  let q := quote_of s in of_chars (q :: mjoin (repr_char q <$> to_chars s) ++ [q]).
Definition repr_int (z : Z) : string := of_chars (dec_Z z).
Definition repr_dict (items : list (string * string)) : string :=
  "{" +:+ of_chars (intersperse (to_chars ", ") ((λ kv, to_chars (repr_str kv.1 +:+ ": " +:+ kv.2)) <$> items)) +:+ "}".
Definition model_dump_repr (s : AppConfig) : string :=
  let db := cfg_database s in
  repr_dict [
    ("logging", repr_dict [("level", repr_str (level (cfg_logging s)))]);
    ("database", repr_dict [
      ("host", repr_str (db_host db)); ("port", repr_int (db_port db)); ("user", repr_str (db_user db));
      ("password", repr_str (db_password db)); ("database", repr_str (db_database db));
      ("min_pool_size", repr_int (min_pool_size db)); ("max_pool_size", repr_int (max_pool_size db));
      ("command_timeout", repr_float (command_timeout db))]);
    ("auth", repr_dict [("access_token_ttl", repr_int (access_token_ttl (cfg_auth s)));
                        ("refresh_token_ttl", repr_int (refresh_token_ttl (cfg_auth s)))]);
    ("redis", repr_dict [("url", repr_str (redis_url (cfg_redis s)));
                         ("max_connections", repr_int (max_connections (cfg_redis s)))])].
Definition startup_line (s : AppConfig) : string :=
  "Loaded settings: " +:+ model_dump_repr s +:+ " for environment.".
(** [logger.info(...)] when main is imported, outside any request. *)
Definition log_startup (pid : Z) (asctime : string → string) (s : AppConfig) (st : Logging) : list string :=
  emit pid asctime st None (MkLogRecord "INFO" "src.main" (startup_line s) None None None).

(** Text that its [repr] leaves as it is. *)
Definition plain (s : string) : Prop :=
  Forall (λ c, (32 <= N_of_ascii c <= 126)%N ∧ ¬ N_of_ascii c ∈ [34; 39; 92]%N) (to_chars s).
Lemma repr_plain s : plain s → ∃ q, repr_str s = q +:+ s +:+ q.
Proof.
  intros Hs. unfold repr_str. exists (String (quote_of s) EmptyString).
  assert (N_of_ascii (quote_of s) = 34 ∨ N_of_ascii (quote_of s) = 39)%N as Hq
    by (unfold quote_of; destruct (_ && _); auto).
  assert (mjoin (repr_char (quote_of s) <$> to_chars s) = to_chars s) as ->.
  { generalize (quote_of s) Hq. clear Hq. unfold plain in Hs. intros q Hq.
    induction Hs as [|c l [Hc Hn] _ IH]; [done|]. cbn [fmap list_fmap].
    change (mjoin (?x :: ?y)) with (x ++ mjoin y). rewrite IH.
    rewrite !not_elem_of_cons in Hn. destruct Hn as (Hn1 & Hn2 & Hn3 & _).
    unfold repr_char. rewrite bool_decide_eq_false_2 by (intros ->; by destruct Hq).
    destruct (N.eqb_spec (N_of_ascii c) 92); [done|]. cbn [orb].
    rewrite (proj2 (N.eqb_neq (N_of_ascii c) 9)), (proj2 (N.eqb_neq (N_of_ascii c) 10)),
      (proj2 (N.eqb_neq (N_of_ascii c) 13)) by lia.
    by rewrite (proj2 (N.leb_le 32 _)), (proj2 (N.leb_le _ 126)) by lia. }
  change (?q :: ?l ++ ?r) with ([q] ++ l ++ r). by rewrite !of_chars_app, of_to_chars.
Qed.

(** [s] has [t] in it. *)
Definition mentions (s t : string) : Prop := ∃ a b, s = a +:+ t +:+ b.
Lemma mentions_around a s b t : mentions s t → mentions (a +:+ s +:+ b) t.
Proof. intros (x & y & ->). exists (a +:+ x), (y +:+ b). by rewrite !string_app_assoc. Qed.
Lemma mentions_dict items k v t : (k, v) ∈ items → mentions v t → mentions (repr_dict items) t.
Proof.
  intros Hin Ht. unfold repr_dict. apply (mentions_around "{" _ "}").
  apply list_elem_of_split in Hin as (l1 & l2 & ->). rewrite fmap_app, fmap_cons.
  assert (∀ x y z, ∃ a b, intersperse (to_chars ", ") (x ++ y :: z) = a ++ y ++ b) as Hmid.
  { clear. intros x y z. induction x as [|c x (a & b & IH)].
    - destruct z; [exists [], []; cbn; by rewrite app_nil_r|by eexists [], _].
    - exists (c ++ to_chars ", " ++ a), b. cbn [app]. destruct x; cbn [app] in *;
        rewrite <-!app_assoc; cbn [intersperse]; cbn [intersperse] in IH; by rewrite IH. }
  edestruct Hmid as (a & b & ->). rewrite !of_chars_app, of_to_chars.
  apply mentions_around. cbn [fst snd].
  rewrite <-string_app_assoc, <-(string_app_nil v). by apply mentions_around.
Qed.
(** The database password is written to the log at every start. *)
Lemma startup_logs_password s st n pid asctime :
  setup_logging s = Some st → level_number (str_upper (level (cfg_logging s))) = Some n → (n ≤ 20)%Z →
  plain (db_password (cfg_database s)) →
  ∃ line, log_startup pid asctime s st = [line] ∧ mentions line (db_password (cfg_database s)).
Proof.
  intros Hst Hn Hle Hplain. unfold log_startup. rewrite setup_eq, Hn in Hst. injection Hst as <-.
  exists (standard_line pid (asctime date_format) None
    (MkLogRecord "INFO" "src.main" (startup_line s) None None None)). split.
  - unfold emit. change (level_number _) with (Some 20%Z). cbv iota.
    rewrite chain_level, chain_reached.
    change (threshold n _) with n. rewrite (proj2 (Z.leb_le _ _) Hle).
    cbn [omap list_omap foldl console h_formatter h_filters apply_filter].
    by rewrite render_standard.
  - unfold standard_line. cbn [lr_message]. rewrite <-!string_app_assoc.
    rewrite <-(string_app_nil (startup_line s)). apply mentions_around. unfold startup_line.
    apply mentions_around. unfold model_dump_repr.
    eapply (mentions_dict _ "database"); [by right; left|].
    eapply (mentions_dict _ "password"); [by do 3 right; left|].
    destruct (repr_plain _ Hplain) as [q ->]. by exists q, q.
Qed.
End startup_line.
