(* ===== verification/GroupRace.v ===== *)
(** * A group keeps its creator, whatever runs at the same time

    [remove_member] reads the group without locking it, decides, and deletes the
    membership in a later statement. Nothing else changes [created_by], so the
    decision cannot go stale: in every interleaving of the sessions of the
    services, attempts to remove the creator included, the creator of a group
    is its member for as long as the group exists. No row lock is needed for
    this, and the proof uses none. *)

From S2P Require Export Concurrency.

Section group_race.
Context {P : Platform} (g c : UUID).
Implicit Types (db v : Database) (ws : list (Database * Database)).

Definition group_row db : option Group := groups db !! g.
Definition creator_row db : option Membership := memberships db !! (g, c).
(** The group is gone, or [c] created it and is its member. *)
Definition kept_by (o : option Group) (m : option Membership) : Prop :=
  o = None ∨ ∃ r x, o = Some r ∧ created_by r = Some c ∧ m = Some x ∧ mb_pk x = (g, c).
Definition founded db : Prop := kept_by (group_row db) (creator_row db).

(** ** The sessions of the services *)

(** Identifiers of groups are drawn by uuid4: nobody creates [g] again. *)
Inductive other_stmt : stmt → Prop :=
| other_service s : service_stmt (MkScope (λ _, True) False) s → other_stmt s
| other_create r : group_id r ≠ g → other_stmt (Write.CREATE_GROUP (to_args r))
| other_remove g' u : (g', u) ≠ (g, c) → other_stmt (Delete.REMOVE_GROUP_MEMBER g' u).

(** Sessions end with whether they removed the creator. *)
Definition removal (actor : UUID) : txprog bool := _ ← remove_member_tx actor g c; mret true.
Inductive member_client : txprog bool → Prop :=
| mc_removal actor : member_client (removal actor)
| mc_other {B} (p : txprog B) : stmts_ok other_stmt p → member_client (_ ← p; mret false).

(** The two kinds of session that govern a group are among the others when they
    concern another group or another member. *)
Lemma other_removal actor g' u :
  (g', u) ≠ (g, c) → stmts_ok other_stmt (remove_member_tx actor g' u).
Proof.
  intros Hne. tx_ok; try (by apply other_remove); apply other_service;
    exact (S_select _ _ false).
Qed.
Lemma other_creation r m : group_id r ≠ g → stmts_ok other_stmt (create_group_tx r m).
Proof.
  intros Hr. apply stmts_ok_bind; [by apply ok_insert_model, other_create|]. intros ?.
  apply stmts_ok_bind; [|constructor].
  apply (stmts_ok_weaken _ _ _ (other_service)), ok_add_group_member.
Qed.

(** ** The two rows under a statement *)
Definition unmoved (o : option (Group * Membership)) db : Prop :=
  group_row db = None ∨
  match o with Some (r, x) => group_row db = Some r ∧ creator_row db = Some x | None => False end.

(** Deleting an account or another group spares both rows. *)
Lemma unmoved_delete_user o u db db' :
  match o with Some (r, x) => created_by r = Some c ∧ mb_pk x = (g, c) | None => True end →
  delete_user_row u db = inr db' → unmoved o db → unmoved o db'.
Proof.
  unfold delete_user_row. destruct (any_row _ _) eqn:Ha; [discriminate|].
  rewrite any_row_false in Ha. unfold unmoved, group_row, creator_row.
  destruct o as [[r x]|]; intros Ho [= <-] HI; [|done].
  destruct HI as [HI|[Hr Hx]]; [by left|]. right. destruct Ho as [Hcr Hpk]. split; [done|].
  cbn. apply map_lookup_filter_Some. split; [done|]. cbn. injection Hpk as _ ->.
  intros ->. by apply (Ha g r).
Qed.
Lemma unmoved_delete_group o g' db :
  match o with Some (r, x) => created_by r = Some c ∧ mb_pk x = (g, c) | None => True end →
  unmoved o db → unmoved o (delete_group_row g' db).
Proof.
  unfold unmoved, group_row, creator_row. cbn. intros Ho HI.
  destruct (decide (g' = g)) as [->|Hne]; [left; apply (lookup_delete_eq (groups db))|].
  rewrite (lookup_delete_ne (groups db)) by done. destruct HI as [HI|HI]; [by left|].
  destruct o as [[r x]|]; [|done]. destruct Ho as [_ Hpk], HI as [Hr Hx]. right. split; [done|].
  apply map_lookup_filter_Some. split; [done|]. cbn. by injection Hpk as -> _.
Qed.
Lemma unmoved_insert_member o m db :
  taken (memberships db !! mb_pk m) = false → unmoved o db →
  unmoved o (set_memberships <[mb_pk m := m]> db).
Proof.
  unfold unmoved, group_row, creator_row. cbn. intros Ht [HI|HI]; [by left|].
  destruct o as [[r x]|]; [|done]. right. split; [apply HI|].
  rewrite lookup_insert_ne; [apply HI|]. intros Heq. destruct HI as [_ HI].
  by rewrite Heq, HI in Ht.
Qed.

Lemma other_stmt_unmoved o s :
  match o with Some (r, x) => created_by r = Some c ∧ mb_pk x = (g, c) | None => True end →
  other_stmt s → preserves (unmoved o) s.
Proof.
  intros Ho [s' Hs|r Hr|g' u Hne].
  - revert Hs. service_cases; try conditional_write; try (by destruct H).
    + by eapply unmoved_delete_user.
    + by apply unmoved_delete_group.
    + by apply unmoved_insert_member.
  - intros now db HI. unfold Write.CREATE_GROUP. rewrite exec_insert by done.
    destruct (insert_group_row r db) as [e|db'] eqn:Hins; [done|]. revert Hins.
    unfold insert_group_row. destruct (created_by r); [|discriminate]. insert_row.
    revert HI. unfold unmoved, group_row, creator_row. cbn. by rewrite lookup_insert_ne.
  - apply preserves_write. intros now db. unfold unmoved, group_row, creator_row. cbn.
    by rewrite lookup_delete_ne.
Qed.

(** A change of the two rows that a session may make: none, or the group goes. *)
Definition tame_change b a : Prop :=
  group_row a = None ∨ (group_row b = group_row a ∧ creator_row b = creator_row a).
Lemma other_stmt_tame now s v :
  other_stmt s → founded v → tame_change v (stmt_exec s now v).2.
Proof.
  intros Hs [Hg|(r & x & Hg & Hc & Hx & Hpk)].
  - destruct (other_stmt_unmoved None s I Hs now v) as [H|H]; [by left|by left|done].
  - destruct (other_stmt_unmoved (Some (r, x)) s (conj Hc Hpk) Hs now v) as [H|[Hg' Hx']];
      [by right|by left|].
    right. by rewrite Hg, Hx.
Qed.

(** ** A session's changes over the committed rows *)

Inductive tame db : list (Database * Database) → Prop :=
| tame_nil : tame db []
| tame_snoc ws b a :
    tame db ws → tame_change b a →
    (group_row b = None → overlay group_row ws (group_row db) = None) →
    tame db (ws ++ [(b, a)]).

Lemma tame_group db ws :
  tame db ws → overlay group_row ws (group_row db) = group_row db ∨
               overlay group_row ws (group_row db) = None.
Proof.
  induction 1 as [|ws b a _ IH Hch Hgone]; [by left|]. rewrite overlay_snoc.
  destruct Hch as [Ha|[Hg _]]; [|by rewrite decide_True by done]. right.
  rewrite Ha. case_decide as Hd; [by apply Hgone|done].
Qed.
Lemma tame_founded db ws :
  tame db ws → founded db →
  kept_by (overlay group_row ws (group_row db)) (overlay creator_row ws (creator_row db)).
Proof.
  intros Ht Hf. induction Ht as [|ws b a Ht IH Hch Hgone]; [done|]. rewrite !overlay_snoc.
  destruct Hch as [Ha|[Hg Hm]]; [|by rewrite !decide_True by done]. left.
  rewrite Ha. case_decide as Hd; [by apply Hgone|done].
Qed.
(** Tameness survives commits of other sessions, after which the group is as it
    was or gone. *)
Definition later db db' : Prop := group_row db' = group_row db ∨ group_row db' = None.
Lemma tame_later db db' ws :
  later db db' → tame db ws → tame db' ws ∧
  (overlay group_row ws (group_row db') = overlay group_row ws (group_row db) ∨
   overlay group_row ws (group_row db') = None).
Proof.
  intros Hl. induction 1 as [|ws b a _ [IHt IHg] Hch Hgone]; [by split; [constructor|]|]. split.
  - constructor; [done..|]. intros Hb. destruct IHg as [->|]; auto.
  - rewrite !overlay_snoc. case_decide; [done|by left].
Qed.

(** ** The programs *)

(** Whatever happens, it does not remove the creator. *)
Definition keeps_creator : txprog bool → Prop := ends other_stmt (λ o, o = false).

(** The shape of a removal: the unlocked read, whose answer, if the group is
    there and has its creator, leads to a refusal. *)
Lemma removal_shape actor :
  ∃ k, removal actor = TxSql (with_lock (Fetch.GROUP_BY_ID g) false) k ∧
    (∀ e, keeps_creator (k (inl e))) ∧ (∀ tag, keeps_creator (k (inr (MkResult [] tag)))) ∧
    ∀ r tag, created_by r = Some c → keeps_creator (k (inr (MkResult [record_of groups_cols r] tag))).
Proof.
  eexists. split; [reflexivity|]. split; [intros e; constructor|]. split; [intros tag; constructor|].
  intros r tag Hr. cbn -[from_record record_of]. unfold model_from_record.
  rewrite from_record_of by (intros k Hk; set_solver). cbn. rewrite Hr.
  rewrite decide_True by done. constructor.
Qed.

Inductive stage (p : txprog bool) ws : Prop :=
| st_removal actor : p = removal actor → ws = [] → stage p ws
| st_other : keeps_creator p → stage p ws.
Definition session_tame db (s : Session bool) : Prop :=
  tame db (ss_writes s) ∧ stage (ss_prog s) (ss_writes s).

Lemma group_view db (s : Session bool) :
  group_row (view db s) = overlay group_row (ss_writes s) (group_row db).
Proof. apply overlay_view. intros b a d. apply patch_table_lookup. Qed.
Lemma creator_view db (s : Session bool) :
  creator_row (view db s) = overlay creator_row (ss_writes s) (creator_row db).
Proof. apply overlay_view. intros b a d. apply patch_table_lookup. Qed.
Lemma view_founded db (s : Session bool) : tame db (ss_writes s) → founded db → founded (view db s).
Proof.
  intros Ht Hf. unfold founded. rewrite group_view, creator_view. by apply tame_founded.
Qed.
Lemma view_later db (s : Session bool) : tame db (ss_writes s) → later db (view db s).
Proof.
  intros Ht. unfold later. rewrite group_view. by apply tame_group.
Qed.

Lemma stage_stmt db s st k r v' :
  founded (view db s) → session_tame db s → ss_prog s = TxSql st k →
  stmt_exec st (ss_now s) (view db s) = (r, v') →
  tame_change (view db s) v' ∧ keeps_creator (k r).
Proof.
  intros Hf [_ [actor Hp _|Hp]] Hs Hx.
  - destruct (removal_shape actor) as (k' & Hk' & _ & Hnone & Hsome). rewrite Hs, Hk' in Hp.
    injection Hp as -> ->. cbn -[record_of view] in Hx. injection Hx as <- <-.
    split; [by right|]. destruct Hf as [Hg|(row & x & Hg & Hc & _)]; unfold group_row in Hg;
      rewrite Hg; [apply Hnone|by apply Hsome].
  - rewrite Hs in Hp. apply ends_inv in Hp as [Hst Hk]. split; [|apply Hk].
    pose proof (other_stmt_tame (ss_now s) st (view db s) Hst Hf) as Ht. by rewrite Hx in Ht.
Qed.
(** A draw, or a driver error. *)
Lemma stage_continue (s : Session bool) p :
  (∃ d k x, ss_prog s = TxDraw d k ∧ p = k x) ∨ (∃ st k e, ss_prog s = TxSql st k ∧ p = k (inl e)) →
  stage (ss_prog s) (ss_writes s) → stage p (ss_writes s).
Proof.
  intros Hcase [actor Hp Hw|Hp]; apply st_other.
  - destruct (removal_shape actor) as (k' & Hk' & Hf & _). rewrite Hk' in Hp.
    destruct Hcase as [(d & k & x & Hs & _)|(st & k & e & Hs & ->)]; [congruence|].
    rewrite Hp in Hs. by injection Hs as _ <-.
  - apply ends_inv in Hp.
    destruct Hcase as [(d & k & x & Hs & ->)|(st & k & e & Hs & ->)]; rewrite Hs in Hp;
      [apply Hp|destruct Hp as [_ Hp]; apply Hp].
Qed.

Lemma session_tame_advance db l i s db' s' :
  founded db → session_tame db s → advance db l i s db' (Running s') → session_tame db s'.
Proof.
  intros Hf Hst Hadv. pose proof Hst as [Ht Hp].
  inversion Hadv as [|e|st k r v' Hs Hg Hx|st k e Hs|d k x Hs]; subst.
  - destruct (stage_stmt _ _ _ _ _ _ (view_founded _ _ Ht Hf) Hst Hs Hx) as [Hch Hk].
    split; cbn; [|by apply st_other]. constructor; [done..|].
    by rewrite group_view.
  - split; [done|]. apply (stage_continue s); [|done]. right. eauto 6.
  - split; [done|]. apply (stage_continue s); [|done]. left. eauto 6.
Qed.

(** ** The server *)
Record race_inv (σ : Server bool) : Prop := {
  ri_founded : founded (committed σ);
  ri_sessions : ∀ i s, slots σ !! i = Some (Running s) → session_tame (committed σ) s;
  ri_ended : ∀ i o, slots σ !! i = Some (Ended (Ok o)) → o = false;
}.

Lemma member_client_stage p : member_client p → stage p [].
Proof.
  intros [actor|B q Hq]; [by eapply st_removal|]. apply st_other.
  apply ends_stmts_bind; [done|]. intros b. by constructor.
Qed.
Lemma race_inv_step σ σ' : server_step member_client σ σ' → race_inv σ → race_inv σ'.
Proof.
  intros Hstep [Hf Hs He].
  apply server_step_cases in Hstep as [(now & p & Hp & ->)|(i & s & db & sl & Hi & Hadv & ->)].
  - split; cbn; [done| |].
    + intros i s [Hi|[_ Hi]]%lookup_app_Some; [by eapply Hs|].
      apply list_lookup_singleton_Some in Hi as [_ [= <-]].
      split; [constructor|by apply member_client_stage].
    + intros i o [Hi|[_ Hi]]%lookup_app_Some; [by eapply He|].
      by apply list_lookup_singleton_Some in Hi as [_ Hi].
  - pose proof (Hs i s Hi) as Hst. destruct sl as [s'|r].
    + assert (db = committed σ) as -> by (by inversion Hadv). split; cbn; [done| |].
      * intros j t [(_ & [= <-] & _)|[_ Hj]]%list_lookup_insert_Some; [|by eapply Hs].
        by eapply session_tame_advance.
      * intros j o [(_ & ? & _)|[_ Hj]]%list_lookup_insert_Some; [done|by eapply He].
    + assert (later (committed σ) db ∧ founded db) as [Hl Hf'].
      { destruct Hst as [Ht _]. inversion Hadv; subst; [|split; [by left|done]].
        split; [by apply view_later|by apply view_founded]. }
      split; cbn; [done| |].
      * intros j t [(_ & ? & _)|[_ Hj]]%list_lookup_insert_Some; [done|].
        destruct (Hs j t Hj) as [Ht Hstage]. split; [|done]. by eapply tame_later.
      * intros j o [(_ & [= ->] & _)|[_ Hj]]%list_lookup_insert_Some; [|by eapply He].
        inversion Hadv as [a r' Ha [[= ->]|[? ?]]| | | |]; subst; [|done].
        destruct Hst as [_ [actor Hp _|Hp]].
        -- destruct (removal_shape actor) as (k & Hk & _). congruence.
        -- apply ends_inv in Hp. by destruct (ss_prog s); simplify_eq.
Qed.

(** C5: a group keeps its creator whatever runs at the same time: in every
    interleaving of the services' sessions, attempts to remove the creator
    included, with driver errors and lost connections anywhere, the creator of
    the group is its member in every committed state for as long as the group
    exists, and no attempt to remove them succeeds. *)
Theorem creator_stays db σ :
  founded db → rtc (server_step member_client) (MkServer db []) σ →
  (∀ r, groups (committed σ) !! g = Some r →
     created_by r = Some c ∧ is_Some (memberships (committed σ) !! (g, c))) ∧
  ∀ i, slots σ !! i ≠ Some (Ended (Ok true)).
Proof.
  intros Hf Hr.
  assert (race_inv σ) as [Hf' _ He].
  { assert (race_inv (MkServer db [])) as H0 by (by split; [| |]).
    induction Hr as [|σ1 σ2 σ3 Hs _ IH]; [done|]. apply IH. by eapply race_inv_step. }
  split; [|intros i Hi; by apply He in Hi].
  intros r Hg. destruct Hf' as [Hn|(r' & x & Hr' & Hc & Hx & _)];
    unfold group_row in *; [congruence|]. split; [congruence|by exists x].
Qed.
End group_race.

(** ** The creator leaves while somebody else is removed *)
Definition bob_leaves : txprog bool := _ ← remove_member_tx bob_id team_id bob_id; mret false.
Lemma bob_leaves_client : member_client (P := ref_platform) team_id alice_id bob_leaves.
Proof. apply mc_other, other_removal. by vm_compute. Qed.
Definition leave_race : list (Event bool) :=
  [Begin 0 (removal team_id alice_id alice_id);
   Begin 0 bob_leaves;
   Next 0 1; Next 1 1; Next 1 1; Next 1 1; Next 0 1].
Lemma leave_race_outcome :
  slots <$> run_schedule (H := plat_entropy (Platform := ref_platform)) leave_race (MkServer sample_db []) =
  Some [Ended (Raise (ExService (InsufficientGroupPermissionError
          "Group creator cannot leave the group. Delete the group instead."))); Ended (Ok false)].
Proof. vm_compute. reflexivity. Qed.
Lemma leave_race_clients :
  Forall (λ ev, ∀ now p, ev = Begin now p → member_client (P := ref_platform) team_id alice_id p) leave_race.
Proof.
  repeat constructor; try done; intros now p [= <- <-]; [constructor|].
  apply bob_leaves_client.
Qed.

Lemma creator_stays_witness :
  ∃ σ, slots σ !! 1 = Some (Ended (Ok false)) ∧
    ∀ r, groups (committed σ) !! team_id = Some r →
      created_by r = Some alice_id ∧ is_Some (memberships (committed σ) !! (team_id, alice_id)).
Proof.
  pose proof leave_race_outcome as Hout.
  destruct (run_schedule leave_race (MkServer sample_db [])) as [σ|] eqn:Hrun; [|discriminate Hout].
  injection Hout as Hσ. apply (run_schedule_steps _ _ _ _ leave_race_clients) in Hrun.
  exists σ. split; [by rewrite Hσ|].
  refine (proj1 (creator_stays (P := ref_platform) team_id alice_id sample_db σ _ Hrun)).
  right. do 2 eexists. split_and!; try (vm_compute; reflexivity).
Defined.
