(* ===== verification/Integrity.v ===== *)
(** * The tables stay sound while sessions interleave

    [System.reachable_sound] is about operations that run one after another.
    Here the sessions of all workers share the server statement by statement:
    keys, foreign keys and unique usernames hold in every committed state, and
    in what every open session sees. Two sessions can disagree about a row only
    where one of them holds a lock that the other could not get: a foreign-key
    check keeps the row it found from being deleted, a deletion owns the row and
    every row that refers to it, and an insertion owns its key and its name. *)

From S2P Require Export Concurrency.

(** ** Rows of any table *)
Inductive Row :=
| WUser (u : User) | WFriendship (f : Friendship) | WAccessToken (t : AccessToken)
| WRefreshToken (t : RefreshToken) | WGroup (g : Group) | WMembership (m : Membership)
| WDirectMessage (m : DirectMessage) | WGroupMessage (m : GroupMessage).
#[export] Instance Row_eq_dec : EqDecision Row.
Proof. solve_decision. Defined.

(** The row under a key; a username is a key of an index, not a row. *)
Definition row_at (db : Database) (k : RowKey) : option Row :=
  match k with
  | RUser u => WUser <$> users db !! u
  | RFriendship a b => WFriendship <$> friendships db !! (a, b)
  | RAccessToken h => WAccessToken <$> access_tokens db !! h
  | RRefreshToken h => WRefreshToken <$> refresh_tokens db !! h
  | RGroup g => WGroup <$> groups db !! g
  | RMembership g u => WMembership <$> memberships db !! (g, u)
  | RDirectMessage m => WDirectMessage <$> direct_messages db !! m
  | RGroupMessage m => WGroupMessage <$> group_messages db !! m
  | RUsername _ => None
  end.
Definition row_key (r : Row) : RowKey :=
  match r with
  | WUser u => RUser (user_id u)
  | WFriendship f => RFriendship (requester_id f) (addressee_id f)
  | WAccessToken t => RAccessToken (at_token_hash t)
  | WRefreshToken t => RRefreshToken (rt_token_hash t)
  | WGroup g => RGroup (group_id g)
  | WMembership m => RMembership (mb_group_id m) (mb_user_id m)
  | WDirectMessage m => RDirectMessage (dm_message_id m)
  | WGroupMessage m => RGroupMessage (gm_message_id m)
  end.
(** The rows its foreign keys point to, and its entry in the unique index. *)
Definition row_refs (r : Row) : list RowKey :=
  match r with
  | WUser _ => []
  | WFriendship f => [RUser (requester_id f); RUser (addressee_id f)]
  | WAccessToken t => [RUser (at_user_id t)]
  | WRefreshToken t => [RUser (rt_user_id t)]
  | WGroup g => match created_by g with Some c => [RUser c] | None => [] end
  | WMembership m => [RGroup (mb_group_id m); RUser (mb_user_id m)]
  | WDirectMessage m => [RUser (dm_sender_id m); RUser (dm_recipient_id m)]
  | WGroupMessage m => [RGroup (gm_group_id m); RUser (gm_sender_id m)]
  end.
Definition row_name (r : Row) : option string :=
  match r with WUser u => Some (username u) | _ => None end.
(** NOT NULL *)
Definition row_valid (r : Row) : Prop :=
  match r with WGroup g => is_Some (created_by g) | _ => True end.

Record integral (R : RowKey → option Row) : Prop := {
  in_row : ∀ k r, R k = Some r → row_key r = k ∧ row_valid r;
  in_refs : ∀ k r p, R k = Some r → p ∈ row_refs r → is_Some (R p);
  in_names : ∀ k1 k2 r1 r2 n, R k1 = Some r1 → R k2 = Some r2 →
    row_name r1 = Some n → row_name r2 = Some n → k1 = k2;
}.

Lemma row_at_user db u : is_Some (row_at db (RUser u)) ↔ has_user db u.
Proof. apply fmap_is_Some. Qed.
Lemma row_at_group db g : is_Some (row_at db (RGroup g)) ↔ has_group db g.
Proof. apply fmap_is_Some. Qed.

Lemma row_at_inv db k r : row_at db k = Some r →
  match r with
  | WUser x => ∃ u, k = RUser u ∧ users db !! u = Some x
  | WFriendship x => ∃ a b, k = RFriendship a b ∧ friendships db !! (a, b) = Some x
  | WAccessToken x => ∃ h, k = RAccessToken h ∧ access_tokens db !! h = Some x
  | WRefreshToken x => ∃ h, k = RRefreshToken h ∧ refresh_tokens db !! h = Some x
  | WGroup x => ∃ g, k = RGroup g ∧ groups db !! g = Some x
  | WMembership x => ∃ g u, k = RMembership g u ∧ memberships db !! (g, u) = Some x
  | WDirectMessage x => ∃ m, k = RDirectMessage m ∧ direct_messages db !! m = Some x
  | WGroupMessage x => ∃ m, k = RGroupMessage m ∧ group_messages db !! m = Some x
  end.
Proof.
  destruct k; cbn; try discriminate; intros (x & Hx & ->)%fmap_Some; eauto.
Qed.

(** The two readings of soundness agree. *)
Lemma wf_row db k r :
  wf_db db → row_at db k = Some r →
  (row_key r = k ∧ row_valid r) ∧ ∀ p, p ∈ row_refs r → is_Some (row_at db p).
Proof.
  intros Hwf Hr. apply row_at_inv in Hr.
  setoid_rewrite <-Forall_forall.
  destruct r; cbn; [destruct Hr as (? & -> & Hr)|destruct Hr as (? & ? & -> & Hr)
    |destruct Hr as (? & -> & Hr)|destruct Hr as (? & -> & Hr)|destruct Hr as (? & -> & Hr)
    |destruct Hr as (? & ? & -> & Hr)|destruct Hr as (? & -> & Hr)|destruct Hr as (? & -> & Hr)].
  - by rewrite (wf_users _ Hwf _ _ Hr).
  - destruct (wf_friendships _ Hwf _ _ Hr) as ([= <- <-] & ? & ?).
    repeat constructor; by apply row_at_user.
  - destruct (wf_access_tokens _ Hwf _ _ Hr) as (<- & ?). repeat constructor; by apply row_at_user.
  - destruct (wf_refresh_tokens _ Hwf _ _ Hr) as (<- & ?). repeat constructor; by apply row_at_user.
  - destruct (wf_groups _ Hwf _ _ Hr) as (<- & c & -> & ?).
    split; [by split|]. repeat constructor; by apply row_at_user.
  - destruct (wf_memberships _ Hwf _ _ Hr) as ([= <- <-] & ? & ?).
    repeat constructor; by (apply row_at_user || apply row_at_group).
  - destruct (wf_direct_messages _ Hwf _ _ Hr) as (<- & ? & ?).
    repeat constructor; by apply row_at_user.
  - destruct (wf_group_messages _ Hwf _ _ Hr) as (<- & ? & ?).
    repeat constructor; by (apply row_at_user || apply row_at_group).
Qed.
Lemma row_name_inv db k r n :
  row_at db k = Some r → row_name r = Some n →
  ∃ u x, k = RUser u ∧ users db !! u = Some x ∧ username x = n.
Proof.
  intros Hr Hn. destruct r; try discriminate. apply row_at_inv in Hr as (u' & -> & Hu).
  injection Hn as <-. eauto.
Qed.
Lemma wf_integral db : wf_db db → integral (row_at db).
Proof.
  intros Hwf. split.
  - intros k r Hr. by apply (wf_row db).
  - intros k r p Hr. by apply (wf_row db k).
  - intros k1 k2 r1 r2 n H1 H2 Hn1 Hn2.
    destruct (row_name_inv _ _ _ _ H1 Hn1) as (u1 & x1 & -> & Hu1 & Hx1).
    destruct (row_name_inv _ _ _ _ H2 Hn2) as (u2 & x2 & -> & Hu2 & Hx2).
    f_equal. apply (wf_usernames _ Hwf _ _ _ _ Hu1 Hu2). congruence.
Qed.
Ltac stored db Hx k r Hr := assert (row_at db k = Some r) as Hr by (cbn; by rewrite Hx).
Ltac refer :=
  match goal with
  | Hru : ∀ k r u, _ → _ → has_user _ _, Hr : row_at _ _ = _ |- has_user _ _ =>
      apply (Hru _ _ _ Hr); cbn; rewrite !elem_of_cons; auto
  | Hrg : ∀ k r g, _ → _ → has_group _ _, Hr : row_at _ _ = _ |- has_group _ _ =>
      apply (Hrg _ _ _ Hr); cbn; rewrite !elem_of_cons; auto
  end.
Lemma integral_wf db : integral (row_at db) → wf_db db.
Proof.
  intros [Hrow Href Hname].
  assert (∀ k r u, row_at db k = Some r → RUser u ∈ row_refs r → has_user db u) as Hru
    by (intros k r u Hr Hp; by eapply row_at_user, Href).
  assert (∀ k r g, row_at db k = Some r → RGroup g ∈ row_refs r → has_group db g) as Hrg
    by (intros k r g Hr Hp; by eapply row_at_group, Href).
  split.
  - intros k x Hx. stored db Hx (RUser k) (WUser x) Hr. by destruct (Hrow _ _ Hr) as [[= ->] _].
  - intros k1 k2 x1 x2 H1 H2 Hn.
    stored db H1 (RUser k1) (WUser x1) Hr1. stored db H2 (RUser k2) (WUser x2) Hr2.
    by injection (Hname _ _ _ _ (username x1) Hr1 Hr2 eq_refl (f_equal Some (eq_sym Hn))).
  - intros [a b] x Hx. stored db Hx (RFriendship a b) (WFriendship x) Hr.
    destruct (Hrow _ _ Hr) as [[= <- <-] _]. split_and!; [done|refer|refer].
  - intros k x Hx. stored db Hx (RAccessToken k) (WAccessToken x) Hr.
    destruct (Hrow _ _ Hr) as [[= <-] _]. split_and!; [done|refer].
  - intros k x Hx. stored db Hx (RRefreshToken k) (WRefreshToken x) Hr.
    destruct (Hrow _ _ Hr) as [[= <-] _]. split_and!; [done|refer].
  - intros k x Hx. stored db Hx (RGroup k) (WGroup x) Hr.
    destruct (Hrow _ _ Hr) as [[= ->] [c Hc]]. split; [done|]. exists c. split; [done|].
    apply (Hru _ _ _ Hr). cbn. rewrite Hc. by left.
  - intros [g u] x Hx. stored db Hx (RMembership g u) (WMembership x) Hr.
    destruct (Hrow _ _ Hr) as [[= <- <-] _]. split_and!; [done|refer|refer].
  - intros k x Hx. stored db Hx (RDirectMessage k) (WDirectMessage x) Hr.
    destruct (Hrow _ _ Hr) as [[= <-] _]. split_and!; [done|refer|refer].
  - intros k x Hx. stored db Hx (RGroupMessage k) (WGroupMessage x) Hr.
    destruct (Hrow _ _ Hr) as [[= <-] _]. split_and!; [done|refer|refer].
Qed.

#[local] Arguments lock_all : simpl never.

(** ** What a statement may do to a row, and the locks it must hold *)
Definition alike (r r' : Row) : Prop := row_refs r = row_refs r' ∧ row_name r = row_name r'.
(** The rows it refers to cannot go, its name cannot be taken. *)
Definition backed (ks : list Lock) (r : Row) : Prop :=
  (∀ p, p ∈ row_refs r → ∃ m, (m, p) ∈ ks) ∧
  (∀ n, row_name r = Some n → owned ks (RUsername n)).
Inductive change (ks : list Lock) (k : RowKey) : option Row → option Row → Prop :=
| ch_none o : change ks k o o
| ch_update r r' : write_locked ks k → alike r' r → change ks k (Some r) (Some r')
| ch_insert r : owned ks k → backed ks r → change ks k None (Some r)
| ch_delete r : owned ks k → change ks k (Some r) None.
Definition disciplined (ks : list Lock) (v v' : Database) : Prop :=
  ∀ k, change ks k (row_at v k) (row_at v' k).

Lemma change_locked ks k o o' : change ks k o o' → o ≠ o' → write_locked ks k.
Proof. destruct 1; intros; [done|done|by apply owned_write_locked..]. Qed.
Lemma disciplined_refl ks v : disciplined ks v v.
Proof. intros k. constructor. Qed.

Section lookups.
Context `{Countable K} {A : Type} (W : A → Row) (ks : list Lock).
Implicit Types (t : gmap K A) (key : RowKey).

Lemma change_insert t k k' x key :
  (k = k' → t !! k = None ∧ owned ks key ∧ backed ks (W x)) →
  change ks key (W <$> t !! k') (W <$> <[k := x]> t !! k').
Proof.
  intros Hk. destruct (decide (k = k')) as [->|Hne].
  - rewrite lookup_insert_eq. destruct (Hk eq_refl) as (-> & ? & ?). by constructor.
  - rewrite lookup_insert_ne by done. constructor.
Qed.
Lemma change_update t k k' x y key :
  t !! k = Some x → (k = k' → write_locked ks key ∧ alike (W y) (W x)) →
  change ks key (W <$> t !! k') (W <$> <[k := y]> t !! k').
Proof.
  intros Hx Hk. destruct (decide (k = k')) as [->|Hne].
  - rewrite lookup_insert_eq, Hx. destruct (Hk eq_refl). by constructor.
  - rewrite lookup_insert_ne by done. constructor.
Qed.
Lemma change_alter f t k k' key :
  (∀ x, k = k' → t !! k' = Some x → write_locked ks key ∧ alike (W (f x)) (W x)) →
  change ks key (W <$> t !! k') (W <$> alter f k t !! k').
Proof.
  intros Hk. destruct (decide (k = k')) as [->|Hne].
  - rewrite lookup_alter_eq. destruct (t !! k') as [x|]; [|constructor].
    destruct (Hk x eq_refl eq_refl). by constructor.
  - rewrite lookup_alter_ne by done. constructor.
Qed.
Lemma change_fmap f t k key :
  (∀ x, t !! k = Some x → f x = x ∨ (write_locked ks key ∧ alike (W (f x)) (W x))) →
  change ks key (W <$> t !! k) (W <$> (f <$> t) !! k).
Proof.
  intros Hk. rewrite lookup_fmap. destruct (t !! k) as [x|]; [|constructor].
  destruct (Hk x eq_refl) as [Hx|[? ?]]; cbn; [rewrite Hx|]; by constructor.
Qed.
Lemma change_delete t k k' key :
  (k = k' → is_Some (t !! k') → owned ks key) →
  change ks key (W <$> t !! k') (W <$> delete k t !! k').
Proof.
  intros Hk. destruct (decide (k = k')) as [->|Hne].
  - rewrite lookup_delete_eq. destruct (t !! k') as [x|]; [|constructor].
    constructor. by apply Hk.
  - rewrite lookup_delete_ne by done. constructor.
Qed.
Lemma change_filter (Q : K * A → Prop) `{∀ x, Decision (Q x)} t k key :
  (∀ x, t !! k = Some x → ¬ Q (k, x) → owned ks key) →
  change ks key (W <$> t !! k) (W <$> filter Q t !! k).
Proof.
  intros Hk. rewrite map_lookup_filter. destruct (t !! k) as [x|]; [|constructor].
  cbn. case_guard; cbn; [constructor|]. constructor. by eapply Hk.
Qed.
End lookups.

Section statements.
Context `{RowOrder}.

Lemma insert_statement {M} `{DBModel M} cols args tcols keys refs (ins : M → Database → PgError + Database) now v :
  (∀ m v', ins m v = inr v' →
     disciplined (lock_all ForUpdate (keys m) ++ lock_all KeyShare (refs m)) v v') →
  disciplined (stmt_locks (insert_stmt cols args tcols keys refs ins) now v) v
    (stmt_exec (insert_stmt cols args tcols keys refs ins) now v).2.
Proof.
  intros Hins. cbn. destruct (model_init _ _) as [m|]; [|apply disciplined_refl].
  destruct (ins m v) as [e|v'] eqn:Hm; [apply disciplined_refl|]. by apply Hins.
Qed.

Lemma owned_keys keys ks k : k ∈ keys → owned (lock_all ForUpdate keys ++ ks) k.
Proof. intros Hk. apply elem_of_app. left. by apply list_elem_of_fmap_2. Qed.
Lemma backed_insert keys r :
  (∀ n, row_name r = Some n → RUsername n ∈ keys) →
  backed (lock_all ForUpdate keys ++ lock_all KeyShare (row_refs r)) r.
Proof.
  intros Hn. split; [|intros n Hr; by apply owned_keys, Hn].
  intros p Hp. exists KeyShare. apply elem_of_app. right. by apply list_elem_of_fmap_2.
Qed.

(** An insertion changes one row, its own. *)
Ltac inserted r :=
  intros k; destruct k; cbn; try apply ch_none; apply change_insert; cbn; intros Hk;
  try (injection Hk as ??); subst;
  split_and!; [by apply taken_None|apply owned_keys; by left|apply (backed_insert _ r); cbn]; try done.

Lemma insert_group_inv m v v' :
  insert_group_row m v = inr v' →
  taken (groups v !! group_id m) = false ∧ v' = set_groups <[group_id m := m]> v.
Proof. unfold insert_group_row. destruct (created_by m); [|discriminate]. by insert_row. Qed.

Lemma inserted_friendship f v v' :
  insert_friendship_row f v = inr v' →
  disciplined (lock_all ForUpdate [row_key (WFriendship f)] ++ lock_all KeyShare (row_refs (WFriendship f)))
    v v'.
Proof. unfold insert_friendship_row. insert_row. inserted (WFriendship f). Qed.
Lemma friend_request_disciplined a b now v :
  disciplined (stmt_locks (Write.SEND_FRIEND_REQUEST a b) now v) v
    (stmt_exec (Write.SEND_FRIEND_REQUEST a b) now v).2.
Proof.
  cbn -[insert_friendship_row]. unfold insert_locks.
  destruct (insert_friendship_row _ v) as [e|v'] eqn:Hins; [apply disciplined_refl|].
  exact (inserted_friendship _ _ _ Hins).
Qed.

(** The rows that refer to a user or a group are owned by its deletion. *)
Lemma owned_all keys k : k ∈ keys → owned (lock_all ForUpdate keys) k.
Proof. intros Hk. by apply list_elem_of_fmap_2. Qed.
Lemma elem_of_hits {K A} `{Countable K} (f : A → RowKey) (Q : A → Prop) `{∀ x, Decision (Q x)}
    (t : gmap K A) k x :
  t !! k = Some x → Q x → f x ∈ f <$> filter Q (table_rows t).
Proof. intros Hk HQ. apply list_elem_of_fmap_2, filter_gmap_values_spec. eauto. Qed.

Lemma either (x y u : UUID) :
  ¬ (x ≠ u ∧ y ≠ u) → x = u ∨ y = u.
Proof. intros Hn. destruct (decide (x = u)), (decide (y = u)); tauto. Qed.
(** The row stored under a key, by its own key. *)
Lemma keyed v k r : wf_db v → row_at v k = Some r → k = row_key r.
Proof. intros Hwf Hr. by destruct (wf_row _ _ _ Hwf Hr) as [[-> _] _]. Qed.
Ltac keyed_row v Hwf key W H :=
  let Hk := fresh in
  assert (key = row_key (W)) as Hk by (apply (keyed v); [exact Hwf|cbn; by rewrite H]);
  rewrite Hk; cbn [row_key].

Lemma delete_user_disciplined u now v :
  wf_db v → disciplined (stmt_locks (Delete.USER_BY_ID u) now v) v (stmt_exec (Delete.USER_BY_ID u) now v).2.
Proof.
  intros Hwf. cbn -[delete_user_row Delete.user_dependents]. destruct (users v !! u) as [x|]; [|apply disciplined_refl].
  destruct (delete_user_row u v) as [e|v'] eqn:Hdel; [apply disciplined_refl|]. cbn -[Delete.user_dependents].
  revert Hdel. unfold delete_user_row. destruct (any_row _ _); [discriminate|]. intros [= <-].
  intros k. destruct k; cbn -[Delete.user_dependents]; try apply ch_none;
    first [apply change_delete; intros -> _|apply change_filter; cbn; intros y Hy Hn]; apply owned_all;
    [by left|right; unfold Delete.user_dependents; rewrite !elem_of_app..].
  - keyed_row v Hwf (RFriendship a b) (WFriendship y) Hy. left.
    apply (elem_of_hits (λ f, RFriendship (requester_id f) (addressee_id f)) _ _ _ _ Hy). by apply either.
  - keyed_row v Hwf (RAccessToken h) (WAccessToken y) Hy. right; left.
    apply (elem_of_hits (λ t, RAccessToken (at_token_hash t)) _ _ _ _ Hy). exact (dec_stable Hn).
  - keyed_row v Hwf (RRefreshToken h) (WRefreshToken y) Hy. do 2 right; left.
    apply (elem_of_hits (λ t, RRefreshToken (rt_token_hash t)) _ _ _ _ Hy). exact (dec_stable Hn).
  - keyed_row v Hwf (RMembership g u0) (WMembership y) Hy. do 3 right; left.
    apply (elem_of_hits (λ m, RMembership (mb_group_id m) (mb_user_id m)) _ _ _ _ Hy). exact (dec_stable Hn).
  - keyed_row v Hwf (RDirectMessage m) (WDirectMessage y) Hy. do 4 right; left.
    apply (elem_of_hits (λ m, RDirectMessage (dm_message_id m)) _ _ _ _ Hy). by apply either.
  - keyed_row v Hwf (RGroupMessage m) (WGroupMessage y) Hy. do 5 right.
    apply (elem_of_hits (λ m, RGroupMessage (gm_message_id m)) _ _ _ _ Hy). exact (dec_stable Hn).
Qed.
Lemma delete_group_disciplined g u now v :
  wf_db v → disciplined (stmt_locks (Delete.DELETE_GROUP g u) now v) v
              (stmt_exec (Delete.DELETE_GROUP g u) now v).2.
Proof.
  intros Hwf. cbn -[delete_group_row Delete.group_dependents].
  destruct (groups v !! g) as [r|]; cbn -[delete_group_row Delete.group_dependents]; [|apply disciplined_refl].
  destruct (decide _); cbn -[Delete.group_dependents]; [|apply disciplined_refl].
  intros k. destruct k; cbn -[Delete.group_dependents]; try apply ch_none;
    first [apply change_delete; intros -> _|apply change_filter; cbn; intros y Hy Hn]; apply owned_all;
    [by left|right; unfold Delete.group_dependents; rewrite !elem_of_app..].
  - keyed_row v Hwf (RMembership g0 u0) (WMembership y) Hy. left.
    apply (elem_of_hits (λ m, RMembership (mb_group_id m) (mb_user_id m)) _ _ _ _ Hy). exact (dec_stable Hn).
  - keyed_row v Hwf (RGroupMessage m) (WGroupMessage y) Hy. right.
    apply (elem_of_hits (λ m, RGroupMessage (gm_message_id m)) _ _ _ _ Hy). exact (dec_stable Hn).
Qed.
Lemma locked_hit {K A} `{Countable K} (f : A → RowKey) (m : LockMode) (Q : A → Prop) `{∀ x, Decision (Q x)}
    (t : gmap K A) k x :
  t !! k = Some x → Q x → (m, f x) ∈ (λ x, (m, f x)) <$> filter Q (table_rows t).
Proof. intros Hk HQ. by apply (list_elem_of_fmap_2 (λ x, (m, f x))), filter_gmap_values_spec; eauto. Qed.
Lemma unfriend_disciplined a b now v :
  wf_db v → disciplined (stmt_locks (Delete.REMOVE_FRIENDSHIP a b) now v) v
              (stmt_exec (Delete.REMOVE_FRIENDSHIP a b) now v).2.
Proof.
  intros Hwf k. destruct k; cbn; try apply ch_none.
  apply change_filter; cbn; intros y Hy Hn. keyed_row v Hwf (RFriendship a0 b0) (WFriendship y) Hy.
  apply (locked_hit (λ f, RFriendship (requester_id f) (addressee_id f)) _ _ _ _ _ Hy). exact (dec_stable Hn).
Qed.
Lemma revoke_all_disciplined u now v :
  wf_db v →
  disciplined (stmt_locks (Write.REVOKE_ALL_USER_ACCESS_TOKENS u) now v) v
    (stmt_exec (Write.REVOKE_ALL_USER_ACCESS_TOKENS u) now v).2 ∧
  disciplined (stmt_locks (Write.REVOKE_ALL_USER_REFRESH_TOKENS u) now v) v
    (stmt_exec (Write.REVOKE_ALL_USER_REFRESH_TOKENS u) now v).2.
Proof.
  intros Hwf. split; intros k; destruct k; cbn; try apply ch_none; apply change_fmap; intros y Hy.
  - unfold Write.revoke_at_of. destruct (decide (at_user_id y = u)) as [Hu|]; [|by left]. right.
    keyed_row v Hwf (RAccessToken h) (WAccessToken y) Hy. split; [|done].
    apply (write_locked_elem NoKeyUpdate); [|discriminate].
    by apply (locked_hit (λ t, RAccessToken (at_token_hash t)) _ _ _ _ _ Hy).
  - unfold Write.revoke_rt_of. destruct (decide (rt_user_id y = u)) as [Hu|]; [|by left]. right.
    keyed_row v Hwf (RRefreshToken h) (WRefreshToken y) Hy. split; [|done].
    apply (write_locked_elem NoKeyUpdate); [|discriminate].
    by apply (locked_hit (λ t, RRefreshToken (rt_token_hash t)) _ _ _ _ _ Hy).
Qed.

Lemma update_user_disciplined f uid (P : User → Prop) `{∀ u, Decision (P u)} now v :
  (∀ u, username (f u) = username u) →
  disciplined (stmt_locks (Write.update_user f uid P) now v) v
    (stmt_exec (Write.update_user f uid P) now v).2.
Proof.
  intros Hf. cbn. destruct (users v !! uid) as [x|] eqn:Hx; cbn; [|apply disciplined_refl].
  destruct (decide (P x)); cbn; [|apply disciplined_refl].
  intros k. destruct k; cbn; try apply ch_none. eapply change_update; [done|]. intros <-. split.
  - by apply (write_locked_elem NoKeyUpdate); [left|].
  - by split; cbn; rewrite ?Hf.
Qed.

(** Every statement of the services respects the locks it takes. *)
Lemma service_stmt_disciplined D s now v :
  service_stmt D s → wf_db v → disciplined (stmt_locks s now v) v (stmt_exec s now v).2.
Proof.
  intros Hs Hwf. destruct Hs;
    try (apply insert_statement; intros m v');
    try (by apply update_user_disciplined).
  - apply disciplined_refl.
  - cbn. destruct (n <? 0)%Z; apply disciplined_refl.
  - cbn. destruct (n <? 0)%Z; apply disciplined_refl.
  - unfold insert_user_row. insert_row. inserted (WUser m). intros n [= <-]. by right; left.
  - by apply delete_user_disciplined.
  - by apply friend_request_disciplined.
  - intros k. destruct k; cbn; try apply ch_none. apply change_alter. intros x [= <- <-] Hx.
    split; [|done]. rewrite Hx. by apply (write_locked_elem NoKeyUpdate); [left|].
  - by apply unfriend_disciplined.
  - unfold insert_access_token_row. insert_row. inserted (WAccessToken m).
  - unfold insert_refresh_token_row. insert_row. inserted (WRefreshToken m).
  - intros k. destruct k; cbn; try apply ch_none. apply change_alter. intros x <- Hx.
    split; [|done]. rewrite Hx. by apply (write_locked_elem NoKeyUpdate); [left|].
  - intros k. destruct k; cbn; try apply ch_none. apply change_alter. intros x <- Hx.
    split; [|done]. rewrite Hx. by apply (write_locked_elem NoKeyUpdate); [left|].
  - by apply revoke_all_disciplined.
  - by apply revoke_all_disciplined.
  - intros [Ht ->]%insert_group_inv. inserted (WGroup m).
  - by apply delete_group_disciplined.
  - unfold insert_membership_row. insert_row. inserted (WMembership m).
  - intros k. destruct k; cbn; try apply ch_none. apply change_delete. intros [= <- <-] [x Hx].
    rewrite Hx. by left.
  - unfold insert_direct_message_row. insert_row. inserted (WDirectMessage m).
  - unfold insert_group_message_row. insert_row. inserted (WGroupMessage m).
Qed.
End statements.

(** ** A session over the committed tables *)
Lemma row_of_patch {K X} `{Countable K} `{EqDecision X} (W : X → Row) (b a d : gmap K X) k :
  (∀ x y, W x = W y → x = y) →
  W <$> patch_table b a d !! k =
  if decide (W <$> b !! k = W <$> a !! k) then W <$> d !! k else W <$> a !! k.
Proof.
  intros HW. rewrite patch_table_lookup. destruct (decide (b !! k = a !! k)) as [->|Hne];
    [by rewrite decide_True|]. rewrite decide_False; [done|].
  intros Heq. apply Hne. destruct (b !! k), (a !! k); try done. injection Heq as Heq.
  by rewrite (HW _ _ Heq).
Qed.
Lemma row_at_patch k b a d :
  row_at (patch_db b a d) k = if decide (row_at b k = row_at a k) then row_at d k else row_at a k.
Proof.
  destruct k; cbn; [apply row_of_patch; by intros ?? [= ->]..|]. by destruct (decide _).
Qed.

Section sessions.
Context `{RowOrder} {A : Type}.
Implicit Types (s t : Session A) (d : Database) (k : RowKey).

(** What a session may rely on, from its locks: it changed only rows it holds,
    what it sees is sound, a row it stored is alike to the committed one or its
    references and its name are held, and it owns what it deleted. *)
Record settled d s : Prop := {
  se_changes : ∀ b a k, (b, a) ∈ ss_writes s → row_at b k ≠ row_at a k → write_locked (ss_locks s) k;
  se_sound : integral (row_at (view d s));
  se_stored : ∀ k r, row_at (view d s) k = Some r →
    (∃ r', row_at d k = Some r' ∧ alike r r') ∨ backed (ss_locks s) r;
  se_deleted : ∀ k, is_Some (row_at d k) → row_at (view d s) k = None → owned (ss_locks s) k;
}.

Lemma row_at_view d s k : row_at (view d s) k = overlay (λ db, row_at db k) (ss_writes s) (row_at d k).
Proof. apply (overlay_view (λ db, row_at db k)). intros b a d'. apply row_at_patch. Qed.
Lemma overlay_same {X} `{EqDecision X} (get : Database → X) ws r :
  (∀ b a, (b, a) ∈ ws → get b = get a) → overlay get ws r = r.
Proof.
  intros Hws. unfold overlay. induction ws as [|[b a] ws IH]; [done|]. cbn.
  rewrite decide_True by (apply Hws; by left). apply IH. intros b' a' Hin. apply Hws. by right.
Qed.
Lemma view_unlocked d s k :
  settled d s → ¬ write_locked (ss_locks s) k → row_at (view d s) k = row_at d k.
Proof.
  intros Hs Hk. rewrite row_at_view. apply overlay_same. intros b a Hin.
  destruct (decide (row_at b k = row_at a k)) as [|Hne]; [done|]. by destruct Hk; eapply se_changes.
Qed.
Lemma view_agree d d' s k : row_at d k = row_at d' k → row_at (view d s) k = row_at (view d' s) k.
Proof. intros Heq. by rewrite !row_at_view, Heq. Qed.

(** *** Two open sessions *)
Section pair.
Context (d : Database) (s t : Session A).
Hypothesis (Hs : settled d s) (Ht : settled d t) (Hap : apart (ss_locks s) (ss_locks t)).

Lemma not_both k : write_locked (ss_locks s) k → ¬ write_locked (ss_locks t) k.
Proof. intros H1 H2. by eapply apart_write. Qed.
(** [t] cannot have deleted what a row of [s] refers to. *)
Lemma reference_kept k r p :
  row_at (view d s) k = Some r → p ∈ row_refs r →
  ¬ write_locked (ss_locks s) p → ¬ write_locked (ss_locks t) k →
  is_Some (row_at (view d t) p).
Proof.
  intros Hr Hp Hps Hkt. destruct (row_at (view d t) p) eqn:Htp; [done|exfalso].
  assert (owned (ss_locks t) p) as Ho.
  { apply (se_deleted _ _ Ht); [|done]. rewrite <-(view_unlocked d s p) by done.
    by eapply (in_refs _ (se_sound _ _ Hs)). }
  destruct (se_stored _ _ Hs k r Hr) as [(r' & Hr' & [Href _])|[Hb _]].
  - rewrite <-(view_unlocked d t k) in Hr' by done. rewrite Href in Hp.
    destruct (in_refs _ (se_sound _ _ Ht) _ _ _ Hr' Hp). congruence.
  - destruct (Hb p Hp) as [m Hm]. by eapply (apart_owned _ _ _ _ (apart_sym _ _ Hap)).
Qed.
(** Nor can it have taken the name of a user of [s]. *)
Lemma name_kept k1 k2 r1 r2 n :
  row_at (view d s) k1 = Some r1 → row_at (view d t) k2 = Some r2 →
  row_name r1 = Some n → row_name r2 = Some n →
  ¬ write_locked (ss_locks t) k1 → ¬ write_locked (ss_locks s) k2 → k1 = k2.
Proof.
  intros H1 H2 Hn1 Hn2 Hk1 Hk2.
  destruct (se_stored _ _ Hs k1 r1 H1) as [(r1' & H1' & [_ Hn1'])|[_ Hb1]].
  { rewrite <-(view_unlocked d t k1) in H1' by done.
    apply (in_names _ (se_sound _ _ Ht) _ _ _ _ n H1' H2); congruence. }
  destruct (se_stored _ _ Ht k2 r2 H2) as [(r2' & H2' & [_ Hn2'])|[_ Hb2]].
  { rewrite <-(view_unlocked d s k2) in H2' by done.
    apply (in_names _ (se_sound _ _ Hs) _ _ _ _ n H1 H2'); congruence. }
  by destruct (apart_owned _ _ ForUpdate (RUsername n) Hap); [apply Hb1|apply Hb2].
Qed.
End pair.

(** *** The commit of another session

    [s] is open, [t] commits: where [s] holds a row it sees what it saw, and
    elsewhere what [t] leaves. *)
Section commit.
Context (d : Database) (s t : Session A).
Hypothesis (Hs : settled d s) (Ht : settled d t) (Hap : apart (ss_locks s) (ss_locks t)).
Notation after := (view (view d t) s).

Lemma committed_mine k : write_locked (ss_locks s) k → row_at (view d t) k = row_at d k.
Proof. intros Hk. apply view_unlocked; [done|]. by eapply not_both. Qed.
Lemma mine k : write_locked (ss_locks s) k → row_at after k = row_at (view d s) k.
Proof. intros Hk. by apply view_agree, committed_mine. Qed.
Lemma theirs k : ¬ write_locked (ss_locks s) k → row_at after k = row_at (view d t) k.
Proof.
  intros Hk. rewrite row_at_view. apply overlay_same. intros b a Hin.
  destruct (decide (row_at b k = row_at a k)) as [|Hne]; [done|]. by destruct Hk; eapply se_changes.
Qed.

Lemma after_refs k r p : row_at after k = Some r → p ∈ row_refs r → is_Some (row_at after p).
Proof.
  intros Hr Hp. destruct (decide (write_locked (ss_locks s) k)) as [Hk|Hk];
    destruct (decide (write_locked (ss_locks s) p)) as [Hps|Hps].
  - rewrite mine in Hr |- * by done. by eapply (in_refs _ (se_sound _ _ Hs)).
  - rewrite mine in Hr by done. rewrite theirs by done.
    eapply (reference_kept d s t); [done..| |done|by eapply not_both]. done.
  - rewrite theirs in Hr by done. rewrite mine by done.
    eapply (reference_kept d t s); [done..|by apply apart_sym|done|done| |done].
    by eapply not_both.
  - rewrite theirs in Hr |- * by done. by eapply (in_refs _ (se_sound _ _ Ht)).
Qed.
Lemma after_names k1 k2 r1 r2 n :
  row_at after k1 = Some r1 → row_at after k2 = Some r2 →
  row_name r1 = Some n → row_name r2 = Some n → k1 = k2.
Proof.
  intros H1 H2 Hn1 Hn2. destruct (decide (write_locked (ss_locks s) k1)) as [Hk1|Hk1];
    destruct (decide (write_locked (ss_locks s) k2)) as [Hk2|Hk2].
  - rewrite mine in H1, H2 by done. by eapply (in_names _ (se_sound _ _ Hs)).
  - rewrite mine in H1 by done. rewrite theirs in H2 by done.
    eapply (name_kept d s t); [done..| |done]. by eapply not_both.
  - rewrite theirs in H1 by done. rewrite mine in H2 by done. symmetry.
    eapply (name_kept d s t); [done..| |done]. by eapply not_both.
  - rewrite theirs in H1, H2 by done. by eapply (in_names _ (se_sound _ _ Ht)).
Qed.
Lemma settled_commit : settled (view d t) s.
Proof.
  split; [apply Hs| | |].
  - split; [|apply after_refs|apply after_names].
    intros k r Hr. destruct (decide (write_locked (ss_locks s) k)).
    + rewrite mine in Hr by done. by apply (in_row _ (se_sound _ _ Hs)).
    + rewrite theirs in Hr by done. by apply (in_row _ (se_sound _ _ Ht)).
  - intros k r Hr. destruct (decide (write_locked (ss_locks s) k)).
    + rewrite mine in Hr by done. rewrite committed_mine by done. by apply (se_stored _ _ Hs).
    + rewrite theirs in Hr by done. left. exists r. by split.
  - intros k Hsome Hnone. destruct (decide (write_locked (ss_locks s) k)).
    + rewrite mine in Hnone by done. rewrite committed_mine in Hsome by done.
      by apply (se_deleted _ _ Hs).
    + rewrite theirs in Hnone by done. rewrite Hnone in Hsome. by destruct Hsome.
Qed.
End commit.

(** *** A statement of the session itself *)
Lemma backed_weaken ks ks' r : (∀ l, l ∈ ks → l ∈ ks') → backed ks r → backed ks' r.
Proof.
  intros Hks [Hp Hn]. split; [|intros n Hr; by apply Hks, Hn].
  intros p Hr. destruct (Hp p Hr) as [m Hm]. exists m. by apply Hks.
Qed.
Lemma backed_alike ks r r' : alike r' r → backed ks r → backed ks r'.
Proof. intros [Hrefs Hname]. unfold backed. by rewrite Hrefs, Hname. Qed.
Lemma alike_trans r1 r2 r3 : alike r1 r2 → alike r2 r3 → alike r1 r3.
Proof. intros [] []. split; by etrans. Qed.
Lemma integral_ext R R' : (∀ k, R' k = R k) → integral R → integral R'.
Proof.
  intros Heq [Hrow Href Hname]. split.
  - intros k r. rewrite Heq. apply Hrow.
  - intros k r p. rewrite !Heq. apply Href.
  - intros k1 k2 r1 r2 n. rewrite !Heq. apply Hname.
Qed.

Lemma settled_begin d now p : wf_db d → settled d (MkSession now p [] []).
Proof.
  intros Hwf. split; cbn.
  - by intros b a k ?%elem_of_nil.
  - by apply wf_integral.
  - intros k r Hr. left. by exists r.
  - intros k [r Hr] Hn. congruence.
Qed.
Lemma settled_continue d s p : settled d s → settled d (continue p s).
Proof. by intros [Hch Hso Hst Hdel]; split. Qed.
Lemma settled_wf d s : settled d s → wf_db (view d s).
Proof. intros Hs. apply integral_wf, Hs. Qed.

Lemma settled_stmt D d s st (k : PgError + SqlResult → txprog A) r v' :
  settled d s → service_stmt D st → stmt_exec st (ss_now s) (view d s) = (r, v') →
  settled d (MkSession (ss_now s) (k r) (ss_writes s ++ [(view d s, v')])
               (stmt_locks st (ss_now s) (view d s) ++ ss_locks s)).
Proof.
  intros Hs Hst Hx. pose proof (settled_wf _ _ Hs) as Hwf.
  pose proof (service_stmt_disciplined D st (ss_now s) _ Hst Hwf) as Hch.
  pose proof (service_stmt_wf D st Hst (ss_now s) _ Hwf) as Hwf'.
  rewrite Hx in Hch, Hwf'. cbn in Hch, Hwf'.
  set (ks := stmt_locks st (ss_now s) (view d s)) in *.
  set (s' := MkSession _ _ _ _).
  assert (∀ key, row_at (view d s') key = row_at v' key) as Hrow.
  { intros key. rewrite row_at_view. cbn [ss_writes s']. rewrite overlay_snoc, <-row_at_view. by case_decide. }
  assert (∀ l, l ∈ ss_locks s → l ∈ ks ++ ss_locks s) as Hold by (intros l; rewrite elem_of_app; auto).
  split; cbn.
  - intros b a key. rewrite elem_of_app, list_elem_of_singleton, write_locked_app.
    intros [Hin|[= -> ->]] Hne; [right; by eapply se_changes|left; by eapply change_locked].
  - by eapply integral_ext, wf_integral.
  - intros key r'. rewrite Hrow. intros Hr'. specialize (Hch key). rewrite Hr' in Hch.
    pose proof (se_stored _ _ Hs key) as Hkept.
    destruct (row_at (view d s) key) as [r0|];
      [destruct (Hkept r0 eq_refl) as [(r1 & Hr1 & Hal1)|Hb0]|];
      inversion Hch as [|? ? Hk Hal|? Ho Hb|]; subst.
    + left. by exists r1.
    + left. exists r1. split; [done|]. by eapply alike_trans.
    + right. by eapply backed_weaken.
    + right. eapply backed_alike, backed_weaken; done.
    + right. eapply backed_weaken, Hb. intros l. rewrite elem_of_app. auto.
  - intros key Hsome. rewrite Hrow. intros Hnone. specialize (Hch key). rewrite Hnone in Hch.
    pose proof (se_deleted _ _ Hs key Hsome) as Hdel.
    destruct (row_at (view d s) key); inversion Hch; subst; [by apply elem_of_app; left|].
    by apply Hold, Hdel.
Qed.

(** ** The server *)
Record sound_server (D : Scope) (σ : Server A) : Prop := {
  so_exclusive : exclusive (slots σ);
  so_tables : wf_db (committed σ);
  so_open : ∀ i s, slots σ !! i = Some (Running s) →
    settled (committed σ) s ∧ stmts_ok (service_stmt D) (ss_prog s);
}.

Lemma stmts_ok_inv {B} P (p : txprog B) :
  stmts_ok P p →
  match p with TxSql s k => P s ∧ ∀ r, stmts_ok P (k r) | TxDraw _ k => ∀ x, stmts_ok P (k x) | _ => True end.
Proof. by destruct 1. Qed.
End sessions.

Section server.
Context `{RowOrder} `{Entropy} {A : Type} (D : Scope).
Notation C := (stmts_ok (A := A) (service_stmt D)).

Lemma settled_advance db l i (s s' : Session A) :
  settled db s → C (ss_prog s) → advance db l i s db (Running s') → settled db s' ∧ C (ss_prog s').
Proof.
  intros Hs Hok Hadv. pose proof (stmts_ok_inv _ _ Hok) as Hp.
  inversion Hadv as [|e|st k r v' Hq Hg Hx|st k e Hq|d k x Hq]; subst; rewrite Hq in Hp; cbn.
  - destruct Hp. split; [by eapply settled_stmt|done].
  - destruct Hp. by split; [apply settled_continue|].
  - by split; [apply settled_continue|].
Qed.

Lemma sound_step (σ σ' : Server A) : server_step C σ σ' → sound_server D σ → sound_server D σ'.
Proof.
  intros Hstep [Hex Hwf Hopen]. pose proof (exclusive_step _ _ _ Hstep Hex) as Hex'.
  apply server_step_cases in Hstep as [(now & p & Hp & ->)|(i & s & db & sl & Hi & Hadv & ->)].
  - split; cbn; [done..|]. intros i s [Hi|[_ Hi]]%lookup_app_Some; [by eapply Hopen|].
    apply list_lookup_singleton_Some in Hi as [_ [= <-]]. by split; [apply settled_begin|].
  - destruct (Hopen i s Hi) as [Hs Hok]. destruct sl as [s'|o].
    + assert (db = committed σ) as -> by (by inversion Hadv). split; cbn; [done..|].
      intros j t [(_ & [= <-] & _)|[_ Hj]]%list_lookup_insert_Some; [|by eapply Hopen].
      by eapply settled_advance.
    + assert (db = committed σ ∨ db = view (committed σ) s) as Hdb by (inversion Hadv; auto).
      split; cbn; [done|destruct Hdb as [-> | ->]; [done|by apply settled_wf]|].
      intros j t [(_ & ? & _)|[Hne Hj]]%list_lookup_insert_Some; [done|].
      destruct (Hopen j t Hj) as [Ht Hokt]. split; [|done].
      destruct Hdb as [-> | ->]; [done|]. apply settled_commit; [done..|].
      by apply (Hex j i (Running t) (Running s)).
Qed.

(** C6: keys, foreign keys and unique usernames survive every interleaving of
    the services' sessions, the deletion of accounts and of groups included:
    whatever the order of their statements, with driver errors and lost
    connections anywhere, the committed tables are well formed, and so is what
    every open session sees: no row refers to an account or a group that
    another session deleted meanwhile, and no two accounts share a name. *)
Theorem interleaved_integrity db (σ : Server A) :
  wf_db db → rtc (server_step C) (MkServer db []) σ →
  wf_db (committed σ) ∧
  ∀ i s, slots σ !! i = Some (Running s) → wf_db (view (committed σ) s).
Proof.
  intros Hwf Hr. assert (sound_server D σ) as [_ Hc Ho].
  { assert (sound_server (A:=A) D (MkServer db [])) as H1 by (split; cbn; [by intros ??|done|by intros ??]).
    induction Hr as [|σ1 σ2 σ3 Hs _ IH]; [done|]. apply IH. by eapply sound_step. }
  split; [done|]. intros i s Hi. by eapply settled_wf, Ho.
Qed.
End server.

(** ** A member is added while the group is deleted *)
Definition whole_scope : Scope := MkScope (λ _, True) True.
Definition carol_joins : txprog unit := _ ← add_member_tx alice_id team_id carol_id; mret tt.
Definition team_goes : txprog unit := _ ← delete_group_tx (P := ref_platform) alice_id team_id; mret tt.
Lemma integrity_clients :
  stmts_ok (service_stmt (H := plat_rows (Platform := ref_platform)) whole_scope) carol_joins ∧
  stmts_ok (service_stmt (H := plat_rows (Platform := ref_platform)) whole_scope) team_goes.
Proof. split; unfold carol_joins, team_goes; tx_ok. Qed.

(** Both have read the group; Carol's membership keeps the group from being
    deleted until it is committed, and is deleted with it. *)
Definition join_race : list (Event unit) :=
  [Begin 0 carol_joins; Begin 0 team_goes; Next 0 1; Next 1 1; Next 1 1; Next 0 1; Next 0 1].
Definition join_race_rest : list (Event unit) := [Next 0 1; Next 1 1; Next 1 1].
Lemma join_race_waits :
  run_schedule (H := plat_entropy (Platform := ref_platform)) (join_race ++ [Next 1 1])
    (MkServer sample_db []) = None.
Proof. vm_compute. reflexivity. Qed.
Lemma join_race_outcome :
  (λ σ, (slots σ, bool_decide (has_group (committed σ) team_id), size (memberships (committed σ)))) <$>
    run_schedule (H := plat_entropy (Platform := ref_platform)) (join_race ++ join_race_rest)
      (MkServer sample_db []) =
  Some ([Ended (Ok tt); Ended (Ok tt)], false, 0).
Proof. vm_compute. reflexivity. Qed.
Notation services := (stmts_ok (service_stmt (H := plat_rows (Platform := ref_platform)) whole_scope)).
Lemma join_race_clients :
  Forall (λ ev, ∀ now p, ev = Begin now p → services p) (join_race ++ join_race_rest).
Proof.
  destruct integrity_clients as [Hc Ht].
  repeat constructor; try done; intros now p [= <- <-]; [exact Hc|exact Ht].
Qed.

Lemma interleaved_integrity_witness :
  ∃ σ, slots σ = [Ended (Ok tt); Ended (Ok tt)] ∧ ¬ has_group (committed σ) team_id ∧
    wf_db (committed σ).
Proof.
  pose proof join_race_outcome as Hout.
  destruct (run_schedule (join_race ++ join_race_rest) (MkServer sample_db [])) as [σ|] eqn:Hrun;
    [|discriminate Hout].
  injection Hout as Hσ Hg _. apply bool_decide_eq_false in Hg. exists σ. split_and!; [done..|].
  refine (proj1 (interleaved_integrity whole_scope sample_db σ wf_sample _)).
  eapply run_schedule_steps, Hrun. exact join_race_clients.
Defined.
