(* ===== verification/Wiring.v ===== *)
(** * Which objects a worker is made of (api/dependencies.py, main.py)

    The services and the authentication of a request get their collaborators
    from [app.state] through FastAPI's dependencies. Objects are references into
    a heap here, so that sharing can be stated: a request's services, the
    authentication and the two listeners all work on one database manager, one
    Redis client, one token cache and one WebSocket manager. This is why the
    other files may give a worker one of each. *)

From S2P Require Export Settings Redis.

Definition Ref := nat.
(** The objects and the attributes their constructors set. *)
Inductive Obj :=
| ODatabaseManager | ORedis | OTokenCache
| ORedisManager (_client : option Ref)
| OWebSocketManager (_db _redis : Ref) (_redis_url : option string) (_channel_name : string)
| OAuthService (_db _redis _cache : Ref) (_settings : AuthConfig)
| OUserService (_db : Ref)
| OMessagingService (_db _ws : Ref)
| OGroupService (_db _redis _ws : Ref).

(** A worker's objects and [app.state]. *)
Record Process := MkProcess { heap : list Obj; app_state : gmap string Ref }.
Inductive WireError := AttributeError (name : string) | RedisClientNotInitialized.
Definition Wire (A : Type) : Type := Process → outcome WireError A * Process.

#[export] Instance Wire_ret : MRet Wire := λ A a p, (Ok a, p).
#[export] Instance Wire_bind : MBind Wire := λ A B f m p,
  match m p with (Ok a, p') => f a p' | (Raise e, p') => (Raise e, p') end.

Definition new (o : Obj) : Wire Ref := λ p,
  (Ok (length (heap p)), MkProcess (heap p ++ [o]) (app_state p)).
Definition get_state (name : string) : Wire Ref := λ p,
  (match app_state p !! name with Some r => Ok r | None => Raise (AttributeError name) end, p).
Definition set_state (name : string) (r : Ref) : Wire unit := λ p,
  (Ok tt, MkProcess (heap p) (<[name := r]> (app_state p))).
(** [redis_manager.client], a property that raises before [connect]. *)
Definition client_of (manager : Ref) : Wire Ref := λ p,
  (match heap p !! manager with
   | Some (ORedisManager (Some c)) => Ok c
   | Some (ORedisManager None) => Raise RedisClientNotInitialized
   | _ => Raise (AttributeError "client")
   end, p).

(** ** Extractors *)
Definition get_db : Wire Ref := get_state "db".
Definition get_redis : Wire Ref := manager ← get_state "redis"; client_of manager.
Definition get_ws_manager : Wire Ref := get_state "ws_manager".
Definition get_token_cache : Wire Ref := get_state "auth_cache".
(** The same on the application of a WebSocket. *)
Definition get_db_ws : Wire Ref := get_state "db".
Definition get_token_cache_ws : Wire Ref := get_state "auth_cache".
Definition get_ws_manager_ws : Wire Ref := get_state "ws_manager".

(** ** Constructors *)
Section wiring.
Context (settings : AppConfig).

Definition new_auth_service (db redis cache : Ref) (auth_settings : option AuthConfig) : Wire Ref :=
  new (OAuthService db redis cache (default (cfg_auth settings) auth_settings)).
Definition new_user_service (db : Ref) : Wire Ref := new (OUserService db).
Definition new_messaging_service (db ws : Ref) : Wire Ref := new (OMessagingService db ws).
Definition new_group_service (db redis ws : Ref) : Wire Ref := new (OGroupService db redis ws).
Definition new_ws_manager (db redis : Ref) (redis_url : option string) (channel_name : string)
    : Wire Ref :=
  new (OWebSocketManager db redis redis_url channel_name).

(** ** Service factories *)
Definition get_auth_service : Wire Ref :=
  db ← get_db; redis ← get_redis; cache ← get_token_cache; new_auth_service db redis cache None.
Definition get_user_service : Wire Ref := db ← get_db; new_user_service db.
Definition get_messaging_service : Wire Ref :=
  db ← get_db; ws_manager ← get_ws_manager; new_messaging_service db ws_manager.
Definition get_group_service : Wire Ref :=
  db ← get_db; redis ← get_redis; ws_manager ← get_ws_manager; new_group_service db redis ws_manager.

(** ** The application *)

(** The two listener tasks: the Pub/Sub listener of a manager, on its client or
    on one of its own; the stream listener and the cache its handler belongs to. *)
Record PubSubTask := MkPubSubTask {
  pt_client : Ref; pt_channel : string; pt_handler : Ref; pt_close_client : bool }.
Record StreamTask := MkStreamTask { st_client : Ref; st_handler : Ref }.

(** [start_pubsub_listener]; an empty URL counts as none. *)
Definition pubsub_task (ws_manager : Ref) : Wire PubSubTask := λ p,
  match heap p !! ws_manager with
  | Some (OWebSocketManager _ redis url channel) =>
      match url with
      | Some u => if bool_decide (u = EmptyString) then (Ok (MkPubSubTask redis channel ws_manager false), p)
                  else (c ← new ORedis; mret (MkPubSubTask c channel ws_manager true)) p
      | None => (Ok (MkPubSubTask redis channel ws_manager false), p)
      end
  | _ => (Raise (AttributeError "_redis_url"), p)
  end.

Record Parts := MkParts {
  p_db : Ref; p_redis : Ref; p_client : Ref; p_cache : Ref; p_ws : Ref;
  p_pubsub : PubSubTask; p_stream : StreamTask;
}.
(** [lifespan] up to the [yield], when nothing it awaits fails: [connect] of the
    Redis manager makes its client. *)
Definition lifespan : Wire Parts :=
  db_manager ← new ODatabaseManager;
  client ← new ORedis;
  redis_manager ← new (ORedisManager (Some client));
  auth_cache ← new OTokenCache;
  redis ← client_of redis_manager;
  ws_manager ← new_ws_manager db_manager redis None CHANNEL_NAME;
  _ ← set_state "db" db_manager;
  _ ← set_state "redis" redis_manager;
  _ ← set_state "auth_cache" auth_cache;
  _ ← set_state "ws_manager" ws_manager;
  pubsub ← pubsub_task ws_manager;
  redis' ← client_of redis_manager;
  mret (MkParts db_manager redis_manager client auth_cache ws_manager pubsub
                (MkStreamTask redis' auth_cache)).

(** What an endpoint asks for. *)
Inductive Dependency :=
| DAuthService | DUserService | DMessagingService | DGroupService
| DWsManager | DCurrentUser | DCurrentUserWs | DWsManagerWs.
(** The objects a dependency hands out. *)
Definition provide (d : Dependency) : Wire (list Ref) :=
  match d with
  | DAuthService => r ← get_auth_service; mret [r]
  | DUserService => r ← get_user_service; mret [r]
  | DMessagingService => r ← get_messaging_service; mret [r]
  | DGroupService => r ← get_group_service; mret [r]
  | DWsManager => r ← get_ws_manager; mret [r]
  | DCurrentUser => db ← get_db; cache ← get_token_cache; mret [db; cache]
  | DCurrentUserWs => db ← get_db_ws; cache ← get_token_cache_ws; mret [db; cache]
  | DWsManagerWs => r ← get_ws_manager_ws; mret [r]
  end.
Fixpoint serve_requests (ds : list Dependency) : Wire (list (list Ref)) :=
  match ds with
  | [] => mret []
  | d :: ds => rs ← provide d; rss ← serve_requests ds; mret (rs :: rss)
  end.

(** ** Sharing *)
Definition auth_of (k : Parts) : Obj := OAuthService (p_db k) (p_client k) (p_cache k) (cfg_auth settings).
(** The objects a worker may hold: one manager, client, cache and registry; any
    number of services, each on these. *)
Definition belongs (k : Parts) (r : Ref) (o : Obj) : Prop :=
  match o with
  | ODatabaseManager => r = p_db k
  | ORedis => r = p_client k
  | OTokenCache => r = p_cache k
  | ORedisManager c => r = p_redis k ∧ c = Some (p_client k)
  | OWebSocketManager db redis _ _ => r = p_ws k ∧ db = p_db k ∧ redis = p_client k
  | OAuthService _ _ _ _ => o = auth_of k
  | OUserService db => db = p_db k
  | OMessagingService db ws => db = p_db k ∧ ws = p_ws k
  | OGroupService db redis ws => db = p_db k ∧ redis = p_client k ∧ ws = p_ws k
  end.
(** What the dependency [d] hands out, in the heap [h]. *)
Definition answers (k : Parts) (h : list Obj) (d : Dependency) (rs : list Ref) : Prop :=
  match d with
  | DCurrentUser | DCurrentUserWs => rs = [p_db k; p_cache k]
  | DWsManager | DWsManagerWs => rs = [p_ws k]
  | DAuthService => ∃ r, rs = [r] ∧ h !! r = Some (auth_of k)
  | DUserService => ∃ r, rs = [r] ∧ h !! r = Some (OUserService (p_db k))
  | DMessagingService => ∃ r, rs = [r] ∧ h !! r = Some (OMessagingService (p_db k) (p_ws k))
  | DGroupService => ∃ r, rs = [r] ∧ h !! r = Some (OGroupService (p_db k) (p_client k) (p_ws k))
  end.

(** A worker after [lifespan], whatever it built since. *)
Record wired (k : Parts) (p : Process) : Prop := {
  w_state_db : app_state p !! "db" = Some (p_db k);
  w_state_redis : app_state p !! "redis" = Some (p_redis k);
  w_state_cache : app_state p !! "auth_cache" = Some (p_cache k);
  w_state_ws : app_state p !! "ws_manager" = Some (p_ws k);
  w_manager : heap p !! p_redis k = Some (ORedisManager (Some (p_client k)));
  w_heap : ∀ r o, heap p !! r = Some o → belongs k r o;
}.

Lemma wired_grow k p o :
  wired k p → (∀ r, belongs k r o) → wired k (MkProcess (heap p ++ [o]) (app_state p)).
Proof.
  intros [] Ho. split; cbn; auto.
  - by apply lookup_app_l_Some.
  - intros r o' [Hr|[_ Hr]]%lookup_app_Some; [auto|].
    by apply list_lookup_singleton_Some in Hr as [_ <-].
Qed.
Lemma answers_grow k h h' d rs : answers k h d rs → answers k (h ++ h') d rs.
Proof.
  destruct d; cbn; try done; intros (r & -> & Hr); exists r; split; try done;
    by apply lookup_app_l_Some.
Qed.
Lemma lookup_new (h : list Obj) o : (h ++ [o]) !! length h = Some o.
Proof. by rewrite lookup_app_r, Nat.sub_diag by done. Qed.

(** Resolving a dependency adds at most one service to the heap. *)
Lemma provide_wired k p d :
  wired k p → ∃ rs h p', provide d p = (Ok rs, p') ∧ wired k p' ∧
    heap p' = heap p ++ h ∧ answers k (heap p') d rs.
Proof.
  intros Hp. pose proof Hp as [Hdb Hrd Hc Hws Hm _].
  assert (get_db p = (Ok (p_db k), p)) as Hgdb by (unfold get_db, get_state; by rewrite Hdb).
  assert (get_token_cache p = (Ok (p_cache k), p)) as Hgc
    by (unfold get_token_cache, get_state; by rewrite Hc).
  assert (get_ws_manager p = (Ok (p_ws k), p)) as Hgws
    by (unfold get_ws_manager, get_state; by rewrite Hws).
  assert (get_redis p = (Ok (p_client k), p)) as Hgrd.
  { unfold get_redis, get_state, client_of, mbind, Wire_bind. rewrite Hrd. by rewrite Hm. }
  destruct d; cbn -[get_db get_redis get_token_cache get_ws_manager];
    unfold get_auth_service, get_user_service, get_messaging_service, get_group_service,
      mbind, Wire_bind;
    change get_db_ws with get_db; change get_token_cache_ws with get_token_cache;
    change get_ws_manager_ws with get_ws_manager;
    repeat first [rewrite Hgdb | rewrite Hgrd | rewrite Hgws | rewrite Hgc].
  1-4: do 3 eexists; split; [done|]; split; [by apply wired_grow|]; split; [done|];
    eexists; split; [done|apply lookup_new].
  all: eexists _, [], p; split; [done|]; split; [done|]; split; [by rewrite app_nil_r|done].
Qed.
Lemma requests_wired k ds p :
  wired k p → ∃ rss h p', serve_requests ds p = (Ok rss, p') ∧ wired k p' ∧
    heap p' = heap p ++ h ∧ Forall2 (answers k (heap p')) ds rss.
Proof.
  revert p. induction ds as [|d ds IH]; intros p Hp.
  { exists [], [], p. split_and!; [done..|by rewrite app_nil_r|constructor]. }
  destruct (provide_wired k p d Hp) as (rs & h1 & p1 & Hr1 & Hp1 & Hh1 & Ha).
  destruct (IH p1 Hp1) as (rss & h2 & p2 & Hr2 & Hp2 & Hh2 & Hall).
  exists (rs :: rss), (h1 ++ h2), p2. cbn. unfold mbind, Wire_bind.
  rewrite Hr1, Hr2. split_and!; [done..|by rewrite Hh2, Hh1, app_assoc|].
  constructor; [|done]. rewrite Hh2. by apply answers_grow.
Qed.

Definition blank : Process := MkProcess [] ∅.
Lemma lifespan_wired : ∃ k p, lifespan blank = (Ok k, p) ∧ wired k p ∧
  p_pubsub k = MkPubSubTask (p_client k) CHANNEL_NAME (p_ws k) false ∧
  p_stream k = MkStreamTask (p_client k) (p_cache k).
Proof.
  do 2 eexists. split; [vm_compute; reflexivity|]. split; [|done]. split; try done.
  intros r o. do 5 (destruct r as [|r]; [by intros [= <-]|]). done.
Qed.

(** C32: one of each: after start-up, whatever requests a worker has served,
    there is one database manager, one Redis client, one token cache and one
    WebSocket manager in it; every service ever built is built on these, every
    request is authenticated against this cache, the stream listener's handler
    is this cache's, and the Pub/Sub listener is this manager's, on the shared
    client, which it must not close. *)
Theorem one_of_each ds :
  ∃ k p rss p', lifespan blank = (Ok k, p) ∧ serve_requests ds p = (Ok rss, p') ∧
    (∀ r o, heap p' !! r = Some o → belongs k r o) ∧
    Forall2 (answers k (heap p')) ds rss ∧
    p_pubsub k = MkPubSubTask (p_client k) CHANNEL_NAME (p_ws k) false ∧
    p_stream k = MkStreamTask (p_client k) (p_cache k).
Proof.
  destruct lifespan_wired as (k & p & Hl & Hp & Hps & Hst).
  destruct (requests_wired k ds p Hp) as (rss & h & p' & Hs & Hp' & _ & Ha).
  exists k, p, rss, p'. split_and!; try done. apply Hp'.
Qed.
End wiring.
