(* ===== verification/Refinement.v ===== *)
(** * The service against an abstract specification

    What users see of each other, without rows, tokens, hashes or timestamps:
    accounts, requests and friendships, groups and their members, messages. The
    specification says who may change what; every operation of the services, on
    any worker and whatever fails, does to it either nothing or what the
    specification allows the acting user. *)

From S2P Require Export MessagingTheorems System.

(** ** The specification *)
Record Social := MkSocial {
  so_accounts : gmap UUID (string * bool);            (* name, deactivated *)
  so_friends : gmap (UUID * UUID) bool;               (* who asked whom; accepted *)
  so_groups : gmap UUID (option UUID);                (* the creator *)
  so_members : gset (UUID * UUID);                    (* group, user *)
  so_dms : gmap UUID (UUID * UUID * string);          (* sender, recipient, text *)
  so_gms : gmap UUID (UUID * UUID * string);          (* group, sender, text *)
}.
Definition no_one : Social := MkSocial ∅ ∅ ∅ ∅ ∅ ∅.

Definition set_accounts f s :=
  MkSocial (f (so_accounts s)) (so_friends s) (so_groups s) (so_members s) (so_dms s) (so_gms s).
Definition set_friends f s :=
  MkSocial (so_accounts s) (f (so_friends s)) (so_groups s) (so_members s) (so_dms s) (so_gms s).
Definition set_circle f g s :=
  MkSocial (so_accounts s) (so_friends s) (f (so_groups s)) (g (so_members s)) (so_dms s) (so_gms s).
Definition set_dms f s :=
  MkSocial (so_accounts s) (so_friends s) (so_groups s) (so_members s) (f (so_dms s)) (so_gms s).
Definition set_gms f s :=
  MkSocial (so_accounts s) (so_friends s) (so_groups s) (so_members s) (so_dms s) (f (so_gms s)).

Definition friends_in (s : Social) (a b : UUID) : Prop :=
  so_friends s !! (a, b) = Some true ∨ so_friends s !! (b, a) = Some true.
Definition touches (a b : UUID) (k : UUID * UUID) : Prop := k = (a, b) ∨ k = (b, a).

(** What an operation may do; the acting user is in the operation. *)
Inductive allowed_step (s : Social) : op → Social → Prop :=
| as_register n pw u :
    so_accounts s !! u = None → (∀ v a, so_accounts s !! v = Some a → a.1 ≠ n) →
    allowed_step s (ORegister n pw) (set_accounts <[u := (n, false)]> s)
| as_login n pw u b :                                   (* a login reactivates *)
    so_accounts s !! u = Some (n, b) →
    allowed_step s (OLogin n pw) (set_accounts <[u := (n, false)]> s)
| as_deactivate u n b :
    so_accounts s !! u = Some (n, b) →
    allowed_step s (ODeactivate u) (set_accounts <[u := (n, true)]> s)
| as_reactivate u n b :
    so_accounts s !! u = Some (n, b) →
    allowed_step s (OReactivate u) (set_accounts <[u := (n, false)]> s)
| as_delete_account u :                                 (* a creator cannot go *)
    is_Some (so_accounts s !! u) → (∀ g, so_groups s !! g ≠ Some (Some u)) →
    allowed_step s (ODeleteAccount u)
      (MkSocial (delete u (so_accounts s))
         (filter (λ kv, kv.1.1 ≠ u ∧ kv.1.2 ≠ u) (so_friends s)) (so_groups s)
         (filter (λ gu, gu.2 ≠ u) (so_members s))
         (filter (λ kv, kv.2.1.1 ≠ u ∧ kv.2.1.2 ≠ u) (so_dms s))
         (filter (λ kv, kv.2.1.2 ≠ u) (so_gms s)))
| as_ask a b :
    a ≠ b → so_friends s !! (a, b) = None →
    is_Some (so_accounts s !! a) → is_Some (so_accounts s !! b) →
    allowed_step s (OFriendRequest a b) (set_friends <[(a, b) := false]> s)
| as_accept a r x :                                     (* the one who was asked *)
    so_friends s !! (r, a) = Some x →
    allowed_step s (OAccept a r) (set_friends <[(r, a) := true]> s)
| as_unfriend a b k x :
    so_friends s !! k = Some x → touches a b k →
    allowed_step s (OUnfriend a b) (set_friends (filter (λ kv, ¬ touches a b kv.1)) s)
| as_create_group u n g :
    so_groups s !! g = None → is_Some (so_accounts s !! u) →
    allowed_step s (OCreateGroup u n) (set_circle <[g := Some u]> (union {[(g, u)]}) s)
| as_add_member a g t :
    so_groups s !! g = Some (Some a) → is_Some (so_accounts s !! t) → (g, t) ∉ so_members s →
    allowed_step s (OAddMember a g t) (set_circle id (union {[(g, t)]}) s)
| as_remove_member a g t c :
    so_groups s !! g = Some c → c ≠ Some t → a = t ∨ c = Some a → (g, t) ∈ so_members s →
    allowed_step s (ORemoveMember a g t) (set_circle id (λ m, m ∖ {[(g, t)]}) s)
| as_delete_group a g :
    so_groups s !! g = Some (Some a) →
    allowed_step s (ODeleteGroup a g)
      (set_gms (filter (λ kv, kv.2.1.1 ≠ g))
         (set_circle (delete g) (filter (λ gu, gu.1 ≠ g)) s))
| as_send_dm a b text m :
    friends_in s a b → so_dms s !! m = None →
    allowed_step s (OSendDM a b text) (set_dms <[m := (a, b, text)]> s)
| as_send_gm a g text m :
    (g, a) ∈ so_members s → so_gms s !! m = None →
    allowed_step s (OSendGM a g text) (set_gms <[m := (g, a, text)]> s).

(** ** The tables as the specification sees them *)
Definition account_of (u : User) : string * bool := (username u, deactivated u).
Definition abs (db : Database) : Social := MkSocial
  (account_of <$> users db) (accepted <$> friendships db) (created_by <$> groups db)
  (dom (memberships db))
  ((λ m, (dm_sender_id m, dm_recipient_id m, dm_content m)) <$> direct_messages db)
  ((λ m, (gm_group_id m, gm_sender_id m, gm_content m)) <$> group_messages db).

Lemma abs_empty : abs empty_db = no_one.
Proof. unfold abs, no_one. cbn. by rewrite !fmap_empty, dom_empty_L. Qed.

Section refinement.
Context {P : Platform} {PL : PlatformLaws} (settings : AuthConfig).
Implicit Types (w : World) (db : Database).

(** What [o] may do to the tables. *)
Definition refines (o : op) db db' : Prop := abs db' = abs db ∨ allowed_step (abs db) o (abs db').
Lemma refines_refl o db : refines o db db.
Proof. by left. Qed.

(** ** Lifting to handlers *)
Definition moves {A} (o : op) (m : M A) : Prop :=
  ∀ w, wf_db (w_db w) → refines o (w_db w) (w_db (m w).2).
Definition same_db {A} (m : M A) : Prop := ∀ w, w_db (m w).2 = w_db w.

Lemma moves_same {A} o (m : M A) : same_db m → moves o m.
Proof. intros Hm w _. rewrite Hm. apply refines_refl. Qed.
Lemma moves_then {A B} o (m : M A) (f : A → M B) :
  moves o m → (∀ a, same_db (f a)) → moves o (m ≫= f).
Proof.
  intros Hm Hf w Hwf. specialize (Hm w Hwf). rewrite M_bind_run.
  destruct (m w) as [[a|e] w']; [|done]. by rewrite Hf.
Qed.
Lemma moves_after {A B} o (m : M A) (f : A → M B) :
  same_db m → (∀ a, moves o (f a)) → moves o (m ≫= f).
Proof.
  intros Hm Hf w Hwf. specialize (Hm w). rewrite M_bind_run.
  destruct (m w) as [[a|e] w']; cbn in Hm; rewrite <-Hm in Hwf |- *; [by apply Hf|apply refines_refl].
Qed.
Lemma moves_constraint {A} o ov k (m : M A) : moves o m → moves o (handle_db_constraint_error ov k m).
Proof.
  intros Hm w Hwf. unfold handle_db_constraint_error. specialize (Hm w Hwf). by destruct (m w).
Qed.
Lemma moves_not_found {A} o ov k (m : M A) : moves o m → moves o (handle_db_not_found_error ov k m).
Proof.
  intros Hm w Hwf. unfold handle_db_not_found_error. specialize (Hm w Hwf). by destruct (m w).
Qed.
(** A transaction: what its body does on a healthy server, when it returns. *)
Lemma moves_transaction {A} o (p : txprog A) :
  strict_tx p →
  (∀ now db t a db' t', wf_db db →
     run_tx now p (MkTx db t []) = (Ok a, MkTx db' t' []) → refines o db db') →
  moves o (transaction p).
Proof.
  intros Hs Hp w Hwf. destruct (transaction_db p w Hs) as [->|(a & t' & Ht)]; [apply refines_refl|].
  by eapply Hp.
Qed.

Lemma same_bind {A B} (m : M A) (f : A → M B) :
  same_db m → (∀ a, same_db (f a)) → same_db (m ≫= f).
Proof.
  intros Hm Hf w. specialize (Hm w). rewrite M_bind_run.
  destruct (m w) as [[a|e] w']; [|done]. by rewrite Hf.
Qed.
Lemma same_redis {A} (m : redis_m A) : same_db (with_redis m).
Proof. intros w. unfold with_redis. by destruct (m (w_redis w)). Qed.
Lemma same_cache {A} (f : timestamp → ttl_cache → A * ttl_cache) : same_db (with_cache f).
Proof. intros w. unfold with_cache. by destruct (f _ _). Qed.

(** ** What the specification does not see *)
Definition unseen (st : stmt) : Prop := ∀ v, preserves (λ db, abs db = v) st.

Lemma unseen_tokens (st : stmt) :
  (∀ now db, users (stmt_exec st now db).2 = users db ∧
     friendships (stmt_exec st now db).2 = friendships db ∧
     groups (stmt_exec st now db).2 = groups db ∧
     memberships (stmt_exec st now db).2 = memberships db ∧
     direct_messages (stmt_exec st now db).2 = direct_messages db ∧
     group_messages (stmt_exec st now db).2 = group_messages db) → unseen st.
Proof.
  intros Hst v now db <-. destruct (Hst now db) as (H1 & H2 & H3 & H4 & H5 & H6).
  unfold abs. by rewrite H1, H2, H3, H4, H5, H6.
Qed.
Lemma unseen_select q b : unseen (with_lock q b).
Proof. by intros v now db. Qed.
Lemma unseen_limited n rows : unseen (limited n rows).
Proof. intros v. apply preserves_limited. Qed.
Lemma unseen_insert_at args : unseen (Write.INSERT_ACCESS_TOKEN args).
Proof.
  intros v. apply preserves_insert. intros m db db' <-. unfold insert_access_token_row.
  by insert_row.
Qed.
Lemma unseen_insert_rt args : unseen (Write.INSERT_REFRESH_TOKEN args).
Proof.
  intros v. apply preserves_insert. intros m db db' <-. unfold insert_refresh_token_row.
  by insert_row.
Qed.
Lemma unseen_revoke_at h : unseen (Write.REVOKE_ACCESS_TOKEN h).
Proof. by apply unseen_tokens. Qed.
Lemma unseen_revoke_rt h : unseen (Write.REVOKE_REFRESH_TOKEN h).
Proof. by apply unseen_tokens. Qed.
Lemma unseen_revoke_all_at u : unseen (Write.REVOKE_ALL_USER_ACCESS_TOKENS u).
Proof. by apply unseen_tokens. Qed.
Lemma unseen_revoke_all_rt u : unseen (Write.REVOKE_ALL_USER_REFRESH_TOKENS u).
Proof. by apply unseen_tokens. Qed.
(** A new password hash. *)
Lemma unseen_password n u o : unseen (Write.CHANGE_PASSWORD n u o).
Proof.
  intros v now db <-. cbn. destruct (users db !! u) as [x|] eqn:Hx; cbn; [|done].
  destruct (decide _); [|done]. unfold abs. cbn. f_equal. rewrite fmap_insert.
  apply insert_id. by rewrite lookup_fmap, Hx.
Qed.

Lemma unseen_run {A} now (p : txprog A) st :
  stmts_ok unseen p → abs (tx_db (run_tx now p st).2) = abs (tx_db st).
Proof.
  intros Hp. refine (run_tx_preserves (λ db, abs db = abs (tx_db st)) now p st _ eq_refl).
  by eapply stmts_ok_weaken, Hp.
Qed.
(** A handler all of whose statements are unseen. *)
Lemma moves_unseen {A} o (m : M A) : (∀ v, keeps (λ db, abs db = v) m) → moves o m.
Proof. intros Hm w _. left. by apply (Hm (abs (w_db w))). Qed.

End refinement.

Create HintDb unseen discriminated.
#[export] Hint Resolve unseen_select unseen_limited unseen_insert_at unseen_insert_rt
  unseen_revoke_at unseen_revoke_rt unseen_revoke_all_at unseen_revoke_all_rt
  unseen_password : unseen.
Ltac unseen_step :=
  match goal with
  | |- unseen (plain_select ?q) => apply (unseen_select q false)
  | |- unseen (with_lock _ _) => apply unseen_select
  | |- unseen _ => first [apply unseen_limited | solve [auto with unseen]]
  | |- stmts_ok unseen _ => progress tx_ok
  | |- keeps _ (transaction _) => eapply (keeps_transaction _ unseen); [by intros ? ?|]
  | |- keeps _ (connection _) => eapply (keeps_connection _ unseen); [by intros ? ?|]
  | |- _ => keeps_step
  end.

Section operations.
Context {P : Platform} {PL : PlatformLaws} (settings : AuthConfig).
Implicit Types (w : World) (db : Database).

(** ** The sessions *)
Lemma unseen_issue u tp : stmts_ok unseen (issue_token_pair u tp).
Proof. repeat unseen_step. Qed.

(** Filtering the rows and filtering what the specification sees of them. *)
Lemma fmap_filter_rel {K} `{Countable K} {A B} (f : A → B) (m : gmap K A)
    (Q : K * A → Prop) `{∀ x, Decision (Q x)} (R : K * B → Prop) `{∀ x, Decision (R x)} :
  (∀ k x, m !! k = Some x → Q (k, x) ↔ R (k, f x)) →
  f <$> filter Q m = filter R (f <$> m).
Proof.
  intros HQ. apply map_eq. intros k. apply option_eq. intros y.
  rewrite lookup_fmap_Some, map_lookup_filter_Some, lookup_fmap_Some. split.
  - intros (x & <- & [Hx Hq]%map_lookup_filter_Some). split; [eauto|]. by apply HQ.
  - intros [(x & <- & Hx) Hr]. exists x. split; [done|]. apply map_lookup_filter_Some.
    split; [done|]. by eapply HQ.
Qed.
Lemma dom_filter_rel {K} `{Countable K} {A} (m : gmap K A)
    (Q : K * A → Prop) `{∀ x, Decision (Q x)} (R : K → Prop) `{∀ x, Decision (R x)} :
  (∀ k x, m !! k = Some x → Q (k, x) ↔ R k) →
  dom (filter Q m) = filter R (dom m).
Proof.
  intros HQ. apply dom_filter_L. intros k. rewrite elem_of_filter, elem_of_dom. split.
  - intros [Hr [x Hx]]. exists x. split; [done|]. by apply (HQ k).
  - intros (x & Hx & Hq). split; [by apply (HQ k x)|by exists x].
Qed.

(** A session that returned, as a relation on the tables. *)
Definition session {A} (p : txprog A) db db' : Prop :=
  ∃ now t a t', run_tx now p (MkTx db t []) = (Ok a, MkTx db' t' []).
Lemma session_moves {A} o (p : txprog A) :
  strict_tx p → (∀ db db', wf_db db → session p db db' → refines o db db') →
  moves o (transaction p).
Proof.
  intros Hs Hp. apply moves_transaction; [done|]. intros now db t a db' t' Hwf Hr.
  apply Hp; [done|]. by exists now, t, a, t'.
Qed.

(** A stored row is what the specification reads. *)
Lemma abs_account db u x : users db !! u = Some x →
  so_accounts (abs db) !! u = Some (username x, deactivated x).
Proof. intros Hx. cbn. by rewrite lookup_fmap, Hx. Qed.
Lemma abs_group db g r : groups db !! g = Some r → so_groups (abs db) !! g = Some (created_by r).
Proof. intros Hr. cbn. by rewrite lookup_fmap, Hr. Qed.
Lemma abs_friends db k f : friendships db !! k = Some f → so_friends (abs db) !! k = Some (accepted f).
Proof. intros Hf. cbn. by rewrite lookup_fmap, Hf. Qed.
Lemma abs_member db k : is_Some (memberships db !! k) → k ∈ so_members (abs db).
Proof. intros Hk. by apply elem_of_dom. Qed.
Lemma abs_no_member db k : memberships db !! k = None → k ∉ so_members (abs db).
Proof. intros Hk. by apply not_elem_of_dom. Qed.
Lemma abs_has db u : is_Some (users db !! u) → is_Some (so_accounts (abs db) !! u).
Proof. intros [x Hx]. rewrite (abs_account _ _ _ Hx). eauto. Qed.
Lemma abs_set_user db u x :
  abs (set_users <[u := x]> db) = set_accounts <[u := account_of x]> (abs db).
Proof. unfold abs, set_accounts. cbn. by rewrite fmap_insert. Qed.

Lemma refines_user_updated f o u db t a db' t' :
  user_updated f u db t = (Ok a, MkTx db' t' []) →
  (∀ x, users db !! u = Some x → allowed_step (abs db) o
     (set_accounts <[u := account_of (f x)]> (abs db))) →
  refines o db db'.
Proof.
  unfold user_updated. destruct (users db !! u) as [x|]; [|discriminate].
  intros [= _ <- _] Ho. right. rewrite abs_set_user. by apply Ho.
Qed.

Lemma session_deactivate u db db' :
  session (deactivate_user u) db db' → refines (ODeactivate u) db db'.
Proof.
  intros (now & t & a & t' & Hr). revert Hr. run_queries. intros Hr.
  eapply refines_user_updated; [exact Hr|]. intros x Hx.
  by apply (as_deactivate _ u (username x) (deactivated x)), abs_account.
Qed.
Lemma session_reactivate u db db' :
  session (reactivate_user u) db db' → refines (OReactivate u) db db'.
Proof.
  intros (now & t & a & t' & Hr). revert Hr. run_queries. intros Hr.
  eapply refines_user_updated; [exact Hr|]. intros x Hx.
  by apply (as_reactivate _ u (username x) (deactivated x)), abs_account.
Qed.

Lemma session_register n pw u tp db db' :
  username u = n → deactivated u = false →
  session (register_tx u tp) db db' → refines (ORegister n pw) db db'.
Proof.
  intros Hn Hd (now & t & a & t' & Hr). revert Hr. unfold register_tx. run_queries.
  destruct (insert_user_row u db) as [e|db1] eqn:Hins; [discriminate|]. run_queries.
  pose proof (unseen_run now (issue_token_pair (user_id u) tp) (MkTx db1 t []) (unseen_issue _ _)) as Hu.
  destruct (run_tx _ _ _) as [[[]|e] st]; [|discriminate]. run_queries. intros [= _ ->].
  cbn in Hu. right. rewrite Hu. revert Hins. unfold insert_user_row. insert_row.
  rewrite abs_set_user. unfold account_of. rewrite Hn, Hd.
  apply as_register.
  - cbn. rewrite lookup_fmap. by destruct (users db !! user_id u).
  - intros v x. cbn. rewrite lookup_fmap_Some. intros (y & <- & Hy).
    match goal with H : any_row _ _ = false |- _ => rewrite any_row_false in H; specialize (H v y Hy) end.
    cbn. congruence.
Qed.

Lemma session_login n pw tp db db' :
  wf_db db → session (login_tx n pw tp) db db' → refines (OLogin n pw) db db'.
Proof.
  intros Hwf (now & t & a & t' & Hr). revert Hr. unfold login_tx. run_queries.
  destruct (user_named n db) as [u|] eqn:Hn; cbn; [|discriminate].
  apply user_named_some in Hn as [Hu Hname]; [|apply _|done].
  destruct (verify_password pw (password_hash u)) as [[]|e]; cbn [argon2]; run_queries;
    [|discriminate..].
  cbn. run_queries. rewrite run_reactivation by done. run_queries.
  destruct (needs_rehash (password_hash u)) as [old|e]; cbn [argon2]; run_queries; [|discriminate].
  rewrite <-run_tx_bind. match goal with |- run_tx _ ?p ?st = _ → _ =>
    assert (stmts_ok unseen p) as Hp; [|pose proof (unseen_run now p st Hp) as Ha] end.
  { repeat unseen_step; apply unseen_issue. }
  intros Hr. rewrite Hr in Ha. cbn in Ha. right. rewrite Ha, abs_set_user.
  unfold account_of, user_after_login. cbn. rewrite Hname.
  apply (as_login _ n pw (user_id u) (deactivated u)).
  by rewrite (abs_account _ _ _ Hu), Hname.
Qed.

Lemma session_delete_account u db db' :
  wf_db db → session (delete_user u) db db' → refines (ODeleteAccount u) db db'.
Proof.
  intros Hwf (now & t & a & t' & Hr). revert Hr. run_queries.
  destruct (users db !! u) as [x|] eqn:Hx; [|discriminate].
  unfold delete_user_row. destruct (any_row _ _) eqn:Hany; [discriminate|].
  rewrite any_row_false in Hany. intros [= _ <- _]. right.
  match goal with |- allowed_step ?s _ ?s' =>
    replace s' with (MkSocial (delete u (so_accounts s))
         (filter (λ kv, kv.1.1 ≠ u ∧ kv.1.2 ≠ u) (so_friends s)) (so_groups s)
         (filter (λ gu, gu.2 ≠ u) (so_members s))
         (filter (λ kv, kv.2.1.1 ≠ u ∧ kv.2.1.2 ≠ u) (so_dms s))
         (filter (λ kv, kv.2.1.2 ≠ u) (so_gms s))) end.
  - apply as_delete_account; [by apply abs_has; eauto|].
    intros g. cbn. rewrite lookup_fmap. destruct (groups db !! g) as [r|] eqn:Hg; [|done].
    cbn. intros [= Hc]. by eapply Hany.
  - unfold abs. cbn. f_equal; symmetry.
    + apply fmap_delete.
    + apply fmap_filter_rel. intros k f Hf. by destruct (wf_friendships _ Hwf _ _ Hf) as [-> _].
    + apply dom_filter_rel. intros k m Hm. by destruct (wf_memberships _ Hwf _ _ Hm) as [-> _].
    + by apply fmap_filter_rel.
    + by apply fmap_filter_rel.
Qed.

Lemma session_friend_request a b db db' :
  a ≠ b → session (send_friend_request a b) db db' → refines (OFriendRequest a b) db db'.
Proof.
  intros Hab (now & t & x & t' & Hr). revert Hr. run_queries.
  destruct (insert_friendship_row _ db) as [e|db1] eqn:Hins; [discriminate|].
  intros [= _ <- _]. revert Hins. unfold insert_friendship_row. cbn. insert_row. right.
  unfold abs at 2. cbn. rewrite fmap_insert. apply as_ask; [done| |apply abs_has; eauto..].
  cbn. rewrite lookup_fmap. by destruct (friendships db !! (a, b)).
Qed.
Lemma session_accept a r db db' :
  session (accept_friend_request r a) db db' → refines (OAccept a r) db db'.
Proof.
  intros (now & t & x & t' & Hr). revert Hr. run_queries.
  destruct (friendships db !! (r, a)) as [f|] eqn:Hf; [|discriminate]. intros [= _ <- _]. right.
  unfold abs at 2. cbn. rewrite fmap_insert. by eapply as_accept, abs_friends.
Qed.
Lemma session_unfriend a b db db' :
  wf_db db → session (remove_friendship a b) db db' → refines (OUnfriend a b) db db'.
Proof.
  intros Hwf (now & t & x & t' & Hr). revert Hr. run_queries.
  destruct (decide (filter _ _ = [])) as [|Hne]; [discriminate|]. intros [= _ <- _]. right.
  destruct (filter (Fetch.between a b) (table_rows (friendships db))) as [|f l] eqn:Hl; [done|].
  assert (f ∈ f :: l) as Hin by left. rewrite <-Hl in Hin.
  apply filter_gmap_values_spec in Hin as [Hb [k Hk]].
  assert (∀ k f, friendships db !! k = Some f → Fetch.between a b f ↔ touches a b k) as Hkey.
  { intros k' f' Hk'. destruct (wf_friendships _ Hwf _ _ Hk') as [-> _].
    unfold Fetch.between, touches. split; intros [?|?]; simplify_eq; naive_solver. }
  match goal with |- allowed_step ?s _ ?s' =>
    replace s' with (set_friends (filter (λ kv, ¬ touches a b kv.1)) s) end.
  - eapply (as_unfriend _ _ _ k); [by apply abs_friends|by eapply Hkey].
  - unfold abs, set_friends. cbn. f_equal. symmetry. apply fmap_filter_rel.
    intros k' f' Hk'. cbn. by rewrite Hkey.
Qed.

Lemma session_create_group u n g m db db' :
  created_by g = Some u → mb_pk m = (group_id g, u) →
  session (create_group_tx g m) db db' → refines (OCreateGroup u n) db db'.
Proof.
  intros Hc Hm (now & t & x & t' & Hr). revert Hr. unfold create_group_tx. run_queries.
  destruct (insert_group_row g db) as [e|db1] eqn:H1; [discriminate|]. run_queries.
  destruct (insert_membership_row m db1) as [e|db2] eqn:H2; [discriminate|]. run_queries.
  intros [= _ <- _]. revert H1 H2. unfold insert_group_row, insert_membership_row. rewrite Hc, Hm.
  insert_row. insert_row. right. unfold abs at 2. cbn. rewrite fmap_insert, dom_insert_L, Hc.
  apply as_create_group; [|apply abs_has; eauto].
  cbn. rewrite lookup_fmap. by destruct (groups db !! group_id g).
Qed.
Lemma session_add_member a g u db db' :
  session (add_member_tx a g u) db db' → refines (OAddMember a g u) db db'.
Proof.
  intros (now & t & x & t' & Hr). revert Hr. unfold add_member_tx, denied. run_queries.
  destruct (groups db !! g) as [r|] eqn:Hg; cbn; [|discriminate].
  destruct (decide _) as [|Hc]; run_queries; [discriminate|]. apply dec_stable in Hc.
  apply abs_group in Hg. rewrite Hc in Hg.
  destruct (insert_membership_row _ db) as [e|db1] eqn:Hins; [discriminate|].
  intros [= _ <- _]. revert Hins. unfold insert_membership_row, mb_pk. cbn. insert_row. right.
  unfold abs at 2. cbn. rewrite dom_insert_L.
  apply as_add_member; [done|apply abs_has; eauto|].
  apply abs_no_member. by destruct (memberships db !! (g, u)).
Qed.
Lemma session_remove_member a g u db db' :
  session (remove_member_tx a g u) db db' → refines (ORemoveMember a g u) db db'.
Proof.
  intros (now & t & x & t' & Hr). revert Hr. unfold remove_member_tx, denied. run_queries.
  destruct (groups db !! g) as [r|] eqn:Hg; cbn; [|discriminate].
  destruct (decide (Some u = _)) as [|Hc]; run_queries; [discriminate|].
  destruct (_ || _) eqn:Hor; cbn; run_queries; [|discriminate].
  destruct (memberships db !! (g, u)) as [m|] eqn:Hm; [|discriminate].
  intros [= _ <- _]. right. unfold abs at 2. cbn. rewrite dom_delete_L.
  apply (as_remove_member (abs db) a g u (created_by r)); [by apply abs_group|congruence| |].
  - by rewrite orb_true_iff, !bool_decide_eq_true in Hor.
  - apply abs_member. eauto.
Qed.
Lemma session_delete_group a g db db' :
  wf_db db → session (delete_group_tx a g) db db' → refines (ODeleteGroup a g) db db'.
Proof.
  intros Hwf (now & t & x & t' & Hr). revert Hr. unfold delete_group_tx, denied. run_queries.
  destruct (groups db !! g) as [r|] eqn:Hg; cbn; [|discriminate].
  destruct (decide _) as [|Hc]; run_queries; [discriminate|]. apply dec_stable in Hc.
  rewrite Hg, decide_True by done. run_queries. intros [= _ <- _]. right.
  match goal with |- allowed_step ?s _ ?s' =>
    replace s' with (set_gms (filter (λ kv, kv.2.1.1 ≠ g))
         (set_circle (delete g) (filter (λ gu, gu.1 ≠ g)) s)) end.
  - apply as_delete_group. by rewrite (abs_group _ _ _ Hg), Hc.
  - unfold abs, set_gms, set_circle. cbn. f_equal; symmetry.
    + apply fmap_delete.
    + apply dom_filter_rel. intros k m Hm. by destruct (wf_memberships _ Hwf _ _ Hm) as [-> _].
    + by apply fmap_filter_rel.
Qed.

Lemma session_send_dm a b text db db' :
  wf_db db → session (send_dm_tx a b text) db db' → refines (OSendDM a b text) db db'.
Proof.
  intros Hwf (now & t & x & t' & Hr). revert Hr. unfold send_dm_tx. run_queries.
  destruct (friendship_between a b db) as [f|] eqn:Hf; cbn; [|discriminate].
  destruct (accepted f) eqn:Hacc; cbn; run_queries; [|discriminate].
  apply head_Some_elem_of, between_rows in Hf as [Hb [k Hk]].
  destruct (wf_friendships _ Hwf _ _ Hk) as [Hkey _]. apply abs_friends in Hk. rewrite Hacc in Hk.
  destruct (insert_direct_message_row _ db) as [e|db1] eqn:Hins; [discriminate|].
  intros [= _ <- _]. revert Hins. unfold insert_direct_message_row. cbn. insert_row. right.
  unfold abs at 2. cbn. rewrite fmap_insert. apply as_send_dm.
  - rewrite Hkey in Hk. by destruct Hb as [[<- <-]|[<- <-]]; [left|right].
  - cbn. rewrite lookup_fmap. by destruct (direct_messages db !! _).
Qed.
Lemma session_send_gm a g text db db' :
  session (send_gm_tx a g text) db db' → refines (OSendGM a g text) db db'.
Proof.
  intros (now & t & x & t' & Hr). revert Hr. unfold send_gm_tx. run_queries.
  destruct (memberships db !! (g, a)) as [m|] eqn:Hm; cbn; [|discriminate].
  run_queries. destruct (insert_group_message_row _ db) as [e|db1] eqn:Hins; [discriminate|].
  intros [= _ <- _]. revert Hins. unfold insert_group_message_row. cbn. insert_row. right.
  unfold abs at 2. cbn. rewrite fmap_insert. apply as_send_gm; [apply abs_member; eauto|].
  cbn. rewrite lookup_fmap. by destruct (group_messages db !! _).
Qed.

(** ** The operations *)
Ltac same_step :=
  match goal with
  | |- same_db (mbind _ _) => apply same_bind; [|intros ?]
  | |- same_db (with_redis _) => apply same_redis
  | |- same_db (with_cache _) => apply same_cache
  | |- same_db (match ?x with _ => _ end) => destruct x
  | |- same_db _ => by intros ?
  end.
(** Walks over a handler down to its one session. *)
Ltac moves_step :=
  match goal with
  | |- moves _ (discard _) => apply moves_then; [|intros ?]
  | |- moves _ (handle_db_constraint_error _ _ _) => apply moves_constraint
  | |- moves _ (handle_db_not_found_error _ _ _) => apply moves_not_found
  | |- moves _ (mbind _ (transaction _)) => apply moves_then; [|intros ?]
  | |- moves _ (mbind _ _) => apply moves_after; [|intros ?]
  | |- moves _ (transaction _) => apply session_moves; [tx_strict|intros ???]
  | |- moves _ (if decide ?x then _ else _) => destruct (decide x)
  | |- moves _ (raise _) => by apply moves_same
  | |- same_db _ => same_step
  end.

(** The operations the specification never sees: reads and the handling of
    tokens. *)
Definition silent (o : op) : Prop :=
  match o with
  | ORefresh _ | OLogout _ _ | OGetByUsername _ | OGetById _ | OFriendStatus _ _ | OFriends _
  | OPending _ | OListMembers _ | OGroupDetails _ _ | OListGroups _ | ODMHistory _ _ _ _
  | OGMHistory _ _ _ _ => True
  | _ => False
  end.
Lemma silent_keeps o v : silent o → keeps (λ db, abs db = v) (run_op settings o).
Proof. destruct o; try done; intros _; cbn [run_op]; repeat unseen_step. Qed.

(** The new group and the new membership are drawn before the session. *)
Lemma moves_create_group u n : moves (OCreateGroup u n) (svc_create_group u n).
Proof.
  apply moves_constraint. intros w Hwf. rewrite M_bind_run, new_group_run, M_bind_run, new_membership_run.
  cbv beta iota. match goal with |- refines _ _ (w_db (mbind ?f ?m ?w').2) =>
    refine ((_ : moves (OCreateGroup u n) (mbind f m)) w' Hwf) end.
  apply moves_then; [|intros ?; repeat same_step].
  apply session_moves; [apply strict_create_group_tx|]. intros db db' _. by apply session_create_group.
Qed.

Lemma op_moves o : moves o (run_op settings o).
Proof.
  assert (silent o ∨ ¬ silent o) as [Hs|Hs] by (destruct o; cbn; tauto).
  { apply moves_unseen. intros v. by apply silent_keeps. }
  destruct o; cbn in Hs; try (by destruct Hs); clear Hs; cbn [run_op];
    unfold register, login, deactivate_account, reactivate_account, delete_account,
      user_send_friend_request, user_accept_friend_request, remove_or_decline_friendship,
      add_member, remove_member, svc_delete_group,
      svc_send_direct_message, svc_send_group_message; repeat moves_step;
    eauto using session_login, session_deactivate, session_reactivate,
      session_delete_account, session_friend_request, session_accept, session_unfriend,
      moves_create_group, session_add_member, session_remove_member, session_delete_group,
      session_send_dm, session_send_gm.
  by apply session_register.
Qed.

(** What the service as a whole does to the specification. *)
Inductive spec_step s s' : Prop :=
| spec_idle : s' = s → spec_step s s'
| spec_moves o : allowed_step s o s' → spec_step s s'.

End operations.

Section service.
Context {P : Platform} {PL : PlatformLaws}.

Lemma steps_refine db db' :
  rtc db_step db db' → wf_db db → wf_db db' ∧ rtc spec_step (abs db) (abs db').
Proof.
  induction 1 as [|db1 db2 db3 [settings o w <- <-] _ IH]; [done|]. intros Hwf.
  destruct IH as [Hwf' Hs]; [by apply wf_op|]. split; [done|].
  eapply rtc_l; [|exact Hs]. destruct (op_moves settings o w Hwf) as [Heq|Ho]; [by apply spec_idle|].
  by eapply spec_moves.
Qed.

(** C11: the service refines the specification: whatever the workers ran, in
    whatever order and whichever errors struck, the tables show what the
    specification reaches from nobody by allowed steps; and from there every
    operation, whatever the driver and Redis do to it, leaves accounts,
    friendships, groups and messages alone or changes them as the specification
    allows its acting user. *)
Theorem service_refines db :
  db_reachable db →
  rtc spec_step no_one (abs db) ∧
  ∀ settings o w, w_db w = db → refines o db (w_db (run_op settings o w).2).
Proof.
  intros Hr. destruct (steps_refine _ _ Hr wf_empty) as [Hwf Hs]. rewrite abs_empty in Hs.
  split; [done|]. intros settings o w <-. by apply op_moves.
Qed.
End service.

(** ** Runs *)
Definition dave_db : Database :=
  w_db (run_op (P := ref_platform) cfg (ORegister "dave" "pw") ref_world).2.
Lemma dave_reachable : db_reachable (P := ref_platform) dave_db.
Proof. apply rtc_once. exact (db_step_op _ _ cfg (ORegister "dave" "pw") ref_world eq_refl eq_refl). Qed.

Lemma service_refines_witness :
  so_accounts (abs dave_db) = {[ uuid_of 1001 := ("dave", false) ]} ∧
  rtc spec_step no_one (abs dave_db).
Proof.
  split; [apply (bool_decide_unpack _); by vm_compute|].
  exact (proj1 (service_refines (P := ref_platform) (PL := ref_platform_laws) dave_db dave_reachable)).
Defined.
