(* ===== verification/EndToEnd.v ===== *)
(** * From a request on one worker to the sockets of all workers

    A message through every layer: the HTTP request with its session
    ([Api.serve]), the service and its transaction, the spawned task and its
    publication on the cluster channel ([run_task]), the listener of each worker
    ([PubSub.on_event]) and the dispatch to its local sockets ([safe_dispatch]). *)

From S2P Require Export Api MessagingTheorems PubSub WebSocketTheorems.
From S2P Require Import ApiTheorems Samples Instances.

(** ** A worker that receives

    The listener, the registries of its [WebSocketManager], and the frames it
    has attempted. A message of the channel may spawn a task, which dispatches
    the payload. *)
Record Receiver := MkReceiver { rc_loop : PubSubLoop; rc_manager : Manager; rc_sent : list frame }.
Definition dispatch_to (k : Receiver) (payload : json) : Receiver :=
  let '(frames, m) := safe_dispatch payload (rc_manager k) in
  MkReceiver (rc_loop k) m (rc_sent k ++ frames).
Definition receive (data : RawData) (k : Receiver) : Receiver :=
  let l := on_event false (Message "message" data) (rc_loop k) in
  let spawned := drop (length (pl_spawned (rc_loop k))) (pl_spawned l) in
  foldl dispatch_to (MkReceiver l (rc_manager k) (rc_sent k)) spawned.

Lemma receive_listening j data k :
  pl_phase (rc_loop k) = Listening → decoded data = Some (dumps j) → json_ok j →
  ∃ l, pl_phase l = Listening ∧ receive data k = dispatch_to (MkReceiver l (rc_manager k) (rc_sent k)) j.
Proof.
  intros Hl Hd Hj. unfold receive. destruct k as [[ph spawned open closed] m sent]. cbn in Hl. subst ph.
  cbn [rc_loop rc_manager rc_sent on_event]. rewrite bool_decide_eq_true_2 by done.
  rewrite Hd, loads_dumps by done. cbn [pl_spawned]. rewrite drop_app_length.
  eexists. split; [|reflexivity]. done.
Qed.

(** A receiver that is listening sends [j] to exactly the sockets of [P], and
    its registries stay. *)
Definition passes_on (j : json) (P : Manager → UUID → Prop) (data : RawData) (k : Receiver) : Prop :=
  pl_phase (rc_loop (receive data k)) = Listening ∧ rc_manager (receive data k) = rc_manager k ∧
  ∃ frames, rc_sent (receive data k) = rc_sent k ++ frames ∧ delivers j (P (rc_manager k)) (rc_manager k) frames.

Lemma receive_user u e data k :
  routed e → pl_phase (rc_loop k) = Listening → decoded data = Some (dumps (user_payload u e)) →
  passes_on (to_dict e) (λ _ v, v = u) data k.
Proof.
  intros He Hl Hd. destruct (receive_listening _ data k Hl Hd (user_payload_ok u e)) as (l & Hl' & Hr).
  unfold passes_on. rewrite Hr. unfold dispatch_to. rewrite dispatch_user by done.
  split_and!; [done..|]. eexists. split; [done|]. by apply delivers_user.
Qed.
Lemma receive_group g e sender data k :
  routed e → registry_ok (rc_manager k) → pl_phase (rc_loop k) = Listening →
  decoded data = Some (dumps (group_payload g e sender)) →
  passes_on (to_dict e) (λ m v, v ∈ dd (group_connections m) g ∧ Some v ≠ sender) data k.
Proof.
  intros He Hm Hl Hd.
  destruct (receive_listening _ data k Hl Hd (group_payload_ok g e sender)) as (l & Hl' & Hr).
  unfold passes_on. rewrite Hr. unfold dispatch_to. rewrite dispatch_group by done.
  split_and!; [done..|]. eexists. split; [done|].
  apply delivers_users; [done|apply NoDup_filter, NoDup_elements|].
  intros v. rewrite list_elem_of_filter, elem_of_elements. tauto.
Qed.

(** ** The sender's request *)
Section sender.
Context {P : Platform} {PL : PlatformLaws} (settings : AuthConfig).

(** A request with a session reaches its endpoint, on a worker as healthy as
    before, with the same data. *)
Lemma session_resolves allow credentials w u :
  healthy w → session allow credentials w = Some u →
  ∃ w1, bearer credentials (λ raw, authenticate_token raw allow) w = (Ok u, w1) ∧
    healthy w1 ∧ same_data w w1 ∧ w_tick w ≤ w_tick w1 ≤ 7 + w_tick w.
Proof.
  intros Hw Hs. pose proof (bearer_run allow credentials w Hw) as Hb. rewrite Hs in Hb.
  destruct Hb as [w1 Hb]. exists w1. split; [done|].
  destruct credentials as [raw|]; [|discriminate Hs]. cbn [bearer] in Hb.
  case_bool_decide; [discriminate Hb|].
  pose proof (authenticate_same_data raw allow w) as Hd. rewrite Hb in Hd. cbn in Hd.
  destruct (TokenCache.get (ent_mono (w_tick w)) (hash_token raw) (w_cache w)) as [v|] eqn:Hc.
  - rewrite (authenticate_hit raw allow w v Hc) in Hb. injection Hb as _ <-.
    split_and!; [done..| |]; cbn; lia.
  - rewrite (authenticate_miss raw allow w Hw Hc) in Hb. cbv zeta in Hb.
    destruct (auth_decision _ _ _ _); [injection Hb as _ <-|discriminate Hb].
    assert (slow_ticks (hash_token raw) (w_db w) ≤ 3)%nat by (unfold slow_ticks; repeat case_match; lia).
    split_and!; [done..| |]; cbn; lia.
Qed.

(** Once the spawned task has run against the server, every listening worker
    that gets what it published passes the event on. *)
Definition reaches (t : Task) (e : RedisEvent) (aud : Manager → UUID → Prop) : Prop :=
  ∀ rd rd', run_task t rd = (Ok tt, rd') →
  ∃ text, published rd' CHANNEL_NAME = published rd CHANNEL_NAME ++ [text] ∧
    ∀ data k, decoded data = Some text → registry_ok (rc_manager k) →
      pl_phase (rc_loop k) = Listening → passes_on (to_dict e) aud data k.

(** C7: a direct message, end to end: an authenticated POST /messages/direct to
    a friend is answered with 201 and the stored message, and spawns one push.
    Once that push has gone through, whatever server it finds, every worker that
    listens to the cluster channel sends the message's event to exactly the open
    sockets of the recipient, each once, and keeps its registries and its
    subscription. The same for a group message of a member: it reaches exactly
    the sockets of the group's local members but the sender's. *)
Theorem message_end_to_end credentials w u :
  healthy w → wf_db (w_db w) → session false credentials w = Some u →
  (∀ p, SendDirectMessageRequest_valid p = true → are_friends (user_id u) (req_recipient_id p) (w_db w) →
     (∀ n, w_tick w ≤ n ≤ 8 + w_tick w → direct_messages (w_db w) !! ent_uuid n = None) →
     ∃ dm w', serve settings credentials (PostDirect p) w =
         (MkResponse 201 (BModel (record_of direct_messages_cols dm)), w') ∧
       dm_sender_id dm = user_id u ∧ dm_recipient_id dm = req_recipient_id p ∧
       dm_content dm = req_dm_content p ∧
       w_db w' = set_direct_messages <[dm_message_id dm := dm]> (w_db w) ∧
       w_tasks w' = w_tasks w ++ [PushToUser (req_recipient_id p) (dm_event dm)] ∧
       reaches (PushToUser (req_recipient_id p) (dm_event dm)) (dm_event dm) (λ _ v, v = req_recipient_id p)) ∧
  (∀ g p, SendGroupMessageRequest_valid p = true → is_Some (memberships (w_db w) !! (g, user_id u)) →
     (∀ n, w_tick w ≤ n ≤ 8 + w_tick w → group_messages (w_db w) !! ent_uuid n = None) →
     ∃ msg w', serve settings credentials (PostGroupMessage g p) w =
         (MkResponse 201 (BModel (record_of group_messages_cols msg)), w') ∧
       gm_sender_id msg = user_id u ∧ gm_group_id msg = g ∧ gm_content msg = req_gm_content p ∧
       w_db w' = set_group_messages <[gm_message_id msg := msg]> (w_db w) ∧
       w_tasks w' = w_tasks w ++ [PushToGroup g (gm_event msg) (Some (user_id u))] ∧
       reaches (PushToGroup g (gm_event msg) (Some (user_id u))) (gm_event msg) (λ m v, v ∈ dd (group_connections m) g ∧ Some v ≠ Some (user_id u))).
Proof.
  intros Hw Hwf Hs.
  destruct (session_resolves false credentials w u Hw Hs)
    as (w1 & Hb & Hw1 & (Hd & Ht & Hrd) & Hle & Hlt).
  split.
  - intros p Hp Hfr Hfresh. unfold serve, resolve, with_user, get_current_user.
    rewrite M_bind_run, Hb. cbn [validated]. cbn [mret M_ret]. rewrite Hp.
    unfold MessagingRouter.send_direct_message. rewrite M_bind_run, send_dm_run
      by (rewrite ?Hd; try apply Hfresh; done || lia).
    set (dm := MkDirectMessage _ _ _ _ _). exists dm.
    eexists. split_and!; [reflexivity|done..|by cbn; rewrite Hd|by cbn; rewrite Ht|].
    intros rd rd' (Hsent & _)%publish_ws_push_sent. eexists. split; [exact Hsent|].
    intros data k Hdec _ Hl. by apply receive_user.
  - intros g p Hp Hm Hfresh. unfold serve, resolve, with_user, get_current_user.
    rewrite M_bind_run, Hb. cbn [validated]. cbn [mret M_ret]. rewrite Hp.
    unfold MessagingRouter.send_group_message. rewrite M_bind_run, send_gm_run
      by (rewrite ?Hd; try apply Hfresh; done || lia).
    set (msg := MkGroupMessage _ _ _ _ _). exists msg.
    eexists. split_and!; [reflexivity|done..|by cbn; rewrite Hd|by cbn; rewrite Ht|].
    intros rd rd' (Hsent & _)%publish_ws_push_sent. eexists. split; [exact Hsent|].
    intros data k Hdec Hk Hl. by apply (receive_group g _ (Some (user_id u))).
Qed.
End sender.

(** ** Alice writes to bob, and bob to his group, on the worker of [Samples] *)
Definition to_bob := MkSendDirectMessageRequest bob_id "yo".
Definition to_team := MkSendGroupMessageRequest "yo".
Definition listening_worker := MkReceiver (MkLoop Listening [] 1 false) sample_manager [].

Lemma message_end_to_end_witness :
  (∃ dm w', serve (P := ref_platform) default_AuthConfig (Some "at-alice") (PostDirect to_bob) sample_world =
      (MkResponse 201 (BModel (record_of direct_messages_cols dm)), w') ∧
    w_tasks w' = [PushToUser bob_id (dm_event dm)] ∧
    ∃ text rd', run_task (H := ref_redis) (PushToUser bob_id (dm_event dm)) ref_redis_empty = (Ok tt, rd') ∧
      @published ref_redis rd' CHANNEL_NAME = [text] ∧
      passes_on (to_dict (dm_event dm)) (λ _ v, v = bob_id) (RText text) listening_worker) ∧
  (∃ msg w', serve (P := ref_platform) default_AuthConfig (Some "at-alice") (PostGroupMessage team_id to_team)
      sample_world = (MkResponse 201 (BModel (record_of group_messages_cols msg)), w') ∧
    w_tasks w' = [PushToGroup team_id (gm_event msg) (Some alice_id)]).
Proof.
  destruct (message_end_to_end (PL := ref_platform_laws) default_AuthConfig (Some "at-alice") sample_world alice
    sample_healthy wf_sample ltac:(vm_compute; reflexivity)) as [Hdm Hgm].
  split.
  - destruct (Hdm to_bob eq_refl alice_bob_friends) as (dm & w' & Hs & _ & _ & _ & _ & Ht & Hr).
    { intros n [_ Hn]. cbn in Hn. do 9 (destruct n as [|n]; [eval_hyp|]). lia. }
    exists dm, w'. split; [exact Hs|]. split; [exact Ht|].
    destruct (Hr ref_redis_empty (run_task (H := ref_redis) (PushToUser bob_id (dm_event dm)) ref_redis_empty).2 eq_refl)
      as (text & Hp & Hrec).
    exists text; eexists. split; [reflexivity|]. split; [exact Hp|].
    apply Hrec; [done|apply sample_manager_ok|done].
  - destruct (Hgm team_id to_team eq_refl) as (msg & w' & Hs & _ & _ & _ & _ & Ht & _).
    { eval_hyp. }
    { intros n [_ Hn]. cbn in Hn. do 9 (destruct n as [|n]; [eval_hyp|]). lia. }
    exists msg, w'. split; [exact Hs|exact Ht].
Defined.
